(** * halloc: a boundary-tag allocator with segregated free lists

    Shallow embedding of [src/malloc.c] and [src/linux.c] for the x86-64
    (LP64) build: [sizeof(AllocMetadata_t) = 4],
    [sizeof(FreeRegionHeader_t) = 24], [sizeof(BlockHeader_t) = 80],
    pointers and [size_t] are 64 bits wide.

    The C code works on raw memory through pointer arithmetic, so the
    model keeps a flat byte-addressed memory, the set of ranges handed out
    by the kernel, and the allocator's global variables.  Every C function
    becomes a computation in a state-and-error monad; a load or store
    outside the mapped ranges is a segmentation fault, and the list
    traversals take fuel. *)

From Stdlib Require Import ZArith List Lia Bool Permutation.
Import ListNotations.
Local Open Scope Z_scope.

(** ** Machine integers *)

Definition wrap32 (z : Z) : Z := z mod 2^32.
Definition wrap64 (z : Z) : Z := z mod 2^64.

(** ** Constants of [malloc.c] *)

Definition PAGE_SIZE : Z := 4096.
Definition FREE_BLOCKS_SETS : nat := 6.
Definition LARGE_FREE_BLOCK_INDEX : Z := 5.
Definition sizeof_AllocMetadata : Z := 4.
Definition sizeof_FreeRegionHeader : Z := 24.
Definition sizeof_BlockHeader : Z := 80.
Definition sizeof_uintptr : Z := 8.
Definition REGION_OVERHEAD_SIZE : Z := sizeof_AllocMetadata * 2.

(** Field offsets of [FreeRegionHeader_t]. *)
Definition off_next : Z := 8.
Definition off_previous : Z := 16.

(** Field offsets of [BlockHeader_t]. *)
Definition off_pages : Z := 0.
Definition off_size : Z := 4.
Definition off_usedSize : Z := 8.
Definition off_bnext : Z := 16.
Definition off_bprevious : Z := 24.
Definition off_freeRegions (i : Z) : Z := 32 + 8 * i.

(** ** The [AllocMetadata_t] bit-field word

    [used] is the low 4 bits, [size] the high 28 bits of one 32-bit
    unit. *)

Definition md_used (w : Z) : Z := w mod 16.
Definition md_size (w : Z) : Z := (w / 16) mod 2^28.
Definition md_set_used (w v : Z) : Z := (w / 16) * 16 + v mod 16.
Definition md_set_size (w v : Z) : Z := (v mod 2^28) * 16 + w mod 16.

(** ** Byte-addressed memory *)

Definition bytemap := Z -> Z.

Definition get8 (m : bytemap) (a : Z) : Z := m a mod 256.
Definition set8 (m : bytemap) (a v : Z) : bytemap :=
  fun x => if x =? a then v mod 256 else m x.

Fixpoint getN (n : nat) (m : bytemap) (a : Z) : Z :=
  match n with
  | O => 0
  | S k => get8 m a + 256 * getN k m (a + 1)
  end.

Fixpoint setN (n : nat) (m : bytemap) (a v : Z) : bytemap :=
  match n with
  | O => m
  | S k => setN k (set8 m a v) (a + 1) (v / 256)
  end.

Definition get32 := getN 4.
Definition set32 := setN 4.
Definition get64 := getN 8.
Definition set64 := setN 8.

Definition fill (m : bytemap) (a len v : Z) : bytemap :=
  fun x => if (a <=? x) && (x <? a + len) then v mod 256 else m x.

(** ** Mapped ranges, as half-open intervals [(lo, hi)] *)

Definition in_range (r : Z * Z) (a : Z) : bool :=
  (fst r <=? a) && (a <? snd r).

Definition is_mapped (rs : list (Z * Z)) (a : Z) : bool :=
  existsb (fun r => in_range r a) rs.

Definition overlaps (r : Z * Z) (lo hi : Z) : bool :=
  (fst r <? hi) && (lo <? snd r).

Definition range_sub (lo hi : Z) (r : Z * Z) : list (Z * Z) :=
  (if fst r <? Z.min (snd r) lo then [(fst r, Z.min (snd r) lo)] else []) ++
  (if Z.max (fst r) hi <? snd r then [(Z.max (fst r) hi, snd r)] else []).

Definition unmap (rs : list (Z * Z)) (lo hi : Z) : list (Z * Z) :=
  flat_map (range_sub lo hi) rs.

(** ** Program state *)

Record state : Type := mkState {
  bytes : bytemap;                 (* contents of memory *)
  mapped : list (Z * Z);           (* ranges currently mapped by the kernel *)
  blockList : Z;                   (* static BlockHeader_t* blockList *)
  emptyBlockOverheadSize : Z;      (* static uint32_t emptyBlockOverheadSize *)
  page_size : Z;                   (* static int page_size of linux.c *)
  os_tape : list Z                 (* addresses the kernel proposes to mmap *)
}.

Definition initial_state (tape : list Z) : state :=
  mkState (fun _ => 0) [] 0 0 (-1) tape.

Definition with_bytes (s : state) (m : bytemap) : state :=
  mkState m (mapped s) (blockList s) (emptyBlockOverheadSize s)
          (page_size s) (os_tape s).

(** ** State-and-error monad *)

Inductive error : Type := SegFault | OutOfFuel.

Inductive result (A : Type) : Type :=
| Ok (a : A) (s : state)
| Err (e : error).
Arguments Ok {A} a s.
Arguments Err {A} e.

Definition M (A : Type) : Type := state -> result A.

Definition ret {A} (a : A) : M A := fun s => Ok a s.

Definition bind {A B} (c : M A) (k : A -> M B) : M B :=
  fun s => match c s with
           | Ok a s' => k a s'
           | Err e => Err e
           end.

Definition fail {A} (e : error) : M A := fun _ => Err e.

Declare Scope m_scope.
Delimit Scope m_scope with M.
Notation "x <- c ;; k" := (bind c (fun x => k))
  (at level 61, c at next level, right associativity) : m_scope.
Notation "c ;; k" := (bind c (fun _ => k))
  (at level 61, right associativity) : m_scope.
Local Open Scope m_scope.

(** Accesses of [n] bytes at [a]; every byte must be mapped. *)

Fixpoint mapped_n (rs : list (Z * Z)) (n : nat) (a : Z) : bool :=
  match n with
  | O => true
  | S k => is_mapped rs a && mapped_n rs k (a + 1)
  end.

Definition loadN (n : nat) (a : Z) : M Z :=
  fun s => if mapped_n (mapped s) n a then Ok (getN n (bytes s) a) s
           else Err SegFault.

Definition storeN (n : nat) (a v : Z) : M unit :=
  fun s => if mapped_n (mapped s) n a
           then Ok tt (with_bytes s (setN n (bytes s) a v))
           else Err SegFault.

Definition load8 := loadN 1.
Definition load32 := loadN 4.
Definition load64 := loadN 8.
Definition store8 := storeN 1.
Definition store32 := storeN 4.
Definition store64 := storeN 8.

(** Bit-field accesses are read-modify-write of the 32-bit unit. *)

Definition load_used (a : Z) : M Z := w <- load32 a ;; ret (md_used w).
Definition load_size (a : Z) : M Z := w <- load32 a ;; ret (md_size w).
Definition store_used (a v : Z) : M unit :=
  w <- load32 a ;; store32 a (md_set_used w v).
Definition store_size (a v : Z) : M unit :=
  w <- load32 a ;; store32 a (md_set_size w v).

(** [memset] and [memcpy], byte by byte. *)

Fixpoint memset_n (n : nat) (p c : Z) : M unit :=
  match n with
  | O => ret tt
  | S k => store8 p c ;; memset_n k (wrap64 (p + 1)) c
  end.

Definition memset (p c n : Z) : M unit := memset_n (Z.to_nat n) p c.

Fixpoint memcpy_n (n : nat) (dst src : Z) : M unit :=
  match n with
  | O => ret tt
  | S k => b <- load8 src ;; store8 dst b ;;
           memcpy_n k (wrap64 (dst + 1)) (wrap64 (src + 1))
  end.

Definition memcpy (dst src n : Z) : M unit := memcpy_n (Z.to_nat n) dst src.

(** Global variables. *)

Definition get_blockList : M Z := fun s => Ok (blockList s) s.
Definition set_blockList (v : Z) : M unit :=
  fun s => Ok tt (mkState (bytes s) (mapped s) v (emptyBlockOverheadSize s)
                          (page_size s) (os_tape s)).
Definition get_emptyBlockOverheadSize : M Z :=
  fun s => Ok (emptyBlockOverheadSize s) s.
Definition set_emptyBlockOverheadSize (v : Z) : M unit :=
  fun s => Ok tt (mkState (bytes s) (mapped s) (blockList s) v
                          (page_size s) (os_tape s)).

(** ** The page provider ([linux.c])

    [sys_mmap] stands for the kernel: it takes the next proposed address
    from the tape and maps [len] zero-filled bytes there, provided the
    proposal is a page-aligned user-space range disjoint from every live
    mapping; otherwise the call fails and 0 is returned. *)

Definition USER_TOP : Z := 2^47.

Definition mmap_accepts (rs : list (Z * Z)) (a len : Z) : bool :=
  (0 <? len) && (0 <? a) && (a mod PAGE_SIZE =? 0) && (a + len <=? USER_TOP)
  && negb (existsb (fun r => overlaps r a (a + len)) rs).

Definition sys_mmap (len : Z) : M Z :=
  fun s =>
    match os_tape s with
    | [] => Ok 0 s
    | a :: tape =>
        if mmap_accepts (mapped s) a len
        then Ok a (mkState (fill (bytes s) a len 0) ((a, a + len) :: mapped s)
                           (blockList s) (emptyBlockOverheadSize s)
                           (page_size s) tape)
        else Ok 0 (mkState (bytes s) (mapped s) (blockList s)
                           (emptyBlockOverheadSize s) (page_size s) tape)
    end.

Definition sys_munmap (p len : Z) : M unit :=
  fun s => Ok tt (mkState (bytes s) (unmap (mapped s) p (p + len))
                          (blockList s) (emptyBlockOverheadSize s)
                          (page_size s) (os_tape s)).

Definition get_page_size : M Z := fun s => Ok (page_size s) s.
Definition set_page_size (v : Z) : M unit :=
  fun s => Ok tt (mkState (bytes s) (mapped s) (blockList s)
                          (emptyBlockOverheadSize s) v (os_tape s)).

Definition libhalloc_alloc (pages : Z) : M Z :=
  ps <- get_page_size ;;
  (if ps <? 0 then set_page_size PAGE_SIZE else ret tt) ;;
  ps <- get_page_size ;;
  let size := wrap32 (pages * ps) in
  sys_mmap size.

Definition libhalloc_free (ptr pages : Z) : M unit :=
  ps <- get_page_size ;;
  sys_munmap ptr (wrap64 (pages * ps)).

(** ** Utility functions of [malloc.c] *)

Definition toFreeListIndex (size : Z) : Z :=
  let s := wrap32 size in
  if s <=? 32 then 0
  else if s <=? 64 then 1
  else if s <=? 128 then 2
  else if s <=? 256 then 3
  else if s <=? 512 then 4
  else 5.

(** ** Free region methods *)

Definition FreeRegion_create (start size : Z) : M Z :=
  let footerAddr := wrap64 (start + size - sizeof_AllocMetadata) in
  if start =? 0 then ret 0
  else
    store_used start 0 ;;
    store_size start size ;;
    store64 (wrap64 (start + off_next)) 0 ;;
    store64 (wrap64 (start + off_previous)) 0 ;;
    w <- load32 start ;;
    store32 footerAddr w ;;
    ret start.

Definition FreeRegion_getSizeForAlignment (original size : Z) : Z :=
  let originalAddr := original in
  let freeRegionMinimumSize := wrap32 (sizeof_FreeRegionHeader + sizeof_AllocMetadata) in
  let freeMetadataPaddingAmount :=
    wrap32 (if size >=? freeRegionMinimumSize then 0
            else freeRegionMinimumSize - (size mod freeRegionMinimumSize)) in
  let regionAlignment := 16 in
  let regionEndAddress :=
    wrap32 (originalAddr + size + freeMetadataPaddingAmount + sizeof_AllocMetadata) in
  let alignmentPaddingAmount :=
    wrap32 (regionAlignment - (regionEndAddress mod regionAlignment)) in
  let size := wrap64 (size + freeMetadataPaddingAmount) in
  let size := wrap64 (size + alignmentPaddingAmount) in
  size.

Definition FreeRegion_split (original size : Z) : M Z :=
  let originalAddr := original in
  let alignedSize := FreeRegion_getSizeForAlignment original size in
  let newFreeAddr := wrap64 (originalAddr + alignedSize) in
  let newFree := newFreeAddr in
  osz <- load_size original ;;
  let newFreeSize := wrap32 (osz - alignedSize) in
  FreeRegion_create original alignedSize ;;
  u <- load_used newFree ;;
  if u =? 1 then ret 0
  else if newFreeSize <? sizeof_FreeRegionHeader + sizeof_AllocMetadata then ret 0
  else
    FreeRegion_create newFree newFreeSize ;;
    ret newFree.

(** ** Linked lists

    Both the block list and the free lists are walked through a [next]
    field; [off] is its offset in the node. *)

(** [while ((aux->next != NULL) && (item < aux->next)) aux = aux->next;] *)
Fixpoint insert_walk (fuel : nat) (off item aux : Z) : M Z :=
  match fuel with
  | O => fail OutOfFuel
  | S k =>
      nx <- load64 (wrap64 (aux + off)) ;;
      if negb (nx =? 0) && (item <? nx) then insert_walk k off item nx
      else ret aux
  end.

(** [for (aux = *list; aux != NULL; aux = aux->next) if (aux->next == item) { unlink; break; }] *)
Fixpoint remove_walk (fuel : nat) (off offp item aux : Z) : M unit :=
  match fuel with
  | O => fail OutOfFuel
  | S k =>
      if aux =? 0 then ret tt
      else
        nx <- load64 (wrap64 (aux + off)) ;;
        if nx =? item then
          next <- load64 (wrap64 (item + off)) ;;
          store64 (wrap64 (aux + off)) next ;;
          (if negb (next =? 0) then store64 (wrap64 (next + offp)) aux else ret tt)
        else remove_walk k off offp item nx
  end.

Definition BlockList_addBlockToList (fuel : nat) (item : Z) : M Z :=
  aux <- get_blockList ;;
  if item =? 0 then ret 0
  else
    l <- get_blockList ;;
    if l =? 0 then
      store64 (wrap64 (item + off_bnext)) 0 ;;
      store64 (wrap64 (item + off_bprevious)) 0 ;;
      set_blockList item ;;
      ret 0
    else if l >? item then
      store64 (wrap64 (item + off_bnext)) l ;;
      store64 (wrap64 (item + off_bprevious)) 0 ;;
      store64 (wrap64 (l + off_bprevious)) item ;;
      set_blockList item ;;
      ret 0
    else
      aux <- insert_walk fuel off_bnext item aux ;;
      nx <- load64 (wrap64 (aux + off_bnext)) ;;
      store64 (wrap64 (item + off_bnext)) nx ;;
      store64 (wrap64 (item + off_bprevious)) aux ;;
      store64 (wrap64 (aux + off_bnext)) item ;;
      ret 0.

Definition BlockList_removeBlockFromList (fuel : nat) (item : Z) : M Z :=
  if item =? 0 then ret (wrap32 (-1))
  else
    l <- get_blockList ;;
    if l =? item then
      next <- load64 (wrap64 (item + off_bnext)) ;;
      set_blockList next ;;
      (if negb (next =? 0) then store64 (wrap64 (next + off_bprevious)) 0 else ret tt) ;;
      store64 (wrap64 (item + off_bnext)) 0 ;;
      store64 (wrap64 (item + off_bprevious)) 0 ;;
      ret 0
    else
      remove_walk fuel off_bnext off_bprevious item l ;;
      store64 (wrap64 (item + off_bnext)) 0 ;;
      store64 (wrap64 (item + off_bprevious)) 0 ;;
      ret 0.

(** ** Memory block methods *)

Definition Block_addRegionToFreeList (fuel : nat) (_this item : Z) : M Z :=
  if item =? 0 then ret 0
  else
    sz <- load_size item ;;
    if sz =? 0 then ret 0
    else
      let i := toFreeListIndex sz in
      let list := wrap64 (_this + off_freeRegions i) in
      aux <- load64 list ;;
      l <- load64 list ;;
      if l =? 0 then
        store64 (wrap64 (item + off_next)) 0 ;;
        store64 (wrap64 (item + off_previous)) 0 ;;
        store64 list item ;;
        ret 0
      else if l >? item then
        store64 (wrap64 (item + off_next)) l ;;
        store64 (wrap64 (item + off_previous)) 0 ;;
        store64 (wrap64 (l + off_previous)) item ;;
        store64 list item ;;
        ret 0
      else
        aux <- insert_walk fuel off_next item aux ;;
        nx <- load64 (wrap64 (aux + off_next)) ;;
        store64 (wrap64 (item + off_next)) nx ;;
        store64 (wrap64 (item + off_previous)) aux ;;
        store64 (wrap64 (aux + off_next)) item ;;
        ret 0.

Definition Block_removeRegionFromFreeList (fuel : nat) (_this item : Z) : M Z :=
  sz <- load_size item ;;
  let i := toFreeListIndex sz in
  let list := wrap64 (_this + off_freeRegions i) in
  if item =? 0 then ret (wrap32 (-1))
  else
    l <- load64 list ;;
    if l =? item then
      next <- load64 (wrap64 (item + off_next)) ;;
      store64 list next ;;
      (if negb (next =? 0) then store64 (wrap64 (next + off_previous)) 0 else ret tt) ;;
      store64 (wrap64 (item + off_next)) 0 ;;
      store64 (wrap64 (item + off_previous)) 0 ;;
      ret 0
    else
      remove_walk fuel off_next off_previous item l ;;
      store64 (wrap64 (item + off_next)) 0 ;;
      store64 (wrap64 (item + off_previous)) 0 ;;
      ret 0.

(** Inner loop of [Block_isFreeRegion]: one free list. *)
Fixpoint isFreeRegion_list (fuel : nat) (it addr : Z) : M bool :=
  match fuel with
  | O => fail OutOfFuel
  | S k =>
      if it =? 0 then ret false
      else
        sz <- load_size it ;;
        let headerAddr := it in
        let footerAddr := wrap64 (headerAddr + sz - sizeof_AllocMetadata) in
        if (headerAddr =? addr) || (footerAddr =? addr) then ret true
        else
          nx <- load64 (wrap64 (it + off_next)) ;;
          isFreeRegion_list k nx addr
  end.

(** Outer loop over the [n] remaining free lists, starting at index [i]. *)
Fixpoint isFreeRegion_sets (fuel : nat) (n : nat) (i : Z) (_this addr : Z) : M Z :=
  match n with
  | O => ret 0
  | S n' =>
      hd <- load64 (wrap64 (_this + off_freeRegions i)) ;;
      b <- isFreeRegion_list fuel hd addr ;;
      if b then ret 1 else isFreeRegion_sets fuel n' (i + 1) _this addr
  end.

Definition Block_isFreeRegion (fuel : nat) (_this addr : Z) : M Z :=
  isFreeRegion_sets fuel FREE_BLOCKS_SETS 0 _this addr.

Definition Block_coallesceBothSides (fuel : nat) (_this left reference right : Z) : M unit :=
  lsz <- load_size left ;;
  let leftFreeRegion := wrap64 (reference - lsz) in
  let rightFreeRegion := right in
  Block_removeRegionFromFreeList fuel _this leftFreeRegion ;;
  Block_removeRegionFromFreeList fuel _this rightFreeRegion ;;
  Block_removeRegionFromFreeList fuel _this reference ;;
  a <- load_size leftFreeRegion ;;
  b <- load_size reference ;;
  c <- load_size rightFreeRegion ;;
  store_size leftFreeRegion (a + (b + c)) ;;
  nsz <- load_size leftFreeRegion ;;
  let footer := wrap64 (leftFreeRegion + nsz - sizeof_AllocMetadata) in
  nsz <- load_size leftFreeRegion ;;
  store_size footer nsz ;;
  Block_addRegionToFreeList fuel _this leftFreeRegion ;;
  ret tt.

Definition Block_coallesceLeftSide (fuel : nat) (_this left reference : Z) : M unit :=
  lsz <- load_size left ;;
  let leftFreeRegion := wrap64 (reference - lsz) in
  Block_removeRegionFromFreeList fuel _this leftFreeRegion ;;
  Block_removeRegionFromFreeList fuel _this reference ;;
  a <- load_size leftFreeRegion ;;
  b <- load_size reference ;;
  store_size leftFreeRegion (a + b) ;;
  nsz <- load_size leftFreeRegion ;;
  let footer := wrap64 (leftFreeRegion + nsz - sizeof_AllocMetadata) in
  nsz <- load_size leftFreeRegion ;;
  store_size footer nsz ;;
  Block_addRegionToFreeList fuel _this leftFreeRegion ;;
  ret tt.

Definition Block_coallesceRightSide (fuel : nat) (_this reference right : Z) : M unit :=
  let rightFreeRegion := right in
  Block_removeRegionFromFreeList fuel _this rightFreeRegion ;;
  Block_removeRegionFromFreeList fuel _this reference ;;
  a <- load_size reference ;;
  b <- load_size right ;;
  store_size reference (a + b) ;;
  nsz <- load_size reference ;;
  let footer := wrap64 (reference + nsz - sizeof_AllocMetadata) in
  nsz <- load_size reference ;;
  store_size footer nsz ;;
  Block_addRegionToFreeList fuel _this reference ;;
  ret tt.

Definition Block_coallesceFreeRegion (fuel : nat) (_this freeRegion : Z) : M unit :=
  let ptr := freeRegion in
  let prevRegion := wrap64 (ptr - sizeof_AllocMetadata) in
  sz <- load_size freeRegion ;;
  let nextRegion := wrap64 (ptr + sz) in
  prevIsFree <- Block_isFreeRegion fuel _this prevRegion ;;
  nextIsFree <- Block_isFreeRegion fuel _this nextRegion ;;
  if (prevIsFree =? 0) && (nextIsFree =? 1) then
    Block_coallesceRightSide fuel _this freeRegion nextRegion
  else if (prevIsFree =? 1) && (nextIsFree =? 0) then
    Block_coallesceLeftSide fuel _this prevRegion freeRegion
  else if (prevIsFree =? 1) && (nextIsFree =? 1) then
    Block_coallesceBothSides fuel _this prevRegion freeRegion nextRegion
  else ret tt.

Definition Block_useRegion (_this freeRegion : Z) : M Z :=
  let freeRegionAddr := freeRegion in
  sz <- load_size freeRegion ;;
  let freeRegionFooter := wrap64 (freeRegionAddr + sz - sizeof_AllocMetadata) in
  store_used freeRegion 1 ;;
  store_used freeRegionFooter 1 ;;
  us <- load32 (wrap64 (_this + off_usedSize)) ;;
  sz <- load_size freeRegion ;;
  store32 (wrap64 (_this + off_usedSize)) (wrap32 (us + sz)) ;;
  ret freeRegionAddr.

Definition Block_freeRegion (_this region : Z) : M Z :=
  let regionAddr := region in
  let freeRegion := regionAddr in
  sz <- load_size region ;;
  let regionFooter := wrap64 (regionAddr + sz - sizeof_AllocMetadata) in
  store_used freeRegion 0 ;;
  store64 (wrap64 (freeRegion + off_next)) 0 ;;
  store64 (wrap64 (freeRegion + off_previous)) 0 ;;
  store_used regionFooter 0 ;;
  sz <- load_size freeRegion ;;
  store_size regionFooter sz ;;
  us <- load32 (wrap64 (_this + off_usedSize)) ;;
  sz <- load_size freeRegion ;;
  store32 (wrap64 (_this + off_usedSize)) (wrap32 (us - sz)) ;;
  ret freeRegion.

Definition Block_create (size : Z) : M Z :=
  let memorySize :=
    wrap64 (size + sizeof_BlockHeader + sizeof_FreeRegionHeader + sizeof_AllocMetadata) in
  let pageQuantity :=
    memorySize / PAGE_SIZE + (if memorySize mod PAGE_SIZE >? 0 then 1 else 0) in
  memoryPtr <- libhalloc_alloc pageQuantity ;;
  if memoryPtr =? 0 then ret 0
  else
    let blockHeader := memoryPtr in
    store32 (wrap64 (blockHeader + off_pages)) (wrap32 pageQuantity) ;;
    store32 (wrap64 (blockHeader + off_size)) (wrap32 (pageQuantity * PAGE_SIZE)) ;;
    store64 (wrap64 (blockHeader + off_bnext)) 0 ;;
    store64 (wrap64 (blockHeader + off_bprevious)) 0 ;;
    store32 (wrap64 (blockHeader + off_usedSize)) sizeof_BlockHeader ;;
    memset (wrap64 (blockHeader + off_freeRegions 0)) 0 (sizeof_uintptr * Z.of_nat FREE_BLOCKS_SETS) ;;
    bsz <- load32 (wrap64 (blockHeader + off_size)) ;;
    r <- FreeRegion_create (wrap64 (memoryPtr + sizeof_BlockHeader))
                           (wrap64 (bsz - sizeof_BlockHeader)) ;;
    store64 (wrap64 (blockHeader + off_freeRegions LARGE_FREE_BLOCK_INDEX)) r ;;
    ret blockHeader.

Definition Block_isFull (_this : Z) : M bool :=
  if _this =? 0 then ret false
  else
    us <- load32 (wrap64 (_this + off_usedSize)) ;;
    sz <- load32 (wrap64 (_this + off_size)) ;;
    ret (us =? sz).

(** Inner loop of [Block_canAllocateSize]: one free list. *)
Fixpoint canAllocate_list (fuel : nat) (it size : Z) : M Z :=
  match fuel with
  | O => fail OutOfFuel
  | S k =>
      if it =? 0 then ret 0
      else
        let alignedSize := FreeRegion_getSizeForAlignment it size in
        sz <- load_size it ;;
        if alignedSize <? sz then ret it
        else
          nx <- load64 (wrap64 (it + off_next)) ;;
          canAllocate_list k nx size
  end.

Fixpoint canAllocate_sets (fuel : nat) (n : nat) (i : Z) (_this size : Z) : M Z :=
  match n with
  | O => ret 0
  | S n' =>
      hd <- load64 (wrap64 (_this + off_freeRegions i)) ;;
      r <- canAllocate_list fuel hd size ;;
      if negb (r =? 0) then ret r else canAllocate_sets fuel n' (i + 1) _this size
  end.

Definition Block_canAllocateSize (fuel : nat) (_this size : Z) : M Z :=
  let size := wrap32 size in
  if _this =? 0 then ret 0
  else canAllocate_sets fuel FREE_BLOCKS_SETS 0 _this size.

Definition Block_haveUserAllocations (_this : Z) : M bool :=
  if _this =? 0 then ret false
  else
    us <- load32 (wrap64 (_this + off_usedSize)) ;;
    e <- get_emptyBlockOverheadSize ;;
    ret (us >? e).

Definition Block_allocateRegion (fuel : nat) (_this size : Z) : M Z :=
  let regionSize := wrap32 (size + REGION_OVERHEAD_SIZE) in
  freeRegion <- Block_canAllocateSize fuel _this regionSize ;;
  if freeRegion =? 0 then ret 0
  else
    Block_removeRegionFromFreeList fuel _this freeRegion ;;
    newFreeRegion <- FreeRegion_split freeRegion regionSize ;;
    Block_addRegionToFreeList fuel _this newFreeRegion ;;
    Block_useRegion _this freeRegion.

Definition Block_deallocateRegion (fuel : nat) (_this region : Z) : M unit :=
  freedRegion <- Block_freeRegion _this region ;;
  Block_addRegionToFreeList fuel _this freedRegion ;;
  Block_coallesceFreeRegion fuel _this freedRegion.

Definition createHeapBlock (fuel : nat) (size : Z) : M Z :=
  let alignRegionSize := sizeof_uintptr * 2 in
  block <- Block_create size ;;
  Block_allocateRegion fuel block alignRegionSize ;;
  ret block.

(** The search loop of [getBlockWithFreeRegion]; returns the block found,
    or 0 when the list is exhausted. *)
Fixpoint findBlock (fuel : nat) (inner : nat) (block size : Z) : M Z :=
  match fuel with
  | O => fail OutOfFuel
  | S k =>
      if block =? 0 then ret 0
      else
        full <- Block_isFull block ;;
        r <- (if full then ret 0 else Block_canAllocateSize inner block size) ;;
        if negb full && negb (r =? 0) then ret block
        else
          nx <- load64 (wrap64 (block + off_bnext)) ;;
          findBlock k inner nx size
  end.

Definition getBlockWithFreeRegion (fuel : nat) (size : Z) : M Z :=
  l <- get_blockList ;;
  if l =? 0 then
    block <- createHeapBlock fuel (PAGE_SIZE * 4) ;;
    BlockList_addBlockToList fuel block ;;
    us <- load32 (wrap64 (block + off_usedSize)) ;;
    set_emptyBlockOverheadSize us ;;
    ret block
  else
    block <- findBlock fuel fuel l size ;;
    if negb (block =? 0) then ret block
    else
      block <- createHeapBlock fuel size ;;
      BlockList_addBlockToList fuel block ;;
      ret block.

Fixpoint getBlockWithRegion_loop (fuel : nat) (block region : Z) : M Z :=
  match fuel with
  | O => fail OutOfFuel
  | S k =>
      if block =? 0 then ret 0
      else
        let regionAddr := region in
        let blockStartAddr := block in
        bsz <- load32 (wrap64 (block + off_size)) ;;
        let blockEndAddr := wrap64 (blockStartAddr + bsz) in
        if (regionAddr >=? blockStartAddr) && (regionAddr <? blockEndAddr) then ret block
        else
          nx <- load64 (wrap64 (block + off_bnext)) ;;
          getBlockWithRegion_loop k nx region
  end.

Definition getBlockWithRegion (fuel : nat) (region : Z) : M Z :=
  l <- get_blockList ;;
  getBlockWithRegion_loop fuel l region.

(** ** Public interface *)

Definition malloc (fuel : nat) (size : Z) : M Z :=
  block <- getBlockWithFreeRegion fuel size ;;
  memoryPtr <- Block_allocateRegion fuel block size ;;
  if memoryPtr =? 0 then ret 0
  else ret (wrap64 (memoryPtr + sizeof_AllocMetadata)).

Definition free (fuel : nat) (pointer : Z) : M unit :=
  let allocatedRegion := wrap64 (pointer - sizeof_AllocMetadata) in
  u <- load_used allocatedRegion ;;
  if u =? 0 then ret tt
  else
    block <- getBlockWithRegion fuel pointer ;;
    if block =? 0 then ret tt
    else
      Block_deallocateRegion fuel block allocatedRegion ;;
      h <- Block_haveUserAllocations block ;;
      if negb h then
        BlockList_removeBlockFromList fuel block ;;
        pages <- load32 (wrap64 (block + off_pages)) ;;
        libhalloc_free block pages
      else ret tt.

Definition realloc (fuel : nat) (pointer size : Z) : M Z :=
  let headerPtr := wrap64 (pointer - sizeof_AllocMetadata) in
  hsz <- load_size headerPtr ;;
  let payloadLength := wrap64 (hsz - sizeof_AllocMetadata * 2) in
  let copyLength := payloadLength in
  if pointer =? 0 then malloc fuel size
  else if payloadLength =? size then ret pointer
  else
    let copyLength := if size <? payloadLength then size else copyLength in
    newMemoryPtr <- malloc fuel size ;;
    if newMemoryPtr =? 0 then ret 0
    else
      memcpy newMemoryPtr pointer copyLength ;;
      free fuel pointer ;;
      ret newMemoryPtr.

Definition calloc (fuel : nat) (num size : Z) : M Z :=
  if size =? 0 then ret 0
  else
    memoryPtr <- malloc fuel (wrap64 (num * size)) ;;
    if memoryPtr =? 0 then ret 0
    else
      let header := wrap64 (memoryPtr - sizeof_AllocMetadata) in
      hsz <- load_size header ;;
      let payloadLength := wrap64 (hsz - sizeof_AllocMetadata * 2) in
      memset memoryPtr 0 payloadLength ;;
      ret memoryPtr.

(** * Specification vocabulary *)

(** ** Weakest preconditions

    [wp lim c s Q]: running [c] from [s] neither faults nor, unless [lim]
    holds, runs out of fuel, and its result satisfies [Q]. *)

Definition wp {A} (lim : Prop) (c : M A) (s : state) (Q : A -> state -> Prop) : Prop :=
  match c s with
  | Ok a s' => Q a s'
  | Err SegFault => False
  | Err OutOfFuel => lim
  end.

(** ** Heap layout *)

(** A linked list in memory: [h] is the first node, [l] the nodes in
    order, the link is the 64-bit field at offset [off]. *)
Fixpoint lseg (m : bytemap) (off h : Z) (l : list Z) : Prop :=
  match l with
  | [] => h = 0
  | x :: l' => h = x /\ x <> 0 /\ lseg m off (get64 m (x + off)) l'
  end.

(** Every address of [lo, hi) is mapped. *)
Definition range_mapped (rs : list (Z * Z)) (lo hi : Z) : Prop :=
  forall x, lo <= x < hi -> is_mapped rs x = true.

(** A region: header address, total size, used flag. *)
Record region : Type := mkRegion { r_addr : Z; r_size : Z; r_used : Z }.

(** The address just past the footer of [r]. *)
Definition r_end (r : region) : Z := r_addr r + r_size r.

(** The metadata word of a region of size [sz] and flag [u]. *)
Definition tag (sz u : Z) : Z := sz * 16 + u.

(** Header and footer of [r] both hold [r]'s tag. *)
Definition tagged (m : bytemap) (r : region) : Prop :=
  get32 m (r_addr r) = tag (r_size r) (r_used r) /\
  get32 m (r_end r - 4) = tag (r_size r) (r_used r).

(** Two regions that do not overlap. *)
Definition disj (r1 r2 : region) : Prop :=
  r_end r1 <= r_addr r2 \/ r_end r2 <= r_addr r1.

Definition pairwise_disj (rs : list region) : Prop :=
  forall r1 r2, In r1 rs -> In r2 rs -> r1 = r2 \/ disj r1 r2.

(** Size of the block [B] as recorded in its header, and the end of the
    space its first free region was given (the size field has 28 bits). *)
Definition bsize (m : bytemap) (B : Z) : Z := get32 m (B + off_size).
Definition blim (m : bytemap) (B : Z) : Z :=
  B + sizeof_BlockHeader + (bsize m B - sizeof_BlockHeader) mod 2^28.

(** The bookkeeping region allocated by [createHeapBlock]. *)
Definition bookkeeping (B : Z) : region := mkRegion (B + sizeof_BlockHeader) 44 1.

(** Total size of the used regions of [rs], as [usedSize] counts it. *)
Definition sum_used (rs : list region) : Z :=
  fold_right (fun r acc => (if r_used r =? 1 then r_size r else 0) + acc) 0 rs.

(** The six free lists of block [B] hold exactly the regions in [P],
    each in the list of its size class. *)
Definition flists (m : bytemap) (B : Z) (P : region -> Prop) : Prop :=
  forall i, 0 <= i < 6 ->
    exists l, lseg m off_next (get64 m (B + off_freeRegions i)) l /\ NoDup l /\
      forall a, In a l <-> exists r, P r /\ r_addr r = a /\ toFreeListIndex (r_size r) = i.

(** [r] is a free region of [rs]. *)
Definition is_free_in (rs : list region) (r : region) : Prop :=
  In r rs /\ r_used r = 0.

(** [r] has room for a free-region header and a footer, lies in the
    space of block [B] behind the block header, and its flag is 0 or 1. *)
Definition region_fits (m : bytemap) (B : Z) (r : region) : Prop :=
  28 <= r_size r /\ B + sizeof_BlockHeader <= r_addr r /\ r_end r <= blim m B /\
  (r_used r = 0 \/ r_used r = 1).

(** Structure of one block: [rs] are its regions, [P] the regions linked
    into its free lists. *)
Record block_gen (m : bytemap) (mp : list (Z * Z)) (B : Z)
                 (rs : list region) (P : region -> Prop) : Prop := {
  bg_pos : 0 < B;
  bg_size : 4096 <= bsize m B;
  bg_top : B + bsize m B <= USER_TOP;
  bg_mapped : range_mapped mp B (B + bsize m B);
  bg_regions : forall r, In r rs -> region_fits m B r;
  bg_nodup : NoDup rs;
  bg_disj : pairwise_disj rs;
  bg_tagged : forall r, In r rs -> tagged m r;
  bg_P : forall r, P r -> In r rs /\ r_used r = 0;
  bg_flists : flists m B P;
  bg_used : get32 m (B + off_usedSize) = sizeof_BlockHeader + sum_used rs
}.

(** Every node of [l] lies in user space and its link fields are mapped. *)
Definition nodes_ok (mp : list (Z * Z)) (off : Z) (l : list Z) : Prop :=
  forall x, In x l ->
    0 < x /\ x + off + 16 <= USER_TOP /\
    mapped_n mp 8 (x + off) = true /\ mapped_n mp 8 (x + off + 8) = true.

(** Operations inside block [B] leave everything outside it alone, and
    of its header change only [usedSize] and the free-list heads. *)
Definition block_frame (m m' : bytemap) (B : Z) : Prop :=
  forall x, x < B + off_usedSize \/ B + 12 <= x < B + 32 \/ B + bsize m B <= x ->
            m' x = m x.

(** Outcome of coalescing the freed region [r] with its free neighbours
    [xl] (ending where [r] starts) and [xr] (starting where [r] ends). *)
Inductive coalesced (r : region) (rs rs' : list region) : Prop :=
| co_none : rs' = rs -> coalesced r rs rs'
| co_right xr rest :
    Permutation rs (r :: xr :: rest) -> r_used xr = 0 -> r_addr xr = r_end r ->
    rs' = mkRegion (r_addr r) (r_size r + r_size xr) 0 :: rest ->
    coalesced r rs rs'
| co_left xl rest :
    Permutation rs (xl :: r :: rest) -> r_used xl = 0 -> r_end xl = r_addr r ->
    rs' = mkRegion (r_addr xl) (r_size xl + r_size r) 0 :: rest ->
    coalesced r rs rs'
| co_both xl xr rest :
    Permutation rs (xl :: r :: xr :: rest) ->
    r_used xl = 0 -> r_end xl = r_addr r ->
    r_used xr = 0 -> r_addr xr = r_end r ->
    rs' = mkRegion (r_addr xl) (r_size xl + r_size r + r_size xr) 0 :: rest ->
    coalesced r rs rs'.

(** [m'] agrees with [m] outside the set of addresses [W]. *)
Definition keeps (W : Z -> Prop) (m m' : bytemap) : Prop :=
  forall x, ~ W x -> m' x = m x.

(** [W] contains every byte of the region [r], and the header of the
    block [B]. *)
Definition covers (W : Z -> Prop) (r : region) : Prop :=
  forall x, r_addr r <= x < r_end r -> W x.
Definition covers_header (W : Z -> Prop) (B : Z) : Prop :=
  forall x, B <= x < B + sizeof_BlockHeader -> W x.

(** [W] contains the two link fields of the region [r], and the 4-byte
    word at [a]. *)
Definition covers_links (W : Z -> Prop) (r : region) : Prop :=
  forall x, r_addr r + 8 <= x < r_addr r + 24 -> W x.
Definition covers_word (W : Z -> Prop) (a : Z) : Prop :=
  forall x, a <= x < a + 4 -> W x.

(** Placement of the regions: the bookkeeping region comes first, every
    other region has a 16-byte aligned payload, and sizes are multiples of
    16 except for a region that reaches the end of the block's space. *)
Definition region_placed (B lim : Z) (r : region) : Prop :=
  r = bookkeeping B \/
  (B + 124 <= r_addr r /\ r_addr r mod 16 = 12 /\
   (r_size r mod 16 = 0 \/ r_end r = lim)).

(** A well-formed block between two calls: its free lists hold exactly
    its free regions, and its regions are placed as above. *)
Record block_ok (m : bytemap) (mp : list (Z * Z)) (B : Z) (rs : list region) : Prop := {
  bk_gen : block_gen m mp B rs (is_free_in rs);
  bk_align : B mod 16 = 0;
  bk_lim : blim m B mod 16 = 0;
  bk_book : In (bookkeeping B) rs;
  bk_placed : forall r, In r rs -> region_placed B (blim m B) r
}.

(** The heap: the blocks [bl] in list order, the regions [R B] of each. *)
Record heap_ok (s : state) (bl : list Z) (R : Z -> list region) : Prop := {
  hp_list : lseg (bytes s) off_bnext (blockList s) bl;
  hp_nodup : NoDup bl;
  hp_blocks : forall B, In B bl -> block_ok (bytes s) (mapped s) B (R B);
  hp_disj : forall B1 B2, In B1 bl -> In B2 bl ->
      B1 = B2 \/ B1 + bsize (bytes s) B1 <= B2 \/ B2 + bsize (bytes s) B2 <= B1;
  hp_user : Forall (fun r => PAGE_SIZE <= fst r /\ snd r <= USER_TOP) (mapped s);
  hp_page : page_size s = -1 \/ page_size s = PAGE_SIZE;
  hp_globals : bl <> [] -> emptyBlockOverheadSize s = 124 /\ page_size s = PAGE_SIZE
}.

(** The page count of every block matches its size, so that
    [libhalloc_free] returns exactly the pages of the block. *)
Definition exact (s : state) (bl : list Z) : Prop :=
  forall B, In B bl ->
    get32 (bytes s) (B + off_pages) * PAGE_SIZE = bsize (bytes s) B.

(** Pointers the client holds: payloads of used regions other than the
    bookkeeping region. *)
Definition is_live (bl : list Z) (R : Z -> list region) (p : Z) : Prop :=
  exists B r, In B bl /\ In r (R B) /\ r_used r = 1 /\
              r <> bookkeeping B /\ p = r_addr r + 4.

(** The next proposal of the kernel is acceptable for a request of [len]
    bytes. *)
Definition os_ready (s : state) (len : Z) : bool :=
  match os_tape s with
  | [] => false
  | a :: _ => mmap_accepts (mapped s) a len
  end.

(** ** Client traces *)

(** Largest request for which the size of a fresh block, a whole number
    of pages, still fits the 32-bit [size] field of the block header. *)
Definition MAXREQ : Z := 2^32 - 4096 - 108.

(** Length of the payload at [p], as [realloc] and [calloc] read it from
    the header in front of it. *)
Definition payload_len (s : state) (p : Z) : Z :=
  md_size (get32 (bytes s) (p - 4)) - REGION_OVERHEAD_SIZE.

(** [reachable s L]: [s] is reached from the initial state by calls of
    the public interface that return, and by stores of the client into
    the payloads it owns; [L] lists the pointers the client holds.  The
    client frees and reallocates only pointers it holds, and asks for at
    most [MAXREQ] bytes at a time.  This bound is a restriction: the
    interface takes any [size_t].  Beyond it the allocator works with
    sizes cut to 32 bits in some places and not in others:
    [Block_allocateRegion] serves the request cut to 32 bits while
    [realloc] copies by the size it was given, and [libhalloc_alloc]
    maps the page count times the page size cut to 32 bits while
    [libhalloc_free] later unmaps the full length.  The runs of C1, C2
    and C8 show what one such request can do; C9 is proved for the
    runs without these conditions (see [any_run]). *)
Inductive reachable : state -> list Z -> Prop :=
| reach_init tape : reachable (initial_state tape) []
| reach_malloc s L fuel n p s' :
    reachable s L -> 0 <= n <= MAXREQ ->
    malloc fuel n s = Ok p s' ->
    reachable s' (if p =? 0 then L else p :: L)
| reach_calloc s L fuel k n p s' :
    reachable s L -> 0 <= wrap64 (k * n) <= MAXREQ ->
    calloc fuel k n s = Ok p s' ->
    reachable s' (if p =? 0 then L else p :: L)
| reach_realloc s L fuel p n q s' :
    reachable s L -> In p L -> 0 <= n <= MAXREQ ->
    realloc fuel p n s = Ok q s' ->
    reachable s' (if q =? 0 then L
                  else if q =? p then L
                  else q :: remove Z.eq_dec p L)
| reach_free s L fuel p s' :
    reachable s L -> In p L ->
    free fuel p s = Ok tt s' ->
    reachable s' (remove Z.eq_dec p L)
| reach_write s L p i v :
    reachable s L -> In p L -> 0 <= i < payload_len s p ->
    reachable (with_bytes s (set8 (bytes s) (p + i) v)) L.

(** [any_run s]: [s] is reached from the initial state by calls of the
    public interface that return and by stores of the client, with no
    condition on the sizes asked for, on the pointers passed to [free]
    and [realloc], or on the addresses the client stores to. *)
Inductive any_run : state -> Prop :=
| run_init tape : any_run (initial_state tape)
| run_malloc s fuel n p s' :
    any_run s -> malloc fuel n s = Ok p s' -> any_run s'
| run_calloc s fuel k n p s' :
    any_run s -> calloc fuel k n s = Ok p s' -> any_run s'
| run_realloc s fuel p n q s' :
    any_run s -> realloc fuel p n s = Ok q s' -> any_run s'
| run_free s fuel p s' :
    any_run s -> free fuel p s = Ok tt s' -> any_run s'
| run_store s a v :
    any_run s -> any_run (with_bytes s (set8 (bytes s) a v)).

(** Every mapped range lies in user space, above the first page. *)
Definition user_space (s : state) : Prop :=
  Forall (fun r => PAGE_SIZE <= fst r /\ snd r <= USER_TOP) (mapped s).

(** * Further definitions used in the statements and proofs *)

(** ** Inside a block *)

(** [a] is the address of a region linked into a free list. *)
Definition is_node (P : region -> Prop) (a : Z) : Prop :=
  exists r, P r /\ r_addr r = a.

(** The header and the [next] field of every node of [l] are mapped. *)
Definition hdr_ok (mp : list (Z * Z)) (l : list Z) : Prop :=
  forall x, In x l ->
    0 < x /\ x + 24 <= USER_TOP /\
    mapped_n mp 4 x = true /\ mapped_n mp 8 (x + off_next) = true.

(** Total size of the regions [rs]. *)
Definition sum_size (rs : list region) : Z :=
  fold_right (fun r acc => r_size r + acc) 0 rs.

(** ** Fresh blocks *)

(** Number of pages [Block_create] asks for. *)
Definition block_pages (size : Z) : Z :=
  let memorySize :=
    wrap64 (size + sizeof_BlockHeader + sizeof_FreeRegionHeader + sizeof_AllocMetadata) in
  memorySize / PAGE_SIZE + (if memorySize mod PAGE_SIZE >? 0 then 1 else 0).

(** Number of bytes [libhalloc_alloc] maps for them: the product is
    computed in 32 bits. *)
Definition block_len (size : Z) : Z := wrap32 (block_pages size * PAGE_SIZE).

(** What [Block_create] leaves in the fresh block at [a]. *)
Record fresh_block (m : bytemap) (a size : Z) : Prop := {
  fb_pages : get32 m (a + off_pages) = wrap32 (block_pages size);
  fb_size : get32 m (a + off_size) = block_len size;
  fb_used : get32 m (a + off_usedSize) = sizeof_BlockHeader;
  fb_next : get64 m (a + off_bnext) = 0;
  fb_prev : get64 m (a + off_bprevious) = 0;
  fb_heads : forall i, 0 <= i < 5 -> get64 m (a + off_freeRegions i) = 0;
  fb_large : get64 m (a + off_freeRegions 5) = a + sizeof_BlockHeader;
  fb_tag : get32 m (a + 80) = tag ((block_len size - 80) mod 2^28) 0;
  fb_rnext : get64 m (a + 80 + off_next) = 0;
  fb_rprev : get64 m (a + 80 + off_previous) = 0;
  fb_zero : forall x, a + 104 <= x < a + block_len size - 4 -> m x = 0
}.

(** ** The list of blocks *)

(** The layout [R] with the regions of block [B] replaced by [rs]. *)
Definition upd (R : Z -> list region) (B : Z) (rs : list region) : Z -> list region :=
  fun X => if X =? B then rs else R X.

(** The state [s] with [blockList] set to [v]. *)
Definition set_list (s : state) (v : Z) : state :=
  mkState (bytes s) (mapped s) v (emptyBlockOverheadSize s) (page_size s) (os_tape s).

(** The link fields of distinct block headers of [l] do not overlap. *)
Definition sep32 (l : list Z) : Prop :=
  forall X Y, In X l -> In Y l -> X = Y \/ X + 32 <= Y \/ Y + 32 <= X.

(** The aligned size [Block_allocateRegion] computes for a request of
    [size] bytes served from region [r]. *)
Definition al_of (r : region) (size : Z) : Z :=
  FreeRegion_getSizeForAlignment (r_addr r) (wrap32 (size + 8)).

(** The test of [Block_canAllocateSize] on region [r]. *)
Definition fits (r : region) (size : Z) : Prop :=
  FreeRegion_getSizeForAlignment (r_addr r) (wrap32 size) < r_size r.

(** No block of [l] passes the test of the search loop of
    [getBlockWithFreeRegion]: each is full, or has no free region that
    fits [size]. *)
Definition no_fit (m : bytemap) (R : Z -> list region) (size : Z) (l : list Z) : Prop :=
  forall B, In B l ->
    get32 m (B + off_usedSize) = bsize m B \/
    forall r, is_free_in (R B) r -> ~ fits r size.

(** The state differs from [s] at most in the page size and the tape. *)
Definition same_heap (s s' : state) : Prop :=
  bytes s' = bytes s /\ mapped s' = mapped s /\ blockList s' = blockList s /\
  emptyBlockOverheadSize s' = emptyBlockOverheadSize s /\ page_size s' = PAGE_SIZE.

(** The regions of a block fresh from [createHeapBlock]: the bookkeeping
    region and one free region with the rest of the space. *)
Definition first_regions (a len : Z) : list region :=
  [bookkeeping a; mkRegion (a + 124) ((len - 80) mod 2^28 - 44) 0].

(** Outcome of [getBlockWithFreeRegion]. *)
Inductive gb_res (s : state) (bl : list Z) (R : Z -> list region) (size : Z) :
    Z -> state -> list Z -> (Z -> list region) -> Prop :=
| gb_found B :
    In B bl -> (exists r, is_free_in (R B) r /\ fits r size) ->
    gb_res s bl R size B s bl R
| gb_fail s' :
    bl <> [] -> os_ready s (block_len size) = false -> same_heap s s' ->
    no_fit (bytes s) R size bl ->
    gb_res s bl R size 0 s' bl R
| gb_new a sz s' bl' :
    sz = (if blockList s =? 0 then PAGE_SIZE * 4 else size) ->
    os_ready s (block_len sz) = true ->
    mmap_accepts (mapped s) a (block_len sz) = true ->
    ~ In a bl -> (forall x, In x bl' <-> x = a \/ In x bl) ->
    mapped s' = (a, a + block_len sz) :: mapped s ->
    bsize (bytes s') a = block_len sz ->
    get32 (bytes s') (a + off_pages) = wrap32 (block_pages sz) ->
    (forall x, x < a \/ a + block_len sz <= x ->
               (forall X, In X bl -> x < X + 16 \/ X + 32 <= x) -> bytes s' x = bytes s x) ->
    gb_res s bl R size a s' bl' (upd R a (first_regions a (block_len sz))).

(** ** Outcomes of the public calls *)

(** The regions of a block after a region [r] has been allocated. *)
Definition alloc_regions (r : region) (size : Z) (rest rs' : list region) : Prop :=
  rs' = mkRegion (r_addr r) (al_of r size) 1 :: rest \/
  (28 <= r_size r - al_of r size /\
   rs' = mkRegion (r_addr r) (al_of r size) 1 ::
         mkRegion (r_addr r + al_of r size) (r_size r - al_of r size) 0 :: rest).

(** Enough fuel for one call on the heap [bl], [R]. *)
Definition fuel_ok (bl : list Z) (R : Z -> list region) (N : nat) : Prop :=
  (3 <= N)%nat /\ (length bl <= N)%nat /\ forall B, In B bl -> (length (R B) + 1 <= N)%nat.

(** [W] contains what the allocator may write in the heap [bl], [R] of
    [s]: the block headers, the free regions, and every address that is
    not mapped (where a fresh block may appear). *)
Definition heap_covered (W : Z -> Prop) (s : state) (bl : list Z)
                        (R : Z -> list region) : Prop :=
  (forall X, In X bl -> covers_header W X) /\
  (forall X r, In X bl -> is_free_in (R X) r -> covers W r) /\
  (forall x, is_mapped (mapped s) x = false -> W x).

(** The heap [s1], [bl1], [R1] extends [s], [bl], [R]: the old blocks and
    their regions are kept, and every byte that was mapped, the links of
    the block headers apart, is unchanged. *)
Record heap_ext (s : state) (bl : list Z) (R : Z -> list region)
                (s1 : state) (bl1 : list Z) (R1 : Z -> list region) : Prop := {
  he_blocks : forall B, In B bl -> In B bl1;
  he_regions : forall B, In B bl -> R1 B = R B;
  he_frame : forall x, is_mapped (mapped s) x = true ->
     (forall X, In X bl -> x < X + 16 \/ X + 32 <= x) -> bytes s1 x = bytes s x
}.

(** What [malloc size] guarantees when it returns [p] in state [s']. *)
Record malloc_post (s : state) (bl : list Z) (R : Z -> list region) (size p : Z)
                   (s' : state) (bl' : list Z) (R' : Z -> list region) : Prop := {
  mp_heap : heap_ok s' bl' R';
  mp_blocks : forall B, In B bl -> In B bl';
  mp_keep : forall B r, In B bl -> In r (R B) -> r_used r = 1 -> In r (R' B);
  mp_exact : exact s bl -> 0 <= size <= MAXREQ -> exact s' bl';
  mp_fail : p = 0 -> forall x, is_mapped (mapped s) x = true ->
     (forall X, In X bl -> x < X + 16 \/ X + 32 <= x) -> bytes s' x = bytes s x;
  mp_new : p <> 0 ->
     exists B r, In B bl' /\ In r (R' B) /\ r_used r = 1 /\ r <> bookkeeping B /\
                 p = r_addr r + 4 /\ p mod 16 = 0 /\ wrap32 (size + 8) < r_size r /\
                 ~ is_live bl R p
}.

(** What [free p] guarantees when it returns in state [s']. *)
Record free_post (s : state) (bl : list Z) (R : Z -> list region) (p : Z)
                 (s' : state) (bl' : list Z) (R' : Z -> list region) : Prop := {
  fp_heap : heap_ok s' bl' R';
  fp_exact : exact s' bl';
  fp_live : forall q, is_live bl R q -> q <> p -> is_live bl' R' q
}.

(** What [free p] does to the mapping: the block of [p] stays mapped when
    it holds another allocation, and is returned to the kernel otherwise. *)
Definition free_pages (s : state) (bl : list Z) (R : Z -> list region) (p : Z)
                      (s' : state) : Prop :=
  exists B, In B bl /\ B <= p < B + bsize (bytes s) B /\
    ((exists q, is_live bl R q /\ q <> p /\ B <= q < B + bsize (bytes s) B) /\
     mapped s' = mapped s
     \/
     (forall q, is_live bl R q -> q <> p -> ~ (B <= q < B + bsize (bytes s) B)) /\
     mapped s' = unmap (mapped s) B (B + bsize (bytes s) B)).

(** What [calloc k n] guarantees when it returns [p] in state [s']. *)
Record calloc_post (s : state) (bl : list Z) (R : Z -> list region) (k n p : Z)
                   (s' : state) (bl' : list Z) (R' : Z -> list region) : Prop := {
  cp_heap : heap_ok s' bl' R';
  cp_exact : exact s bl -> 0 <= wrap64 (k * n) <= MAXREQ -> exact s' bl';
  cp_live : forall q, is_live bl R q -> is_live bl' R' q;
  cp_new : p <> 0 -> is_live bl' R' p /\ p mod 16 = 0 /\
           forall i, 0 <= i < payload_len s' p -> bytes s' (p + i) = 0;
  cp_zero : n = 0 -> p = 0
}.

(** What [realloc p n] guarantees when it returns [q] in state [s']. *)
Record realloc_post (s : state) (bl : list Z) (R : Z -> list region) (p n q : Z)
                    (s' : state) (bl' : list Z) (R' : Z -> list region) : Prop := {
  rp_heap : heap_ok s' bl' R';
  rp_exact : exact s bl -> 0 <= n <= MAXREQ -> exact s' bl';
  rp_same : q = 0 \/ q = p -> forall x, is_live bl R x -> is_live bl' R' x;
  rp_new : q <> 0 -> q <> p ->
           is_live bl' R' q /\ forall x, is_live bl R x -> x <> p -> is_live bl' R' x;
  rp_align : q <> 0 -> q mod 16 = 0
}.

(** [x] lies inside a used region of the heap [bl], [R]. *)
Definition in_used (bl : list Z) (R : Z -> list region) (x : Z) : Prop :=
  exists B r, In B bl /\ In r (R B) /\ r_used r = 1 /\ r_addr r <= x < r_end r.

(** The addresses outside the used regions, and those of [[lo, hi)]. *)
Definition unused_or (bl : list Z) (R : Z -> list region) (lo hi : Z) (x : Z) : Prop :=
  ~ (in_used bl R x /\ ~ (lo <= x < hi)).

(** ** The invariant *)

(** The invariant: the heap is well formed, the page counts are exact,
    and every pointer the client holds is the payload of a used region. *)
Definition inv (s : state) (L : list Z) : Prop :=
  exists bl R, heap_ok s bl R /\ exact s bl /\ forall p, In p L -> is_live bl R p.

(** ** Every run *)

(** [c] leaves the mapped ranges in user space. *)
Definition keeps_space {A} (c : M A) : Prop :=
  forall s a s', c s = Ok a s' -> user_space s -> user_space s'.

(** ** Vocabulary of the claims *)

(** A call of the public interface that returns a pointer. *)
Inductive call : Type :=
| Malloc (n : Z)
| Calloc (k n : Z)
| Realloc (q n : Z).

(** The function of [malloc.c] that call [c] runs. *)
Definition run (fuel : nat) (c : call) : M Z :=
  match c with
  | Malloc n => malloc fuel n
  | Calloc k n => calloc fuel k n
  | Realloc q n => realloc fuel q n
  end.

(** [realloc] is given the null pointer or a pointer the client holds. *)
Definition valid_arg (L : list Z) (c : call) : Prop :=
  match c with
  | Realloc q _ => q = 0 \/ In q L
  | _ => True
  end.

(** Header and footer of the region at [a] agree; the footer is found
    from the size in the header, as the allocator does. *)
Definition hf_agree (m : bytemap) (a : Z) : Prop :=
  let h := get32 m a in
  let f := get32 m (a + md_size h - 4) in
  md_used f = md_used h /\ md_size f = md_size h.

(** The nodes of the block list, in list order. *)
Fixpoint walk (fuel : nat) (m : bytemap) (h : Z) : list Z :=
  match fuel with
  | O => []
  | S k => if h =? 0 then [] else h :: walk k m (get64 m (h + off_bnext))
  end.

(** The length of the block [getBlockWithFreeRegion] asks the provider
    for when no block of the list can take a request of [size] bytes:
    room for four pages of payload when the list is empty. *)
Definition next_block_len (s : state) (size : Z) : Z :=
  block_len (if blockList s =? 0 then PAGE_SIZE * 4 else size).

(** The value [c] returns from [s], if it returns. *)
Definition value {A} (c : M A) (s : state) : option A :=
  match c s with Ok a _ => Some a | Err _ => None end.

(** The state [c] leaves; [s] itself when [c] does not return. *)
Definition after {A} (c : M A) (s : state) : state :=
  match c s with Ok _ s' => s' | Err _ => s end.

(** ** States of the sample runs *)

(** The kernel proposes these addresses, in this order. *)
Definition tape0 : list Z := [65536; 1048576; 2097152; 4194304].

(** The state before the first call. *)
Definition st0 : state := initial_state tape0.

(** One small allocation. *)
Definition st1 : state := after (malloc 10 4) st0.

(** Two allocations of 64 bytes, the first freed again, then one of 48. *)
Definition sta : state := after (malloc 10 64) st0.

Definition stb : state := after (malloc 10 64) sta.

Definition stc : state := after (free 10 65664) stb.

Definition std : state := after (malloc 10 48) stc.

(** Three blocks. *)
Definition stt2 : state := after (malloc 10 30000) st1.

Definition stt3 : state := after (malloc 10 30000) stt2.

(** A provider that maps one block and then refuses. *)
Definition stu0 : state := initial_state [65536].

Definition stu1 : state := after (malloc 10 4) stu0.

(** A store of the client: one byte at address [a]. *)
Definition client_store (s : state) (a v : Z) : state :=
  with_bytes s (set8 (bytes s) a v).

(** Allocations of 30, 64 and 64 bytes: regions at 65660 (48 bytes),
    65708 (80 bytes) and 65788 (80 bytes). *)
Definition ste1 : state := after (malloc 10 30) st0.

Definition ste2 : state := after (malloc 10 64) ste1.

Definition ste3 : state := after (malloc 10 64) ste2.

(** The first allocation is released, then the third is reallocated
    with a size of 4 GiB and 4 bytes. *)
Definition ste4 : state := after (free 10 65664) ste3.

Definition ste5 : state := after (realloc 10 65792 (2^32 + 4)) ste4.

(** A fourth allocation, of 150 bytes, at 65872; the first and the third
    allocation are released; the client stores five bytes into the
    fourth: at offset 49 the header of a free region of 100 bytes (the
    word 1600), at offset 132 the address 65921 of that header. *)
Definition stm4 : state := after (malloc 10 150) ste3.

Definition stm5 : state := after (free 10 65664) stm4.

Definition stm6 : state := after (free 10 65792) stm5.

Definition stm6a : state := client_store stm6 (65872 + 49) 64.

Definition stm6b : state := client_store stm6a (65872 + 50) 6.

Definition stm6c : state := client_store stm6b (65872 + 132) 129.

Definition stm6d : state := client_store stm6c (65872 + 133) 1.

Definition stm7 : state := client_store stm6d (65872 + 134) 1.

Definition stm8 : state := after (realloc 10 65872 (2^32 + 4)) stm7.

Definition stm9 : state := after (malloc 10 64) stm8.

(** The kernel maps the second and the third block back to back, at
    [2^30] and [2^30 + 32768].  Six allocations fill the first block
    and the end of the third one, and leave a free region of 2628 bytes
    at the end of the second block, right below the header of the
    third.  The client stores two bytes into the payload of 65696, at
    offsets 2641 and 2643: bytes 1 and 3 of the address 1073742848. *)
Definition tapek : list Z := [65536; 2^30; 2^30 + 32768; 2^28].

Definition stk1 : state := after (malloc 10 4) (initial_state tapek).

Definition stk2 : state := after (malloc 10 30000) stk1.

Definition stk3 : state := after (malloc 10 30000) stk2.

Definition stk4 : state := after (malloc 10 2640) stk3.

Definition stk5 : state := after (malloc 10 17648) stk4.

Definition stk6 : state := after (malloc 10 2608) stk5.

Definition stk6a : state := client_store stk6 (65696 + 2641) 4.

Definition stk7 : state := client_store stk6a (65696 + 2643) 64.

Definition stk8 : state := after (realloc 10 65696 (2^32 + 4)) stk7.

Definition stk9 : state := after (malloc 10 (2^28)) stk8.

(** A provider that maps one block; the first allocation takes all of
    its space. *)
Definition stx1 : state := after (malloc 10 20340) stu0.

Definition stx2 : state := after (malloc 10 0) stx1.

(** A region that is released with bytes of the client in it, and
    allocated again. *)
Definition stq1 : state := client_store stb (65664 + 0) 7.

Definition stq2 : state := client_store stq1 (65664 + 30) 9.

Definition stq3 : state := after (free 10 65664) stq2.

Definition stq4 : state := after (calloc 10 1 40) stq3.

(** The run of C2 once more, with 7 and 9 stored at offsets 0 and 20 of
    the payload of 65792 before [realloc(65792, 2^32 + 4)] copies its 72
    bytes onto the payload of 24 bytes at 65664 and releases it. *)
Definition stn1 : state := client_store ste4 (65792 + 0) 7.

Definition stn2 : state := client_store stn1 (65792 + 20) 9.

Definition stn3 : state := after (realloc 10 65792 (2^32 + 4)) stn2.

Definition stn4 : state := after (calloc 10 1 40) stn3.

(** A zero-initialised array after one allocation, a reallocation to a
    larger size with another allocation in place, a provider that refuses
    from the start, five pages taken from the provider, the release of
    the only allocation, a request of 256 MiB, and payloads the client has
    written to, before a reallocation that fails and before one that
    succeeds. *)
Definition stz1 : state := after (calloc 10 2 8) st1.

Definition str : state := after (realloc 10 65664 100) stb.

Definition stn : state := initial_state [].

Definition stp : state := after (libhalloc_alloc 5) st0.

Definition stf : state := after (free 10 65664) st1.

Definition stg : state := after (malloc 10 (2^28)) st1.

Definition stv1 : state := client_store stu1 (65664 + 3) 77.

Definition stv2 : state := after (malloc 10 100000) stv1.

Definition stw1 : state := client_store stb (65664 + 5) 200.

Definition stw2 : state := client_store stw1 (65664 + 71) 9.

Definition stw3 : state := client_store stw2 (65744 + 7) 33.

Definition strw : state := after (realloc 10 65664 100) stw3.

Definition stfw : state := after (free 10 65664) stw3.

Definition sty1 : state := client_store sta (65664 + 3) 77.

Definition sty2 : state := after (malloc 10 64) sty1.

Definition stzv : state := after (calloc 10 2 8) stv1.

(** * Basic facts *)

Ltac dlia := Z.to_euclidean_division_equations; lia.

(** ** Machine integers *)

Lemma wrap64_small x : 0 <= x < 2^64 -> wrap64 x = x.
Proof. intros H. unfold wrap64. apply Z.mod_small. exact H. Qed.

Lemma wrap32_small x : 0 <= x < 2^32 -> wrap32 x = x.
Proof. intros H. unfold wrap32. apply Z.mod_small. exact H. Qed.

Lemma wrap32_range x : 0 <= wrap32 x < 2^32.
Proof. unfold wrap32. apply Z.mod_pos_bound. lia. Qed.

(** ** The metadata word *)

Lemma md_size_tag sz u : 0 <= sz < 2^28 -> 0 <= u < 16 -> md_size (tag sz u) = sz.
Proof. unfold md_size, tag. intros. dlia. Qed.

Lemma md_used_tag sz u : 0 <= u < 16 -> md_used (tag sz u) = u.
Proof. unfold md_used, tag. intros. dlia. Qed.

Lemma md_set_used_tag sz u v : 0 <= u < 16 -> 0 <= v < 16 ->
  md_set_used (tag sz u) v = tag sz v.
Proof. unfold md_set_used, tag. intros. dlia. Qed.

Lemma md_set_size_tag sz u v : 0 <= u < 16 -> 0 <= v < 2^28 ->
  md_set_size (tag sz u) v = tag v u.
Proof. unfold md_set_size, tag. intros. dlia. Qed.

Lemma md_create w sz : md_set_size (md_set_used w 0) sz = tag (sz mod 2^28) 0.
Proof. unfold md_set_size, md_set_used, tag. dlia. Qed.

(** ** Bytes *)

Lemma get8_range m a : 0 <= get8 m a < 256.
Proof. unfold get8. apply Z.mod_pos_bound. lia. Qed.

Lemma getN_range n m a : 0 <= getN n m a < 256 ^ Z.of_nat n.
Proof.
  revert a. induction n as [|n IH]; intros a.
  - simpl. lia.
  - cbn [getN]. rewrite Nat2Z.inj_succ, Z.pow_succ_r by lia.
    pose proof (get8_range m a). specialize (IH (a + 1)). lia.
Qed.

Lemma get32_range m a : 0 <= get32 m a < 2^32.
Proof. apply (getN_range 4). Qed.

Lemma get64_range m a : 0 <= get64 m a < 2^64.
Proof. apply (getN_range 8). Qed.

Lemma setN_outside n m a v x : x < a \/ a + Z.of_nat n <= x -> setN n m a v x = m x.
Proof.
  revert m a v. induction n as [|n IH]; intros m a v H.
  - reflexivity.
  - cbn [setN]. rewrite IH by lia. unfold set8.
    destruct (Z.eqb_spec x a); [lia | reflexivity].
Qed.

Lemma getN_ext n m m' a :
  (forall x, a <= x < a + Z.of_nat n -> m' x = m x) -> getN n m' a = getN n m a.
Proof.
  revert a. induction n as [|n IH]; intros a H.
  - reflexivity.
  - cbn [getN]. rewrite IH by (intros; apply H; lia).
    unfold get8. rewrite H by lia. reflexivity.
Qed.

Lemma getN_setN_disj n n' m a v b :
  b + Z.of_nat n <= a \/ a + Z.of_nat n' <= b ->
  getN n (setN n' m a v) b = getN n m b.
Proof. intros H. apply getN_ext. intros x Hx. apply setN_outside. lia. Qed.

Lemma getN_setN_same n m a v : getN n (setN n m a v) a = v mod 256 ^ Z.of_nat n.
Proof.
  revert m a v. induction n as [|n IH]; intros m a v.
  - simpl. rewrite Z.mod_1_r. reflexivity.
  - cbn [getN setN]. rewrite IH.
    unfold get8. rewrite setN_outside by lia. unfold set8. rewrite Z.eqb_refl.
    rewrite Z.mod_mod by lia.
    rewrite Nat2Z.inj_succ, Z.pow_succ_r by lia.
    rewrite Z.rem_mul_r by lia. lia.
Qed.

Lemma get32_set32_same m a v : 0 <= v < 2^32 -> get32 (set32 m a v) a = v.
Proof. intros H. unfold get32, set32. rewrite getN_setN_same. apply Z.mod_small. exact H. Qed.

Lemma get64_set64_same m a v : 0 <= v < 2^64 -> get64 (set64 m a v) a = v.
Proof. intros H. unfold get64, set64. rewrite getN_setN_same. apply Z.mod_small. exact H. Qed.

Lemma get32_set32_disj m a v b : b + 4 <= a \/ a + 4 <= b -> get32 (set32 m a v) b = get32 m b.
Proof. intros. apply getN_setN_disj. simpl. lia. Qed.

Lemma get32_set64_disj m a v b : b + 4 <= a \/ a + 8 <= b -> get32 (set64 m a v) b = get32 m b.
Proof. intros. apply getN_setN_disj. simpl. lia. Qed.

Lemma get64_set32_disj m a v b : b + 8 <= a \/ a + 4 <= b -> get64 (set32 m a v) b = get64 m b.
Proof. intros. apply getN_setN_disj. simpl. lia. Qed.

Lemma get64_set64_disj m a v b : b + 8 <= a \/ a + 8 <= b -> get64 (set64 m a v) b = get64 m b.
Proof. intros. apply getN_setN_disj. simpl. lia. Qed.

Lemma set32_outside m a v x : x < a \/ a + 4 <= x -> set32 m a v x = m x.
Proof. intros. apply setN_outside. simpl. lia. Qed.

Lemma set64_outside m a v x : x < a \/ a + 8 <= x -> set64 m a v x = m x.
Proof. intros. apply setN_outside. simpl. lia. Qed.

Lemma get32_ext m m' a : (forall x, a <= x < a + 4 -> m' x = m x) -> get32 m' a = get32 m a.
Proof. intros. apply getN_ext. simpl. exact H. Qed.

Lemma get64_ext m m' a : (forall x, a <= x < a + 8 -> m' x = m x) -> get64 m' a = get64 m a.
Proof. intros. apply getN_ext. simpl. exact H. Qed.

Lemma getN_zero n m a : (forall x, a <= x < a + Z.of_nat n -> m x = 0) -> getN n m a = 0.
Proof.
  revert a. induction n as [|n IH]; intros a H.
  - reflexivity.
  - cbn [getN]. rewrite IH by (intros; apply H; lia).
    unfold get8. rewrite H by lia. reflexivity.
Qed.

Lemma fill_inside m a len v x : a <= x < a + len -> fill m a len v x = v mod 256.
Proof.
  intros H. unfold fill.
  destruct (Z.leb_spec a x); destruct (Z.ltb_spec x (a + len)); simpl; lia || reflexivity.
Qed.

Lemma fill_outside m a len v x : x < a \/ a + len <= x -> fill m a len v x = m x.
Proof.
  intros H. unfold fill.
  destruct (Z.leb_spec a x); destruct (Z.ltb_spec x (a + len)); simpl; lia || reflexivity.
Qed.

#[global] Arguments get32 : simpl never.

#[global] Arguments get64 : simpl never.

#[global] Arguments set32 : simpl never.

#[global] Arguments set64 : simpl never.

#[global] Arguments wrap32 : simpl never.

#[global] Arguments wrap64 : simpl never.

(** ** Mapped ranges *)

Lemma mapped_n_range rs n a lo hi :
  range_mapped rs lo hi -> lo <= a -> a + Z.of_nat n <= hi -> mapped_n rs n a = true.
Proof.
  intros Hr. revert a. induction n as [|n IH]; intros a Hlo Hhi.
  - reflexivity.
  - cbn [mapped_n]. rewrite Hr by lia. rewrite IH by lia. reflexivity.
Qed.

Lemma mapped_n_first rs n a : mapped_n rs (S n) a = true -> is_mapped rs a = true.
Proof. cbn [mapped_n]. intros H. apply andb_prop in H. tauto. Qed.

Lemma is_mapped_bound rs a :
  Forall (fun r => PAGE_SIZE <= fst r /\ snd r <= USER_TOP) rs ->
  is_mapped rs a = true -> PAGE_SIZE <= a < USER_TOP.
Proof.
  intros HF H. unfold is_mapped in H. apply existsb_exists in H.
  destruct H as [r [Hin Hr]]. rewrite Forall_forall in HF. specialize (HF r Hin).
  unfold in_range in Hr. apply andb_prop in Hr. destruct Hr as [H1 H2].
  apply Z.leb_le in H1. apply Z.ltb_lt in H2. lia.
Qed.

(** ** Rules of the weakest-precondition calculus *)

Section WP.

Context {A B : Type} (lim : Prop).

Lemma wp_ret (a : A) s (Q : A -> state -> Prop) : Q a s -> wp lim (ret a) s Q.
Proof. intros H. exact H. Qed.

Lemma wp_bind (c : M A) (k : A -> M B) s (Q : B -> state -> Prop) :
  wp lim c s (fun a s' => wp lim (k a) s' Q) -> wp lim (bind c k) s Q.
Proof.
  unfold wp, bind. destruct (c s) as [a s'|e]; [intros H; exact H|].
  destruct e; intros H; exact H.
Qed.

Lemma wp_conseq (c : M A) s (Q Q' : A -> state -> Prop) :
  wp lim c s Q -> (forall a s', Q a s' -> Q' a s') -> wp lim c s Q'.
Proof.
  unfold wp. destruct (c s) as [a s'|e]; [intros H HQ; apply HQ; exact H|].
  destruct e; intros H _; exact H.
Qed.

Lemma wp_ok (c : M A) s (Q : A -> state -> Prop) a s' :
  wp lim c s Q -> c s = Ok a s' -> Q a s'.
Proof. unfold wp. intros H E. rewrite E in H. exact H. Qed.

End WP.

Lemma wp_lim {A} (lim lim' : Prop) (c : M A) s Q :
  wp lim c s Q -> (lim -> lim') -> wp lim' c s Q.
Proof.
  unfold wp. destruct (c s) as [a s'|e]; [intros H _; exact H|].
  destruct e; intros H HL; [exact H | apply HL; exact H].
Qed.

Lemma wp_loadN lim n a s (Q : Z -> state -> Prop) :
  mapped_n (mapped s) n a = true -> Q (getN n (bytes s) a) s -> wp lim (loadN n a) s Q.
Proof. intros Hm HQ. unfold wp, loadN. rewrite Hm. exact HQ. Qed.

Lemma wp_storeN lim n a v s (Q : unit -> state -> Prop) :
  mapped_n (mapped s) n a = true ->
  Q tt (with_bytes s (setN n (bytes s) a v)) -> wp lim (storeN n a v) s Q.
Proof. intros Hm HQ. unfold wp, storeN. rewrite Hm. exact HQ. Qed.

Lemma wp_load32 lim a s (Q : Z -> state -> Prop) :
  mapped_n (mapped s) 4 a = true -> Q (get32 (bytes s) a) s -> wp lim (load32 a) s Q.
Proof. apply wp_loadN. Qed.

Lemma wp_load64 lim a s (Q : Z -> state -> Prop) :
  mapped_n (mapped s) 8 a = true -> Q (get64 (bytes s) a) s -> wp lim (load64 a) s Q.
Proof. apply wp_loadN. Qed.

Lemma wp_store32 lim a v s (Q : unit -> state -> Prop) :
  mapped_n (mapped s) 4 a = true ->
  Q tt (with_bytes s (set32 (bytes s) a v)) -> wp lim (store32 a v) s Q.
Proof. apply wp_storeN. Qed.

Lemma wp_store64 lim a v s (Q : unit -> state -> Prop) :
  mapped_n (mapped s) 8 a = true ->
  Q tt (with_bytes s (set64 (bytes s) a v)) -> wp lim (store64 a v) s Q.
Proof. apply wp_storeN. Qed.

Lemma wp_load_size lim a s (Q : Z -> state -> Prop) :
  mapped_n (mapped s) 4 a = true -> Q (md_size (get32 (bytes s) a)) s ->
  wp lim (load_size a) s Q.
Proof. intros Hm HQ. unfold load_size. apply wp_bind, wp_load32; [exact Hm | exact HQ]. Qed.

Lemma wp_load_used lim a s (Q : Z -> state -> Prop) :
  mapped_n (mapped s) 4 a = true -> Q (md_used (get32 (bytes s) a)) s ->
  wp lim (load_used a) s Q.
Proof. intros Hm HQ. unfold load_used. apply wp_bind, wp_load32; [exact Hm | exact HQ]. Qed.

Lemma wp_store_used lim a v s (Q : unit -> state -> Prop) :
  mapped_n (mapped s) 4 a = true ->
  Q tt (with_bytes s (set32 (bytes s) a (md_set_used (get32 (bytes s) a) v))) ->
  wp lim (store_used a v) s Q.
Proof.
  intros Hm HQ. unfold store_used. apply wp_bind, wp_load32; [exact Hm |].
  apply wp_store32; [exact Hm | exact HQ].
Qed.

Lemma wp_store_size lim a v s (Q : unit -> state -> Prop) :
  mapped_n (mapped s) 4 a = true ->
  Q tt (with_bytes s (set32 (bytes s) a (md_set_size (get32 (bytes s) a) v))) ->
  wp lim (store_size a v) s Q.
Proof.
  intros Hm HQ. unfold store_size. apply wp_bind, wp_load32; [exact Hm |].
  apply wp_store32; [exact Hm | exact HQ].
Qed.

(** ** Linked lists *)

Lemma lseg_frame m m' off h l :
  lseg m off h l ->
  (forall x, In x l -> get64 m' (x + off) = get64 m (x + off)) ->
  lseg m' off h l.
Proof.
  revert h. induction l as [|x l IH]; intros h H Hf.
  - exact H.
  - destruct H as [H1 [H2 H3]]. cbn [lseg]. repeat split; try assumption.
    rewrite Hf by (left; reflexivity). apply IH; [exact H3|].
    intros y Hy. apply Hf. right. exact Hy.
Qed.

Lemma lseg_app m off h l1 x l2 :
  lseg m off h (l1 ++ x :: l2) ->
  lseg m off (get64 m (x + off)) l2.
Proof.
  revert h. induction l1 as [|y l1 IH]; intros h H.
  - destruct H as [_ [_ H]]. exact H.
  - destruct H as [_ [_ H]]. eapply IH. exact H.
Qed.

(** * Specifications of the region primitives *)

#[global] Arguments with_bytes : simpl never.

Lemma bytes_with_bytes s m : bytes (with_bytes s m) = m.
Proof. reflexivity. Qed.

Lemma mapped_with_bytes s m : mapped (with_bytes s m) = mapped s.
Proof. reflexivity. Qed.

Lemma blockList_with_bytes s m : blockList (with_bytes s m) = blockList s.
Proof. reflexivity. Qed.

Lemma empty_with_bytes s m :
  emptyBlockOverheadSize (with_bytes s m) = emptyBlockOverheadSize s.
Proof. reflexivity. Qed.

Lemma page_size_with_bytes s m : page_size (with_bytes s m) = page_size s.
Proof. reflexivity. Qed.

Lemma os_tape_with_bytes s m : os_tape (with_bytes s m) = os_tape s.
Proof. reflexivity. Qed.

Lemma with_bytes_twice s m m' : with_bytes (with_bytes s m) m' = with_bytes s m'.
Proof. reflexivity. Qed.

Ltac st_simpl :=
  rewrite ?with_bytes_twice, ?bytes_with_bytes, ?mapped_with_bytes,
    ?blockList_with_bytes, ?empty_with_bytes, ?page_size_with_bytes,
    ?os_tape_with_bytes.

Lemma md_set_used_range w v : 0 <= w < 2^32 -> 0 <= md_set_used w v < 2^32.
Proof. unfold md_set_used. intros. dlia. Qed.

Lemma md_set_size_range w v : 0 <= md_set_size w v < 2^32.
Proof. unfold md_set_size. intros. dlia. Qed.

Ltac rng :=
  first [ apply md_set_size_range
        | apply md_set_used_range; rng
        | apply get32_range
        | apply get64_range
        | apply wrap32_range
        | lia
        | unfold tag; dlia ].

Ltac mem_simpl :=
  repeat first
    [ rewrite get32_set32_same by rng
    | rewrite get64_set64_same by rng
    | rewrite get32_set32_disj by lia
    | rewrite get32_set64_disj by lia
    | rewrite get64_set32_disj by lia
    | rewrite get64_set64_disj by lia
    | rewrite set32_outside by lia
    | rewrite set64_outside by lia ].

Ltac in_block H := eapply mapped_n_range; [exact H | lia | lia ].

Lemma USER_TOP_eq : USER_TOP = 140737488355328.
Proof. reflexivity. Qed.

#[global] Opaque USER_TOP.

Lemma FreeRegion_create_spec lim s a sz (Q : Z -> state -> Prop) :
  0 < a -> 28 <= sz -> a + sz <= USER_TOP ->
  range_mapped (mapped s) a (a + sz) ->
  (forall m',
     get32 m' a = tag (sz mod 2^28) 0 ->
     get32 m' (a + sz - 4) = tag (sz mod 2^28) 0 ->
     get64 m' (a + off_next) = 0 ->
     get64 m' (a + off_previous) = 0 ->
     (forall x, x < a \/ a + 24 <= x < a + sz - 4 \/ a + sz <= x -> m' x = bytes s x) ->
     Q a (with_bytes s m')) ->
  wp lim (FreeRegion_create a sz) s Q.
Proof.
  intros Ha Hsz Htop Hmap HQ. pose proof USER_TOP_eq as HT.
  unfold FreeRegion_create, sizeof_AllocMetadata, off_next, off_previous in *.
  destruct (Z.eqb_spec a 0); [lia|].
  rewrite !wrap64_small by lia.
  apply wp_bind, wp_store_used; [in_block Hmap|].
  apply wp_bind, wp_store_size; [in_block Hmap|]. st_simpl.
  apply wp_bind, wp_store64; [in_block Hmap|]. st_simpl.
  apply wp_bind, wp_store64; [in_block Hmap|]. st_simpl.
  apply wp_bind, wp_load32; [in_block Hmap|]. st_simpl.
  apply wp_bind, wp_store32; [in_block Hmap|]. st_simpl.
  apply wp_ret.
  mem_simpl. rewrite md_create.
  apply HQ.
  - mem_simpl. reflexivity.
  - mem_simpl. reflexivity.
  - mem_simpl. reflexivity.
  - mem_simpl. reflexivity.
  - intros x Hx. mem_simpl. reflexivity.
Qed.

(** * Linked-list walks *)

Lemma nodes_ok_tail mp off x l : nodes_ok mp off (x :: l) -> nodes_ok mp off l.
Proof. intros H y Hy. apply H. right. exact Hy. Qed.

Lemma lseg_insert_after m m' off h l1 aux l2 item :
  lseg m off h (l1 ++ aux :: l2) ->
  item <> 0 ->
  get64 m' (item + off) = get64 m (aux + off) ->
  get64 m' (aux + off) = item ->
  (forall x, In x (l1 ++ l2) -> get64 m' (x + off) = get64 m (x + off)) ->
  lseg m' off h (l1 ++ aux :: item :: l2).
Proof.
  revert h. induction l1 as [|y l1 IH]; intros h H Hi H1 H2 Hf.
  - cbn [app lseg] in *. destruct H as [Hh [Hx Ht]].
    split; [exact Hh|]. split; [exact Hx|]. split; [exact H2|]. split; [exact Hi|].
    rewrite H1. eapply lseg_frame; [exact Ht|]. exact Hf.
  - cbn [app lseg] in *. destruct H as [Hh [Hx Ht]].
    split; [exact Hh|]. split; [exact Hx|].
    rewrite Hf by (left; reflexivity).
    apply IH; try assumption.
    intros x Hin. apply Hf. right. exact Hin.
Qed.

Lemma lseg_remove_after m m' off h l1 aux item l2 :
  lseg m off h (l1 ++ aux :: item :: l2) ->
  get64 m' (aux + off) = get64 m (item + off) ->
  (forall x, In x (l1 ++ l2) -> get64 m' (x + off) = get64 m (x + off)) ->
  lseg m' off h (l1 ++ aux :: l2).
Proof.
  revert h. induction l1 as [|y l1 IH]; intros h H H1 Hf.
  - cbn [app lseg] in *. destruct H as [Hh [Hx [Hn [Hi Ht]]]].
    split; [exact Hh|]. split; [exact Hx|].
    rewrite H1. eapply lseg_frame; [exact Ht|]. exact Hf.
  - cbn [app lseg] in *. destruct H as [Hh [Hx Ht]].
    split; [exact Hh|]. split; [exact Hx|].
    rewrite Hf by (left; reflexivity).
    apply IH; try assumption.
    intros x Hin. apply Hf. right. exact Hin.
Qed.

Lemma lseg_head m off h x l : lseg m off h (x :: l) -> h = x /\ x <> 0.
Proof. cbn [lseg]. tauto. Qed.

(** [insert_walk] stops at some node of the list and changes nothing. *)
Lemma insert_walk_spec fuel s off item h l (Q : Z -> state -> Prop) :
  0 <= off ->
  lseg (bytes s) off h l -> l <> [] ->
  nodes_ok (mapped s) off l ->
  (forall l1 aux l2, l = l1 ++ aux :: l2 -> Q aux s) ->
  wp (fuel <= length l)%nat (insert_walk fuel off item h) s Q.
Proof.
  intros Hoff. revert fuel h Q.
  induction l as [|x l IH]; intros fuel h Q Hl Hne Hok HQ; [congruence|].
  destruct fuel as [|k]; [unfold wp; cbn; lia|].
  cbn [insert_walk]. destruct Hl as [Hh [Hx Ht]]. subst h.
  destruct (Hok x (or_introl eq_refl)) as [Hx0 [Hx1 [Hm1 Hm2]]].
  pose proof USER_TOP_eq as HT.
  rewrite wrap64_small by lia.
  apply wp_bind, wp_load64; [exact Hm1|].
  destruct (negb (get64 (bytes s) (x + off) =? 0) && (item <? get64 (bytes s) (x + off))) eqn:E.
  - destruct l as [|y l'].
    + cbn [lseg] in Ht. rewrite Ht in E. cbn in E. discriminate.
    + eapply wp_lim; [apply IH|].
      * exact Ht.
      * discriminate.
      * eapply nodes_ok_tail; exact Hok.
      * intros l1 aux l2 E'. apply (HQ (x :: l1) aux l2). rewrite E'. reflexivity.
      * cbn [length]. lia.
  - apply wp_ret. apply (HQ [] x l). reflexivity.
Qed.

(** [remove_walk] finds the predecessor [aux] of [item] and unlinks it. *)
Lemma remove_walk_spec fuel s off h l1 aux item l2 (Q : unit -> state -> Prop) :
  0 <= off ->
  lseg (bytes s) off h (l1 ++ aux :: item :: l2) ->
  NoDup (l1 ++ aux :: item :: l2) ->
  nodes_ok (mapped s) off (l1 ++ aux :: item :: l2) ->
  (let next := get64 (bytes s) (item + off) in
   let m1 := set64 (bytes s) (aux + off) next in
   let m' := if next =? 0 then m1 else set64 m1 (next + (off + 8)) aux in
   Q tt (with_bytes s m')) ->
  wp (fuel <= length (l1 ++ aux :: item :: l2))%nat
     (remove_walk fuel off (off + 8) item h) s Q.
Proof.
  intros Hoff. revert fuel h. pose proof USER_TOP_eq as HT.
  induction l1 as [|y l1 IH]; intros fuel h Hl Hnd Hok HQ.
  - destruct fuel as [|k]; [unfold wp; cbn; lia|].
    cbn [app] in *. cbn [remove_walk].
    destruct Hl as [Hh [Hx [Hn [Hi Ht]]]]. subst h.
    destruct (Hok aux (or_introl eq_refl)) as [Ha0 [Ha1 [Hm1 Hm2]]].
    destruct (Hok item (or_intror (or_introl eq_refl))) as [Hi0 [Hi1 [Hm3 Hm4]]].
    destruct (Z.eqb_spec aux 0); [lia|].
    rewrite wrap64_small by lia.
    apply wp_bind, wp_load64; [exact Hm1|].
    rewrite Hn, Z.eqb_refl.
    rewrite wrap64_small by lia.
    apply wp_bind, wp_load64; [exact Hm3|].
    apply wp_bind, wp_store64; [exact Hm1|]. st_simpl.
    cbv zeta in HQ.
    destruct (Z.eqb_spec (get64 (bytes s) (item + off)) 0) as [E|E]; cbn [negb].
    + apply wp_ret. exact HQ.
    + assert (Hin : In (get64 (bytes s) (item + off)) l2).
      { destruct l2 as [|z l2]; cbn [lseg] in Ht; [congruence|].
        left. symmetry. tauto. }
      destruct (Hok _ (or_intror (or_intror Hin))) as [Hz0 [Hz1 [Hm5 Hm6]]].
      rewrite wrap64_small by lia.
      apply wp_store64; [st_simpl; rewrite Z.add_assoc; exact Hm6|]. st_simpl.
      exact HQ.
  - destruct fuel as [|k]; [unfold wp; cbn; lia|].
    cbn [app] in *. cbn [remove_walk].
    destruct Hl as [Hh [Hx Ht]]. subst h.
    destruct (Hok y (or_introl eq_refl)) as [Ha0 [Ha1 [Hm1 Hm2]]].
    destruct (Z.eqb_spec y 0); [lia|].
    rewrite wrap64_small by lia.
    apply wp_bind, wp_load64; [exact Hm1|].
    assert (Hne : get64 (bytes s) (y + off) <> item).
    { intros E. apply NoDup_cons_iff in Hnd. destruct Hnd as [_ Hnd].
      destruct l1 as [|z l1]; cbn [app lseg] in Ht; destruct Ht as [Hz _].
      - subst aux. rewrite E in Hnd. apply NoDup_cons_iff in Hnd.
        apply (proj1 Hnd). left. reflexivity.
      - rewrite E in Hz. subst z. apply NoDup_cons_iff in Hnd.
        apply (proj1 Hnd). apply in_or_app. right. right. left. reflexivity. }
    destruct (Z.eqb_spec (get64 (bytes s) (y + off)) item); [contradiction|].
    eapply wp_lim; [apply IH|].
    + exact Ht.
    + apply NoDup_cons_iff in Hnd. tauto.
    + eapply nodes_ok_tail; exact Hok.
    + exact HQ.
    + cbn [length]. lia.
Qed.

Lemma lseg_app2 m off h l1 a x l2 :
  lseg m off h (l1 ++ a :: x :: l2) -> lseg m off (get64 m (x + off)) l2.
Proof.
  revert h. induction l1 as [|y l1 IH]; intros h H.
  - cbn [app lseg] in H. tauto.
  - destruct H as [_ [_ H]]. eapply IH. exact H.
Qed.

Lemma NoDup_mid2 {A} (l1 : list A) a x l2 :
  NoDup (l1 ++ a :: x :: l2) ->
  NoDup (l1 ++ a :: l2) /\ ~ In x (l1 ++ a :: l2) /\ ~ In a (l1 ++ l2) /\ a <> x.
Proof.
  intros H.
  assert (H' : NoDup ((l1 ++ [a]) ++ x :: l2)).
  { rewrite <- app_assoc. exact H. }
  pose proof (NoDup_remove_1 _ _ _ H') as H1.
  pose proof (NoDup_remove_2 _ _ _ H') as H2.
  rewrite <- app_assoc in H1, H2. cbn [app] in H1, H2.
  pose proof (NoDup_remove_2 _ _ _ H1) as H3.
  repeat split; try assumption.
  intros ->. apply (NoDup_remove_2 _ _ _ H).
  apply in_or_app. right. left. reflexivity.
Qed.

Lemma NoDup_insert_mid {A} (l1 : list A) a x l2 :
  NoDup (l1 ++ a :: l2) -> ~ In x (l1 ++ a :: l2) -> NoDup (l1 ++ a :: x :: l2).
Proof.
  intros Hnd Hx.
  assert (E : l1 ++ a :: x :: l2 = (l1 ++ [a]) ++ x :: l2).
  { rewrite <- app_assoc. reflexivity. }
  rewrite E. apply (proj2 (NoDup_Add (Add_app x (l1 ++ [a]) l2))).
  rewrite <- app_assoc. cbn [app]. split; assumption.
Qed.

(** * Free lists of a block *)

Lemma blim_bounds m B :
  4096 <= bsize m B ->
  B + 80 <= blim m B /\ blim m B <= B + bsize m B /\ blim m B - (B + 80) < 2^28.
Proof. unfold blim, sizeof_BlockHeader. intros. dlia. Qed.

Lemma bg_bounds m mp B rs P r :
  block_gen m mp B rs P -> In r rs ->
  0 < B /\ B + 80 <= r_addr r /\ 28 <= r_size r /\ r_size r < 2^28 /\
  r_addr r + r_size r <= blim m B /\ blim m B <= B + bsize m B /\
  B + bsize m B <= USER_TOP /\ (r_used r = 0 \/ r_used r = 1).
Proof.
  intros H Hin. destruct (bg_regions _ _ _ _ _ H r Hin) as [H1 [H2 [H3 H4]]].
  pose proof (blim_bounds m B (bg_size _ _ _ _ _ H)) as HB.
  pose proof (bg_pos _ _ _ _ _ H). pose proof (bg_top _ _ _ _ _ H).
  unfold r_end, sizeof_BlockHeader in *. lia.
Qed.

Lemma bg_sep m mp B rs P r1 r2 :
  block_gen m mp B rs P -> In r1 rs -> In r2 rs ->
  r1 = r2 \/ r_addr r1 + r_size r1 <= r_addr r2 \/ r_addr r2 + r_size r2 <= r_addr r1.
Proof.
  intros H H1 H2. destruct (bg_disj _ _ _ _ _ H r1 r2 H1 H2) as [E|D]; [left; exact E|].
  right. unfold disj, r_end in D. exact D.
Qed.

Lemma bg_addr_inj m mp B rs P r1 r2 :
  block_gen m mp B rs P -> In r1 rs -> In r2 rs -> r_addr r1 = r_addr r2 -> r1 = r2.
Proof.
  intros H H1 H2 E. destruct (bg_sep _ _ _ _ _ _ _ H H1 H2) as [?|D]; [assumption|].
  pose proof (bg_bounds _ _ _ _ _ _ H H1). pose proof (bg_bounds _ _ _ _ _ _ H H2). lia.
Qed.

Lemma bg_size_read m mp B rs P r :
  block_gen m mp B rs P -> In r rs -> md_size (get32 m (r_addr r)) = r_size r.
Proof.
  intros H Hin. destruct (bg_tagged _ _ _ _ _ H r Hin) as [Ht _]. rewrite Ht.
  pose proof (bg_bounds _ _ _ _ _ _ H Hin). apply md_size_tag; lia.
Qed.

Lemma bg_used_read m mp B rs P r :
  block_gen m mp B rs P -> In r rs -> md_used (get32 m (r_addr r)) = r_used r.
Proof.
  intros H Hin. destruct (bg_tagged _ _ _ _ _ H r Hin) as [Ht _]. rewrite Ht.
  pose proof (bg_bounds _ _ _ _ _ _ H Hin). apply md_used_tag; lia.
Qed.

Lemma toFreeListIndex_range sz : 0 <= toFreeListIndex sz < 6.
Proof.
  unfold toFreeListIndex.
  repeat match goal with |- context [if ?c then _ else _] => destruct c end; lia.
Qed.

Lemma bg_nodes_ok m mp B rs P l :
  block_gen m mp B rs P ->
  (forall a, In a l -> exists r, P r /\ r_addr r = a) ->
  nodes_ok mp off_next l.
Proof.
  intros H Hl x Hx. destruct (Hl x Hx) as [r [HP Ha]]. subst x.
  destruct (bg_P _ _ _ _ _ H r HP) as [Hin _].
  pose proof (bg_bounds _ _ _ _ _ _ H Hin) as Hb.
  pose proof (bg_mapped _ _ _ _ _ H) as Hm. unfold off_next.
  repeat split; try lia; in_block Hm.
Qed.

Lemma bg_list_length m mp B rs P l :
  block_gen m mp B rs P -> NoDup l ->
  (forall a, In a l -> exists r, P r /\ r_addr r = a) ->
  (length l <= length rs)%nat.
Proof.
  intros H Hnd Hl. rewrite <- (length_map r_addr rs).
  apply NoDup_incl_length; [exact Hnd|].
  intros a Ha. destruct (Hl a Ha) as [r [HP E]]. subst a.
  apply in_map. apply (bg_P _ _ _ _ _ H r HP).
Qed.

Lemma block_frame_refl m B : block_frame m m B.
Proof. intros x _. reflexivity. Qed.

Lemma block_frame_bsize m m' B : block_frame m m' B -> bsize m' B = bsize m B.
Proof.
  intros H. unfold bsize. apply get32_ext. intros x Hx. apply H.
  unfold off_size, off_usedSize in *. lia.
Qed.

Lemma block_frame_trans m1 m2 m3 B :
  block_frame m1 m2 B -> block_frame m2 m3 B -> block_frame m1 m3 B.
Proof.
  intros H1 H2 x Hx. rewrite H2, H1; try assumption; try reflexivity.
  rewrite (block_frame_bsize _ _ _ H1). exact Hx.
Qed.

(** Changing only link fields of regions in [O] and free-list heads keeps
    every tag and the scalar fields of the block header. *)
Lemma bg_links_update m m' mp B rs P (O P' : region -> Prop) :
  block_gen m mp B rs P ->
  (forall r, O r -> In r rs) ->
  (forall x, x < B + 32 \/ B + 80 <= x ->
             (forall r, O r -> x < r_addr r + 8 \/ r_addr r + 24 <= x) -> m' x = m x) ->
  (forall r, P' r -> In r rs /\ r_used r = 0) ->
  flists m' B P' ->
  block_gen m' mp B rs P' /\ block_frame m m' B.
Proof.
  intros H HO Hf HP' Hfl.
  assert (Hhdr : forall x, x < B + 32 -> m' x = m x).
  { intros x Hx. apply Hf; [lia|]. intros r Hr.
    pose proof (bg_bounds _ _ _ _ _ _ H (HO r Hr)). lia. }
  assert (Hbs : bsize m' B = bsize m B).
  { unfold bsize, off_size. apply get32_ext. intros x Hx. apply Hhdr. lia. }
  assert (Hlim : blim m' B = blim m B) by (unfold blim; rewrite Hbs; reflexivity).
  split.
  - constructor.
    + apply H.
    + rewrite Hbs. apply H.
    + rewrite Hbs. apply H.
    + rewrite Hbs. apply H.
    + intros r Hr. unfold region_fits. rewrite Hlim. apply (bg_regions _ _ _ _ _ H r Hr).
    + apply H.
    + apply H.
    + intros r Hr. destruct (bg_tagged _ _ _ _ _ H r Hr) as [T1 T2].
      pose proof (bg_bounds _ _ _ _ _ _ H Hr) as Hb.
      unfold tagged, r_end in *. split; [rewrite <- T1 | rewrite <- T2].
      * apply get32_ext. intros x Hx. apply Hf; [lia|]. intros r' Hr'.
        pose proof (bg_bounds _ _ _ _ _ _ H (HO r' Hr')).
        destruct (bg_sep _ _ _ _ _ _ _ H Hr (HO r' Hr')) as [->|D]; lia.
      * apply get32_ext. intros x Hx. apply Hf; [lia|]. intros r' Hr'.
        pose proof (bg_bounds _ _ _ _ _ _ H (HO r' Hr')).
        destruct (bg_sep _ _ _ _ _ _ _ H Hr (HO r' Hr')) as [->|D]; lia.
    + exact HP'.
    + exact Hfl.
    + rewrite <- (bg_used _ _ _ _ _ H). apply get32_ext. intros x Hx.
      apply Hhdr. unfold off_usedSize in *. lia.
  - intros x Hx. pose proof (bg_size _ _ _ _ _ H).
    unfold off_usedSize in Hx.
    apply Hf; [lia|]. intros r Hr.
    pose proof (bg_bounds _ _ _ _ _ _ H (HO r Hr)). lia.
Qed.

(** ** Frames *)

Lemma keeps_refl W m : keeps W m m.
Proof. intros x _. reflexivity. Qed.

Lemma keeps_trans W m1 m2 m3 : keeps W m1 m2 -> keeps W m2 m3 -> keeps W m1 m3.
Proof. intros H1 H2 x Hx. rewrite H2, H1 by exact Hx. reflexivity. Qed.

Lemma covers_all r : covers (fun _ => True) r.
Proof. intros x _. exact I. Qed.

Lemma covers_header_all B : covers_header (fun _ => True) B.
Proof. intros x _. exact I. Qed.

Lemma covers_links_all r : covers_links (fun _ => True) r.
Proof. intros x _. exact I. Qed.

Lemma covers_word_all a : covers_word (fun _ => True) a.
Proof. intros x _. exact I. Qed.

Lemma covers_links_in m mp B rs P W r :
  block_gen m mp B rs P -> In r rs -> covers W r -> covers_links W r.
Proof.
  intros H Hin Hc x Hx. apply Hc. pose proof (bg_bounds _ _ _ _ _ _ H Hin).
  unfold r_end. lia.
Qed.

(** A change confined to link fields of regions in [O] and to the block
    header stays inside any [W] that contains them. *)
Lemma links_keeps m m' mp B rs P (O : region -> Prop) W :
  block_gen m mp B rs P ->
  (forall r, O r -> In r rs) ->
  covers_header W B -> (forall r, O r -> covers_links W r) ->
  (forall x, x < B + 32 \/ B + 80 <= x ->
             (forall r, O r -> x < r_addr r + 8 \/ r_addr r + 24 <= x) -> m' x = m x) ->
  keeps W m m'.
Proof.
  intros H HO Hh Hc Hf x Hx.
  assert (Hx1 : x < B \/ B + 80 <= x).
  { destruct (Z.lt_ge_cases x B); [left; assumption|].
    destruct (Z.lt_ge_cases x (B + 80)); [|right; assumption].
    exfalso. apply Hx, Hh. unfold sizeof_BlockHeader. lia. }
  apply Hf; [lia|]. intros r Hr.
  destruct (Z.lt_ge_cases x (r_addr r + 8)); [left; assumption|].
  destruct (Z.lt_ge_cases x (r_addr r + 24)); [|right; assumption].
  exfalso. apply Hx, (Hc r Hr). lia.
Qed.

Lemma bg_node_bounds m mp B rs P a :
  block_gen m mp B rs P -> is_node P a ->
  B + 80 <= a /\ a + 28 <= B + bsize m B /\ 0 < B /\ B + bsize m B <= USER_TOP.
Proof.
  intros H [r [HP E]]. subst a.
  pose proof (bg_bounds _ _ _ _ _ _ H (proj1 (bg_P _ _ _ _ _ H r HP))). lia.
Qed.

Lemma bg_node_sep m mp B rs P a b :
  block_gen m mp B rs P -> is_node P a -> is_node P b ->
  a = b \/ a + 28 <= b \/ b + 28 <= a.
Proof.
  intros H [r1 [HP1 E1]] [r2 [HP2 E2]]. subst a b.
  pose proof (proj1 (bg_P _ _ _ _ _ H r1 HP1)) as H1.
  pose proof (proj1 (bg_P _ _ _ _ _ H r2 HP2)) as H2.
  pose proof (bg_bounds _ _ _ _ _ _ H H1). pose proof (bg_bounds _ _ _ _ _ _ H H2).
  destruct (bg_sep _ _ _ _ _ _ _ H H1 H2) as [->|D]; lia.
Qed.

Lemma exists_snoc {A} (x : A) (l : list A) : exists l' y, x :: l = l' ++ [y].
Proof.
  destruct (exists_last (l := x :: l)) as [l' [y E]]; [discriminate|].
  exists l', y. exact E.
Qed.

(** [Block_removeRegionFromFreeList] unlinks the free region [r]; it
    writes only link fields of listed regions and the list head. *)
Lemma remove_frame W fuel s B rs P r (Q : Z -> state -> Prop) :
  block_gen (bytes s) (mapped s) B rs P -> P r ->
  covers_header W B -> (forall r0, P r0 -> covers_links W r0) ->
  (forall m', block_gen m' (mapped s) B rs (fun x => P x /\ x <> r) ->
              block_frame (bytes s) m' B -> keeps W (bytes s) m' ->
              Q 0 (with_bytes s m')) ->
  wp (fuel <= length rs)%nat (Block_removeRegionFromFreeList fuel B (r_addr r)) s Q.
Proof.
  intros H HP HWh HWc HQ. pose proof USER_TOP_eq as HT.
  assert (HPin : forall r0, P r0 -> In r0 rs).
  { intros r0 Hr0. apply (bg_P _ _ _ _ _ H r0 Hr0). }
  destruct (bg_P _ _ _ _ _ H r HP) as [Hin Hfree].
  pose proof (bg_bounds _ _ _ _ _ _ H Hin) as Hb.
  pose proof (bg_mapped _ _ _ _ _ H) as Hm.
  unfold Block_removeRegionFromFreeList.
  apply wp_bind, wp_load_size; [in_block Hm|].
  rewrite (bg_size_read _ _ _ _ _ _ H Hin).
  pose proof (toFreeListIndex_range (r_size r)) as Hi.
  set (i := toFreeListIndex (r_size r)) in *.
  unfold off_freeRegions, off_next, off_previous in *.
  rewrite !wrap64_small by lia.
  destruct (Z.eqb_spec (r_addr r) 0); [lia|].
  destruct (bg_flists _ _ _ _ _ H i Hi) as [l [Hl [Hnd Hmem]]].
  unfold off_freeRegions, off_next in *.
  assert (Hnode : forall a, In a l -> is_node P a).
  { intros a Ha. apply Hmem in Ha. destruct Ha as [r' [? [? ?]]]. exists r'. tauto. }
  assert (Hil : In (r_addr r) l).
  { apply Hmem. exists r. split; [exact HP|]. split; reflexivity. }
  assert (HrP : is_node P (r_addr r)) by (exists r; tauto).
  assert (Hnb := fun a Ha => bg_node_bounds _ _ _ _ _ a H Ha).
  assert (Hns := fun a b Ha Hb => bg_node_sep _ _ _ _ _ a b H Ha Hb).
  (* membership in the new list *)
  assert (Hmem' : forall l', NoDup l' ->
            (forall a, In a l' <-> In a l /\ a <> r_addr r) ->
            forall a, In a l' <->
              exists r0, (P r0 /\ r0 <> r) /\ r_addr r0 = a /\ toFreeListIndex (r_size r0) = i).
  { intros l' _ Hl' a. rewrite Hl', Hmem. split.
    - intros [[r0 [HP0 [E0 C0]]] Hne]. exists r0. repeat split; try assumption.
      intros ->. apply Hne. symmetry. exact E0.
    - intros [r0 [[HP0 Hne] [E0 C0]]]. split; [exists r0; tauto|].
      intros E. apply Hne. apply (bg_addr_inj _ _ _ _ _ _ _ H); try tauto.
      + apply (bg_P _ _ _ _ _ H r0 HP0).
      + congruence. }
  (* the other lists are untouched *)
  assert (Hother : forall m',
      (forall x, In x l -> x <> r_addr r -> True) ->
      (forall j, 0 <= j < 6 -> j <> i ->
         get64 m' (B + (32 + 8 * j)) = get64 (bytes s) (B + (32 + 8 * j))) ->
      (forall a, is_node P a -> ~ In a l -> get64 m' (a + 8) = get64 (bytes s) (a + 8)) ->
      forall l', lseg m' 8 (get64 m' (B + (32 + 8 * i))) l' -> NoDup l' ->
        (forall a, In a l' <-> In a l /\ a <> r_addr r) ->
        flists m' B (fun x => P x /\ x <> r)).
  { intros m' _ Hh Hn l' Hl' Hnd' Hm' j Hj. unfold off_freeRegions, off_next.
    destruct (Z.eq_dec j i) as [->|Hji].
    - exists l'. split; [exact Hl'|]. split; [exact Hnd'|]. apply Hmem'; assumption.
    - destruct (bg_flists _ _ _ _ _ H j Hj) as [lj [Hlj [Hndj Hmemj]]].
      unfold off_freeRegions, off_next in *.
      exists lj. split; [|split; [exact Hndj|]].
      + rewrite Hh by assumption. eapply lseg_frame; [exact Hlj|].
        intros x Hx. apply Hn.
        * apply Hmemj in Hx. destruct Hx as [r' [? [? ?]]]. exists r'. tauto.
        * intros Hxl. apply Hmemj in Hx. apply Hmem in Hxl.
          destruct Hx as [r1 [HP1 [E1 C1]]]. destruct Hxl as [r2 [HP2 [E2 C2]]].
          assert (r1 = r2).
          { apply (bg_addr_inj _ _ _ _ _ _ _ H); try congruence;
              apply (bg_P _ _ _ _ _ H); assumption. }
          subst r2. congruence.
      + intros a. rewrite Hmemj. split.
        * intros [r0 [HP0 [E0 C0]]]. exists r0. repeat split; try assumption.
          intros ->. fold i in C0. lia.
        * intros [r0 [[HP0 _] [E0 C0]]]. exists r0. tauto. }
  apply wp_bind, wp_load64; [in_block Hm|].
  destruct l as [|y l']; [destruct Hil|].
  destruct (lseg_head _ _ _ _ _ Hl) as [Hy Hy0]. rewrite Hy.
  destruct (Z.eqb_spec y (r_addr r)) as [Ey|Ey].
  - (* first element of the list *)
    rewrite Ey in *. clear Ey. cbn [lseg] in Hl. destruct Hl as [_ [_ Hl']].
    apply NoDup_cons_iff in Hnd. destruct Hnd as [Hni Hnd'].
    apply wp_bind, wp_load64; [in_block Hm|].
    apply wp_bind, wp_store64; [in_block Hm|]. st_simpl.
    set (next := get64 (bytes s) (r_addr r + 8)) in *.
    assert (Hnext : next = 0 \/ In next l').
    { destruct l' as [|z l'']; cbn [lseg] in Hl'; [left; exact Hl'|].
      right. left. symmetry. tauto. }
    assert (Hnn : next <> 0 -> is_node P next /\ next <> r_addr r).
    { intros Hz. destruct Hnext as [?|Hn]; [contradiction|]. split.
      - apply Hnode. right. exact Hn.
      - intros E. rewrite E in Hn. contradiction. }
    apply wp_bind.
    assert (Hfin : forall m1,
       m1 = (if next =? 0 then set64 (bytes s) (B + (32 + 8 * i)) next
             else set64 (set64 (bytes s) (B + (32 + 8 * i)) next) (next + 16) 0) ->
       wp (fuel <= length rs)%nat
          (store64 (r_addr r + 8) 0 ;; store64 (r_addr r + 16) 0 ;; ret 0)
          (with_bytes s m1) Q).
    { intros m1 Em1.
      apply wp_bind, wp_store64; [st_simpl; in_block Hm|]. st_simpl.
      apply wp_bind, wp_store64; [st_simpl; in_block Hm|]. st_simpl.
      apply wp_ret.
      match goal with |- Q 0 (with_bytes s ?m) => set (m' := m) end.
      assert (Hfr : forall x, x < B + 32 \/ B + 80 <= x ->
                (forall r0, P r0 -> x < r_addr r0 + 8 \/ r_addr r0 + 24 <= x) ->
                m' x = bytes s x).
      { intros x Hx1 Hx2. pose proof (Hx2 r HP) as Hxr.
        unfold m'. rewrite Em1.
        destruct (Z.eqb_spec next 0) as [Ez|Ez].
        - mem_simpl. reflexivity.
        - destruct (Hnn Ez) as [[rn [HPn En]] _]. pose proof (Hx2 rn HPn) as Hxn.
          rewrite En in Hxn. mem_simpl. reflexivity. }
      assert (Hfl : flists m' B (fun x => P x /\ x <> r)).
      { apply Hother with (l' := l'); try tauto.
        - intros j Hj Hji. unfold m'. rewrite Em1.
          destruct (Z.eqb_spec next 0) as [Ez|Ez].
          + mem_simpl. reflexivity.
          + destruct (Hnn Ez) as [Hn1 _]. pose proof (Hnb _ Hn1). mem_simpl. reflexivity.
        - intros a Ha Hal. unfold m'. rewrite Em1.
          pose proof (Hnb _ Ha). pose proof (Hns _ _ Ha HrP) as Hs1.
          assert (a <> r_addr r) by (intros ->; apply Hal; left; reflexivity).
          destruct (Z.eqb_spec next 0) as [Ez|Ez].
          + mem_simpl. reflexivity.
          + destruct (Hnn Ez) as [Hn1 _]. pose proof (Hns _ _ Ha Hn1) as Hs2.
            assert (a <> next).
            { intros ->. apply Hal. right. destruct Hnext; [contradiction|assumption]. }
            mem_simpl. reflexivity.
        - assert (Eh : get64 m' (B + (32 + 8 * i)) = next).
          { unfold m'. rewrite Em1. destruct (Z.eqb_spec next 0) as [Ez|Ez].
            - mem_simpl. reflexivity.
            - destruct (Hnn Ez) as [Hn1 _]. pose proof (Hnb _ Hn1). mem_simpl. reflexivity. }
          rewrite Eh. eapply lseg_frame; [exact Hl'|].
          intros x Hx. unfold m'. rewrite Em1.
          assert (Hxn : is_node P x) by (apply Hnode; right; exact Hx).
          pose proof (Hnb _ Hxn). pose proof (Hns _ _ Hxn HrP) as Hs1.
          assert (x <> r_addr r) by (intros ->; contradiction).
          destruct (Z.eqb_spec next 0) as [Ez|Ez].
          + mem_simpl. reflexivity.
          + destruct (Hnn Ez) as [Hn1 _]. pose proof (Hns _ _ Hxn Hn1) as Hs2.
            mem_simpl. reflexivity.
        - intros a. cbn [In]. split.
          + intros Ha. split; [right; exact Ha|]. intros ->. contradiction.
          + intros [[E|Ha] Hne]; [congruence|exact Ha]. }
      destruct (bg_links_update _ m' _ _ _ _ P (fun x => P x /\ x <> r) H) as [G1 G2].
      - intros r0 Hr0. apply (bg_P _ _ _ _ _ H r0 Hr0).
      - exact Hfr.
      - intros r0 [Hr0 _]. apply (bg_P _ _ _ _ _ H r0 Hr0).
      - exact Hfl.
      - apply HQ; try assumption.
        apply (links_keeps _ _ _ _ _ _ P W H HPin HWh HWc Hfr). }
    destruct (Z.eqb_spec next 0) as [Ez|Ez]; cbn [negb].
    + apply wp_ret. apply Hfin. reflexivity.
    + destruct (Hnn Ez) as [Hn1 _]. pose proof (Hnb _ Hn1).
      rewrite wrap64_small by lia.
      apply wp_store64; [st_simpl; in_block Hm|]. st_simpl.
      apply Hfin. reflexivity.
  - (* element in the middle of the list *)
    assert (Hil' : In (r_addr r) l') by (destruct Hil; [contradiction|assumption]).
    destruct (in_split _ _ Hil') as [la [l2 El']].
    destruct (exists_snoc y la) as [l1 [aux Ela]].
    assert (El : y :: l' = l1 ++ aux :: r_addr r :: l2).
    { rewrite El'. change (y :: la ++ r_addr r :: l2) with ((y :: la) ++ r_addr r :: l2).
      rewrite Ela, <- app_assoc. reflexivity. }
    rewrite El in *. clear El El' Ela Hil' la.
    apply wp_bind.
    eapply wp_lim;
      [change 16 with (8 + 8); apply remove_walk_spec with (l1 := l1) (aux := aux) (l2 := l2)|].
    + lia.
    + rewrite <- Hy. exact Hl.
    + exact Hnd.
    + eapply bg_nodes_ok; [exact H|]. exact Hnode.
    + cbv zeta. set (next := get64 (bytes s) (r_addr r + 8)) in *.
      assert (Hauxn : is_node P aux).
      { apply Hnode, in_or_app. right. left. reflexivity. }
      pose proof (Hnb _ Hauxn) as Hbaux.
      destruct (NoDup_mid2 _ _ _ _ Hnd) as [Hnd1 [Hni [Hnaux Haux_ne]]].
      assert (Hnext : next = 0 \/ In next l2).
      { pose proof (lseg_app2 _ _ _ _ _ _ _ Hl) as Hl2.
        destruct l2 as [|z l2']; cbn [lseg] in Hl2; [left; exact Hl2|].
        right. left. symmetry. tauto. }
      assert (Hin2 : forall x, In x l2 -> In x (l1 ++ aux :: r_addr r :: l2)).
      { intros x Hx. apply in_or_app. right. right. right. exact Hx. }
      assert (Hnn : next <> 0 -> is_node P next /\ next <> r_addr r /\ next <> aux).
      { intros Hz. destruct Hnext as [?|Hn]; [contradiction|]. split; [|split].
        - apply Hnode, Hin2, Hn.
        - intros E. rewrite E in Hn. apply Hni, in_or_app. right. right. exact Hn.
        - intros E. rewrite E in Hn. apply Hnaux, in_or_app. right. exact Hn. }
      apply wp_bind, wp_store64; [st_simpl; in_block Hm|]. st_simpl.
      apply wp_bind, wp_store64; [st_simpl; in_block Hm|]. st_simpl.
      apply wp_ret.
      match goal with |- Q 0 (with_bytes s ?m) => set (m' := m) end.
      assert (Hfr : forall x, x < B + 32 \/ B + 80 <= x ->
                (forall r0, P r0 -> x < r_addr r0 + 8 \/ r_addr r0 + 24 <= x) ->
                m' x = bytes s x).
      { intros x Hx1 Hx2. pose proof (Hx2 r HP) as Hxr.
        destruct Hauxn as [ra [HPa Ea]]. pose proof (Hx2 ra HPa) as Hxa. rewrite Ea in Hxa.
        unfold m'.
        destruct (Z.eqb_spec next 0) as [Ez|Ez].
        - mem_simpl. reflexivity.
        - destruct (Hnn Ez) as [[rn [HPn En]] _]. pose proof (Hx2 rn HPn) as Hxn.
          rewrite En in Hxn. mem_simpl. reflexivity. }
      assert (Hfl : flists m' B (fun x => P x /\ x <> r)).
      { apply Hother with (l' := l1 ++ aux :: l2); try tauto.
        - intros j Hj Hji. unfold m'.
          destruct (Z.eqb_spec next 0) as [Ez|Ez].
          + mem_simpl. reflexivity.
          + destruct (Hnn Ez) as [Hn1 _]. pose proof (Hnb _ Hn1). mem_simpl. reflexivity.
        - intros a Ha Hal. unfold m'.
          pose proof (Hnb _ Ha). pose proof (Hns _ _ Ha HrP) as Hs1.
          pose proof (Hns _ _ Ha Hauxn) as Hs3.
          assert (a <> r_addr r).
          { intros ->. apply Hal, in_or_app. right. right. left. reflexivity. }
          assert (a <> aux).
          { intros ->. apply Hal, in_or_app. right. left. reflexivity. }
          destruct (Z.eqb_spec next 0) as [Ez|Ez].
          + mem_simpl. reflexivity.
          + destruct (Hnn Ez) as [Hn1 _]. pose proof (Hns _ _ Ha Hn1) as Hs2.
            assert (a <> next).
            { intros ->. apply Hal. destruct Hnext; [contradiction|]. apply Hin2. assumption. }
            mem_simpl. reflexivity.
        - assert (Eh : get64 m' (B + (32 + 8 * i)) = get64 (bytes s) (B + (32 + 8 * i))).
          { unfold m'. destruct (Z.eqb_spec next 0) as [Ez|Ez].
            - mem_simpl. reflexivity.
            - destruct (Hnn Ez) as [Hn1 _]. pose proof (Hnb _ Hn1). mem_simpl. reflexivity. }
          rewrite Eh. eapply lseg_remove_after; [exact Hl| |].
          + unfold m'. pose proof (Hns _ _ Hauxn HrP).
            destruct (Z.eqb_spec next 0) as [Ez|Ez].
            * mem_simpl. reflexivity.
            * destruct (Hnn Ez) as [Hn1 [Hn2 Hn3]]. pose proof (Hnb _ Hn1).
              pose proof (Hns _ _ Hn1 Hauxn).
              mem_simpl. reflexivity.
          + intros x Hx. unfold m'.
            assert (Hxl : In x (l1 ++ aux :: r_addr r :: l2)).
            { apply in_app_or in Hx. apply in_or_app.
              destruct Hx; [left; assumption|right; right; right; assumption]. }
            assert (Hxn : is_node P x) by (apply Hnode; exact Hxl).
            pose proof (Hnb _ Hxn). pose proof (Hns _ _ Hxn HrP) as Hs1.
            pose proof (Hns _ _ Hxn Hauxn) as Hs3.
            assert (x <> aux /\ x <> r_addr r).
            { split; intros ->.
              - apply Hnaux. exact Hx.
              - apply Hni. apply in_app_or in Hx. apply in_or_app.
                destruct Hx; [left; assumption|right; right; assumption]. }
            destruct (Z.eqb_spec next 0) as [Ez|Ez].
            * mem_simpl. reflexivity.
            * destruct (Hnn Ez) as [Hn1 _]. pose proof (Hns _ _ Hxn Hn1) as Hs2.
              mem_simpl. reflexivity.
        - intros a. rewrite !in_app_iff. cbn [In].
          rewrite in_app_iff in Hni. cbn [In] in Hni.
          split.
          + intros Ha. split; [tauto|]. intros ->. tauto.
          + intros [Ha Hne]. destruct Ha as [?|[?|[?|?]]]; try tauto. congruence. }
      destruct (bg_links_update _ m' _ _ _ _ P (fun x => P x /\ x <> r) H) as [G1 G2].
      * intros r0 Hr0. apply (bg_P _ _ _ _ _ H r0 Hr0).
      * exact Hfr.
      * intros r0 [Hr0 _]. apply (bg_P _ _ _ _ _ H r0 Hr0).
      * exact Hfl.
      * apply HQ; try assumption.
        apply (links_keeps _ _ _ _ _ _ P W H HPin HWh HWc Hfr).
    + intros Hf. etransitivity; [exact Hf|].
      apply (bg_list_length _ _ _ _ _ _ H Hnd). exact Hnode.
Qed.

Lemma remove_spec fuel s B rs P r (Q : Z -> state -> Prop) :
  block_gen (bytes s) (mapped s) B rs P -> P r ->
  (forall m', block_gen m' (mapped s) B rs (fun x => P x /\ x <> r) ->
              block_frame (bytes s) m' B -> Q 0 (with_bytes s m')) ->
  wp (fuel <= length rs)%nat (Block_removeRegionFromFreeList fuel B (r_addr r)) s Q.
Proof.
  intros H HP HQ. apply (remove_frame (fun _ => True) fuel s B rs P r); try assumption.
  - apply covers_header_all.
  - intros r0 _. apply covers_links_all.
  - intros m' G F _. apply HQ; assumption.
Qed.

(** Rebuilding the free lists after list [i] was changed. *)
Lemma flists_update m m' mp B rs P (P' : region -> Prop) i l l' :
  block_gen m mp B rs P -> 0 <= i < 6 ->
  lseg m off_next (get64 m (B + off_freeRegions i)) l ->
  (forall a, In a l <-> exists r, P r /\ r_addr r = a /\ toFreeListIndex (r_size r) = i) ->
  (forall j, 0 <= j < 6 -> j <> i ->
     get64 m' (B + off_freeRegions j) = get64 m (B + off_freeRegions j)) ->
  (forall a, is_node P a -> ~ In a l -> get64 m' (a + off_next) = get64 m (a + off_next)) ->
  lseg m' off_next (get64 m' (B + off_freeRegions i)) l' -> NoDup l' ->
  (forall a, In a l' <->
     exists r, P' r /\ r_addr r = a /\ toFreeListIndex (r_size r) = i) ->
  (forall r, toFreeListIndex (r_size r) <> i -> (P' r <-> P r)) ->
  flists m' B P'.
Proof.
  intros H Hi Hl Hmem Hh Hn Hl' Hnd' Hmem' HPP j Hj.
  destruct (Z.eq_dec j i) as [->|Hji].
  - exists l'. split; [exact Hl'|]. split; [exact Hnd'|]. exact Hmem'.
  - destruct (bg_flists _ _ _ _ _ H j Hj) as [lj [Hlj [Hndj Hmemj]]].
    exists lj. split; [|split; [exact Hndj|]].
    + rewrite Hh by assumption. eapply lseg_frame; [exact Hlj|].
      intros x Hx. apply Hn.
      * apply Hmemj in Hx. destruct Hx as [r' [? [? ?]]]. exists r'. tauto.
      * intros Hxl. apply Hmemj in Hx. apply Hmem in Hxl.
        destruct Hx as [r1 [HP1 [E1 C1]]]. destruct Hxl as [r2 [HP2 [E2 C2]]].
        assert (r1 = r2).
        { apply (bg_addr_inj _ _ _ _ _ _ _ H); try congruence;
            apply (bg_P _ _ _ _ _ H); assumption. }
        subst r2. congruence.
    + intros a. rewrite Hmemj. split.
      * intros [r0 [HP0 [E0 C0]]]. exists r0. repeat split; try assumption.
        apply HPP; [lia | exact HP0].
      * intros [r0 [HP0 [E0 C0]]]. exists r0. repeat split; try assumption.
        apply HPP; [lia | exact HP0].
Qed.

(** [Block_addRegionToFreeList] links the free region [r]; it writes
    only link fields of [r] and of listed regions, and the list head. *)
Lemma add_frame W fuel s B rs P r (Q : Z -> state -> Prop) :
  block_gen (bytes s) (mapped s) B rs P -> In r rs -> r_used r = 0 -> ~ P r ->
  covers_header W B -> covers_links W r -> (forall r0, P r0 -> covers_links W r0) ->
  (forall m', block_gen m' (mapped s) B rs (fun x => P x \/ x = r) ->
              block_frame (bytes s) m' B -> keeps W (bytes s) m' ->
              Q 0 (with_bytes s m')) ->
  wp (fuel <= length rs)%nat (Block_addRegionToFreeList fuel B (r_addr r)) s Q.
Proof.
  intros H Hin Hfree HnP HWh HWr HWc HQ. pose proof USER_TOP_eq as HT.
  pose proof (bg_bounds _ _ _ _ _ _ H Hin) as Hb.
  pose proof (bg_mapped _ _ _ _ _ H) as Hm.
  unfold Block_addRegionToFreeList.
  destruct (Z.eqb_spec (r_addr r) 0); [lia|].
  apply wp_bind, wp_load_size; [in_block Hm|].
  rewrite (bg_size_read _ _ _ _ _ _ H Hin).
  destruct (Z.eqb_spec (r_size r) 0); [lia|].
  pose proof (toFreeListIndex_range (r_size r)) as Hi.
  set (i := toFreeListIndex (r_size r)) in *.
  destruct (bg_flists _ _ _ _ _ H i Hi) as [l [Hl [Hnd Hmem]]].
  set (O := fun x => P x \/ x = r).
  assert (HO : forall r0, O r0 -> In r0 rs).
  { intros r0 [Hr0| ->]; [apply (bg_P _ _ _ _ _ H r0 Hr0)|exact Hin]. }
  assert (HO' : forall r0, O r0 -> In r0 rs /\ r_used r0 = 0).
  { intros r0 [Hr0| ->]; [apply (bg_P _ _ _ _ _ H r0 Hr0)|tauto]. }
  assert (Hnode : forall a, In a l -> is_node P a).
  { intros a Ha. apply Hmem in Ha. destruct Ha as [r' [? [? ?]]]. exists r'. tauto. }
  assert (Hnb := fun a Ha => bg_node_bounds _ _ _ _ _ a H Ha).
  assert (Hsr : forall a, is_node P a -> a + 28 <= r_addr r \/ r_addr r + 28 <= a).
  { intros a [r0 [HP0 E0]]. subst a.
    pose proof (proj1 (bg_P _ _ _ _ _ H r0 HP0)) as H0.
    pose proof (bg_bounds _ _ _ _ _ _ H H0).
    destruct (bg_sep _ _ _ _ _ _ _ H H0 Hin) as [->|D]; [contradiction|lia]. }
  assert (Hns := fun a b Ha Hb => bg_node_sep _ _ _ _ _ a b H Ha Hb).
  assert (Hnil : ~ In (r_addr r) l).
  { intros Hc. apply Hnode in Hc. apply Hsr in Hc. lia. }
  assert (Hmem' : forall l', (forall a, In a l' <-> a = r_addr r \/ In a l) ->
            forall a, In a l' <->
              exists r0, O r0 /\ r_addr r0 = a /\ toFreeListIndex (r_size r0) = i).
  { intros l' Hl' a. rewrite Hl', Hmem. split.
    - intros [->|[r0 [HP0 [E0 C0]]]].
      + exists r. split; [right; reflexivity|]. split; reflexivity.
      + exists r0. split; [left; exact HP0|]. tauto.
    - intros [r0 [[HP0| ->] [E0 C0]]].
      + right. exists r0. tauto.
      + left. symmetry. exact E0. }
  assert (HPP : forall r0, toFreeListIndex (r_size r0) <> i -> (O r0 <-> P r0)).
  { intros r0 Hc. split; [|intros; left; assumption].
    intros [?| ->]; [assumption|]. exfalso. apply Hc. reflexivity. }
  assert (Hfin : forall m' l',
     (forall x, x < B + 32 \/ B + 80 <= x ->
        (forall r0, O r0 -> x < r_addr r0 + 8 \/ r_addr r0 + 24 <= x) -> m' x = bytes s x) ->
     (forall j, 0 <= j < 6 -> j <> i ->
        get64 m' (B + off_freeRegions j) = get64 (bytes s) (B + off_freeRegions j)) ->
     (forall a, is_node P a -> ~ In a l ->
        get64 m' (a + off_next) = get64 (bytes s) (a + off_next)) ->
     lseg m' off_next (get64 m' (B + off_freeRegions i)) l' -> NoDup l' ->
     (forall a, In a l' <-> a = r_addr r \/ In a l) ->
     Q 0 (with_bytes s m')).
  { intros m' l' Hfr Hh Hn Hl' Hnd' Hin'.
    destruct (bg_links_update _ m' _ _ _ _ O O H HO Hfr HO') as [G1 G2].
    - eapply flists_update; try eassumption. apply Hmem'. exact Hin'.
    - apply HQ; try assumption.
      apply (links_keeps _ _ _ _ _ _ O W H HO HWh); [|exact Hfr].
      intros r0 [Hr0| ->]; [apply HWc; exact Hr0|exact HWr]. }
  unfold off_freeRegions, off_next, off_previous in *.
  rewrite !wrap64_small by lia.
  apply wp_bind, wp_load64; [in_block Hm|].
  apply wp_bind, wp_load64; [in_block Hm|].
  set (hd := get64 (bytes s) (B + (32 + 8 * i))) in *.
  destruct (Z.eqb_spec hd 0) as [Eh|Eh].
  - (* empty list *)
    assert (l = []).
    { destruct l as [|y l']; [reflexivity|]. cbn [lseg] in Hl. lia. }
    subst l.
    apply wp_bind, wp_store64; [in_block Hm|]. st_simpl.
    apply wp_bind, wp_store64; [in_block Hm|]. st_simpl.
    apply wp_bind, wp_store64; [in_block Hm|]. st_simpl.
    apply wp_ret. apply Hfin with (l' := [r_addr r]).
    + intros x Hx1 Hx2. pose proof (Hx2 r (or_intror eq_refl)). mem_simpl. reflexivity.
    + intros j Hj Hji. mem_simpl. reflexivity.
    + intros a Ha _. pose proof (Hnb _ Ha). pose proof (Hsr _ Ha). mem_simpl. reflexivity.
    + cbn [lseg]. mem_simpl. repeat split; try lia.
    + constructor; [intros []|constructor].
    + intros a. cbn [In]. intuition congruence.
  - destruct l as [|y l']; [cbn [lseg] in Hl; contradiction|].
    destruct (lseg_head _ _ _ _ _ Hl) as [Hy Hy0].
    assert (Hyn : is_node P y) by (apply Hnode; left; reflexivity).
    pose proof (Hnb _ Hyn) as Hby. pose proof (Hsr _ Hyn) as Hsy.
    destruct (Z.gtb_spec hd (r_addr r)) as [Hgt|Hle].
    + (* insert before the head *)
      rewrite !wrap64_small by lia.
      apply wp_bind, wp_store64; [in_block Hm|]. st_simpl.
      apply wp_bind, wp_store64; [in_block Hm|]. st_simpl.
      apply wp_bind, wp_store64; [in_block Hm|]. st_simpl.
      apply wp_bind, wp_store64; [in_block Hm|]. st_simpl.
      apply wp_ret. apply Hfin with (l' := r_addr r :: y :: l').
      * intros x Hx1 Hx2. pose proof (Hx2 r (or_intror eq_refl)).
        destruct Hyn as [ry [HPy Ey]]. pose proof (Hx2 ry (or_introl HPy)) as Hxy.
        rewrite Ey in Hxy. mem_simpl. reflexivity.
      * intros j Hj Hji. mem_simpl. reflexivity.
      * intros a Ha Hal. pose proof (Hnb _ Ha). pose proof (Hsr _ Ha).
        pose proof (Hns _ _ Ha Hyn).
        assert (a <> y) by (intros ->; apply Hal; left; reflexivity).
        mem_simpl. reflexivity.
      * cbn [lseg]. mem_simpl. split; [reflexivity|]. split; [lia|].
        split; [lia|]. split; [lia|].
        destruct Hl as [_ [_ Hl]]. eapply lseg_frame; [exact Hl|].
        intros x Hx. apply NoDup_cons_iff in Hnd.
        assert (Hxn : is_node P x) by (apply Hnode; right; exact Hx).
        pose proof (Hnb _ Hxn). pose proof (Hsr _ Hxn). pose proof (Hns _ _ Hxn Hyn).
        assert (x <> y) by (intros ->; tauto).
        mem_simpl. reflexivity.
      * constructor; assumption.
      * intros a. cbn [In]. intuition congruence.
    + (* insert after the node found by the walk *)
      apply wp_bind. eapply wp_lim; [apply insert_walk_spec with (l := y :: l')|].
      * lia.
      * fold hd. exact Hl.
      * discriminate.
      * eapply bg_nodes_ok; [exact H|]. exact Hnode.
      * intros l1 aux l2 El. rewrite El in *.
        assert (Hauxn : is_node P aux).
        { apply Hnode, in_or_app. right. left. reflexivity. }
        pose proof (Hnb _ Hauxn) as Hba. pose proof (Hsr _ Hauxn) as Hsa.
        rewrite !wrap64_small by lia.
        apply wp_bind, wp_load64; [in_block Hm|].
        apply wp_bind, wp_store64; [in_block Hm|]. st_simpl.
        apply wp_bind, wp_store64; [in_block Hm|]. st_simpl.
        apply wp_bind, wp_store64; [in_block Hm|]. st_simpl.
        apply wp_ret. apply Hfin with (l' := l1 ++ aux :: r_addr r :: l2).
        -- intros x Hx1 Hx2. pose proof (Hx2 r (or_intror eq_refl)).
           destruct Hauxn as [ra [HPa Ea]]. pose proof (Hx2 ra (or_introl HPa)) as Hxa.
           rewrite Ea in Hxa. mem_simpl. reflexivity.
        -- intros j Hj Hji. mem_simpl. reflexivity.
        -- intros a Ha Hal. pose proof (Hnb _ Ha). pose proof (Hsr _ Ha).
           pose proof (Hns _ _ Ha Hauxn).
           assert (a <> aux).
           { intros ->. apply Hal, in_or_app. right. left. reflexivity. }
           mem_simpl. reflexivity.
        -- assert (Ehd : get64 (set64 (set64 (set64 (bytes s) (r_addr r + 8)
                     (get64 (bytes s) (aux + 8))) (r_addr r + 16) aux) (aux + 8) (r_addr r))
                     (B + (32 + 8 * i)) = hd) by (mem_simpl; reflexivity).
           rewrite Ehd. eapply lseg_insert_after; [exact Hl|lia| | |].
           ++ mem_simpl. reflexivity.
           ++ mem_simpl. reflexivity.
           ++ intros x Hx.
              assert (Hxl : In x (l1 ++ aux :: l2)).
              { apply in_app_or in Hx. apply in_or_app.
                destruct Hx; [left|right; right]; assumption. }
              assert (Hxn : is_node P x).
              { apply Hnode. apply in_app_or in Hx. apply in_or_app.
                destruct Hx; [left|right; right]; assumption. }
              pose proof (Hnb _ Hxn). pose proof (Hsr _ Hxn). pose proof (Hns _ _ Hxn Hauxn).
              assert (x <> aux).
              { intros ->. apply NoDup_remove_2 in Hnd. contradiction. }
              mem_simpl. reflexivity.
        -- apply NoDup_insert_mid; [exact Hnd|exact Hnil].
        -- intros a. rewrite !in_app_iff. cbn [In]. intuition congruence.
      * intros Hf. etransitivity; [exact Hf|].
        apply (bg_list_length _ _ _ _ _ _ H Hnd). exact Hnode.
Qed.

Lemma add_spec fuel s B rs P r (Q : Z -> state -> Prop) :
  block_gen (bytes s) (mapped s) B rs P -> In r rs -> r_used r = 0 -> ~ P r ->
  (forall m', block_gen m' (mapped s) B rs (fun x => P x \/ x = r) ->
              block_frame (bytes s) m' B -> Q 0 (with_bytes s m')) ->
  wp (fuel <= length rs)%nat (Block_addRegionToFreeList fuel B (r_addr r)) s Q.
Proof.
  intros H Hin Hfree HnP HQ.
  apply (add_frame (fun _ => True) fuel s B rs P r); try assumption.
  - apply covers_header_all.
  - apply covers_links_all.
  - intros r0 _. apply covers_links_all.
  - intros m' G F _. apply HQ; assumption.
Qed.

(** * Read-only scans of the free lists *)

Lemma bg_hdr_ok m mp B rs P l :
  block_gen m mp B rs P -> (forall a, In a l -> is_node P a) -> hdr_ok mp l.
Proof.
  intros H Hl x Hx. pose proof (bg_node_bounds _ _ _ _ _ _ H (Hl x Hx)) as Hb.
  pose proof (bg_mapped _ _ _ _ _ H) as Hm. unfold off_next.
  repeat split; try lia; in_block Hm.
Qed.

Lemma canAllocate_list_spec fuel s h l size (Q : Z -> state -> Prop) :
  lseg (bytes s) off_next h l -> hdr_ok (mapped s) l ->
  (forall x, In x l ->
     FreeRegion_getSizeForAlignment x size < md_size (get32 (bytes s) x) -> Q x s) ->
  ((forall x, In x l ->
     ~ FreeRegion_getSizeForAlignment x size < md_size (get32 (bytes s) x)) -> Q 0 s) ->
  wp (fuel <= length l)%nat (canAllocate_list fuel h size) s Q.
Proof.
  revert fuel h. pose proof USER_TOP_eq as HT.
  induction l as [|x l IH]; intros fuel h Hl Hok Hyes Hno.
  - destruct fuel as [|k]; [unfold wp; cbn; lia|].
    cbn [lseg] in Hl. subst h. cbn [canAllocate_list]. rewrite Z.eqb_refl.
    apply wp_ret. apply Hno. intros x [].
  - destruct fuel as [|k]; [unfold wp; cbn; lia|].
    destruct Hl as [Hh [Hx Hl]]. subst h. cbn [canAllocate_list].
    destruct (Z.eqb_spec x 0); [contradiction|].
    destruct (Hok x (or_introl eq_refl)) as [Hx0 [Hx1 [Hm1 Hm2]]].
    apply wp_bind, wp_load_size; [exact Hm1|].
    destruct (Z.ltb_spec (FreeRegion_getSizeForAlignment x size)
                         (md_size (get32 (bytes s) x))) as [Hlt|Hge].
    + apply wp_ret. apply Hyes; [left; reflexivity|exact Hlt].
    + unfold off_next in *. rewrite wrap64_small by lia.
      apply wp_bind, wp_load64; [exact Hm2|].
      eapply wp_lim; [apply IH|].
      * exact Hl.
      * intros y Hy. apply Hok. right. exact Hy.
      * intros y Hy. apply Hyes. right. exact Hy.
      * intros Hn. apply Hno. intros y [->|Hy]; [lia|apply Hn; exact Hy].
      * cbn [length]. lia.
Qed.

Lemma canAllocate_sets_spec fuel s B rs P size n i (Q : Z -> state -> Prop) :
  block_gen (bytes s) (mapped s) B rs P ->
  0 <= i -> i + Z.of_nat n = 6 ->
  (forall r, P r -> FreeRegion_getSizeForAlignment (r_addr r) size < r_size r ->
             Q (r_addr r) s) ->
  ((forall r, P r -> i <= toFreeListIndex (r_size r) ->
              ~ FreeRegion_getSizeForAlignment (r_addr r) size < r_size r) -> Q 0 s) ->
  wp (fuel <= length rs)%nat (canAllocate_sets fuel n i B size) s Q.
Proof.
  intros H. pose proof USER_TOP_eq as HT.
  pose proof (bg_mapped _ _ _ _ _ H) as Hm. pose proof (bg_size _ _ _ _ _ H) as Hsz.
  pose proof (bg_pos _ _ _ _ _ H) as Hpos. pose proof (bg_top _ _ _ _ _ H) as Htop.
  revert i. induction n as [|n IH]; intros i Hi Hn Hyes Hno.
  - cbn [canAllocate_sets]. apply wp_ret. apply Hno. intros r HP Hc.
    pose proof (toFreeListIndex_range (r_size r)). lia.
  - cbn [canAllocate_sets]. unfold off_freeRegions.
    rewrite wrap64_small by lia.
    apply wp_bind, wp_load64; [in_block Hm|].
    destruct (bg_flists _ _ _ _ _ H i ltac:(lia)) as [l [Hl [Hnd Hmem]]].
    unfold off_freeRegions in Hl.
    assert (Hnode : forall a, In a l -> is_node P a).
    { intros a Ha. apply Hmem in Ha. destruct Ha as [r' [? [? ?]]]. exists r'. tauto. }
    assert (Hsize : forall x, In x l -> exists r, P r /\ r_addr r = x /\
                      toFreeListIndex (r_size r) = i /\
                      md_size (get32 (bytes s) x) = r_size r).
    { intros x Hx. apply Hmem in Hx. destruct Hx as [r [HP [E C]]].
      exists r. repeat split; try assumption. subst x.
      apply (bg_size_read _ _ _ _ _ _ H). apply (bg_P _ _ _ _ _ H r HP). }
    apply wp_bind. eapply wp_lim; [apply canAllocate_list_spec with (l := l)|].
    + exact Hl.
    + eapply bg_hdr_ok; [exact H|exact Hnode].
    + intros x Hx Hlt. destruct (Hsize x Hx) as [r [HP [E [C Es]]]].
      pose proof (bg_node_bounds _ _ _ _ _ _ H (Hnode x Hx)).
      destruct (Z.eqb_spec x 0); [lia|]. cbn [negb]. apply wp_ret.
      subst x. apply Hyes; [exact HP|]. rewrite <- Es. exact Hlt.
    + intros Hnone. rewrite Z.eqb_refl. cbn [negb].
      eapply IH; [lia|lia|exact Hyes|].
      intros Hn'. apply Hno. intros r HP Hc.
      destruct (Z.eq_dec (toFreeListIndex (r_size r)) i) as [E|E].
      * assert (Hrl : In (r_addr r) l) by (apply Hmem; exists r; tauto).
        destruct (Hsize _ Hrl) as [r' [HP' [E' [C' Es']]]].
        assert (r' = r).
        { apply (bg_addr_inj _ _ _ _ _ _ _ H); try assumption;
            apply (bg_P _ _ _ _ _ H); assumption. }
        subst r'. rewrite <- Es'. apply Hnone. exact Hrl.
      * apply Hn'; [exact HP|lia].
    + intros Hf. etransitivity; [exact Hf|].
      apply (bg_list_length _ _ _ _ _ _ H Hnd). exact Hnode.
Qed.

Lemma canAllocate_spec fuel s B rs P size (Q : Z -> state -> Prop) :
  block_gen (bytes s) (mapped s) B rs P ->
  (forall r, P r ->
     FreeRegion_getSizeForAlignment (r_addr r) (wrap32 size) < r_size r -> Q (r_addr r) s) ->
  ((forall r, P r ->
     ~ FreeRegion_getSizeForAlignment (r_addr r) (wrap32 size) < r_size r) -> Q 0 s) ->
  wp (fuel <= length rs)%nat (Block_canAllocateSize fuel B size) s Q.
Proof.
  intros H Hyes Hno. unfold Block_canAllocateSize.
  pose proof (bg_pos _ _ _ _ _ H).
  destruct (Z.eqb_spec B 0); [lia|].
  eapply canAllocate_sets_spec with (P := P); [exact H|lia|reflexivity|exact Hyes|].
  intros Hn. apply Hno. intros r HP. apply Hn; [exact HP|].
  pose proof (toFreeListIndex_range (r_size r)). lia.
Qed.

(** [Block_isFreeRegion] *)

Lemma isFreeRegion_list_spec fuel s h l addr (Q : bool -> state -> Prop) :
  lseg (bytes s) off_next h l -> hdr_ok (mapped s) l ->
  (forall x, In x l ->
     x = addr \/ wrap64 (x + md_size (get32 (bytes s) x) - 4) = addr -> Q true s) ->
  ((forall x, In x l ->
     x <> addr /\ wrap64 (x + md_size (get32 (bytes s) x) - 4) <> addr) -> Q false s) ->
  wp (fuel <= length l)%nat (isFreeRegion_list fuel h addr) s Q.
Proof.
  revert fuel h. pose proof USER_TOP_eq as HT.
  induction l as [|x l IH]; intros fuel h Hl Hok Hyes Hno.
  - destruct fuel as [|k]; [unfold wp; cbn; lia|].
    cbn [lseg] in Hl. subst h. cbn [isFreeRegion_list]. rewrite Z.eqb_refl.
    apply wp_ret. apply Hno. intros x [].
  - destruct fuel as [|k]; [unfold wp; cbn; lia|].
    destruct Hl as [Hh [Hx Hl]]. subst h. cbn [isFreeRegion_list].
    destruct (Z.eqb_spec x 0); [contradiction|].
    destruct (Hok x (or_introl eq_refl)) as [Hx0 [Hx1 [Hm1 Hm2]]].
    apply wp_bind, wp_load_size; [exact Hm1|]. unfold sizeof_AllocMetadata.
    destruct (Z.eqb_spec x addr) as [E1|E1]; cbn [orb].
    + apply wp_ret. apply (Hyes x); [left; reflexivity|left; exact E1].
    + destruct (Z.eqb_spec (wrap64 (x + md_size (get32 (bytes s) x) - 4)) addr) as [E2|E2].
      * apply wp_ret. apply (Hyes x); [left; reflexivity|right; exact E2].
      * unfold off_next in *. rewrite wrap64_small by lia.
        apply wp_bind, wp_load64; [exact Hm2|].
        eapply wp_lim; [apply IH|].
        -- exact Hl.
        -- intros y Hy. apply Hok. right. exact Hy.
        -- intros y Hy. apply Hyes. right. exact Hy.
        -- intros Hn. apply Hno. intros y [->|Hy]; [tauto|apply Hn; exact Hy].
        -- cbn [length]. lia.
Qed.

Lemma isFreeRegion_sets_spec fuel s B rs P addr n i (Q : Z -> state -> Prop) :
  block_gen (bytes s) (mapped s) B rs P ->
  0 <= i -> i + Z.of_nat n = 6 ->
  (forall r, P r -> r_addr r = addr \/ r_addr r + r_size r - 4 = addr -> Q 1 s) ->
  ((forall r, P r -> i <= toFreeListIndex (r_size r) ->
              r_addr r <> addr /\ r_addr r + r_size r - 4 <> addr) -> Q 0 s) ->
  wp (fuel <= length rs)%nat (isFreeRegion_sets fuel n i B addr) s Q.
Proof.
  intros H. pose proof USER_TOP_eq as HT.
  pose proof (bg_mapped _ _ _ _ _ H) as Hm. pose proof (bg_size _ _ _ _ _ H) as Hsz.
  pose proof (bg_pos _ _ _ _ _ H) as Hpos. pose proof (bg_top _ _ _ _ _ H) as Htop.
  revert i. induction n as [|n IH]; intros i Hi Hn Hyes Hno.
  - cbn [isFreeRegion_sets]. apply wp_ret. apply Hno. intros r HP Hc.
    pose proof (toFreeListIndex_range (r_size r)). lia.
  - cbn [isFreeRegion_sets]. unfold off_freeRegions.
    rewrite wrap64_small by lia.
    apply wp_bind, wp_load64; [in_block Hm|].
    destruct (bg_flists _ _ _ _ _ H i ltac:(lia)) as [l [Hl [Hnd Hmem]]].
    unfold off_freeRegions in Hl.
    assert (Hnode : forall a, In a l -> is_node P a).
    { intros a Ha. apply Hmem in Ha. destruct Ha as [r' [? [? ?]]]. exists r'. tauto. }
    assert (Hsize : forall x, In x l -> exists r, P r /\ r_addr r = x /\
                      toFreeListIndex (r_size r) = i /\
                      wrap64 (x + md_size (get32 (bytes s) x) - 4) = x + r_size r - 4).
    { intros x Hx. apply Hmem in Hx. destruct Hx as [r [HP [E C]]].
      exists r. repeat split; try assumption. subst x.
      pose proof (proj1 (bg_P _ _ _ _ _ H r HP)) as Hin.
      rewrite (bg_size_read _ _ _ _ _ _ H Hin).
      pose proof (bg_bounds _ _ _ _ _ _ H Hin). apply wrap64_small. lia. }
    apply wp_bind. eapply wp_lim; [apply isFreeRegion_list_spec with (l := l)|].
    + exact Hl.
    + eapply bg_hdr_ok; [exact H|exact Hnode].
    + intros x Hx Hc. destruct (Hsize x Hx) as [r [HP [E [C Es]]]].
      apply wp_ret. rewrite Es in Hc. subst x. apply (Hyes r HP). exact Hc.
    + intros Hnone.
      eapply IH; [lia|lia|exact Hyes|].
      intros Hn'. apply Hno. intros r HP Hc.
      destruct (Z.eq_dec (toFreeListIndex (r_size r)) i) as [E|E].
      * assert (Hrl : In (r_addr r) l) by (apply Hmem; exists r; tauto).
        destruct (Hsize _ Hrl) as [r' [HP' [E' [C' Es']]]].
        assert (r' = r).
        { apply (bg_addr_inj _ _ _ _ _ _ _ H); try assumption;
            apply (bg_P _ _ _ _ _ H); assumption. }
        subst r'. rewrite <- Es'. apply Hnone. exact Hrl.
      * apply Hn'; [exact HP|lia].
    + intros Hf. etransitivity; [exact Hf|].
      apply (bg_list_length _ _ _ _ _ _ H Hnd). exact Hnode.
Qed.

Lemma isFreeRegion_spec fuel s B rs P addr (Q : Z -> state -> Prop) :
  block_gen (bytes s) (mapped s) B rs P ->
  (forall r, P r -> r_addr r = addr \/ r_addr r + r_size r - 4 = addr -> Q 1 s) ->
  ((forall r, P r -> r_addr r <> addr /\ r_addr r + r_size r - 4 <> addr) -> Q 0 s) ->
  wp (fuel <= length rs)%nat (Block_isFreeRegion fuel B addr) s Q.
Proof.
  intros H Hyes Hno. unfold Block_isFreeRegion.
  eapply isFreeRegion_sets_spec with (P := P); [exact H|lia|reflexivity|exact Hyes|].
  intros Hn. apply Hno. intros r HP. apply Hn; [exact HP|].
  pose proof (toFreeListIndex_range (r_size r)). lia.
Qed.

(** * Regions: sizing, splitting, marking *)

Lemma aligned_facts a size :
  0 <= size < 2^32 ->
  let al := FreeRegion_getSizeForAlignment a size in
  size < al /\ 29 <= al /\ al <= size + 44 /\ (a + al + 4) mod 16 = 0.
Proof.
  intros Hs. unfold FreeRegion_getSizeForAlignment, wrap32, wrap64,
    sizeof_FreeRegionHeader, sizeof_AllocMetadata.
  change ((24 + 4) mod 2 ^ 32) with 28.
  destruct (Z.geb_spec size 28) as [Hge|Hlt]; cbv zeta.
  - change (0 mod 2 ^ 32) with 0. rewrite !Z.add_0_r.
    set (e := (a + size + 4) mod 2^32).
    assert (He : 0 <= e < 2^32) by (apply Z.mod_pos_bound; lia).
    assert (He16 : e mod 16 = (a + size + 4) mod 16) by (unfold e; dlia).
    set (p := (16 - e mod 16) mod 2^32).
    assert (Hp : p = 16 - e mod 16) by (unfold p; dlia).
    rewrite Hp. rewrite (Z.mod_small size) by lia.
    assert (0 <= e mod 16 < 16) by (apply Z.mod_pos_bound; lia).
    rewrite Z.mod_small by lia.
    repeat split; try lia. rewrite He16. dlia.
  - rewrite (Z.mod_small size 28) by lia.
    rewrite (Z.mod_small (28 - size) (2^32)) by lia.
    replace (size + (28 - size)) with 28 by lia.
    replace (a + size + (28 - size) + 4) with (a + 28 + 4) by lia.
    set (e := (a + 28 + 4) mod 2^32).
    assert (He : 0 <= e < 2^32) by (apply Z.mod_pos_bound; lia).
    assert (He16 : e mod 16 = (a + 28 + 4) mod 16) by (unfold e; dlia).
    set (p := (16 - e mod 16) mod 2^32).
    assert (Hp : p = 16 - e mod 16) by (unfold p; dlia).
    rewrite Hp. rewrite (Z.mod_small 28) by lia.
    assert (0 <= e mod 16 < 16) by (apply Z.mod_pos_bound; lia).
    rewrite Z.mod_small by lia.
    repeat split; try lia. rewrite He16. dlia.
Qed.

(** ** The used-bytes sum *)

Lemma sum_used_cons r l :
  sum_used (r :: l) = (if r_used r =? 1 then r_size r else 0) + sum_used l.
Proof. reflexivity. Qed.

Lemma sum_used_app l1 l2 : sum_used (l1 ++ l2) = sum_used l1 + sum_used l2.
Proof.
  induction l1 as [|r l1 IH]; [reflexivity|].
  cbn [app]. rewrite !sum_used_cons, IH. lia.
Qed.

Lemma sum_size_cons r l : sum_size (r :: l) = r_size r + sum_size l.
Proof. reflexivity. Qed.

Lemma sum_size_app l1 l2 : sum_size (l1 ++ l2) = sum_size l1 + sum_size l2.
Proof.
  induction l1 as [|r l1 IH]; [reflexivity|].
  cbn [app]. rewrite !sum_size_cons, IH. lia.
Qed.

Lemma sum_used_le_size rs :
  (forall r, In r rs -> 0 <= r_size r) -> 0 <= sum_used rs <= sum_size rs.
Proof.
  induction rs as [|r rs IH]; intros H; [cbn; lia|].
  rewrite sum_used_cons, sum_size_cons.
  pose proof (H r (or_introl eq_refl)).
  assert (0 <= sum_used rs <= sum_size rs) by (apply IH; intros; apply H; right; assumption).
  destruct (r_used r =? 1); lia.
Qed.

Lemma exists_max_addr (rs : list region) :
  rs <> [] ->
  exists r l1 l2, rs = l1 ++ r :: l2 /\ forall x, In x (l1 ++ l2) -> r_addr x <= r_addr r.
Proof.
  induction rs as [|a rs IH]; intros Hne; [congruence|].
  destruct rs as [|b rs'].
  - exists a, [], []. split; [reflexivity|]. intros x [].
  - destruct IH as [r [l1 [l2 [E Hmax]]]]; [discriminate|].
    destruct (Z.le_gt_cases (r_addr a) (r_addr r)) as [Hle|Hgt].
    + exists r, (a :: l1), l2. split; [rewrite E; reflexivity|].
      intros x [->|Hx]; [exact Hle|apply Hmax; exact Hx].
    + exists a, [], (b :: rs'). split; [reflexivity|].
      cbn [app]. intros x Hx. rewrite E in Hx.
      apply in_app_or in Hx. destruct Hx as [Hx|[->|Hx]].
      * pose proof (Hmax x (in_or_app _ _ _ (or_introl Hx))). lia.
      * lia.
      * pose proof (Hmax x (in_or_app _ _ _ (or_intror Hx))). lia.
Qed.

(** Pairwise disjoint regions inside [[lo, hi)] have total size at most
    [hi - lo]. *)
Lemma sum_size_bound n : forall rs lo hi,
  length rs = n -> lo <= hi ->
  (forall r, In r rs -> 0 < r_size r /\ lo <= r_addr r /\ r_end r <= hi) ->
  pairwise_disj rs -> NoDup rs ->
  sum_size rs <= hi - lo.
Proof.
  induction n as [|n IH]; intros rs lo hi Hlen Hlh Hin Hd Hnd.
  - destruct rs; [cbn; lia|discriminate].
  - destruct (exists_max_addr rs) as [r [l1 [l2 [E Hmax]]]].
    { intros ->. discriminate. }
    subst rs. rewrite sum_size_app, sum_size_cons.
    assert (Hr : In r (l1 ++ r :: l2)) by (apply in_or_app; right; left; reflexivity).
    destruct (Hin r Hr) as [Hr1 [Hr2 Hr3]].
    assert (Hsub : forall x, In x (l1 ++ l2) -> In x (l1 ++ r :: l2)).
    { intros x Hx. apply in_app_or in Hx. apply in_or_app.
      destruct Hx; [left|right; right]; assumption. }
    assert (Hb : sum_size (l1 ++ l2) <= r_addr r - lo).
    { apply IH.
      - rewrite length_app in *. cbn [length] in Hlen. lia.
      - lia.
      - intros x Hx. destruct (Hin x (Hsub x Hx)) as [Hx1 [Hx2 Hx3]].
        repeat split; try assumption.
        destruct (Hd x r (Hsub x Hx) Hr) as [->|D].
        + exfalso. apply NoDup_remove_2 in Hnd. contradiction.
        + pose proof (Hmax x Hx). unfold disj, r_end in *. lia.
      - intros x y Hx Hy. apply Hd; apply Hsub; assumption.
      - apply NoDup_remove_1 in Hnd. exact Hnd. }
    rewrite sum_size_app in Hb. unfold r_end in *. lia.
Qed.

(** ** Permuting the region list *)

Lemma sum_used_perm l l' : Permutation l l' -> sum_used l = sum_used l'.
Proof.
  induction 1; rewrite ?sum_used_cons; try lia.
Qed.

Lemma block_gen_perm m mp B rs rs' P :
  Permutation rs rs' -> block_gen m mp B rs P -> block_gen m mp B rs' P.
Proof.
  intros Hp H.
  assert (Hi : forall r, In r rs' -> In r rs).
  { intros r Hr. eapply Permutation_in; [apply Permutation_sym; exact Hp|exact Hr]. }
  assert (Hi' : forall r, In r rs -> In r rs').
  { intros r Hr. eapply Permutation_in; [exact Hp|exact Hr]. }
  constructor; try apply H.
  - intros r Hr. apply (bg_regions _ _ _ _ _ H). auto.
  - eapply Permutation_NoDup; [exact Hp|apply H].
  - intros r1 r2 H1 H2. apply (bg_disj _ _ _ _ _ H); auto.
  - intros r Hr. apply (bg_tagged _ _ _ _ _ H). auto.
  - intros r Hr. destruct (bg_P _ _ _ _ _ H r Hr). split; auto.
  - rewrite <- (sum_used_perm _ _ Hp). apply H.
Qed.

Lemma in_perm_front {A} (x : A) l : In x l -> exists rest, Permutation l (x :: rest).
Proof.
  intros H. destruct (in_split _ _ H) as [l1 [l2 ->]].
  exists (l1 ++ l2). apply Permutation_sym, Permutation_middle.
Qed.

(** ** Rewriting a group of regions *)

Lemma flists_frame m m' mp B rs P :
  block_gen m mp B rs P ->
  (forall x, B + 32 <= x < B + 80 -> m' x = m x) ->
  (forall a, is_node P a -> get64 m' (a + off_next) = get64 m (a + off_next)) ->
  flists m' B P.
Proof.
  intros H Hh Hn i Hi.
  destruct (bg_flists _ _ _ _ _ H i Hi) as [l [Hl [Hnd Hmem]]].
  exists l. split; [|split; assumption].
  assert (Eh : get64 m' (B + off_freeRegions i) = get64 m (B + off_freeRegions i)).
  { apply get64_ext. intros x Hx. apply Hh. unfold off_freeRegions in Hx. lia. }
  rewrite Eh. eapply lseg_frame; [exact Hl|].
  intros x Hx. apply Hn. apply Hmem in Hx. destruct Hx as [r [? [? ?]]].
  exists r. tauto.
Qed.

(** The regions [old] are rewritten into [new]; memory changes only
    inside [old] and in the [usedSize] field. *)
Lemma bg_replace m m' mp B old new rest P :
  block_gen m mp B (old ++ rest) P ->
  (forall r, In r old -> ~ P r) ->
  (forall x, (forall r, In r old -> x < r_addr r \/ r_end r <= x) ->
             x < B + 8 \/ B + 12 <= x -> m' x = m x) ->
  (forall r, In r new -> region_fits m B r /\ tagged m' r) ->
  NoDup new -> pairwise_disj new ->
  (forall r x, In r new -> In x rest -> disj r x) ->
  get32 m' (B + off_usedSize) = sizeof_BlockHeader + sum_used (new ++ rest) ->
  block_gen m' mp B (new ++ rest) P /\ block_frame m m' B.
Proof.
  intros H HnP Hf Hnew Hnd Hdj Hnr Hus.
  assert (Hold : forall r, In r old -> In r (old ++ rest)).
  { intros r Hr. apply in_or_app. left. exact Hr. }
  assert (Hrest : forall r, In r rest -> In r (old ++ rest)).
  { intros r Hr. apply in_or_app. right. exact Hr. }
  assert (Hob : forall r, In r old -> B + 80 <= r_addr r /\ r_end r <= B + bsize m B).
  { intros r Hr. pose proof (bg_bounds _ _ _ _ _ _ H (Hold r Hr)). unfold r_end. lia. }
  assert (Hor : forall r x, In r old -> In x rest -> disj x r).
  { intros r x Hr Hx. destruct (bg_disj _ _ _ _ _ H x r (Hrest x Hx) (Hold r Hr)) as [->|D].
    - exfalso. pose proof (bg_nodup _ _ _ _ _ H) as Hn.
      clear - Hn Hr Hx. induction old as [|a old IH]; [destruct Hr|].
      cbn [app] in Hn. apply NoDup_cons_iff in Hn. destruct Hn as [Hn1 Hn2].
      destruct Hr as [->|Hr].
      + apply Hn1. apply in_or_app. right. exact Hx.
      + apply IH; assumption.
    - exact D. }
  assert (Hhdr : forall x, x < B + 8 \/ B + 12 <= x < B + 80 -> m' x = m x).
  { intros x Hx. apply Hf; [|lia]. intros r Hr. destruct (Hob r Hr). lia. }
  assert (Hbs : bsize m' B = bsize m B).
  { unfold bsize, off_size. apply get32_ext. intros x Hx. apply Hhdr. lia. }
  assert (Hlim : blim m' B = blim m B) by (unfold blim; rewrite Hbs; reflexivity).
  split.
  - constructor.
    + apply H.
    + rewrite Hbs. apply H.
    + rewrite Hbs. apply H.
    + rewrite Hbs. apply H.
    + intros r Hr. unfold region_fits. rewrite Hlim. apply in_app_or in Hr.
      destruct Hr as [Hr|Hr]; [apply (Hnew r Hr)|apply (bg_regions _ _ _ _ _ H r (Hrest r Hr))].
    + apply NoDup_app; [exact Hnd| |].
      * pose proof (bg_nodup _ _ _ _ _ H) as Hn. apply NoDup_app_remove_l in Hn. exact Hn.
      * intros r Hr Hr'. pose proof (Hnr r r Hr Hr') as D.
        destruct (Hnew r Hr) as [[? _] _]. unfold disj, r_end in D. lia.
    + intros r1 r2 H1 H2. apply in_app_or in H1. apply in_app_or in H2.
      destruct H1 as [H1|H1]; destruct H2 as [H2|H2].
      * apply Hdj; assumption.
      * right. apply Hnr; assumption.
      * right. pose proof (Hnr r2 r1 H2 H1) as D. unfold disj in *. lia.
      * apply (bg_disj _ _ _ _ _ H); apply Hrest; assumption.
    + intros r Hr. apply in_app_or in Hr. destruct Hr as [Hr|Hr]; [apply (Hnew r Hr)|].
      destruct (bg_tagged _ _ _ _ _ H r (Hrest r Hr)) as [T1 T2].
      pose proof (bg_bounds _ _ _ _ _ _ H (Hrest r Hr)) as Hb.
      unfold tagged, r_end in *. split; [rewrite <- T1 | rewrite <- T2].
      * apply get32_ext. intros x Hx. apply Hf; [|lia]. intros r' Hr'.
        pose proof (Hor r' r Hr' Hr) as D. unfold disj, r_end in D. lia.
      * apply get32_ext. intros x Hx. apply Hf; [|lia]. intros r' Hr'.
        pose proof (Hor r' r Hr' Hr) as D. unfold disj, r_end in D. lia.
    + intros r Hr. destruct (bg_P _ _ _ _ _ H r Hr) as [Hin Hu]. split; [|exact Hu].
      apply in_app_or in Hin. apply in_or_app. destruct Hin as [Hin|Hin]; [|right; exact Hin].
      exfalso. apply (HnP r Hin). exact Hr.
    + eapply flists_frame; [exact H| |].
      * intros x Hx. apply Hhdr. lia.
      * intros a [r [HP Ea]]. subst a. unfold off_next.
        destruct (bg_P _ _ _ _ _ H r HP) as [Hin Hu].
        pose proof (bg_bounds _ _ _ _ _ _ H Hin) as Hb.
        apply get64_ext. intros x Hx. apply Hf; [|lia]. intros r' Hr'.
        apply in_app_or in Hin. destruct Hin as [Hin|Hin].
        -- exfalso. apply (HnP r Hin). exact HP.
        -- pose proof (Hor r' r Hr' Hin) as D. unfold disj, r_end in *. lia.
    + exact Hus.
  - intros x Hx. pose proof (bg_size _ _ _ _ _ H). unfold off_usedSize in Hx.
    apply Hf; [|lia]. intros r Hr. destruct (Hob r Hr). lia.
Qed.

Lemma bg_size_sum m mp B rs P :
  block_gen m mp B rs P -> sum_size rs < 2^28.
Proof.
  intros H.
  pose proof (blim_bounds m B (bg_size _ _ _ _ _ H)) as Hb.
  assert (sum_size rs <= blim m B - (B + 80)); [|lia].
  apply (sum_size_bound (length rs)); try reflexivity; try lia.
  - intros r Hr. pose proof (bg_bounds _ _ _ _ _ _ H Hr). unfold r_end. lia.
  - apply (bg_disj _ _ _ _ _ H).
  - apply (bg_nodup _ _ _ _ _ H).
Qed.

Lemma bg_head_facts m mp B r rest P :
  block_gen m mp B (r :: rest) P ->
  ~ In r rest /\ (forall x, In x rest -> disj r x) /\
  0 <= sum_used rest /\ r_size r + sum_used rest < 2^28.
Proof.
  intros H. pose proof (bg_nodup _ _ _ _ _ H) as Hnd.
  apply NoDup_cons_iff in Hnd. destruct Hnd as [Hn _].
  split; [exact Hn|]. split.
  - intros x Hx. destruct (bg_disj _ _ _ _ _ H r x (or_introl eq_refl) (or_intror Hx))
      as [->|D]; [contradiction|exact D].
  - pose proof (bg_size_sum _ _ _ _ _ H) as Hs. rewrite sum_size_cons in Hs.
    assert (0 <= sum_used rest <= sum_size rest).
    { apply sum_used_le_size. intros x Hx.
      pose proof (bg_bounds _ _ _ _ _ _ H (or_intror Hx)). lia. }
    lia.
Qed.

(** A change confined to the regions [old] and to the block header stays
    inside any [W] that contains them. *)
Lemma regions_keeps m m' B (old : list region) W :
  covers_header W B -> (forall r, In r old -> covers W r) ->
  (forall x, (forall r, In r old -> x < r_addr r \/ r_end r <= x) ->
             x < B + 8 \/ B + 12 <= x -> m' x = m x) ->
  keeps W m m'.
Proof.
  intros Hh Hc Hf x Hx. apply Hf.
  - intros r Hr. destruct (Z.lt_ge_cases x (r_addr r)); [left; assumption|].
    destruct (Z.lt_ge_cases x (r_end r)); [|right; assumption].
    exfalso. apply Hx, (Hc r Hr). lia.
  - destruct (Z.lt_ge_cases x (B + 8)); [left; assumption|].
    destruct (Z.lt_ge_cases x (B + 12)); [|right; assumption].
    exfalso. apply Hx, Hh. unfold sizeof_BlockHeader. lia.
Qed.

Lemma outside_keeps m m' r W :
  covers W r -> (forall x, x < r_addr r \/ r_end r <= x -> m' x = m x) -> keeps W m m'.
Proof.
  intros Hc Hf x Hx. apply Hf.
  destruct (Z.lt_ge_cases x (r_addr r)); [left; assumption|].
  destruct (Z.lt_ge_cases x (r_end r)); [|right; assumption].
  exfalso. apply Hx, Hc. lia.
Qed.

Ltac norm_tags T1 T2 :=
  repeat first
    [ progress mem_simpl
    | rewrite T1
    | rewrite T2
    | rewrite md_set_used_tag by lia
    | rewrite md_size_tag by lia
    | rewrite md_set_size_tag by lia ].

Ltac unfold_regs :=
  repeat match goal with
         | x := mkRegion _ _ _ |- _ => progress unfold x
         end.

(** [FreeRegion_split] writes only inside the region it splits. *)
Lemma split_frame W lim s B r rest P size (Q : Z -> state -> Prop) :
  block_gen (bytes s) (mapped s) B (r :: rest) P ->
  r_used r = 0 -> ~ P r ->
  0 <= size < 2^32 ->
  FreeRegion_getSizeForAlignment (r_addr r) size + 4 <= r_size r ->
  covers W r ->
  (forall m',
     block_gen m' (mapped s) B
       (mkRegion (r_addr r) (FreeRegion_getSizeForAlignment (r_addr r) size) 0 :: rest) P ->
     block_frame (bytes s) m' B -> keeps W (bytes s) m' ->
     Q 0 (with_bytes s m')) ->
  (forall m',
     28 <= r_size r - FreeRegion_getSizeForAlignment (r_addr r) size ->
     block_gen m' (mapped s) B
       (mkRegion (r_addr r) (FreeRegion_getSizeForAlignment (r_addr r) size) 0 ::
        mkRegion (r_addr r + FreeRegion_getSizeForAlignment (r_addr r) size)
                 (r_size r - FreeRegion_getSizeForAlignment (r_addr r) size) 0 :: rest) P ->
     block_frame (bytes s) m' B -> keeps W (bytes s) m' ->
     Q (r_addr r + FreeRegion_getSizeForAlignment (r_addr r) size) (with_bytes s m')) ->
  wp lim (FreeRegion_split (r_addr r) size) s Q.
Proof.
  intros H Hfree HnP Hsize Hal4 HWr HQ1 HQ2. pose proof USER_TOP_eq as HT.
  pose proof (aligned_facts (r_addr r) size Hsize) as Haf. cbv zeta in Haf.
  set (al := FreeRegion_getSizeForAlignment (r_addr r) size) in *.
  pose proof (bg_bounds _ _ _ _ _ _ H (or_introl eq_refl)) as Hb.
  pose proof (bg_mapped _ _ _ _ _ H) as Hm.
  destruct (bg_head_facts _ _ _ _ _ _ H) as [Hnin [Hdr Hsum]].
  unfold FreeRegion_split. fold al. unfold sizeof_FreeRegionHeader, sizeof_AllocMetadata.
  rewrite !wrap64_small by lia.
  apply wp_bind, wp_load_size; [in_block Hm|].
  rewrite (bg_size_read _ _ _ _ _ _ H (or_introl eq_refl)).
  rewrite wrap32_small by lia.
  apply wp_bind, FreeRegion_create_spec; try lia.
  { intros x Hx. apply Hm. lia. }
  intros m1 T1 T1' _ _ F1.
  rewrite (Z.mod_small al) in T1, T1' by lia.
  set (r1 := mkRegion (r_addr r) al 0).
  assert (Hus : get32 (bytes s) (B + off_usedSize) = sizeof_BlockHeader + sum_used rest).
  { rewrite (bg_used _ _ _ _ _ H), sum_used_cons, Hfree. reflexivity. }
  assert (G1 : block_gen m1 (mapped s) B ([r1] ++ rest) P /\ block_frame (bytes s) m1 B).
  { apply (bg_replace _ _ _ _ [r] [r1] rest P H).
    - intros x [->|[]]. exact HnP.
    - intros x Hx _. apply F1. specialize (Hx r (or_introl eq_refl)). unfold r_end in Hx. lia.
    - intros x [<-|[]]. split.
      + unfold region_fits, r_end, sizeof_BlockHeader. unfold_regs; cbn [r_addr r_size r_used]. lia.
      + unfold tagged, r_end. unfold_regs; cbn [r_addr r_size r_used]. split; assumption.
    - constructor; [intros []|constructor].
    - intros x y [<-|[]] [<-|[]]. left. reflexivity.
    - intros x y [<-|[]] Hy. pose proof (Hdr y Hy) as D.
      unfold disj, r_end in *. unfold_regs; cbn [r_addr r_size]. lia.
    - cbn [app]. rewrite sum_used_cons. unfold_regs; cbn [r_used r_size Z.eqb].
      transitivity (get32 (bytes s) (B + off_usedSize)); [|rewrite Hus; lia].
      apply get32_ext. intros x Hx. apply F1.
      unfold off_usedSize in Hx. lia. }
  destruct G1 as [G1 G1f]. cbn [app] in G1.
  assert (K1 : keeps W (bytes s) m1).
  { apply (outside_keeps _ _ r W HWr). intros x Hx. apply F1. unfold r_end in Hx. lia. }
  apply wp_bind, wp_load_used; [st_simpl; in_block Hm|]. st_simpl.
  destruct (md_used (get32 m1 (r_addr r + al)) =? 1).
  { apply wp_ret. apply HQ1; assumption. }
  destruct (Z.ltb_spec (r_size r - al) (24 + 4)) as [Hlt|Hge].
  { apply wp_ret. apply HQ1; assumption. }
  apply wp_bind, FreeRegion_create_spec; st_simpl; try lia.
  { intros x Hx. apply Hm. lia. }
  intros m2 T2 T2' _ _ F2. apply wp_ret.
  rewrite (Z.mod_small (r_size r - al)) in T2, T2' by lia.
  set (r2 := mkRegion (r_addr r + al) (r_size r - al) 0).
  assert (G2 : block_gen m2 (mapped s) B ([r1; r2] ++ rest) P /\ block_frame (bytes s) m2 B).
  { apply (bg_replace _ _ _ _ [r] [r1; r2] rest P H).
    - intros x [->|[]]. exact HnP.
    - intros x Hx _. specialize (Hx r (or_introl eq_refl)). unfold r_end in Hx.
      rewrite F2, F1 by lia. reflexivity.
    - intros x [<-|[<-|[]]]; split.
      + unfold region_fits, r_end, sizeof_BlockHeader. unfold_regs; cbn [r_addr r_size r_used]. lia.
      + unfold tagged, r_end. unfold_regs; cbn [r_addr r_size r_used].
        split; [rewrite <- T1 | rewrite <- T1']; apply get32_ext; intros x Hx; apply F2; lia.
      + unfold region_fits, r_end, sizeof_BlockHeader. unfold_regs; cbn [r_addr r_size r_used]. lia.
      + unfold tagged, r_end. unfold_regs; cbn [r_addr r_size r_used].
        replace (r_addr r + al + (r_size r - al) - 4) with (r_addr r + al + (r_size r - al) - 4)
          in T2' by reflexivity.
        split; assumption.
    - constructor; [intros [E|[]]|constructor; [intros []|constructor]].
      apply (f_equal r_addr) in E. unfold r1, r2 in E. cbn [r_addr] in E. lia.
    - intros x y [<-|[<-|[]]] [<-|[<-|[]]]; try (left; reflexivity);
        right; unfold disj, r_end; unfold_regs; cbn [r_addr r_size]; lia.
    - intros x y [<-|[<-|[]]] Hy; pose proof (Hdr y Hy) as D;
        unfold disj, r_end in *; unfold_regs; cbn [r_addr r_size]; lia.
    - cbn [app]. rewrite !sum_used_cons. unfold_regs; cbn [r_used r_size Z.eqb].
      transitivity (get32 (bytes s) (B + off_usedSize)); [|rewrite Hus; lia].
      apply get32_ext. intros x Hx.
      unfold off_usedSize in Hx. rewrite F2, F1 by lia. reflexivity. }
  destruct G2 as [G2 G2f]. cbn [app] in G2.
  apply HQ2; try assumption.
  apply (outside_keeps _ _ r W HWr). intros x Hx. unfold r_end in Hx.
  rewrite F2, F1 by lia. reflexivity.
Qed.

Lemma split_spec lim s B r rest P size (Q : Z -> state -> Prop) :
  block_gen (bytes s) (mapped s) B (r :: rest) P ->
  r_used r = 0 -> ~ P r ->
  0 <= size < 2^32 ->
  FreeRegion_getSizeForAlignment (r_addr r) size + 4 <= r_size r ->
  (forall m',
     block_gen m' (mapped s) B
       (mkRegion (r_addr r) (FreeRegion_getSizeForAlignment (r_addr r) size) 0 :: rest) P ->
     block_frame (bytes s) m' B ->
     Q 0 (with_bytes s m')) ->
  (forall m',
     28 <= r_size r - FreeRegion_getSizeForAlignment (r_addr r) size ->
     block_gen m' (mapped s) B
       (mkRegion (r_addr r) (FreeRegion_getSizeForAlignment (r_addr r) size) 0 ::
        mkRegion (r_addr r + FreeRegion_getSizeForAlignment (r_addr r) size)
                 (r_size r - FreeRegion_getSizeForAlignment (r_addr r) size) 0 :: rest) P ->
     block_frame (bytes s) m' B ->
     Q (r_addr r + FreeRegion_getSizeForAlignment (r_addr r) size) (with_bytes s m')) ->
  wp lim (FreeRegion_split (r_addr r) size) s Q.
Proof.
  intros H Hfree HnP Hsize Hal4 HQ1 HQ2.
  apply (split_frame (fun _ => True) lim s B r rest P size); try assumption.
  - apply covers_all.
  - intros m' G F _. apply HQ1; assumption.
  - intros m' Hsp G F _. apply HQ2; assumption.
Qed.

(** [Block_useRegion] writes only the tags of the region and [usedSize]. *)
Lemma use_frame W lim s B r rest P (Q : Z -> state -> Prop) :
  block_gen (bytes s) (mapped s) B (r :: rest) P ->
  r_used r = 0 -> ~ P r ->
  covers_header W B -> covers W r ->
  (forall m',
     block_gen m' (mapped s) B (mkRegion (r_addr r) (r_size r) 1 :: rest) P ->
     block_frame (bytes s) m' B -> keeps W (bytes s) m' ->
     Q (r_addr r) (with_bytes s m')) ->
  wp lim (Block_useRegion B (r_addr r)) s Q.
Proof.
  intros H Hfree HnP HWh HWr HQ. pose proof USER_TOP_eq as HT.
  pose proof (bg_bounds _ _ _ _ _ _ H (or_introl eq_refl)) as Hb.
  pose proof (bg_mapped _ _ _ _ _ H) as Hm.
  destruct (bg_head_facts _ _ _ _ _ _ H) as [Hnin [Hdr Hsum]].
  destruct (bg_tagged _ _ _ _ _ H r (or_introl eq_refl)) as [T1 T2].
  unfold r_end in T2. rewrite Hfree in T1, T2.
  assert (Hus : get32 (bytes s) (B + off_usedSize) = sizeof_BlockHeader + sum_used rest).
  { rewrite (bg_used _ _ _ _ _ H), sum_used_cons, Hfree. reflexivity. }
  unfold Block_useRegion, sizeof_AllocMetadata, off_usedSize, sizeof_BlockHeader in *.
  apply wp_bind, wp_load_size; [in_block Hm|].
  rewrite (bg_size_read _ _ _ _ _ _ H (or_introl eq_refl)).
  rewrite !wrap64_small by lia.
  apply wp_bind, wp_store_used; [in_block Hm|]. st_simpl.
  apply wp_bind, wp_store_used; [in_block Hm|]. st_simpl.
  apply wp_bind, wp_load32; [in_block Hm|]. st_simpl.
  apply wp_bind, wp_load_size; [in_block Hm|]. st_simpl.
  apply wp_bind, wp_store32; [in_block Hm|]. st_simpl.
  apply wp_ret.
  norm_tags T1 T2. rewrite Hus.
  rewrite wrap32_small by lia.
  match goal with |- Q _ (with_bytes s ?m) => set (m' := m) end.
  set (r' := mkRegion (r_addr r) (r_size r) 1).
  assert (Hfr : forall x, (forall r0, In r0 [r] -> x < r_addr r0 \/ r_end r0 <= x) ->
                  x < B + 8 \/ B + 12 <= x -> m' x = bytes s x).
  { intros x Hx Hx'. specialize (Hx r (or_introl eq_refl)). unfold r_end in Hx.
    unfold m'. mem_simpl. reflexivity. }
  destruct (bg_replace _ m' _ _ [r] [r'] rest P H) as [G Gf].
  - intros x [->|[]]. exact HnP.
  - exact Hfr.
  - intros x [<-|[]]. split.
    + unfold region_fits, r_end, sizeof_BlockHeader. unfold_regs; cbn [r_addr r_size r_used]. lia.
    + unfold tagged, r_end, m'. unfold_regs; cbn [r_addr r_size r_used]. split; mem_simpl; reflexivity.
  - constructor; [intros []|constructor].
  - intros x y [<-|[]] [<-|[]]. left. reflexivity.
  - intros x y [<-|[]] Hy. pose proof (Hdr y Hy) as D.
    unfold disj, r_end in *. unfold_regs; cbn [r_addr r_size]. lia.
  - cbn [app]. rewrite sum_used_cons. unfold_regs; cbn [r_used r_size Z.eqb Pos.eqb].
    unfold m', off_usedSize, sizeof_BlockHeader. mem_simpl. lia.
  - apply HQ; try assumption.
    apply (regions_keeps _ _ B [r] W HWh); [|exact Hfr].
    intros r0 [<-|[]]. exact HWr.
Qed.

Lemma use_spec lim s B r rest P (Q : Z -> state -> Prop) :
  block_gen (bytes s) (mapped s) B (r :: rest) P ->
  r_used r = 0 -> ~ P r ->
  (forall m',
     block_gen m' (mapped s) B (mkRegion (r_addr r) (r_size r) 1 :: rest) P ->
     block_frame (bytes s) m' B ->
     Q (r_addr r) (with_bytes s m')) ->
  wp lim (Block_useRegion B (r_addr r)) s Q.
Proof.
  intros H Hfree HnP HQ.
  apply (use_frame (fun _ => True) lim s B r rest P); try assumption.
  - apply covers_header_all.
  - apply covers_all.
  - intros m' G F _. apply HQ; assumption.
Qed.

(** [Block_freeRegion] writes only inside the region and [usedSize]. *)
Lemma freeRegion_frame W lim s B r rest P (Q : Z -> state -> Prop) :
  block_gen (bytes s) (mapped s) B (r :: rest) P ->
  r_used r = 1 ->
  covers_header W B -> covers W r ->
  (forall m',
     block_gen m' (mapped s) B (mkRegion (r_addr r) (r_size r) 0 :: rest) P ->
     block_frame (bytes s) m' B -> keeps W (bytes s) m' ->
     Q (r_addr r) (with_bytes s m')) ->
  wp lim (Block_freeRegion B (r_addr r)) s Q.
Proof.
  intros H Hused HWh HWr HQ. pose proof USER_TOP_eq as HT.
  pose proof (bg_bounds _ _ _ _ _ _ H (or_introl eq_refl)) as Hb.
  pose proof (bg_mapped _ _ _ _ _ H) as Hm.
  destruct (bg_head_facts _ _ _ _ _ _ H) as [Hnin [Hdr Hsum]].
  destruct (bg_tagged _ _ _ _ _ H r (or_introl eq_refl)) as [T1 T2].
  unfold r_end in T2. rewrite Hused in T1, T2.
  assert (HnP : ~ P r).
  { intros HP. destruct (bg_P _ _ _ _ _ H r HP). lia. }
  assert (Hus : get32 (bytes s) (B + off_usedSize) =
                sizeof_BlockHeader + (r_size r + sum_used rest)).
  { rewrite (bg_used _ _ _ _ _ H), sum_used_cons, Hused. reflexivity. }
  unfold Block_freeRegion, sizeof_AllocMetadata, off_usedSize, sizeof_BlockHeader,
    off_next, off_previous in *.
  apply wp_bind, wp_load_size; [in_block Hm|].
  rewrite (bg_size_read _ _ _ _ _ _ H (or_introl eq_refl)).
  rewrite !wrap64_small by lia.
  apply wp_bind, wp_store_used; [in_block Hm|]. st_simpl.
  apply wp_bind, wp_store64; [in_block Hm|]. st_simpl.
  apply wp_bind, wp_store64; [in_block Hm|]. st_simpl.
  apply wp_bind, wp_store_used; [in_block Hm|]. st_simpl.
  apply wp_bind, wp_load_size; [in_block Hm|]. st_simpl.
  apply wp_bind, wp_store_size; [in_block Hm|]. st_simpl.
  apply wp_bind, wp_load32; [in_block Hm|]. st_simpl.
  apply wp_bind, wp_load_size; [in_block Hm|]. st_simpl.
  apply wp_bind, wp_store32; [in_block Hm|]. st_simpl.
  apply wp_ret.
  norm_tags T1 T2. rewrite Hus.
  rewrite wrap32_small by lia.
  match goal with |- Q _ (with_bytes s ?m) => set (m' := m) end.
  set (r' := mkRegion (r_addr r) (r_size r) 0).
  assert (Hfr : forall x, (forall r0, In r0 [r] -> x < r_addr r0 \/ r_end r0 <= x) ->
                  x < B + 8 \/ B + 12 <= x -> m' x = bytes s x).
  { intros x Hx Hx'. specialize (Hx r (or_introl eq_refl)). unfold r_end in Hx.
    unfold m'. mem_simpl. reflexivity. }
  destruct (bg_replace _ m' _ _ [r] [r'] rest P H) as [G Gf].
  - intros x [->|[]]. exact HnP.
  - exact Hfr.
  - intros x [<-|[]]. split.
    + unfold region_fits, r_end, sizeof_BlockHeader. unfold_regs; cbn [r_addr r_size r_used]. lia.
    + unfold tagged, r_end, m'. unfold_regs; cbn [r_addr r_size r_used]. split; mem_simpl; reflexivity.
  - constructor; [intros []|constructor].
  - intros x y [<-|[]] [<-|[]]. left. reflexivity.
  - intros x y [<-|[]] Hy. pose proof (Hdr y Hy) as D.
    unfold disj, r_end in *. unfold_regs; cbn [r_addr r_size]. lia.
  - cbn [app]. rewrite sum_used_cons. unfold_regs; cbn [r_used r_size Z.eqb].
    unfold m', off_usedSize, sizeof_BlockHeader. mem_simpl. lia.
  - apply HQ; try assumption.
    apply (regions_keeps _ _ B [r] W HWh); [|exact Hfr].
    intros r0 [<-|[]]. exact HWr.
Qed.

Lemma freeRegion_spec lim s B r rest P (Q : Z -> state -> Prop) :
  block_gen (bytes s) (mapped s) B (r :: rest) P ->
  r_used r = 1 ->
  (forall m',
     block_gen m' (mapped s) B (mkRegion (r_addr r) (r_size r) 0 :: rest) P ->
     block_frame (bytes s) m' B ->
     Q (r_addr r) (with_bytes s m')) ->
  wp lim (Block_freeRegion B (r_addr r)) s Q.
Proof.
  intros H Hused HQ.
  apply (freeRegion_frame (fun _ => True) lim s B r rest P); try assumption.
  - apply covers_header_all.
  - apply covers_all.
  - intros m' G F _. apply HQ; assumption.
Qed.

(** * Allocation inside a block *)

Lemma block_gen_ext m mp B rs (P P' : region -> Prop) :
  (forall r, P r <-> P' r) -> block_gen m mp B rs P -> block_gen m mp B rs P'.
Proof.
  intros HPP H. constructor; try apply H.
  - intros r Hr. apply (bg_P _ _ _ _ _ H). apply HPP. exact Hr.
  - intros i Hi. destruct (bg_flists _ _ _ _ _ H i Hi) as [l [Hl [Hnd Hmem]]].
    exists l. split; [exact Hl|]. split; [exact Hnd|].
    intros a. rewrite Hmem. split; intros [r [HP Hr]]; exists r; (split; [apply HPP; exact HP|exact Hr]).
Qed.

Lemma wp_add_null lim fuel B s (Q : Z -> state -> Prop) :
  Q 0 s -> wp lim (Block_addRegionToFreeList fuel B 0) s Q.
Proof. intros H. unfold Block_addRegionToFreeList. cbn. exact H. Qed.

Lemma covers_sub W r r' :
  covers W r -> r_addr r <= r_addr r' -> r_end r' <= r_end r -> covers W r'.
Proof. intros H H1 H2 x Hx. apply H. lia. Qed.

(** [Block_allocateRegion] writes only the block header and inside
    regions that were free. *)
Lemma allocate_frame W fuel s B rs size (Q : Z -> state -> Prop) :
  block_gen (bytes s) (mapped s) B rs (is_free_in rs) ->
  (forall r, is_free_in rs r ->
     FreeRegion_getSizeForAlignment (r_addr r) (wrap32 (size + 8)) < r_size r ->
     FreeRegion_getSizeForAlignment (r_addr r) (wrap32 (size + 8)) + 4 <= r_size r) ->
  covers_header W B -> (forall r, is_free_in rs r -> covers W r) ->
  ((forall r, is_free_in rs r ->
     ~ FreeRegion_getSizeForAlignment (r_addr r) (wrap32 (size + 8)) < r_size r) -> Q 0 s) ->
  (forall r rest m' rs',
     Permutation rs (r :: rest) -> r_used r = 0 ->
     FreeRegion_getSizeForAlignment (r_addr r) (wrap32 (size + 8)) < r_size r ->
     (let al := FreeRegion_getSizeForAlignment (r_addr r) (wrap32 (size + 8)) in
      rs' = mkRegion (r_addr r) al 1 :: rest \/
      (28 <= r_size r - al /\
       rs' = mkRegion (r_addr r) al 1 :: mkRegion (r_addr r + al) (r_size r - al) 0 :: rest)) ->
     block_gen m' (mapped s) B rs' (is_free_in rs') ->
     block_frame (bytes s) m' B -> keeps W (bytes s) m' ->
     Q (r_addr r) (with_bytes s m')) ->
  wp (fuel <= length rs + 1)%nat (Block_allocateRegion fuel B size) s Q.
Proof.
  intros H Hal4 HWh HWc Hno Hyes.
  unfold Block_allocateRegion, REGION_OVERHEAD_SIZE, sizeof_AllocMetadata.
  change (4 * 2) with 8.
  pose proof (wrap32_range (size + 8)) as Hrs.
  set (rsz := wrap32 (size + 8)) in *.
  apply wp_bind. eapply wp_lim; [apply canAllocate_spec with (P := is_free_in rs)|].
  - exact H.
  - (* a region was found *)
    intros r HP Hfit. rewrite (wrap32_small rsz) in Hfit by exact Hrs.
    destruct HP as [Hin Hfree].
    pose proof (bg_bounds _ _ _ _ _ _ H Hin) as Hb.
    destruct (Z.eqb_spec (r_addr r) 0); [lia|].
    pose proof (Hal4 r (conj Hin Hfree) Hfit) as Hfit4.
    set (al := FreeRegion_getSizeForAlignment (r_addr r) rsz) in *.
    destruct (in_perm_front r rs Hin) as [rest Hperm].
    assert (HWr : covers W r) by (apply HWc; split; assumption).
    pose proof (aligned_facts (r_addr r) rsz Hrs) as Haf0. cbv zeta in Haf0. fold al in Haf0.
    apply wp_bind. eapply wp_lim;
      [apply remove_frame with (W := W) (P := is_free_in rs) (r := r)|].
    + exact H.
    + split; assumption.
    + exact HWh.
    + intros r0 Hr0. apply (covers_links_in _ _ _ _ _ W r0 H (proj1 Hr0)), HWc, Hr0.
    + intros m1 G1 F1 K1. st_simpl.
      apply (block_gen_perm _ _ _ _ _ _ Hperm) in G1.
      set (P1 := fun x => is_free_in rs x /\ x <> r) in *.
      assert (HP1 : forall x, P1 x <-> In x rest /\ r_used x = 0).
      { intros x. unfold P1, is_free_in. split.
        - intros [[Hx Hu] Hne]. split; [|exact Hu].
          apply (Permutation_in _ Hperm) in Hx. destruct Hx; [congruence|assumption].
        - intros [Hx Hu]. split; [split; [|exact Hu]|].
          + apply (Permutation_in _ (Permutation_sym Hperm)). right. exact Hx.
          + intros ->. pose proof (bg_nodup _ _ _ _ _ G1) as Hnd.
            apply NoDup_cons_iff in Hnd. tauto. }
      assert (HnP1 : ~ P1 r) by (intros [_ Hc]; congruence).
      apply wp_bind.
      assert (HWP1 : forall x, P1 x -> covers W x).
      { intros x [Hx _]. apply HWc. exact Hx. }
      apply (split_frame W _ (with_bytes s m1) B r rest P1 rsz); st_simpl; try assumption.
      * (* no splinter *)
        intros m2 G2 F2 K2. st_simpl.
        apply wp_bind, wp_add_null.
        set (r1 := mkRegion (r_addr r) al 0) in *.
        change (r_addr r) with (r_addr r1).
        apply (use_frame W _ (with_bytes s m2) B r1 rest P1); st_simpl; try assumption.
        -- reflexivity.
        -- intros Hc. apply HP1 in Hc. destruct Hc as [Hc _].
           pose proof (bg_nodup _ _ _ _ _ G2) as Hnd. apply NoDup_cons_iff in Hnd. tauto.
        -- apply (covers_sub W r); [exact HWr| |]; unfold r1, r_end; cbn [r_addr r_size]; lia.
        -- intros m3 G3 F3 K3. unfold r1 in *. cbn [r_addr r_size] in *. st_simpl.
           change (r_addr (mkRegion (r_addr r) al 0)) with (r_addr r).
           eapply (Hyes r rest m3 _ Hperm Hfree Hfit).
           ++ left. reflexivity.
           ++ eapply block_gen_ext; [|exact G3]. intros x. rewrite HP1.
              unfold is_free_in. cbn [In]. split.
              ** intros [Hx Hu]. split; [right; exact Hx|exact Hu].
              ** intros [[<-|Hx] Hu]; [cbn in Hu; lia|tauto].
           ++ eapply block_frame_trans; [exact F1|].
              eapply block_frame_trans; [exact F2|exact F3].
           ++ eapply keeps_trans; [exact K1|].
              eapply keeps_trans; [exact K2|exact K3].
      * (* splinter *)
        intros m2 Hsp G2 F2 K2. st_simpl. fold al in G2.
        set (r1 := mkRegion (r_addr r) al 0) in *.
        set (r2 := mkRegion (r_addr r + al) (r_size r - al) 0) in *.
        pose proof (bg_nodup _ _ _ _ _ G2) as Hnd2.
        apply wp_bind. change (r_addr r + al) with (r_addr r2).
        eapply wp_lim;
          [apply (add_frame W fuel (with_bytes s m2) B (r1 :: r2 :: rest) P1 r2)|];
          st_simpl.
        -- exact G2.
        -- right. left. reflexivity.
        -- reflexivity.
        -- intros Hc. apply HP1 in Hc. destruct Hc as [Hc _].
           apply NoDup_cons_iff in Hnd2. destruct Hnd2 as [_ Hnd2].
           apply NoDup_cons_iff in Hnd2. tauto.
        -- exact HWh.
        -- apply (covers_links_in _ _ _ _ _ W r2 G2); [right; left; reflexivity|].
           apply (covers_sub W r); [exact HWr| |]; unfold r2, r_end; cbn [r_addr r_size]; lia.
        -- intros x Hx. apply (covers_links_in _ _ _ _ _ W x H (proj1 (proj1 Hx))), HWP1, Hx.
        -- intros m3 G3 F3 K3. st_simpl.
           change (r_addr r) with (r_addr r1).
           apply (use_frame W _ (with_bytes s m3) B r1 (r2 :: rest) (fun x => P1 x \/ x = r2));
             st_simpl; try assumption.
           ++ reflexivity.
           ++ intros [Hc|Hc].
              ** apply HP1 in Hc. destruct Hc as [Hc _].
                 apply NoDup_cons_iff in Hnd2. apply (proj1 Hnd2). right. exact Hc.
              ** apply (f_equal r_addr) in Hc. unfold r1, r2 in Hc. cbn [r_addr] in Hc.
                 pose proof (aligned_facts (r_addr r) rsz Hrs) as Haf. cbv zeta in Haf.
                 fold al in Haf. lia.
           ++ apply (covers_sub W r); [exact HWr| |]; unfold r1, r_end; cbn [r_addr r_size]; lia.
           ++ intros m4 G4 F4 K4. unfold r1 in G4. cbn [r_addr r_size] in *. st_simpl.
              change (r_addr (mkRegion (r_addr r) al 0)) with (r_addr r).
              eapply (Hyes r rest m4 _ Hperm Hfree Hfit).
              ** right. split; [exact Hsp|reflexivity].
              ** eapply block_gen_ext; [|exact G4]. intros x. split.
                 --- intros [Hx| ->].
                     +++ apply HP1 in Hx. destruct Hx as [Hx Hu].
                         split; [right; right; exact Hx|exact Hu].
                     +++ split; [right; left; reflexivity|reflexivity].
                 --- intros [[<-|[<-|Hx]] Hu].
                     +++ cbn in Hu. lia.
                     +++ right. reflexivity.
                     +++ left. apply HP1. tauto.
              ** eapply block_frame_trans; [exact F1|].
                 eapply block_frame_trans; [exact F2|].
                 eapply block_frame_trans; [exact F3|exact F4].
              ** eapply keeps_trans; [exact K1|].
                 eapply keeps_trans; [exact K2|].
                 eapply keeps_trans; [exact K3|exact K4].
        -- cbn [length]. rewrite (Permutation_length Hperm). cbn [length]. lia.
    + lia.
  - (* nothing fits *)
    intros Hn. rewrite Z.eqb_refl. apply wp_ret. apply Hno.
    intros r HP. rewrite (wrap32_small rsz) in Hn by exact Hrs. apply Hn. exact HP.
  - lia.
Qed.

Lemma allocate_spec fuel s B rs size (Q : Z -> state -> Prop) :
  block_gen (bytes s) (mapped s) B rs (is_free_in rs) ->
  (forall r, is_free_in rs r ->
     FreeRegion_getSizeForAlignment (r_addr r) (wrap32 (size + 8)) < r_size r ->
     FreeRegion_getSizeForAlignment (r_addr r) (wrap32 (size + 8)) + 4 <= r_size r) ->
  ((forall r, is_free_in rs r ->
     ~ FreeRegion_getSizeForAlignment (r_addr r) (wrap32 (size + 8)) < r_size r) -> Q 0 s) ->
  (forall r rest m' rs',
     Permutation rs (r :: rest) -> r_used r = 0 ->
     FreeRegion_getSizeForAlignment (r_addr r) (wrap32 (size + 8)) < r_size r ->
     (let al := FreeRegion_getSizeForAlignment (r_addr r) (wrap32 (size + 8)) in
      rs' = mkRegion (r_addr r) al 1 :: rest \/
      (28 <= r_size r - al /\
       rs' = mkRegion (r_addr r) al 1 :: mkRegion (r_addr r + al) (r_size r - al) 0 :: rest)) ->
     block_gen m' (mapped s) B rs' (is_free_in rs') ->
     block_frame (bytes s) m' B ->
     Q (r_addr r) (with_bytes s m')) ->
  wp (fuel <= length rs + 1)%nat (Block_allocateRegion fuel B size) s Q.
Proof.
  intros H Hal4 Hno Hyes.
  apply (allocate_frame (fun _ => True) fuel s B rs size); try assumption.
  - apply covers_header_all.
  - intros r _. apply covers_all.
  - intros r rest m' rs' Hp Hf Hfit Hrs G F _. apply (Hyes r rest m' rs'); assumption.
Qed.

(** * Release inside a block: coalescing *)

Lemma sum_used_free rs : (forall r, In r rs -> r_used r = 0) -> sum_used rs = 0.
Proof.
  induction rs as [|r rs IH]; intros H; [reflexivity|].
  rewrite sum_used_cons, (H r (or_introl eq_refl)), IH; [reflexivity|].
  intros x Hx. apply H. right. exact Hx.
Qed.

(** The free regions [old], which tile [[A, A + N)], become one free
    region: the size is written into the first header and the last
    footer. *)
Lemma grow_frame W lim s B old rest P A N r1 r2 (K : M unit) (Q : unit -> state -> Prop) :
  block_gen (bytes s) (mapped s) B (old ++ rest) P ->
  In r1 old -> r_addr r1 = A -> In r2 old -> r_end r2 = A + N ->
  (forall r, In r old -> ~ P r /\ r_used r = 0 /\ A <= r_addr r /\ r_end r <= A + N) ->
  (forall x, In x rest -> disj (mkRegion A N 0) x) ->
  covers_header W B -> covers_word W A -> covers_word W (A + N - 4) ->
  (forall m', block_gen m' (mapped s) B (mkRegion A N 0 :: rest) P ->
              block_frame (bytes s) m' B -> keeps W (bytes s) m' ->
              wp lim K (with_bytes s m') Q) ->
  wp lim (store_size A N ;;
          nsz <- load_size A ;;
          let footer := wrap64 (A + nsz - sizeof_AllocMetadata) in
          nsz <- load_size A ;;
          store_size footer nsz ;;
          K) s Q.
Proof.
  intros H Hr1 HA Hr2 HE Hold Hrest HWh HW1 HW2 HK. pose proof USER_TOP_eq as HT.
  assert (Hin1 : In r1 (old ++ rest)) by (apply in_or_app; left; exact Hr1).
  assert (Hin2 : In r2 (old ++ rest)) by (apply in_or_app; left; exact Hr2).
  pose proof (bg_bounds _ _ _ _ _ _ H Hin1) as Hb1.
  pose proof (bg_bounds _ _ _ _ _ _ H Hin2) as Hb2.
  pose proof (bg_mapped _ _ _ _ _ H) as Hm.
  pose proof (blim_bounds _ _ (bg_size _ _ _ _ _ H)) as Hbl.
  destruct (Hold r1 Hr1) as [_ [Hu1 [_ Hle1]]].
  destruct (Hold r2 Hr2) as [_ [Hu2 [Hge2 _]]].
  destruct (bg_tagged _ _ _ _ _ H r1 Hin1) as [T1 _].
  destruct (bg_tagged _ _ _ _ _ H r2 Hin2) as [_ T2].
  unfold r_end in *. rewrite Hu1, HA in T1. rewrite Hu2, HE in T2.
  unfold sizeof_AllocMetadata.
  apply wp_bind, wp_store_size; [in_block Hm|]. st_simpl.
  apply wp_bind, wp_load_size; [in_block Hm|]. st_simpl.
  cbv zeta.
  rewrite T1. rewrite md_set_size_tag by lia. mem_simpl. rewrite md_size_tag by lia.
  rewrite wrap64_small by lia.
  apply wp_bind, wp_load_size; [in_block Hm|]. st_simpl.
  apply wp_bind, wp_store_size; [in_block Hm|]. st_simpl.
  mem_simpl. rewrite md_size_tag by lia. rewrite T2. rewrite md_set_size_tag by lia.
  match goal with |- wp _ _ (with_bytes s ?m) _ => set (m' := m) end.
  assert (Hfr : forall x, (forall r, In r old -> x < r_addr r \/ r_end r <= x) ->
                  x < B + 8 \/ B + 12 <= x -> m' x = bytes s x).
  { intros x Hx _. pose proof (Hx r1 Hr1). pose proof (Hx r2 Hr2).
    unfold r_end in *. unfold m'. mem_simpl. reflexivity. }
  destruct (bg_replace _ m' _ _ old [mkRegion A N 0] rest P H) as [G Gf].
  - intros r Hr. apply (Hold r Hr).
  - exact Hfr.
  - intros x [<-|[]]. split.
    + unfold region_fits, r_end, sizeof_BlockHeader. cbn [r_addr r_size r_used]. lia.
    + unfold tagged, r_end, m'. cbn [r_addr r_size r_used]. split; mem_simpl; reflexivity.
  - constructor; [intros []|constructor].
  - intros x y [<-|[]] [<-|[]]. left. reflexivity.
  - intros x y [<-|[]] Hy. apply Hrest. exact Hy.
  - cbn [app]. rewrite sum_used_cons. cbn [r_used r_size Z.eqb].
    rewrite Z.add_0_l.
    assert (E : sum_used (old ++ rest) = sum_used rest).
    { rewrite sum_used_app, sum_used_free; [lia|]. intros r Hr. apply (Hold r Hr). }
    rewrite <- E, <- (bg_used _ _ _ _ _ H).
    unfold m', off_usedSize. mem_simpl. reflexivity.
  - apply HK; try assumption.
    intros x Hx.
    assert (x < A \/ A + 4 <= x).
    { destruct (Z.lt_ge_cases x A); [left; assumption|].
      destruct (Z.lt_ge_cases x (A + 4)); [|right; assumption].
      exfalso. apply Hx, HW1. lia. }
    assert (x < A + N - 4 \/ A + N <= x).
    { destruct (Z.lt_ge_cases x (A + N - 4)); [left; assumption|].
      destruct (Z.lt_ge_cases x (A + N)); [|right; assumption].
      exfalso. apply Hx, HW2. lia. }
    unfold m'. mem_simpl. reflexivity.
Qed.

Lemma free_in_rest (old rest : list region) :
  NoDup (old ++ rest) ->
  forall x, In x old -> ~ is_free_in rest x.
Proof.
  intros Hnd x Hx [Hc _]. revert Hnd Hx Hc. clear.
  induction old as [|a old IH]; intros Hnd Hx Hc; [destruct Hx|].
  cbn [app] in Hnd. apply NoDup_cons_iff in Hnd. destruct Hnd as [Hn1 Hn2].
  destruct Hx as [->|Hx].
  - apply Hn1. apply in_or_app. right. exact Hc.
  - apply IH; assumption.
Qed.

Lemma disj_merge m mp B P (old rest : list region) A N :
  block_gen m mp B (old ++ rest) P ->
  forall ra rb rc,
  (old = [ra; rb] \/ old = [ra; rb; rc] /\ r_end rb = r_addr rc) ->
  r_addr ra = A -> r_end ra = r_addr rb ->
  (old = [ra; rb] -> r_end rb = A + N) -> (old <> [ra; rb] -> r_end rc = A + N) ->
  forall x, In x rest -> disj (mkRegion A N 0) x.
Proof.
  intros H ra rb rc Hold HA Hab HN2 HN3 x Hx.
  assert (Hxin : In x (old ++ rest)) by (apply in_or_app; right; exact Hx).
  pose proof (bg_bounds _ _ _ _ _ _ H Hxin) as Hbx.
  pose proof (bg_nodup _ _ _ _ _ H) as Hnd.
  assert (Hd : forall o, In o old -> disj o x /\ 28 <= r_size o).
  { intros o Ho. assert (Hoin : In o (old ++ rest)) by (apply in_or_app; left; exact Ho).
    pose proof (bg_bounds _ _ _ _ _ _ H Hoin). split; [|lia].
    destruct (bg_disj _ _ _ _ _ H o x Hoin Hxin) as [->|D]; [|exact D].
    exfalso. apply (free_in_rest old rest Hnd x Ho). split; [exact Hx|].
    (* the used flag is irrelevant: membership alone contradicts NoDup *)
    exfalso. revert Hnd Ho Hx. clear.
    induction old as [|a old IH]; intros Hnd Ho Hx; [destruct Ho|].
    cbn [app] in Hnd. apply NoDup_cons_iff in Hnd. destruct Hnd as [Hn1 Hn2].
    destruct Ho as [->|Ho].
    - apply Hn1. apply in_or_app. right. exact Hx.
    - apply IH; assumption. }
  unfold disj, r_end in *. cbn [r_addr r_size].
  destruct Hold as [E|[E Hbc]].
  - specialize (HN2 E). subst old.
    destruct (Hd ra (or_introl eq_refl)). destruct (Hd rb (or_intror (or_introl eq_refl))).
    lia.
  - assert (Hne : old <> [ra; rb]) by (rewrite E; discriminate).
    specialize (HN3 Hne). subst old.
    destruct (Hd ra (or_introl eq_refl)). destruct (Hd rb (or_intror (or_introl eq_refl))).
    destruct (Hd rc (or_intror (or_intror (or_introl eq_refl)))).
    lia.
Qed.

Lemma free_in_cons mg rest x :
  r_used mg = 0 -> (is_free_in rest x \/ x = mg <-> is_free_in (mg :: rest) x).
Proof.
  intros Hu. unfold is_free_in. cbn [In]. split.
  - intros [[Hx Hf]| ->]; [split; [right; exact Hx|exact Hf]|split; [left; reflexivity|exact Hu]].
  - intros [[<-|Hx] Hf]; [right; reflexivity|left; split; assumption].
Qed.

Lemma coalesceRight_frame W fuel s B r xr rest (Q : unit -> state -> Prop) :
  block_gen (bytes s) (mapped s) B (r :: xr :: rest) (is_free_in (r :: xr :: rest)) ->
  r_used r = 0 -> r_used xr = 0 -> r_addr xr = r_end r ->
  covers_header W B -> (forall x, is_free_in (r :: xr :: rest) x -> covers_links W x) ->
  covers_word W (r_addr r) -> covers_word W (r_end xr - 4) ->
  (forall m',
     block_gen m' (mapped s) B (mkRegion (r_addr r) (r_size r + r_size xr) 0 :: rest)
       (is_free_in (mkRegion (r_addr r) (r_size r + r_size xr) 0 :: rest)) ->
     block_frame (bytes s) m' B -> keeps W (bytes s) m' -> Q tt (with_bytes s m')) ->
  wp (fuel <= length (r :: xr :: rest))%nat
     (Block_coallesceRightSide fuel B (r_addr r) (r_addr xr)) s Q.
Proof.
  intros H Hur Hux Hadj HWh HWc HW1 HW2 HQ.
  set (rs := r :: xr :: rest) in *.
  assert (Hir : In r rs) by (left; reflexivity).
  assert (Hix : In xr rs) by (right; left; reflexivity).
  pose proof (bg_nodup _ _ _ _ _ H) as Hnd.
  assert (HWr : covers_links W r) by (apply HWc; split; assumption).
  pose proof (bg_mapped _ _ _ _ _ H) as Hm.
  unfold Block_coallesceRightSide.
  apply wp_bind. apply (remove_frame W fuel s B rs (is_free_in rs) xr);
    [exact H|split; assumption|exact HWh|exact HWc|].
  intros m1 G1 F1 K1.
  apply wp_bind.
  apply (remove_frame W fuel (with_bytes s m1) B rs (fun x => is_free_in rs x /\ x <> xr) r);
    st_simpl; [exact G1|split; [split; assumption|]|exact HWh|
               intros x0 [Hx0 _]; apply HWc; exact Hx0|].
  { intros E. subst xr. apply NoDup_cons_iff in Hnd. apply (proj1 Hnd). left. reflexivity. }
  intros m2 G2 F2 K2. st_simpl.
  assert (G2' : block_gen m2 (mapped s) B ([r; xr] ++ rest) (is_free_in rest)).
  { eapply block_gen_ext; [|exact G2]. intros x. unfold is_free_in, rs. cbn [In]. split.
    - intros [[[[<-|[<-|Hx]] Hf] Hn1] Hn2]; try congruence. tauto.
    - intros [Hx Hf]. repeat split; try tauto.
      + intros ->. apply NoDup_cons_iff in Hnd. destruct Hnd as [_ Hnd].
        apply NoDup_cons_iff in Hnd. tauto.
      + intros ->. apply NoDup_cons_iff in Hnd. apply (proj1 Hnd). right. exact Hx. }
  pose proof (bg_bounds _ _ _ _ _ _ G2 Hir) as Hbr.
  pose proof (bg_bounds _ _ _ _ _ _ G2 Hix) as Hbx.
  pose proof (bg_mapped _ _ _ _ _ G2) as Hm2.
  apply wp_bind, wp_load_size; [st_simpl; in_block Hm2|]. st_simpl.
  apply wp_bind, wp_load_size; [st_simpl; in_block Hm2|]. st_simpl.
  rewrite (bg_size_read _ _ _ _ _ _ G2 Hir), (bg_size_read _ _ _ _ _ _ G2 Hix).
  apply (grow_frame W _ (with_bytes s m2) B [r; xr] rest (is_free_in rest)
           (r_addr r) (r_size r + r_size xr) r xr); st_simpl.
  - exact G2'.
  - left. reflexivity.
  - reflexivity.
  - right. left. reflexivity.
  - unfold r_end in *. lia.
  - intros x Hx. split; [apply (free_in_rest [r; xr] rest Hnd x Hx)|].
    unfold r_end in *. destruct Hx as [<-|[<-|[]]]; repeat split; lia.
  - apply (disj_merge _ _ _ _ _ _ _ _ G2' r xr xr (or_introl eq_refl) eq_refl (eq_sym Hadj)).
    + intros _. unfold r_end in *. lia.
    + intros Hc. exfalso. apply Hc. reflexivity.
  - exact HWh.
  - exact HW1.
  - intros x Hx. apply HW2. unfold r_end in *. lia.
  - intros m3 G3 F3 K3.
    set (mg := mkRegion (r_addr r) (r_size r + r_size xr) 0) in *.
    apply wp_bind. change (r_addr r) with (r_addr mg).
    eapply wp_lim;
      [apply (add_frame W fuel (with_bytes s m3) B (mg :: rest) (is_free_in rest) mg)|];
      st_simpl.
    + exact G3.
    + left. reflexivity.
    + reflexivity.
    + intros [Hc _]. pose proof (bg_nodup _ _ _ _ _ G3) as Hnd3.
      apply NoDup_cons_iff in Hnd3. tauto.
    + exact HWh.
    + exact HWr.
    + intros x0 [Hx0 Hf0]. apply HWc. split; [right; right; exact Hx0|exact Hf0].
    + intros m4 G4 F4 K4. st_simpl. apply wp_ret. apply HQ.
      * eapply block_gen_ext; [|exact G4]. intros x. apply free_in_cons. reflexivity.
      * eapply block_frame_trans; [exact F1|].
        eapply block_frame_trans; [exact F2|].
        eapply block_frame_trans; [exact F3|exact F4].
      * eapply keeps_trans; [exact K1|].
        eapply keeps_trans; [exact K2|].
        eapply keeps_trans; [exact K3|exact K4].
    + unfold rs. cbn [length]. lia.
Qed.

Lemma coalesceRight_spec fuel s B r xr rest (Q : unit -> state -> Prop) :
  block_gen (bytes s) (mapped s) B (r :: xr :: rest) (is_free_in (r :: xr :: rest)) ->
  r_used r = 0 -> r_used xr = 0 -> r_addr xr = r_end r ->
  (forall m',
     block_gen m' (mapped s) B (mkRegion (r_addr r) (r_size r + r_size xr) 0 :: rest)
       (is_free_in (mkRegion (r_addr r) (r_size r + r_size xr) 0 :: rest)) ->
     block_frame (bytes s) m' B -> Q tt (with_bytes s m')) ->
  wp (fuel <= length (r :: xr :: rest))%nat
     (Block_coallesceRightSide fuel B (r_addr r) (r_addr xr)) s Q.
Proof.
  intros H; intros.
  eapply (coalesceRight_frame (fun _ => True)); try eassumption.
  - apply covers_header_all.
  - intros x0 _. apply covers_links_all.
  - apply covers_word_all.
  - apply covers_word_all.
  - intros m' G F _. auto.
Qed.

Lemma coalesceLeft_frame W fuel s B xl r rest (Q : unit -> state -> Prop) :
  block_gen (bytes s) (mapped s) B (xl :: r :: rest) (is_free_in (xl :: r :: rest)) ->
  r_used r = 0 -> r_used xl = 0 -> r_end xl = r_addr r ->
  covers_header W B -> (forall x, is_free_in (xl :: r :: rest) x -> covers_links W x) ->
  covers_word W (r_addr xl) -> covers_word W (r_end r - 4) ->
  (forall m',
     block_gen m' (mapped s) B (mkRegion (r_addr xl) (r_size xl + r_size r) 0 :: rest)
       (is_free_in (mkRegion (r_addr xl) (r_size xl + r_size r) 0 :: rest)) ->
     block_frame (bytes s) m' B -> keeps W (bytes s) m' -> Q tt (with_bytes s m')) ->
  wp (fuel <= length (xl :: r :: rest))%nat
     (Block_coallesceLeftSide fuel B (wrap64 (r_addr r - 4)) (r_addr r)) s Q.
Proof.
  intros H Hur Hux Hadj HWh HWc HW1 HW2 HQ. pose proof USER_TOP_eq as HT.
  set (rs := xl :: r :: rest) in *.
  assert (Hix : In xl rs) by (left; reflexivity).
  assert (Hir : In r rs) by (right; left; reflexivity).
  pose proof (bg_nodup _ _ _ _ _ H) as Hnd.
  assert (HWxl : covers_links W xl) by (apply HWc; split; assumption).
  pose proof (bg_mapped _ _ _ _ _ H) as Hm.
  pose proof (bg_bounds _ _ _ _ _ _ H Hir) as Hbr.
  pose proof (bg_bounds _ _ _ _ _ _ H Hix) as Hbx.
  unfold Block_coallesceLeftSide.
  rewrite (wrap64_small (r_addr r - 4)) by lia.
  apply wp_bind, wp_load_size; [in_block Hm|].
  assert (Elsz : md_size (get32 (bytes s) (r_addr r - 4)) = r_size xl).
  { destruct (bg_tagged _ _ _ _ _ H xl Hix) as [_ T]. rewrite Hadj in T. rewrite T.
    apply md_size_tag; lia. }
  rewrite Elsz.
  assert (Ea : wrap64 (r_addr r - r_size xl) = r_addr xl).
  { unfold r_end in Hadj. rewrite wrap64_small by lia. lia. }
  rewrite !Ea.
  apply wp_bind. apply (remove_frame W fuel s B rs (is_free_in rs) xl);
    [exact H|split; assumption|exact HWh|exact HWc|].
  intros m1 G1 F1 K1.
  apply wp_bind.
  apply (remove_frame W fuel (with_bytes s m1) B rs (fun x => is_free_in rs x /\ x <> xl) r);
    st_simpl; [exact G1|split; [split; assumption|]|exact HWh|
               intros x0 [Hx0 _]; apply HWc; exact Hx0|].
  { intros E. subst xl. apply NoDup_cons_iff in Hnd. apply (proj1 Hnd). left. reflexivity. }
  intros m2 G2 F2 K2. st_simpl.
  assert (G2' : block_gen m2 (mapped s) B ([xl; r] ++ rest) (is_free_in rest)).
  { eapply block_gen_ext; [|exact G2]. intros x. unfold is_free_in, rs. cbn [In]. split.
    - intros [[[[<-|[<-|Hx]] Hf] Hn1] Hn2]; try congruence. tauto.
    - intros [Hx Hf]. repeat split; try tauto.
      + intros ->. apply NoDup_cons_iff in Hnd. apply (proj1 Hnd). right. exact Hx.
      + intros ->. apply NoDup_cons_iff in Hnd. destruct Hnd as [_ Hnd].
        apply NoDup_cons_iff in Hnd. tauto. }
  pose proof (bg_mapped _ _ _ _ _ G2) as Hm2.
  pose proof (bg_bounds _ _ _ _ _ _ G2 Hir) as Hbr2.
  pose proof (bg_bounds _ _ _ _ _ _ G2 Hix) as Hbx2.
  apply wp_bind, wp_load_size; [st_simpl; in_block Hm2|]. st_simpl.
  apply wp_bind, wp_load_size; [st_simpl; in_block Hm2|]. st_simpl.
  rewrite (bg_size_read _ _ _ _ _ _ G2 Hir), (bg_size_read _ _ _ _ _ _ G2 Hix).
  apply (grow_frame W _ (with_bytes s m2) B [xl; r] rest (is_free_in rest)
           (r_addr xl) (r_size xl + r_size r) xl r); st_simpl.
  - exact G2'.
  - left. reflexivity.
  - reflexivity.
  - right. left. reflexivity.
  - unfold r_end in *. lia.
  - intros x Hx. split; [apply (free_in_rest [xl; r] rest Hnd x Hx)|].
    unfold r_end in *. destruct Hx as [<-|[<-|[]]]; repeat split; lia.
  - apply (disj_merge _ _ _ _ _ _ _ _ G2' xl r r (or_introl eq_refl) eq_refl Hadj).
    + intros _. unfold r_end in *. lia.
    + intros Hc. exfalso. apply Hc. reflexivity.
  - exact HWh.
  - exact HW1.
  - intros x Hx. apply HW2. unfold r_end in *. lia.
  - intros m3 G3 F3 K3.
    set (mg := mkRegion (r_addr xl) (r_size xl + r_size r) 0) in *.
    apply wp_bind. change (r_addr xl) with (r_addr mg).
    eapply wp_lim;
      [apply (add_frame W fuel (with_bytes s m3) B (mg :: rest) (is_free_in rest) mg)|];
      st_simpl.
    + exact G3.
    + left. reflexivity.
    + reflexivity.
    + intros [Hc _]. pose proof (bg_nodup _ _ _ _ _ G3) as Hnd3.
      apply NoDup_cons_iff in Hnd3. tauto.
    + exact HWh.
    + exact HWxl.
    + intros x0 [Hx0 Hf0]. apply HWc. split; [right; right; exact Hx0|exact Hf0].
    + intros m4 G4 F4 K4. st_simpl. apply wp_ret. apply HQ.
      * eapply block_gen_ext; [|exact G4]. intros x. apply free_in_cons. reflexivity.
      * eapply block_frame_trans; [exact F1|].
        eapply block_frame_trans; [exact F2|].
        eapply block_frame_trans; [exact F3|exact F4].
      * eapply keeps_trans; [exact K1|].
        eapply keeps_trans; [exact K2|].
        eapply keeps_trans; [exact K3|exact K4].
    + unfold rs. cbn [length]. lia.
Qed.

Lemma coalesceLeft_spec fuel s B xl r rest (Q : unit -> state -> Prop) :
  block_gen (bytes s) (mapped s) B (xl :: r :: rest) (is_free_in (xl :: r :: rest)) ->
  r_used r = 0 -> r_used xl = 0 -> r_end xl = r_addr r ->
  (forall m',
     block_gen m' (mapped s) B (mkRegion (r_addr xl) (r_size xl + r_size r) 0 :: rest)
       (is_free_in (mkRegion (r_addr xl) (r_size xl + r_size r) 0 :: rest)) ->
     block_frame (bytes s) m' B -> Q tt (with_bytes s m')) ->
  wp (fuel <= length (xl :: r :: rest))%nat
     (Block_coallesceLeftSide fuel B (wrap64 (r_addr r - 4)) (r_addr r)) s Q.
Proof.
  intros H; intros.
  eapply (coalesceLeft_frame (fun _ => True)); try eassumption.
  - apply covers_header_all.
  - intros x0 _. apply covers_links_all.
  - apply covers_word_all.
  - apply covers_word_all.
  - intros m' G F _. auto.
Qed.

Lemma coalesceBoth_frame W fuel s B xl r xr rest (Q : unit -> state -> Prop) :
  block_gen (bytes s) (mapped s) B (xl :: r :: xr :: rest)
            (is_free_in (xl :: r :: xr :: rest)) ->
  r_used r = 0 -> r_used xl = 0 -> r_end xl = r_addr r ->
  r_used xr = 0 -> r_addr xr = r_end r ->
  covers_header W B -> (forall x, is_free_in (xl :: r :: xr :: rest) x -> covers_links W x) ->
  covers_word W (r_addr xl) -> covers_word W (r_end xr - 4) ->
  (forall m',
     block_gen m' (mapped s) B
       (mkRegion (r_addr xl) (r_size xl + r_size r + r_size xr) 0 :: rest)
       (is_free_in (mkRegion (r_addr xl) (r_size xl + r_size r + r_size xr) 0 :: rest)) ->
     block_frame (bytes s) m' B -> keeps W (bytes s) m' -> Q tt (with_bytes s m')) ->
  wp (fuel <= length (xl :: r :: xr :: rest))%nat
     (Block_coallesceBothSides fuel B (wrap64 (r_addr r - 4)) (r_addr r) (r_addr xr)) s Q.
Proof.
  intros H Hur Hul Hadjl Hux Hadjr HWh HWc HW1 HW2 HQ. pose proof USER_TOP_eq as HT.
  set (rs := xl :: r :: xr :: rest) in *.
  assert (Hil : In xl rs) by (left; reflexivity).
  assert (Hir : In r rs) by (right; left; reflexivity).
  assert (Hix : In xr rs) by (right; right; left; reflexivity).
  pose proof (bg_nodup _ _ _ _ _ H) as Hnd.
  assert (HWxl : covers_links W xl) by (apply HWc; split; assumption).
  pose proof (bg_mapped _ _ _ _ _ H) as Hm.
  pose proof (bg_bounds _ _ _ _ _ _ H Hir) as Hbr.
  pose proof (bg_bounds _ _ _ _ _ _ H Hil) as Hbl.
  pose proof (bg_bounds _ _ _ _ _ _ H Hix) as Hbx.
  assert (Hne : xl <> r /\ xl <> xr /\ r <> xr).
  { apply NoDup_cons_iff in Hnd. destruct Hnd as [Hn1 Hnd'].
    apply NoDup_cons_iff in Hnd'. destruct Hnd' as [Hn2 _]. cbn [In] in Hn1, Hn2.
    repeat split; intros E; subst; tauto. }
  unfold Block_coallesceBothSides.
  rewrite (wrap64_small (r_addr r - 4)) by lia.
  apply wp_bind, wp_load_size; [in_block Hm|].
  assert (Elsz : md_size (get32 (bytes s) (r_addr r - 4)) = r_size xl).
  { destruct (bg_tagged _ _ _ _ _ H xl Hil) as [_ T]. rewrite Hadjl in T. rewrite T.
    apply md_size_tag; lia. }
  rewrite Elsz.
  assert (Ea : wrap64 (r_addr r - r_size xl) = r_addr xl).
  { unfold r_end in Hadjl. rewrite wrap64_small by lia. lia. }
  rewrite !Ea.
  apply wp_bind. apply (remove_frame W fuel s B rs (is_free_in rs) xl);
    [exact H|split; assumption|exact HWh|exact HWc|].
  intros m1 G1 F1 K1.
  apply wp_bind.
  apply (remove_frame W fuel (with_bytes s m1) B rs (fun x => is_free_in rs x /\ x <> xl) xr);
    st_simpl; [exact G1|split; [split; assumption|]|exact HWh|
               intros x0 [Hx0 _]; apply HWc; exact Hx0|].
  { intros E. destruct Hne as [_ [Hne _]]. apply Hne. symmetry. exact E. }
  intros m2 G2 F2 K2. st_simpl.
  apply wp_bind.
  apply (remove_frame W fuel (with_bytes s m2) B rs
           (fun x => (is_free_in rs x /\ x <> xl) /\ x <> xr) r);
    st_simpl; [exact G2|split; [split; [split; assumption|]|]|exact HWh|
               intros x0 [[Hx0 _] _]; apply HWc; exact Hx0|].
  { intros E. destruct Hne as [Hne _]. apply Hne. symmetry. exact E. }
  { intros E. destruct Hne as [_ [_ Hne]]. apply Hne. exact E. }
  intros m3 G3 F3 K3. st_simpl.
  assert (G3' : block_gen m3 (mapped s) B ([xl; r; xr] ++ rest) (is_free_in rest)).
  { eapply block_gen_ext; [|exact G3]. intros x. unfold is_free_in, rs. cbn [In]. split.
    - intros [[[[[<-|[<-|[<-|Hx]]] Hf] Hn1] Hn2] Hn3]; try congruence. tauto.
    - intros [Hx Hf].
      assert (Hxx : x <> xl /\ x <> r /\ x <> xr).
      { pose proof (free_in_rest [xl; r; xr] rest Hnd) as Hfr.
        repeat split; intros ->; eapply Hfr; try (split; eassumption); cbn [In]; tauto. }
      repeat split; tauto. }
  pose proof (bg_mapped _ _ _ _ _ G3) as Hm3.
  pose proof (bg_bounds _ _ _ _ _ _ G3 Hir) as Hbr3.
  pose proof (bg_bounds _ _ _ _ _ _ G3 Hil) as Hbl3.
  pose proof (bg_bounds _ _ _ _ _ _ G3 Hix) as Hbx3.
  apply wp_bind, wp_load_size; [st_simpl; in_block Hm3|]. st_simpl.
  apply wp_bind, wp_load_size; [st_simpl; in_block Hm3|]. st_simpl.
  apply wp_bind, wp_load_size; [st_simpl; in_block Hm3|]. st_simpl.
  rewrite (bg_size_read _ _ _ _ _ _ G3 Hir), (bg_size_read _ _ _ _ _ _ G3 Hil),
    (bg_size_read _ _ _ _ _ _ G3 Hix).
  replace (r_size xl + (r_size r + r_size xr)) with (r_size xl + r_size r + r_size xr) by lia.
  apply (grow_frame W _ (with_bytes s m3) B [xl; r; xr] rest (is_free_in rest)
           (r_addr xl) (r_size xl + r_size r + r_size xr) xl xr); st_simpl.
  - exact G3'.
  - left. reflexivity.
  - reflexivity.
  - right. right. left. reflexivity.
  - unfold r_end in *. lia.
  - intros x Hx. split; [apply (free_in_rest [xl; r; xr] rest Hnd x Hx)|].
    unfold r_end in *. destruct Hx as [<-|[<-|[<-|[]]]]; repeat split; lia.
  - apply (disj_merge _ _ _ _ _ _ _ _ G3' xl r xr
             (or_intror (conj eq_refl (eq_sym Hadjr))) eq_refl Hadjl).
    + intros E. discriminate E.
    + intros _. unfold r_end in *. lia.
  - exact HWh.
  - exact HW1.
  - intros x Hx. apply HW2. unfold r_end in *. lia.
  - intros m4 G4 F4 K4.
    set (mg := mkRegion (r_addr xl) (r_size xl + r_size r + r_size xr) 0) in *.
    apply wp_bind. change (r_addr xl) with (r_addr mg).
    eapply wp_lim;
      [apply (add_frame W fuel (with_bytes s m4) B (mg :: rest) (is_free_in rest) mg)|];
      st_simpl.
    + exact G4.
    + left. reflexivity.
    + reflexivity.
    + intros [Hc _]. pose proof (bg_nodup _ _ _ _ _ G4) as Hnd4.
      apply NoDup_cons_iff in Hnd4. tauto.
    + exact HWh.
    + exact HWxl.
    + intros x0 [Hx0 Hf0]. apply HWc. split; [right; right; right; exact Hx0|exact Hf0].
    + intros m5 G5 F5 K5. st_simpl. apply wp_ret. apply HQ.
      * eapply block_gen_ext; [|exact G5]. intros x. apply free_in_cons. reflexivity.
      * eapply block_frame_trans; [exact F1|].
        eapply block_frame_trans; [exact F2|].
        eapply block_frame_trans; [exact F3|].
        eapply block_frame_trans; [exact F4|exact F5].
      * eapply keeps_trans; [exact K1|].
        eapply keeps_trans; [exact K2|].
        eapply keeps_trans; [exact K3|].
        eapply keeps_trans; [exact K4|exact K5].
    + unfold rs. cbn [length]. lia.
Qed.

Lemma coalesceBoth_spec fuel s B xl r xr rest (Q : unit -> state -> Prop) :
  block_gen (bytes s) (mapped s) B (xl :: r :: xr :: rest)
            (is_free_in (xl :: r :: xr :: rest)) ->
  r_used r = 0 -> r_used xl = 0 -> r_end xl = r_addr r ->
  r_used xr = 0 -> r_addr xr = r_end r ->
  (forall m',
     block_gen m' (mapped s) B
       (mkRegion (r_addr xl) (r_size xl + r_size r + r_size xr) 0 :: rest)
       (is_free_in (mkRegion (r_addr xl) (r_size xl + r_size r + r_size xr) 0 :: rest)) ->
     block_frame (bytes s) m' B -> Q tt (with_bytes s m')) ->
  wp (fuel <= length (xl :: r :: xr :: rest))%nat
     (Block_coallesceBothSides fuel B (wrap64 (r_addr r - 4)) (r_addr r) (r_addr xr)) s Q.
Proof.
  intros H; intros.
  eapply (coalesceBoth_frame (fun _ => True)); try eassumption.
  - apply covers_header_all.
  - intros x0 _. apply covers_links_all.
  - apply covers_word_all.
  - apply covers_word_all.
  - intros m' G F _. auto.
Qed.

Lemma is_free_in_perm rs rs' x : Permutation rs rs' -> (is_free_in rs x <-> is_free_in rs' x).
Proof.
  intros Hp. unfold is_free_in. split; intros [Hx Hf]; (split; [|exact Hf]).
  - eapply Permutation_in; eassumption.
  - eapply Permutation_in; [apply Permutation_sym|]; eassumption.
Qed.

Lemma block_ok_perm_free m mp B rs rs' :
  Permutation rs rs' -> block_gen m mp B rs (is_free_in rs) ->
  block_gen m mp B rs' (is_free_in rs').
Proof.
  intros Hp H. apply (block_gen_perm _ _ _ _ _ _ Hp) in H.
  eapply block_gen_ext; [|exact H]. intros x. apply is_free_in_perm. exact Hp.
Qed.

Lemma in_perm_front2 {A} (x y : A) l :
  In x l -> In y l -> x <> y -> exists rest, Permutation l (x :: y :: rest).
Proof.
  intros Hx Hy Hne. destruct (in_perm_front x l Hx) as [l1 H1].
  assert (Hy1 : In y l1).
  { apply (Permutation_in _ H1) in Hy. destruct Hy; [congruence|assumption]. }
  destruct (in_perm_front y l1 Hy1) as [l2 H2].
  exists l2. etransitivity; [exact H1|]. apply perm_skip. exact H2.
Qed.

Lemma in_perm_front3 {A} (x y z : A) l :
  In x l -> In y l -> In z l -> x <> y -> x <> z -> y <> z ->
  exists rest, Permutation l (x :: y :: z :: rest).
Proof.
  intros Hx Hy Hz Hxy Hxz Hyz. destruct (in_perm_front2 x y l Hx Hy Hxy) as [l1 H1].
  assert (Hz1 : In z l1).
  { apply (Permutation_in _ H1) in Hz. destruct Hz as [?|[?|?]]; [congruence|congruence|assumption]. }
  destruct (in_perm_front z l1 Hz1) as [l2 H2].
  exists l2. etransitivity; [exact H1|]. apply perm_skip, perm_skip. exact H2.
Qed.

(** [Block_coallesceFreeRegion] writes only the block header and inside
    free regions. *)
Lemma coalesce_frame W fuel s B rs r (Q : unit -> state -> Prop) :
  block_gen (bytes s) (mapped s) B rs (is_free_in rs) -> In r rs -> r_used r = 0 ->
  covers_header W B -> (forall x, is_free_in rs x -> covers W x) ->
  (forall m' rs', coalesced r rs rs' ->
     block_gen m' (mapped s) B rs' (is_free_in rs') ->
     block_frame (bytes s) m' B -> keeps W (bytes s) m' ->
     md_used (get32 m' (r_addr r)) = 0 -> Q tt (with_bytes s m')) ->
  wp (fuel <= length rs)%nat (Block_coallesceFreeRegion fuel B (r_addr r)) s Q.
Proof.
  intros H Hin Hfree HWh HWc HQ. pose proof USER_TOP_eq as HT.
  pose proof (bg_bounds _ _ _ _ _ _ H Hin) as Hb.
  pose proof (bg_mapped _ _ _ _ _ H) as Hm.
  (* the header of [r] is rewritten only when [r] absorbs its right
     neighbour: the other cases are run with a frame that leaves it out *)
  set (W' := fun x => W x /\ ~ (r_addr r <= x < r_addr r + 4)).
  assert (Hused0 : md_used (get32 (bytes s) (r_addr r)) = 0).
  { rewrite (bg_used_read _ _ _ _ _ _ H Hin). exact Hfree. }
  assert (HWl : forall x, is_free_in rs x -> covers_links W x).
  { intros x Hx. apply (covers_links_in _ _ _ _ _ W x H (proj1 Hx)), HWc, Hx. }
  assert (HW'h : covers_header W' B).
  { intros x Hx. split; [apply HWh; exact Hx|]. unfold sizeof_BlockHeader in Hx. lia. }
  assert (HW'l : forall x, is_free_in rs x -> covers_links W' x).
  { intros x Hx y Hy. split; [apply (HWl x Hx); exact Hy|].
    pose proof (bg_bounds _ _ _ _ _ _ H (proj1 Hx)).
    destruct (bg_sep _ _ _ _ _ _ _ H (proj1 Hx) Hin) as [->|D]; lia. }
  assert (Hkeep' : forall m', keeps W' (bytes s) m' ->
            keeps W (bytes s) m' /\ md_used (get32 m' (r_addr r)) = 0).
  { intros m' K. split.
    - intros x Hx. apply K. intros [Hc _]. contradiction.
    - rewrite <- Hused0. f_equal. apply get32_ext. intros x Hx. apply K.
      intros [_ Hc]. apply Hc. exact Hx. }
  unfold Block_coallesceFreeRegion, sizeof_AllocMetadata.
  apply wp_bind, wp_load_size; [in_block Hm|].
  rewrite (bg_size_read _ _ _ _ _ _ H Hin).
  rewrite (wrap64_small (r_addr r + r_size r)) by lia.
  assert (Ep : wrap64 (r_addr r - 4) = r_addr r - 4) by (apply wrap64_small; lia).
  assert (Hleft : forall x, is_free_in rs x ->
            r_addr x = wrap64 (r_addr r - 4) \/ r_addr x + r_size x - 4 = wrap64 (r_addr r - 4) ->
            r_end x = r_addr r /\ x <> r).
  { rewrite Ep. intros x [Hx Hf] Hc. pose proof (bg_bounds _ _ _ _ _ _ H Hx).
    destruct (bg_sep _ _ _ _ _ _ _ H Hx Hin) as [->|D]; [lia|].
    unfold r_end. split; [lia|]. intros ->. lia. }
  assert (Hright : forall x, is_free_in rs x ->
            r_addr x = r_addr r + r_size r \/ r_addr x + r_size x - 4 = r_addr r + r_size r ->
            r_addr x = r_end r /\ x <> r).
  { intros x [Hx Hf] Hc. pose proof (bg_bounds _ _ _ _ _ _ H Hx).
    destruct (bg_sep _ _ _ _ _ _ _ H Hx Hin) as [->|D]; [lia|].
    unfold r_end. split; [lia|]. intros ->. lia. }
  assert (Hnone : Q tt s).
  { assert (E : s = with_bytes s (bytes s)) by (destruct s; reflexivity).
    rewrite E. apply (HQ (bytes s) rs).
    - apply co_none. reflexivity.
    - exact H.
    - apply block_frame_refl.
    - apply keeps_refl.
    - exact Hused0. }
  apply wp_bind. apply (isFreeRegion_spec fuel s B rs (is_free_in rs)); [exact H| |].
  - (* a free region ends where r starts *)
    intros xl HPl Hcl. destruct (Hleft xl HPl Hcl) as [Hadjl Hnel].
    pose proof (bg_bounds _ _ _ _ _ _ H (proj1 HPl)) as Hbl.
    assert (HW'1 : covers_word W' (r_addr xl)).
    { intros y Hy. split; [|unfold r_end in Hadjl; lia].
      apply (HWc xl HPl). unfold r_end. lia. }
    apply wp_bind. apply (isFreeRegion_spec fuel s B rs (is_free_in rs)); [exact H| |].
    + intros xr HPr Hcr. destruct (Hright xr HPr Hcr) as [Hadjr Hner].
      pose proof (bg_bounds _ _ _ _ _ _ H (proj1 HPr)) as Hbr.
      cbn [Z.eqb Pos.eqb andb].
      assert (Hlr : xl <> xr).
      { intros ->. unfold r_end in *. lia. }
      destruct (in_perm_front3 xl r xr rs (proj1 HPl) Hin (proj1 HPr) Hnel
                  Hlr (fun E => Hner (eq_sym E))) as [rest Hp].
      replace (r_addr r + r_size r) with (r_addr xr) by (unfold r_end in Hadjr; lia).
      eapply wp_lim; [apply (coalesceBoth_frame W' fuel s B xl r xr rest)|].
      * apply (block_ok_perm_free _ _ _ _ _ Hp). exact H.
      * exact Hfree.
      * apply HPl.
      * exact Hadjl.
      * apply HPr.
      * exact Hadjr.
      * exact HW'h.
      * intros x Hx. apply HW'l. apply (is_free_in_perm _ _ x Hp). exact Hx.
      * exact HW'1.
      * intros y Hy. split; [|unfold r_end in *; lia].
        apply (HWc xr HPr). unfold r_end in *. lia.
      * intros m' G F K. destruct (Hkeep' m' K) as [K0 Hu0].
        refine (HQ m' _ _ G F K0 Hu0).
        apply (co_both r rs _ xl xr rest Hp); try assumption; try reflexivity;
          [apply HPl|apply HPr].
      * rewrite (Permutation_length Hp). tauto.
    + intros Hnr. cbn [Z.eqb Pos.eqb andb].
      destruct (in_perm_front2 xl r rs (proj1 HPl) Hin Hnel) as [rest Hp].
      eapply wp_lim; [apply (coalesceLeft_frame W' fuel s B xl r rest)|].
      * apply (block_ok_perm_free _ _ _ _ _ Hp). exact H.
      * exact Hfree.
      * apply HPl.
      * exact Hadjl.
      * exact HW'h.
      * intros x Hx. apply HW'l. apply (is_free_in_perm _ _ x Hp). exact Hx.
      * exact HW'1.
      * intros y Hy. split; [|unfold r_end in *; lia].
        apply (HWc r (conj Hin Hfree)). unfold r_end in *. lia.
      * intros m' G F K. destruct (Hkeep' m' K) as [K0 Hu0].
        refine (HQ m' _ _ G F K0 Hu0).
        apply (co_left r rs _ xl rest Hp); try assumption; try reflexivity. apply HPl.
      * rewrite (Permutation_length Hp). tauto.
  - intros Hnl.
    apply wp_bind. apply (isFreeRegion_spec fuel s B rs (is_free_in rs)); [exact H| |].
    + intros xr HPr Hcr. destruct (Hright xr HPr Hcr) as [Hadjr Hner].
      pose proof (bg_bounds _ _ _ _ _ _ H (proj1 HPr)) as Hbr.
      cbn [Z.eqb Pos.eqb andb].
      destruct (in_perm_front2 r xr rs Hin (proj1 HPr) (fun E => Hner (eq_sym E)))
        as [rest Hp].
      replace (r_addr r + r_size r) with (r_addr xr) by (unfold r_end in Hadjr; lia).
      eapply wp_lim; [apply (coalesceRight_frame W fuel s B r xr rest)|].
      * apply (block_ok_perm_free _ _ _ _ _ Hp). exact H.
      * exact Hfree.
      * apply HPr.
      * exact Hadjr.
      * exact HWh.
      * intros x Hx. apply HWl. apply (is_free_in_perm _ _ x Hp). exact Hx.
      * intros y Hy. apply (HWc r (conj Hin Hfree)). unfold r_end. lia.
      * intros y Hy. apply (HWc xr HPr). unfold r_end in *. lia.
      * intros m' G F K. refine (HQ m' _ _ G F K _).
        -- apply (co_right r rs _ xr rest Hp); try assumption; try reflexivity. apply HPr.
        -- assert (Hmg : In (mkRegion (r_addr r) (r_size r + r_size xr) 0)
                           (mkRegion (r_addr r) (r_size r + r_size xr) 0 :: rest))
             by (left; reflexivity).
           exact (bg_used_read _ _ _ _ _ _ G Hmg).
      * rewrite (Permutation_length Hp). tauto.
    + intros Hnr. cbn [Z.eqb Pos.eqb andb]. apply wp_ret. exact Hnone.
Qed.

Lemma coalesce_spec fuel s B rs r (Q : unit -> state -> Prop) :
  block_gen (bytes s) (mapped s) B rs (is_free_in rs) -> In r rs -> r_used r = 0 ->
  (forall m' rs', coalesced r rs rs' ->
     block_gen m' (mapped s) B rs' (is_free_in rs') ->
     block_frame (bytes s) m' B -> Q tt (with_bytes s m')) ->
  wp (fuel <= length rs)%nat (Block_coallesceFreeRegion fuel B (r_addr r)) s Q.
Proof.
  intros H Hin Hfree HQ.
  apply (coalesce_frame (fun _ => True) fuel s B rs r); try assumption.
  - apply covers_header_all.
  - intros x _. apply covers_all.
  - intros m' rs' Hco G F _ _. apply (HQ m' rs'); assumption.
Qed.

Lemma dealloc_frame W fuel s B rs r (Q : unit -> state -> Prop) :
  block_gen (bytes s) (mapped s) B rs (is_free_in rs) -> In r rs -> r_used r = 1 ->
  covers_header W B -> covers W r -> (forall x, is_free_in rs x -> covers W x) ->
  (forall m' rest rs',
     Permutation rs (r :: rest) ->
     coalesced (mkRegion (r_addr r) (r_size r) 0)
               (mkRegion (r_addr r) (r_size r) 0 :: rest) rs' ->
     block_gen m' (mapped s) B rs' (is_free_in rs') ->
     block_frame (bytes s) m' B -> keeps W (bytes s) m' ->
     md_used (get32 m' (r_addr r)) = 0 -> Q tt (with_bytes s m')) ->
  wp (fuel <= length rs)%nat (Block_deallocateRegion fuel B (r_addr r)) s Q.
Proof.
  intros H Hin Hused HWh HWr HWc HQ.
  destruct (in_perm_front r rs Hin) as [rest Hp].
  pose proof (block_gen_perm _ _ _ _ _ _ Hp H) as H'.
  unfold Block_deallocateRegion.
  set (r0 := mkRegion (r_addr r) (r_size r) 0).
  assert (HWr0 : covers W r0) by exact HWr.
  apply wp_bind.
  apply (freeRegion_frame W _ s B r rest (is_free_in rs)); [exact H'|exact Hused|exact HWh|exact HWr|].
  intros m1 G1 F1 K1. fold r0 in G1.
  pose proof (bg_nodup _ _ _ _ _ G1) as Hnd1.
  assert (HP1 : forall x, is_free_in rs x <-> is_free_in rest x).
  { intros x. rewrite (is_free_in_perm _ _ x Hp). unfold is_free_in. cbn [In]. split.
    - intros [[<-|Hx] Hf]; [lia|tauto].
    - intros [Hx Hf]. tauto. }
  apply wp_bind. change (r_addr r) with (r_addr r0).
  eapply wp_lim; [apply (add_frame W fuel (with_bytes s m1) B (r0 :: rest) (is_free_in rs) r0)|];
    st_simpl.
  - exact G1.
  - left. reflexivity.
  - reflexivity.
  - intros Hc. apply HP1 in Hc. destruct Hc as [Hc _].
    apply NoDup_cons_iff in Hnd1. tauto.
  - exact HWh.
  - apply (covers_links_in _ _ _ _ _ W r0 G1); [left; reflexivity|exact HWr0].
  - intros x Hx. apply (covers_links_in _ _ _ _ _ W x H (proj1 Hx)), HWc, Hx.
  - intros m2 G2 F2 K2. st_simpl.
    assert (G2' : block_gen m2 (mapped s) B (r0 :: rest) (is_free_in (r0 :: rest))).
    { eapply block_gen_ext; [|exact G2]. intros x. rewrite <- free_in_cons by reflexivity.
      rewrite HP1. tauto. }
    eapply wp_lim; [apply (coalesce_frame W fuel (with_bytes s m2) B (r0 :: rest) r0)|]; st_simpl.
    + exact G2'.
    + left. reflexivity.
    + reflexivity.
    + exact HWh.
    + intros x Hx. apply free_in_cons in Hx; [|reflexivity].
      destruct Hx as [Hx| ->]; [apply HWc, HP1; exact Hx|exact HWr0].
    + intros m3 rs' Hco G3 F3 K3 Hu3. st_simpl. apply (HQ m3 rest rs' Hp Hco G3).
      * eapply block_frame_trans; [exact F1|].
        eapply block_frame_trans; [exact F2|exact F3].
      * eapply keeps_trans; [exact K1|].
        eapply keeps_trans; [exact K2|exact K3].
      * exact Hu3.
    + cbn [length]. rewrite (Permutation_length Hp). cbn [length]. tauto.
  - cbn [length]. rewrite (Permutation_length Hp). cbn [length]. tauto.
Qed.

Lemma dealloc_spec fuel s B rs r (Q : unit -> state -> Prop) :
  block_gen (bytes s) (mapped s) B rs (is_free_in rs) -> In r rs -> r_used r = 1 ->
  (forall m' rest rs',
     Permutation rs (r :: rest) ->
     coalesced (mkRegion (r_addr r) (r_size r) 0)
               (mkRegion (r_addr r) (r_size r) 0 :: rest) rs' ->
     block_gen m' (mapped s) B rs' (is_free_in rs') ->
     block_frame (bytes s) m' B -> Q tt (with_bytes s m')) ->
  wp (fuel <= length rs)%nat (Block_deallocateRegion fuel B (r_addr r)) s Q.
Proof.
  intros H Hin Hused HQ.
  apply (dealloc_frame (fun _ => True) fuel s B rs r); try assumption.
  - apply covers_header_all.
  - apply covers_all.
  - intros x _. apply covers_all.
  - intros m' rest rs' Hp Hco G F _ _. apply (HQ m' rest rs'); assumption.
Qed.

(** * Creating a block *)

(** ** The page provider *)

Lemma overlaps_false r lo hi a :
  overlaps r lo hi = false -> lo <= a < hi -> in_range r a = false.
Proof.
  unfold overlaps, in_range. intros H Ha.
  destruct (Z.ltb_spec (fst r) hi); destruct (Z.ltb_spec lo (snd r)); cbn in H; try discriminate;
    destruct (Z.leb_spec (fst r) a); destruct (Z.ltb_spec a (snd r)); cbn; try reflexivity; lia.
Qed.

Lemma mmap_accepts_facts rs a len :
  mmap_accepts rs a len = true ->
  0 < len /\ 0 < a /\ a mod PAGE_SIZE = 0 /\ a + len <= USER_TOP /\
  forall x, a <= x < a + len -> is_mapped rs x = false.
Proof.
  unfold mmap_accepts. intros H.
  repeat (apply andb_prop in H; destruct H as [H ?]).
  apply Z.ltb_lt in H. apply Z.ltb_lt in H3. apply Z.eqb_eq in H2. apply Z.leb_le in H1.
  repeat split; try assumption.
  intros x Hx. unfold is_mapped.
  apply negb_true_iff in H0.
  destruct (existsb (fun r => in_range r x) rs) eqn:E; [|reflexivity].
  apply existsb_exists in E. destruct E as [r [Hr Hin]].
  assert (Ho : overlaps r a (a + len) = false).
  { destruct (overlaps r a (a + len)) eqn:Eo; [|reflexivity].
    assert (existsb (fun r => overlaps r a (a + len)) rs = true).
    { apply existsb_exists. exists r. split; assumption. }
    congruence. }
  rewrite (overlaps_false _ _ _ _ Ho Hx) in Hin. discriminate.
Qed.

Lemma range_mapped_cons r rs lo hi :
  range_mapped rs lo hi -> range_mapped (r :: rs) lo hi.
Proof.
  intros H x Hx. unfold is_mapped. cbn [existsb]. specialize (H x Hx).
  unfold is_mapped in H. rewrite H. apply orb_true_r.
Qed.

Lemma range_mapped_head a b rs : range_mapped ((a, b) :: rs) a b.
Proof.
  intros x Hx. unfold is_mapped. cbn [existsb]. unfold in_range. cbn [fst snd].
  destruct (Z.leb_spec a x); [|lia]. destruct (Z.ltb_spec x b); [|lia]. reflexivity.
Qed.

Lemma block_len_facts size :
  0 <= block_len size < 2^32 /\ block_len size mod 4096 = 0.
Proof.
  unfold block_len, wrap32, PAGE_SIZE. split; [apply Z.mod_pos_bound; lia|].
  generalize (block_pages size). intros p. dlia.
Qed.

(** [memset] over a mapped range. *)
Lemma memset_n_spec lim n p c s (Q : unit -> state -> Prop) :
  0 <= p -> p + Z.of_nat n <= USER_TOP ->
  range_mapped (mapped s) p (p + Z.of_nat n) ->
  (forall m', (forall x, p <= x < p + Z.of_nat n -> m' x = c mod 256) ->
              (forall x, x < p \/ p + Z.of_nat n <= x -> m' x = bytes s x) ->
              Q tt (with_bytes s m')) ->
  wp lim (memset_n n p c) s Q.
Proof.
  pose proof USER_TOP_eq as HT.
  revert p s Q. induction n as [|n IH]; intros p s Q Hp Htop Hm HQ.
  - cbn [memset_n]. apply wp_ret.
    assert (E : s = with_bytes s (bytes s)) by (destruct s; reflexivity).
    rewrite E. apply HQ; [intros x Hx; cbn in Hx; lia|reflexivity].
  - cbn [memset_n]. rewrite Nat2Z.inj_succ in *.
    apply wp_bind. apply wp_storeN.
    { cbn [mapped_n]. rewrite Hm by lia. reflexivity. }
    rewrite wrap64_small by lia.
    apply IH; st_simpl; try lia.
    + intros x Hx. apply Hm. lia.
    + intros m' H1 H2. st_simpl. apply HQ.
      * intros x Hx. destruct (Z.eq_dec x p) as [->|Hne].
        -- rewrite H2 by lia. cbn [setN]. unfold set8. rewrite Z.eqb_refl. reflexivity.
        -- apply H1. lia.
      * intros x Hx. rewrite H2 by lia. cbn [setN]. unfold set8.
        destruct (Z.eqb_spec x p); [lia|reflexivity].
Qed.

Lemma libhalloc_alloc_spec lim pages s (Q : Z -> state -> Prop) :
  page_size s = -1 \/ page_size s = PAGE_SIZE ->
  (forall s', os_ready s (wrap32 (pages * PAGE_SIZE)) = false ->
     bytes s' = bytes s -> mapped s' = mapped s -> blockList s' = blockList s ->
     emptyBlockOverheadSize s' = emptyBlockOverheadSize s -> page_size s' = PAGE_SIZE ->
     Q 0 s') ->
  (forall a tape,
     os_tape s = a :: tape ->
     mmap_accepts (mapped s) a (wrap32 (pages * PAGE_SIZE)) = true ->
     Q a (mkState (fill (bytes s) a (wrap32 (pages * PAGE_SIZE)) 0)
                  ((a, a + wrap32 (pages * PAGE_SIZE)) :: mapped s)
                  (blockList s) (emptyBlockOverheadSize s) PAGE_SIZE tape)) ->
  wp lim (libhalloc_alloc pages) s Q.
Proof.
  intros Hps Hfail Hok. unfold libhalloc_alloc, wp, bind, get_page_size, set_page_size, ret.
  assert (Hcase : forall s0, page_size s0 = PAGE_SIZE -> bytes s0 = bytes s ->
            mapped s0 = mapped s -> blockList s0 = blockList s ->
            emptyBlockOverheadSize s0 = emptyBlockOverheadSize s -> os_tape s0 = os_tape s ->
            match sys_mmap (wrap32 (pages * page_size s0)) s0 with
            | Ok a s' => Q a s'
            | Err SegFault => False
            | Err OutOfFuel => lim
            end).
  { intros s0 E1 E2 E3 E4 E5 E6. unfold sys_mmap. rewrite E1, E6.
    destruct (os_tape s) as [|a tape] eqn:Et.
    - apply Hfail; try assumption. unfold os_ready. rewrite Et. reflexivity.
    - rewrite E3. destruct (mmap_accepts (mapped s) a (wrap32 (pages * PAGE_SIZE))) eqn:Ea.
      + rewrite E2, E4, E5. apply Hok; [reflexivity|exact Ea].
      + apply Hfail; cbn; try assumption; try reflexivity.
        unfold os_ready. rewrite Et. exact Ea. }
  destruct Hps as [E|E]; rewrite E.
  - change (-1 <? 0) with true. cbv iota. apply Hcase; reflexivity.
  - change (PAGE_SIZE <? 0) with false. cbv iota. apply Hcase; try reflexivity. exact E.
Qed.

Lemma Block_create_eq size :
  Block_create size =
  (memoryPtr <- libhalloc_alloc (block_pages size) ;;
   if memoryPtr =? 0 then ret 0
   else
     let blockHeader := memoryPtr in
     store32 (wrap64 (blockHeader + off_pages)) (wrap32 (block_pages size)) ;;
     store32 (wrap64 (blockHeader + off_size)) (block_len size) ;;
     store64 (wrap64 (blockHeader + off_bnext)) 0 ;;
     store64 (wrap64 (blockHeader + off_bprevious)) 0 ;;
     store32 (wrap64 (blockHeader + off_usedSize)) sizeof_BlockHeader ;;
     memset (wrap64 (blockHeader + off_freeRegions 0)) 0 (sizeof_uintptr * Z.of_nat FREE_BLOCKS_SETS) ;;
     bsz <- load32 (wrap64 (blockHeader + off_size)) ;;
     r <- FreeRegion_create (wrap64 (memoryPtr + sizeof_BlockHeader))
                            (wrap64 (bsz - sizeof_BlockHeader)) ;;
     store64 (wrap64 (blockHeader + off_freeRegions LARGE_FREE_BLOCK_INDEX)) r ;;
     ret blockHeader).
Proof. reflexivity. Qed.

Lemma Block_create_spec lim size s (Q : Z -> state -> Prop) :
  page_size s = -1 \/ page_size s = PAGE_SIZE ->
  (forall s', os_ready s (block_len size) = false ->
     bytes s' = bytes s -> mapped s' = mapped s -> blockList s' = blockList s ->
     emptyBlockOverheadSize s' = emptyBlockOverheadSize s -> page_size s' = PAGE_SIZE ->
     Q 0 s') ->
  (forall a tape m1,
     os_tape s = a :: tape ->
     mmap_accepts (mapped s) a (block_len size) = true ->
     fresh_block m1 a size ->
     (forall x, x < a \/ a + block_len size <= x -> m1 x = bytes s x) ->
     Q a (mkState m1 ((a, a + block_len size) :: mapped s) (blockList s)
                  (emptyBlockOverheadSize s) PAGE_SIZE tape)) ->
  wp lim (Block_create size) s Q.
Proof.
  intros Hps Hfail Hok. pose proof USER_TOP_eq as HT. rewrite Block_create_eq.
  apply wp_bind, libhalloc_alloc_spec; [exact Hps| |].
  - intros s' E0 E1 E2 E3 E4 E5. rewrite Z.eqb_refl. apply wp_ret. apply Hfail; assumption.
  - intros a tape Et Ha. fold (block_len size) in *.
    destruct (mmap_accepts_facts _ _ _ Ha) as [Hlen [Hpos [Hal [Htop Hfresh]]]].
    destruct (block_len_facts size) as [Hlr Hl4].
    assert (Hl : 4096 <= block_len size) by dlia.
    set (len := block_len size) in *.
    destruct (Z.eqb_spec a 0); [lia|]. cbv zeta.
    set (s1 := mkState (fill (bytes s) a len 0) ((a, a + len) :: mapped s) (blockList s)
                       (emptyBlockOverheadSize s) PAGE_SIZE tape).
    assert (Hm : range_mapped (mapped s1) a (a + len)) by apply range_mapped_head.
    unfold off_pages, off_size, off_bnext, off_bprevious, off_usedSize, off_freeRegions,
      sizeof_BlockHeader, sizeof_uintptr, FREE_BLOCKS_SETS, LARGE_FREE_BLOCK_INDEX in *.
    rewrite !wrap64_small by lia.
    apply wp_bind, wp_store32; [in_block Hm|]. st_simpl.
    apply wp_bind, wp_store32; [in_block Hm|]. st_simpl.
    apply wp_bind, wp_store64; [in_block Hm|]. st_simpl.
    apply wp_bind, wp_store64; [in_block Hm|]. st_simpl.
    apply wp_bind, wp_store32; [in_block Hm|]. st_simpl.
    apply wp_bind. unfold memset. change (Z.to_nat (8 * Z.of_nat 6)) with 48%nat.
    apply memset_n_spec; st_simpl; try lia.
    { intros x Hx. apply Hm. lia. }
    intros m0 Hz Hf0.
    apply wp_bind, wp_load32; [st_simpl; in_block Hm|]. st_simpl.
    assert (E4 : get32 m0 (a + 4) = len).
    { erewrite get32_ext by (intros; apply Hf0; lia). mem_simpl. reflexivity. }
    rewrite E4. rewrite (wrap64_small (len - 80)) by lia.
    apply wp_bind, FreeRegion_create_spec; st_simpl; try lia.
    { intros x Hx. apply Hm. lia. }
    intros m1 T1 T2 N1 N2 F1.
    apply wp_bind, wp_store64; [st_simpl; in_block Hm|]. st_simpl.
    apply wp_ret.
    match goal with |- Q a (with_bytes s1 ?m) => set (m2 := m) end.
    assert (Hhdr : forall x, a <= x < a + 32 -> m2 x = m0 x).
    { intros x Hx. unfold m2. rewrite set64_outside by lia. apply F1. lia. }
    change (with_bytes s1 m2) with
      (mkState m2 ((a, a + len) :: mapped s) (blockList s) (emptyBlockOverheadSize s)
               PAGE_SIZE tape).
    apply Hok; try assumption.
    + constructor; unfold off_pages, off_size, off_bnext, off_bprevious, off_usedSize,
        off_freeRegions, sizeof_BlockHeader, off_next, off_previous.
      * erewrite get32_ext by (intros; apply Hhdr; lia).
        erewrite get32_ext by (intros; apply Hf0; lia). mem_simpl. reflexivity.
      * erewrite get32_ext by (intros; apply Hhdr; lia). exact E4.
      * erewrite get32_ext by (intros; apply Hhdr; lia).
        erewrite get32_ext by (intros; apply Hf0; lia). mem_simpl. reflexivity.
      * erewrite get64_ext by (intros; apply Hhdr; lia).
        erewrite get64_ext by (intros; apply Hf0; lia). mem_simpl. reflexivity.
      * erewrite get64_ext by (intros; apply Hhdr; lia).
        erewrite get64_ext by (intros; apply Hf0; lia). mem_simpl. reflexivity.
      * intros i Hi. apply getN_zero. intros x Hx. change (Z.of_nat 8) with 8 in Hx.
        unfold m2. rewrite set64_outside by lia. rewrite F1 by lia.
        rewrite Hz by lia. reflexivity.
      * unfold m2. mem_simpl. reflexivity.
      * unfold m2. mem_simpl. exact T1.
      * unfold m2. mem_simpl. exact N1.
      * unfold m2. mem_simpl. exact N2.
      * intros x Hx. unfold m2. rewrite set64_outside by lia. rewrite F1 by lia.
        rewrite Hf0 by lia. mem_simpl. unfold s1. cbn [bytes]. apply fill_inside. lia.
    + intros x Hx. unfold m2. rewrite set64_outside by lia. rewrite F1 by lia.
      rewrite Hf0 by lia. mem_simpl. unfold s1. cbn [bytes]. apply fill_outside. lia.
Qed.

Lemma aligned_bookkeeping a :
  0 <= a -> a mod 16 = 0 -> FreeRegion_getSizeForAlignment (a + 80) 24 = 44.
Proof.
  intros Ha Hal. unfold FreeRegion_getSizeForAlignment, wrap32, wrap64,
    sizeof_FreeRegionHeader, sizeof_AllocMetadata.
  change ((24 + 4) mod 2 ^ 32) with 28. change (24 >=? 28) with false. cbv iota zeta.
  change ((28 - 24 mod 28) mod 2 ^ 32) with 4.
  replace (a + 80 + 24 + 4 + 4) with (a + 112) by lia.
  set (e := (a + 112) mod 2^32).
  assert (He16 : e mod 16 = 0) by (unfold e; dlia).
  rewrite He16. reflexivity.
Qed.

Lemma toFreeListIndex_large t : 512 < t < 2^32 -> toFreeListIndex t = 5.
Proof.
  intros H. unfold toFreeListIndex. rewrite wrap32_small by lia.
  repeat match goal with |- context [?x <=? ?y] => destruct (Z.leb_spec x y); [lia|] end.
  reflexivity.
Qed.

Lemma wp_canAllocate_null fuel size s (Q : Z -> state -> Prop) :
  Q 0 s -> wp (fuel <= 0)%nat (canAllocate_list fuel 0 size) s Q.
Proof. intros H. destruct fuel; [unfold wp; cbn; lia|exact H]. Qed.

Ltac ld32 Hm := apply wp_bind, wp_load32; [st_simpl; in_block Hm|]; st_simpl.

Ltac ld64 Hm := apply wp_bind, wp_load64; [st_simpl; in_block Hm|]; st_simpl.

Ltac ldsz Hm := apply wp_bind, wp_load_size; [st_simpl; in_block Hm|]; st_simpl.

Ltac ldus Hm := apply wp_bind, wp_load_used; [st_simpl; in_block Hm|]; st_simpl.

Ltac st32 Hm := apply wp_bind, wp_store32; [st_simpl; in_block Hm|]; st_simpl.

Ltac st64 Hm := apply wp_bind, wp_store64; [st_simpl; in_block Hm|]; st_simpl.

Ltac stus Hm := apply wp_bind, wp_store_used; [st_simpl; in_block Hm|]; st_simpl.

(** The first allocation in a fresh block: the bookkeeping region. *)
Lemma bookkeeping_spec fuel s a size (Q : Z -> state -> Prop) :
  fresh_block (bytes s) a size ->
  0 < a -> a mod 16 = 0 -> a + block_len size <= USER_TOP -> 4096 <= block_len size ->
  range_mapped (mapped s) a (a + block_len size) ->
  (forall m',
     block_ok m' (mapped s) a
       [bookkeeping a; mkRegion (a + 124) ((block_len size - 80) mod 2^28 - 44) 0] ->
     (forall x, x < a + 8 \/ a + 12 <= x < a + 32 \/ a + block_len size <= x ->
                m' x = bytes s x) ->
     Q (a + 80) (with_bytes s m')) ->
  wp (fuel <= 0)%nat (Block_allocateRegion fuel a 16) s Q.
Proof.
  intros Hfb Hpos Hal Htop Hl Hm HQ. pose proof USER_TOP_eq as HT.
  destruct (block_len_facts size) as [Hlr Hl4].
  destruct Hfb as [F1 F2 F3 F4 F5 F6 F7 F8 F9 F10 F11].
  set (len := block_len size) in *.
  set (t := (len - 80) mod 2^28) in *.
  assert (Ht : 4016 <= t < 2^28 /\ t mod 16 = 0 /\ t <= len - 80) by (unfold t; dlia).
  unfold off_pages, off_size, off_bnext, off_bprevious, off_usedSize, off_freeRegions,
    sizeof_BlockHeader, off_next, off_previous in *.
  unfold Block_allocateRegion, REGION_OVERHEAD_SIZE, sizeof_AllocMetadata.
  change (wrap32 (16 + 4 * 2)) with 24.
  (* Block_canAllocateSize *)
  unfold Block_canAllocateSize. change (wrap32 24) with 24.
  destruct (Z.eqb_spec a 0); [lia|].
  unfold FREE_BLOCKS_SETS. cbn [canAllocate_sets]. unfold off_freeRegions.
  change (0 + 1) with 1. change (1 + 1) with 2. change (2 + 1) with 3.
  change (3 + 1) with 4. change (4 + 1) with 5.
  rewrite !wrap64_small by lia.
  apply wp_bind.
  ld64 Hm. rewrite (F6 0) by lia. apply wp_bind, wp_canAllocate_null. cbn [Z.eqb negb].
  ld64 Hm. rewrite (F6 1) by lia. apply wp_bind, wp_canAllocate_null. cbn [Z.eqb negb].
  ld64 Hm. rewrite (F6 2) by lia. apply wp_bind, wp_canAllocate_null. cbn [Z.eqb negb].
  ld64 Hm. rewrite (F6 3) by lia. apply wp_bind, wp_canAllocate_null. cbn [Z.eqb negb].
  ld64 Hm. rewrite (F6 4) by lia. apply wp_bind, wp_canAllocate_null. cbn [Z.eqb negb].
  ld64 Hm. rewrite F7.
  apply wp_bind. destruct fuel as [|k]; [unfold wp; cbn; lia|]. cbn [canAllocate_list].
  destruct (Z.eqb_spec (a + 80) 0); [lia|].
  rewrite aligned_bookkeeping by lia.
  ldsz Hm. rewrite F8, md_size_tag by lia.
  destruct (Z.ltb_spec 44 t); [|lia].
  apply wp_ret.
  destruct (Z.eqb_spec (a + 80) 0); [lia|]. cbn [negb].
  apply wp_ret.
  destruct (Z.eqb_spec (a + 80) 0); [lia|].
  (* Block_removeRegionFromFreeList *)
  apply wp_bind. unfold Block_removeRegionFromFreeList.
  ldsz Hm. rewrite F8, md_size_tag by lia.
  rewrite (toFreeListIndex_large t) by lia.
  unfold off_freeRegions, off_next, off_previous. change (32 + 8 * 5) with 72 in *.
  destruct (Z.eqb_spec (a + 80) 0); [lia|].
  rewrite !wrap64_small by lia.
  ld64 Hm. rewrite F7, Z.eqb_refl.
  ld64 Hm. rewrite F9.
  st64 Hm. rewrite Z.eqb_refl. cbn [negb].
  apply wp_bind, wp_ret.
  st64 Hm. st64 Hm. apply wp_ret.
  match goal with |- wp _ _ (with_bytes s ?m) _ => set (m1 := m) end.
  assert (M1 : forall x, x < a + 72 \/ a + 80 <= x < a + 88 \/ a + 104 <= x -> m1 x = bytes s x).
  { intros x Hx. unfold m1. mem_simpl. reflexivity. }
  assert (M1h : get64 m1 (a + 72) = 0) by (unfold m1; mem_simpl; reflexivity).
  (* FreeRegion_split *)
  apply wp_bind. unfold FreeRegion_split, sizeof_FreeRegionHeader, sizeof_AllocMetadata.
  rewrite aligned_bookkeeping by lia.
  replace (a + 80 + 44) with (a + 124) by lia.
  rewrite !wrap64_small by lia.
  ldsz Hm.
  assert (E80 : get32 m1 (a + 80) = tag t 0).
  { rewrite <- F8. apply get32_ext. intros x Hx. apply M1. lia. }
  rewrite E80, md_size_tag by lia. rewrite wrap32_small by lia.
  apply wp_bind, FreeRegion_create_spec; st_simpl; try lia.
  { intros x Hx. apply Hm. lia. }
  intros m2 T1 T1' _ _ M2. change (44 mod 2^28) with 44 in T1, T1'.
  replace (a + 80 + 44 - 4) with (a + 120) in T1' by lia.
  ldus Hm.
  assert (E124 : get32 m2 (a + 124) = 0).
  { apply getN_zero. intros x Hx. change (Z.of_nat 4) with 4 in Hx.
    rewrite M2 by lia. rewrite M1 by lia. apply F11. lia. }
  rewrite E124. change (md_used 0 =? 1) with false. cbv iota.
  destruct (Z.ltb_spec (t - 44) (24 + 4)); [lia|].
  apply wp_bind, FreeRegion_create_spec; st_simpl; try lia.
  { intros x Hx. apply Hm. lia. }
  intros m3 T2 T2' N2 N2' M3. rewrite (Z.mod_small (t - 44)) in T2, T2' by lia.
  replace (a + 124 + (t - 44) - 4) with (a + 76 + t) in T2' by lia.
  apply wp_ret.
  (* Block_addRegionToFreeList *)
  apply wp_bind. unfold Block_addRegionToFreeList.
  destruct (Z.eqb_spec (a + 124) 0); [lia|].
  ldsz Hm. rewrite T2, md_size_tag by lia.
  destruct (Z.eqb_spec (t - 44) 0); [lia|].
  rewrite (toFreeListIndex_large (t - 44)) by lia.
  unfold off_freeRegions, off_next, off_previous. change (32 + 8 * 5) with 72 in *.
  rewrite !wrap64_small by lia.
  assert (E72 : get64 m3 (a + 72) = 0).
  { rewrite <- M1h. apply get64_ext. intros x Hx. rewrite M3, M2 by lia. reflexivity. }
  ld64 Hm. ld64 Hm. rewrite E72, Z.eqb_refl.
  st64 Hm. st64 Hm. st64 Hm. apply wp_ret.
  match goal with |- wp _ _ (with_bytes s ?m) _ => set (m4 := m) end.
  (* Block_useRegion *)
  unfold Block_useRegion, sizeof_AllocMetadata, off_usedSize.
  assert (A80 : get32 m4 (a + 80) = tag 44 0).
  { unfold m4. mem_simpl. rewrite <- T1. apply get32_ext. intros x Hx. apply M3. lia. }
  assert (A120 : get32 m4 (a + 120) = tag 44 0).
  { unfold m4. mem_simpl. rewrite <- T1'. apply get32_ext. intros x Hx. apply M3. lia. }
  assert (A8 : get32 m4 (a + 8) = 80).
  { unfold m4. mem_simpl. rewrite <- F3. apply get32_ext. intros x Hx.
    rewrite M3, M2, M1 by lia. reflexivity. }
  ldsz Hm. rewrite A80, md_size_tag by lia.
  rewrite !wrap64_small by lia. replace (a + 80 + 44 - 4) with (a + 120) by lia.
  stus Hm. stus Hm. ld32 Hm. ldsz Hm. st32 Hm. apply wp_ret.
  rewrite A80. rewrite md_set_used_tag by lia. mem_simpl.
  rewrite A120. rewrite md_set_used_tag by lia. mem_simpl.
  rewrite md_size_tag by lia. rewrite A8. change (wrap32 (80 + 44)) with 124.
  match goal with |- Q _ (with_bytes s ?m) => set (m5 := m) end.
  (* the final block *)
  assert (M5 : forall x, a + 124 <= x -> m5 x = m4 x).
  { intros x Hx. unfold m5. mem_simpl. reflexivity. }
  assert (M4 : forall x, a + 80 <= x < a + 132 \/ a + 148 <= x -> m4 x = m3 x).
  { intros x Hx. unfold m4. mem_simpl. reflexivity. }
  assert (Hdr : forall x, x < a + 8 \/ a + 12 <= x < a + 72 \/ a + block_len size <= x ->
                          m5 x = bytes s x).
  { intros x Hx. fold len in Hx. unfold m5. mem_simpl. unfold m4. mem_simpl.
    rewrite M3, M2, M1 by lia. reflexivity. }
  assert (Ebs : bsize m5 a = len).
  { unfold bsize, off_size. rewrite <- F2. apply get32_ext. intros x Hx. apply Hdr. lia. }
  assert (Elim : blim m5 a = a + 80 + t).
  { unfold blim, sizeof_BlockHeader. rewrite Ebs. reflexivity. }
  set (bk := bookkeeping a). set (sp := mkRegion (a + 124) (t - 44) 0).
  apply HQ; [|intros x Hx; apply Hdr; lia].
  constructor.
  - constructor.
    + exact Hpos.
    + rewrite Ebs. lia.
    + rewrite Ebs. exact Htop.
    + rewrite Ebs. exact Hm.
    + intros r [<-|[<-|[]]]; unfold region_fits, r_end, bk, sp, bookkeeping, sizeof_BlockHeader;
        cbn [r_addr r_size r_used]; rewrite Elim; lia.
    + constructor; [intros [E|[]]; discriminate E|constructor; [intros []|constructor]].
    + intros r1 r2 [<-|[<-|[]]] [<-|[<-|[]]]; try (left; reflexivity); right;
        unfold disj, r_end, bk, sp, bookkeeping, sizeof_BlockHeader; cbn [r_addr r_size]; lia.
    + intros r [<-|[<-|[]]]; unfold tagged, r_end, bk, sp, bookkeeping, sizeof_BlockHeader;
        cbn [r_addr r_size r_used].
      * split; unfold m5; mem_simpl; try reflexivity.
        replace (a + 80 + 44 - 4) with (a + 120) by lia. mem_simpl. reflexivity.
      * replace (a + 124 + (t - 44) - 4) with (a + 76 + t) by lia. split.
        -- erewrite get32_ext by (intros; apply M5; lia).
           erewrite get32_ext by (intros; apply M4; lia). exact T2.
        -- erewrite get32_ext by (intros; apply M5; lia).
           erewrite get32_ext by (intros; apply M4; lia). exact T2'.
    + intros r Hr. exact Hr.
    + intros i Hi. unfold off_freeRegions, off_next.
      destruct (Z.eq_dec i 5) as [->|Hi5].
      * exists [a + 124]. split; [|split].
        -- cbn [lseg]. unfold m5. mem_simpl. unfold m4. mem_simpl.
           repeat split; lia.
        -- constructor; [intros []|constructor].
        -- intros x. cbn [In]. split.
           ++ intros [<-|[]]. exists sp. split; [split; [right; left; reflexivity|reflexivity]|].
              split; [reflexivity|]. apply toFreeListIndex_large. unfold sp. cbn [r_size]. lia.
           ++ intros [r [[[<-|[<-|[]]] Hf] [E C]]]; [discriminate Hf|]. left. exact E.
      * exists []. split; [|split].
        -- cbn [lseg]. rewrite <- (F6 i) by lia. apply get64_ext. intros x Hx.
           apply Hdr. lia.
        -- constructor.
        -- intros x. cbn [In]. split; [intros []|].
           intros [r [[[<-|[<-|[]]] Hf] [E C]]]; [discriminate Hf|].
           rewrite toFreeListIndex_large in C by (unfold sp; cbn [r_size]; lia). lia.
    + unfold off_usedSize, sizeof_BlockHeader, bk, sp, bookkeeping.
      rewrite !sum_used_cons. cbn [r_used r_size Z.eqb Pos.eqb sum_used fold_right].
      unfold m5. mem_simpl. reflexivity.
  - exact Hal.
  - rewrite Elim. dlia.
  - left. reflexivity.
  - intros r [<-|[<-|[]]]; [left; reflexivity|right].
    unfold sp, r_end. cbn [r_addr r_size]. rewrite Elim.
    repeat split; try lia. dlia.
Qed.

Lemma wp_allocate_null lim fuel size s (Q : Z -> state -> Prop) :
  Q 0 s -> wp lim (Block_allocateRegion fuel 0 size) s Q.
Proof. intros H. exact H. Qed.

Lemma createHeapBlock_spec fuel s size (Q : Z -> state -> Prop) :
  page_size s = -1 \/ page_size s = PAGE_SIZE ->
  (forall s', os_ready s (block_len size) = false ->
     bytes s' = bytes s -> mapped s' = mapped s -> blockList s' = blockList s ->
     emptyBlockOverheadSize s' = emptyBlockOverheadSize s -> page_size s' = PAGE_SIZE ->
     Q 0 s') ->
  (forall a tape m',
     os_tape s = a :: tape ->
     mmap_accepts (mapped s) a (block_len size) = true ->
     block_ok m' ((a, a + block_len size) :: mapped s) a
        [bookkeeping a; mkRegion (a + 124) ((block_len size - 80) mod 2^28 - 44) 0] ->
     bsize m' a = block_len size ->
     get32 m' (a + off_pages) = wrap32 (block_pages size) ->
     (forall x, x < a \/ a + block_len size <= x -> m' x = bytes s x) ->
     Q a (mkState m' ((a, a + block_len size) :: mapped s) (blockList s)
                  (emptyBlockOverheadSize s) PAGE_SIZE tape)) ->
  wp (fuel <= 0)%nat (createHeapBlock fuel size) s Q.
Proof.
  intros Hps Hfail Hok. unfold createHeapBlock, sizeof_uintptr. change (8 * 2) with 16.
  apply wp_bind, Block_create_spec; [exact Hps| |].
  - intros s' E0 E1 E2 E3 E4 E5. apply wp_bind, wp_allocate_null. apply wp_ret.
    apply Hfail; assumption.
  - intros a tape m1 Et Ha Hfb Hfr.
    destruct (mmap_accepts_facts _ _ _ Ha) as [Hlen [Hpos [Hal [Htop Hfresh]]]].
    destruct (block_len_facts size) as [Hlr Hl4].
    assert (Hl : 4096 <= block_len size) by dlia.
    set (s1 := mkState m1 ((a, a + block_len size) :: mapped s) (blockList s)
                       (emptyBlockOverheadSize s) PAGE_SIZE tape).
    apply wp_bind.
    apply (bookkeeping_spec fuel s1 a size); try assumption.
    + unfold PAGE_SIZE in Hal. dlia.
    + apply range_mapped_head.
    + intros m' Hb Hf'. apply wp_ret.
      change (with_bytes s1 m') with
        (mkState m' ((a, a + block_len size) :: mapped s) (blockList s)
                 (emptyBlockOverheadSize s) PAGE_SIZE tape).
      apply Hok; try assumption.
      * unfold bsize. rewrite <- (fb_size _ _ _ Hfb). apply get32_ext. intros x Hx.
        apply Hf'. unfold off_size in Hx. lia.
      * rewrite <- (fb_pages _ _ _ Hfb). apply get32_ext. intros x Hx.
        apply Hf'. unfold off_pages in Hx. lia.
      * intros x Hx. rewrite Hf' by (cbn [bytes]; lia). apply Hfr. exact Hx.
Qed.

(** * The heap: the list of blocks *)

Lemma upd_same R B rs : upd R B rs B = rs.
Proof. unfold upd. rewrite Z.eqb_refl. reflexivity. Qed.

Lemma upd_other R B rs X : X <> B -> upd R B rs X = R X.
Proof. unfold upd. intros H. destruct (Z.eqb_spec X B); [contradiction|reflexivity]. Qed.

Lemma block_gen_frame m m' mp mp' B rs P :
  block_gen m mp B rs P ->
  (forall x, B <= x < B + 16 \/ B + 32 <= x < B + bsize m B -> m' x = m x) ->
  range_mapped mp' B (B + bsize m B) ->
  block_gen m' mp' B rs P.
Proof.
  intros H Hf Hm.
  pose proof (bg_size _ _ _ _ _ H) as Hsz.
  pose proof (blim_bounds m B Hsz) as Hbl.
  assert (Hbs : bsize m' B = bsize m B).
  { unfold bsize, off_size. apply get32_ext. intros x Hx. apply Hf. lia. }
  assert (Hlim : blim m' B = blim m B) by (unfold blim; rewrite Hbs; reflexivity).
  constructor.
  - apply H.
  - rewrite Hbs. exact Hsz.
  - rewrite Hbs. apply H.
  - rewrite Hbs. exact Hm.
  - intros r Hr. unfold region_fits. rewrite Hlim. apply (bg_regions _ _ _ _ _ H r Hr).
  - apply H.
  - apply H.
  - intros r Hr. destruct (bg_tagged _ _ _ _ _ H r Hr) as [T1 T2].
    pose proof (bg_bounds _ _ _ _ _ _ H Hr) as Hb.
    unfold tagged, r_end in *. split; [rewrite <- T1|rewrite <- T2];
      apply get32_ext; intros x Hx; apply Hf; lia.
  - apply H.
  - eapply flists_frame; [exact H| |].
    + intros x Hx. apply Hf. lia.
    + intros a Ha. pose proof (bg_node_bounds _ _ _ _ _ _ H Ha).
      unfold off_next. apply get64_ext. intros x Hx. apply Hf. lia.
  - rewrite <- (bg_used _ _ _ _ _ H). apply get32_ext. intros x Hx. apply Hf.
    unfold off_usedSize in Hx. lia.
Qed.

Lemma block_ok_frame m m' mp mp' B rs :
  block_ok m mp B rs ->
  (forall x, B <= x < B + 16 \/ B + 32 <= x < B + bsize m B -> m' x = m x) ->
  range_mapped mp' B (B + bsize m B) ->
  block_ok m' mp' B rs.
Proof.
  intros H Hf Hm. pose proof (bg_size _ _ _ _ _ (bk_gen _ _ _ _ H)) as Hsz.
  assert (Hbs : bsize m' B = bsize m B).
  { unfold bsize, off_size. apply get32_ext. intros x Hx. apply Hf. lia. }
  assert (Hlim : blim m' B = blim m B) by (unfold blim; rewrite Hbs; reflexivity).
  constructor.
  - apply (block_gen_frame m m' mp mp' B rs _ (bk_gen _ _ _ _ H) Hf Hm).
  - exact (bk_align _ _ _ _ H).
  - rewrite Hlim. exact (bk_lim _ _ _ _ H).
  - exact (bk_book _ _ _ _ H).
  - rewrite Hlim. exact (bk_placed _ _ _ _ H).
Qed.

Lemma heap_nodes_ok s bl R :
  heap_ok s bl R -> nodes_ok (mapped s) off_bnext bl.
Proof.
  intros H B HB. pose proof (bk_gen _ _ _ _ (hp_blocks _ _ _ H B HB)) as G.
  pose proof (bg_pos _ _ _ _ _ G). pose proof (bg_size _ _ _ _ _ G).
  pose proof (bg_top _ _ _ _ _ G). pose proof (bg_mapped _ _ _ _ _ G) as Hm.
  unfold off_bnext. repeat split; try lia; in_block Hm.
Qed.

Lemma heap_block_bounds s bl R B :
  heap_ok s bl R -> In B bl ->
  0 < B /\ 4096 <= bsize (bytes s) B /\ B + bsize (bytes s) B <= USER_TOP.
Proof.
  intros H HB. pose proof (bk_gen _ _ _ _ (hp_blocks _ _ _ H B HB)) as G.
  pose proof (bg_pos _ _ _ _ _ G). pose proof (bg_size _ _ _ _ _ G).
  pose proof (bg_top _ _ _ _ _ G). lia.
Qed.

(** An operation inside block [B] preserves the heap. *)
Lemma heap_block_update s bl R B rs' m' :
  heap_ok s bl R -> In B bl ->
  block_ok m' (mapped s) B rs' -> block_frame (bytes s) m' B ->
  heap_ok (with_bytes s m') bl (upd R B rs').
Proof.
  intros H HB Hb' Hf.
  assert (Hbs : forall X, In X bl -> bsize m' X = bsize (bytes s) X).
  { intros X HX. destruct (Z.eq_dec X B) as [->|Hne]; [apply block_frame_bsize; exact Hf|].
    unfold bsize, off_size. apply get32_ext. intros x Hx. apply Hf.
    pose proof (heap_block_bounds _ _ _ _ H HB). pose proof (heap_block_bounds _ _ _ _ H HX).
    destruct (hp_disj _ _ _ H X B HX HB) as [?|D]; [contradiction|].
    unfold off_usedSize. lia. }
  constructor; st_simpl.
  - eapply lseg_frame; [apply H|]. intros X HX. unfold off_bnext.
    apply get64_ext. intros x Hx. apply Hf.
    pose proof (heap_block_bounds _ _ _ _ H HB). pose proof (heap_block_bounds _ _ _ _ H HX).
    unfold off_usedSize.
    destruct (hp_disj _ _ _ H X B HX HB) as [->|D]; lia.
  - apply H.
  - intros X HX. destruct (Z.eq_dec X B) as [->|Hne].
    + rewrite upd_same. exact Hb'.
    + rewrite upd_other by exact Hne.
      eapply block_ok_frame; [apply (hp_blocks _ _ _ H X HX)| |].
      * intros x Hx. apply Hf.
        pose proof (heap_block_bounds _ _ _ _ H HB). pose proof (heap_block_bounds _ _ _ _ H HX).
        unfold off_usedSize.
        destruct (hp_disj _ _ _ H X B HX HB) as [?|D]; [contradiction|lia].
      * apply (bg_mapped _ _ _ _ _ (bk_gen _ _ _ _ (hp_blocks _ _ _ H X HX))).
  - intros B1 B2 H1 H2. rewrite (Hbs B1 H1), (Hbs B2 H2). apply (hp_disj _ _ _ H); assumption.
  - apply H.
  - apply H.
  - apply H.
Qed.

(** ** Global variables *)

Lemma wp_get_blockList {A} lim (k : Z -> M A) s Q :
  wp lim (k (blockList s)) s Q -> wp lim (bind get_blockList k) s Q.
Proof. intros H. exact H. Qed.

Lemma wp_set_blockList {A} lim v (k : unit -> M A) s Q :
  wp lim (k tt) (set_list s v) Q -> wp lim (bind (set_blockList v) k) s Q.
Proof. intros H. exact H. Qed.

Lemma wp_add_block_null lim fuel s (Q : Z -> state -> Prop) :
  Q 0 s -> wp lim (BlockList_addBlockToList fuel 0) s Q.
Proof. intros H. exact H. Qed.

Lemma BlockList_add_spec fuel s bl item (Q : Z -> state -> Prop) :
  lseg (bytes s) off_bnext (blockList s) bl -> NoDup bl ->
  nodes_ok (mapped s) off_bnext (item :: bl) ->
  ~ In item bl -> sep32 (item :: bl) ->
  (forall m' h' bl',
     lseg m' off_bnext h' bl' -> NoDup bl' ->
     (forall x, In x bl' <-> x = item \/ In x bl) ->
     (forall x, (forall X, In X (item :: bl) -> x < X + 16 \/ X + 32 <= x) -> m' x = bytes s x) ->
     Q 0 (set_list (with_bytes s m') h')) ->
  wp (fuel <= length bl)%nat (BlockList_addBlockToList fuel item) s Q.
Proof.
  intros Hl Hnd Hok Hni Hsep HQ. pose proof USER_TOP_eq as HT.
  destruct (Hok item (or_introl eq_refl)) as [Hi0 [Hi1 [Him1 Him2]]].
  unfold off_bnext in Him1, Him2, Hi1.
  replace (item + 16 + 8) with (item + 24) in Him2 by lia.
  unfold BlockList_addBlockToList.
  apply wp_get_blockList.
  destruct (Z.eqb_spec item 0); [lia|].
  apply wp_get_blockList.
  unfold off_bnext, off_bprevious in *.
  rewrite !wrap64_small by lia.
  assert (Hsi : forall X, In X bl -> X + 32 <= item \/ item + 32 <= X).
  { intros X HX. destruct (Hsep X item (or_intror HX) (or_introl eq_refl)) as [->|D];
      [contradiction|exact D]. }
  assert (Hsb : forall X Y, In X bl -> In Y bl -> X = Y \/ X + 32 <= Y \/ Y + 32 <= X).
  { intros X Y HX HY. apply Hsep; right; assumption. }
  assert (Hbl : forall X, In X bl ->
            0 < X /\ X + 16 + 16 <= USER_TOP /\
            mapped_n (mapped s) 8 (X + 16) = true /\ mapped_n (mapped s) 8 (X + 24) = true).
  { intros X HX. replace (X + 24) with (X + 16 + 8) by lia. apply Hok. right. exact HX. }
  destruct (Z.eqb_spec (blockList s) 0) as [Eh|Eh].
  - (* empty list *)
    assert (bl = []).
    { destruct bl as [|y l']; [reflexivity|]. cbn [lseg] in Hl. lia. }
    subst bl.
    apply wp_bind, wp_store64; [exact Him1|]. st_simpl.
    apply wp_bind, wp_store64; [st_simpl; exact Him2|]. st_simpl.
    apply wp_set_blockList. apply wp_ret.
    apply (HQ _ item [item]).
    + cbn [lseg]. mem_simpl. repeat split; lia.
    + constructor; [intros []|constructor].
    + intros x. cbn [In]. intuition congruence.
    + intros x Hx. pose proof (Hx item (or_introl eq_refl)). mem_simpl. reflexivity.
  - destruct bl as [|y l']; [cbn [lseg] in Hl; contradiction|].
    destruct (lseg_head _ _ _ _ _ Hl) as [Hy Hy0].
    destruct (Hbl y (or_introl eq_refl)) as [Hy1 [Hy2 [Hym1 Hym2]]].
    pose proof (Hsi y (or_introl eq_refl)) as Hsy.
    destruct (Z.gtb_spec (blockList s) item) as [Hgt|Hle].
    + (* insert before the head *)
      rewrite Hy. rewrite !wrap64_small by lia.
      apply wp_bind, wp_store64; [exact Him1|]. st_simpl.
      apply wp_bind, wp_store64; [st_simpl; exact Him2|]. st_simpl.
      apply wp_bind, wp_store64; [st_simpl; exact Hym2|]. st_simpl.
      apply wp_set_blockList. apply wp_ret.
      apply (HQ _ item (item :: y :: l')).
      * cbn [lseg]. mem_simpl. split; [reflexivity|]. split; [lia|].
        split; [reflexivity|]. split; [lia|].
        destruct Hl as [_ [_ Hl]]. eapply lseg_frame; [exact Hl|].
        intros x Hx. apply NoDup_cons_iff in Hnd.
        pose proof (Hsi x (or_intror Hx)). pose proof (Hsb x y (or_intror Hx) (or_introl eq_refl)).
        assert (x <> y) by (intros ->; tauto).
        mem_simpl. reflexivity.
      * constructor; assumption.
      * intros x. cbn [In]. intuition congruence.
      * intros x Hx. pose proof (Hx item (or_introl eq_refl)).
        pose proof (Hx y (or_intror (or_introl eq_refl))). mem_simpl. reflexivity.
    + (* insert after the node found by the walk *)
      apply wp_bind. eapply wp_lim; [apply insert_walk_spec with (l := y :: l')|].
      * lia.
      * exact Hl.
      * discriminate.
      * eapply nodes_ok_tail. exact Hok.
      * intros l1 aux l2 El. rewrite El in *.
        assert (Hauxin : In aux (l1 ++ aux :: l2)) by (apply in_or_app; right; left; reflexivity).
        destruct (Hbl aux Hauxin) as [Ha1 [Ha2 [Ham1 Ham2]]].
        pose proof (Hsi aux Hauxin) as Hsa.
        rewrite !wrap64_small by lia.
        apply wp_bind, wp_load64; [exact Ham1|].
        apply wp_bind, wp_store64; [exact Him1|]. st_simpl.
        apply wp_bind, wp_store64; [st_simpl; exact Him2|]. st_simpl.
        apply wp_bind, wp_store64; [st_simpl; exact Ham1|]. st_simpl.
        apply wp_ret.
        match goal with |- Q 0 (with_bytes s ?m) => set (m' := m) end.
        change (with_bytes s m') with (set_list (with_bytes s m') (blockList s)).
        apply (HQ _ _ (l1 ++ aux :: item :: l2)).
        -- eapply lseg_insert_after; [exact Hl|lia| | |].
           ++ unfold m'. mem_simpl. reflexivity.
           ++ unfold m'. mem_simpl. reflexivity.
           ++ intros x Hx.
              assert (Hxl : In x (l1 ++ aux :: l2)).
              { apply in_app_or in Hx. apply in_or_app.
                destruct Hx; [left|right; right]; assumption. }
              pose proof (Hsi x Hxl). pose proof (Hsb x aux Hxl Hauxin).
              assert (x <> aux).
              { intros ->. apply NoDup_remove_2 in Hnd. contradiction. }
              unfold m'. mem_simpl. reflexivity.
        -- apply NoDup_insert_mid; [exact Hnd|exact Hni].
        -- intros x. rewrite !in_app_iff. cbn [In]. intuition congruence.
        -- intros x Hx. pose proof (Hx item (or_introl eq_refl)).
           pose proof (Hx aux (or_intror Hauxin)). unfold m'. mem_simpl. reflexivity.
      * tauto.
Qed.

Lemma BlockList_remove_spec fuel s bl item (Q : Z -> state -> Prop) :
  lseg (bytes s) off_bnext (blockList s) bl -> NoDup bl ->
  nodes_ok (mapped s) off_bnext bl -> sep32 bl -> In item bl ->
  (forall m' h' bl',
     lseg m' off_bnext h' bl' -> NoDup bl' ->
     (forall x, In x bl' <-> In x bl /\ x <> item) ->
     (forall x, (forall X, In X bl -> x < X + 16 \/ X + 32 <= x) -> m' x = bytes s x) ->
     Q 0 (set_list (with_bytes s m') h')) ->
  wp (fuel <= length bl)%nat (BlockList_removeBlockFromList fuel item) s Q.
Proof.
  intros Hl Hnd Hok Hsep Hin HQ. pose proof USER_TOP_eq as HT.
  assert (Hbl : forall X, In X bl ->
            0 < X /\ X + 32 <= USER_TOP /\
            mapped_n (mapped s) 8 (X + 16) = true /\ mapped_n (mapped s) 8 (X + 24) = true).
  { intros X HX. destruct (Hok X HX) as [? [? [? ?]]]. unfold off_bnext in *.
    replace (X + 24) with (X + 16 + 8) by lia. repeat split; try assumption; lia. }
  destruct (Hbl item Hin) as [Hi0 [Hi1 [Him1 Him2]]].
  unfold BlockList_removeBlockFromList.
  destruct (Z.eqb_spec item 0); [lia|].
  apply wp_get_blockList.
  unfold off_bnext, off_bprevious in *.
  rewrite !wrap64_small by lia.
  destruct bl as [|y l']; [destruct Hin|].
  destruct (lseg_head _ _ _ _ _ Hl) as [Hy Hy0]. rewrite Hy.
  destruct (Z.eqb_spec y item) as [Ey|Ey].
  - (* head of the list *)
    rewrite Ey in *. clear Ey. cbn [lseg] in Hl. destruct Hl as [_ [_ Hl']].
    apply NoDup_cons_iff in Hnd. destruct Hnd as [Hni Hnd'].
    apply wp_bind, wp_load64; [exact Him1|].
    set (next := get64 (bytes s) (item + 16)) in *.
    apply wp_set_blockList.
    assert (Hnext : next = 0 \/ In next l').
    { destruct l' as [|z l'']; cbn [lseg] in Hl'; [left; exact Hl'|].
      right. left. symmetry. tauto. }
    assert (Hfin : forall m1,
       m1 = (if next =? 0 then bytes s else set64 (bytes s) (next + 24) 0) ->
       wp (fuel <= length (item :: l'))%nat
          (store64 (item + 16) 0 ;; store64 (item + 24) 0 ;; ret 0)
          (with_bytes (set_list s next) m1) Q).
    { intros m1 Em1.
      apply wp_bind, wp_store64; [exact Him1|]. st_simpl.
      apply wp_bind, wp_store64; [exact Him2|]. st_simpl.
      apply wp_ret.
      match goal with |- Q 0 (with_bytes _ ?m) => set (m' := m) end.
      change (with_bytes (set_list s next) m') with (set_list (with_bytes s m') next).
      apply (HQ m' next l').
      - eapply lseg_frame; [exact Hl'|].
        intros x Hx. pose proof (Hsep x item (or_intror Hx) (or_introl eq_refl)) as Hs1.
        assert (x <> item) by (intros ->; contradiction).
        unfold m'. rewrite Em1. destruct (Z.eqb_spec next 0) as [Ez|Ez].
        + mem_simpl. reflexivity.
        + destruct Hnext as [?|Hn]; [contradiction|].
          pose proof (Hsep x next (or_intror Hx) (or_intror Hn)) as Hs2.
          mem_simpl. reflexivity.
      - exact Hnd'.
      - intros x. cbn [In]. split.
        + intros Hx. split; [right; exact Hx|]. intros ->. contradiction.
        + intros [[E|Hx] Hne]; [congruence|exact Hx].
      - intros x Hx. pose proof (Hx item (or_introl eq_refl)).
        unfold m'. rewrite Em1. destruct (Z.eqb_spec next 0) as [Ez|Ez].
        + mem_simpl. reflexivity.
        + destruct Hnext as [?|Hn]; [contradiction|].
          pose proof (Hx next (or_intror Hn)). mem_simpl. reflexivity. }
    apply wp_bind.
    destruct (Z.eqb_spec next 0) as [Ez|Ez]; cbn [negb].
    + apply wp_ret. apply (Hfin (bytes s)). reflexivity.
    + destruct Hnext as [?|Hn]; [contradiction|].
      destruct (Hbl next (or_intror Hn)) as [Hn0 [Hn1 [Hnm1 Hnm2]]].
      rewrite wrap64_small by lia.
      apply wp_store64; [exact Hnm2|].
      apply (Hfin (set64 (bytes s) (next + 24) 0)). reflexivity.
  - (* further down the list *)
    assert (Hil' : In item l') by (destruct Hin; [contradiction|assumption]).
    destruct (in_split _ _ Hil') as [la [l2 El']].
    destruct (exists_snoc y la) as [l1 [aux Ela]].
    assert (El : y :: l' = l1 ++ aux :: item :: l2).
    { rewrite El'. change (y :: la ++ item :: l2) with ((y :: la) ++ item :: l2).
      rewrite Ela, <- app_assoc. reflexivity. }
    rewrite El in *. clear El El' Ela Hil' la.
    apply wp_bind.
    eapply wp_lim;
      [change 24 with (16 + 8) at 1;
       apply remove_walk_spec with (l1 := l1) (aux := aux) (l2 := l2)|].
    + lia.
    + rewrite <- Hy. exact Hl.
    + exact Hnd.
    + exact Hok.
    + cbv zeta. set (next := get64 (bytes s) (item + 16)) in *.
      assert (Hauxin : In aux (l1 ++ aux :: item :: l2)).
      { apply in_or_app. right. left. reflexivity. }
      destruct (Hbl aux Hauxin) as [Ha0 [Ha1 [Ham1 Ham2]]].
      destruct (NoDup_mid2 _ _ _ _ Hnd) as [Hnd1 [Hni [Hnaux Haux_ne]]].
      assert (Hnext : next = 0 \/ In next l2).
      { pose proof (lseg_app2 _ _ _ _ _ _ _ Hl) as Hl2.
        destruct l2 as [|z l2']; cbn [lseg] in Hl2; [left; exact Hl2|].
        right. left. symmetry. tauto. }
      assert (Hin2 : forall x, In x l2 -> In x (l1 ++ aux :: item :: l2)).
      { intros x Hx. apply in_or_app. right. right. right. exact Hx. }
      assert (Hnn : next <> 0 -> In next l2 /\ next <> item /\ next <> aux).
      { intros Hz. destruct Hnext as [?|Hn]; [contradiction|]. split; [exact Hn|split].
        - intros E. rewrite E in Hn. apply Hni, in_or_app. right. right. exact Hn.
        - intros E. rewrite E in Hn. apply Hnaux, in_or_app. right. exact Hn. }
      apply wp_bind, wp_store64; [st_simpl; exact Him1|]. st_simpl.
      apply wp_bind, wp_store64; [st_simpl; exact Him2|]. st_simpl.
      apply wp_ret.
      match goal with |- Q 0 (with_bytes s ?m) => set (m' := m) end.
      change (with_bytes s m') with (set_list (with_bytes s m') (blockList s)).
      pose proof (Hsep aux item Hauxin Hin) as Hsai.
      apply (HQ m' _ (l1 ++ aux :: l2)).
      * eapply lseg_remove_after; [exact Hl| |].
        -- unfold m'. destruct (Z.eqb_spec next 0) as [Ez|Ez].
           ++ mem_simpl. reflexivity.
           ++ destruct (Hnn Ez) as [Hn [Hne1 Hne2]].
              pose proof (Hsep next item (Hin2 _ Hn) Hin).
              pose proof (Hsep next aux (Hin2 _ Hn) Hauxin).
              mem_simpl. reflexivity.
        -- intros x Hx.
           assert (Hxl : In x (l1 ++ aux :: item :: l2)).
           { apply in_app_or in Hx. apply in_or_app.
             destruct Hx; [left|right; right; right]; assumption. }
           assert (x <> item).
           { intros ->. apply Hni. apply in_app_or in Hx. apply in_or_app.
             destruct Hx; [left|right; right]; assumption. }
           assert (x <> aux) by (intros ->; contradiction).
           pose proof (Hsep x item Hxl Hin). pose proof (Hsep x aux Hxl Hauxin).
           unfold m'. destruct (Z.eqb_spec next 0) as [Ez|Ez].
           ++ mem_simpl. reflexivity.
           ++ destruct (Hnn Ez) as [Hn [Hne1 Hne2]].
              pose proof (Hsep x next Hxl (Hin2 _ Hn)).
              mem_simpl. reflexivity.
      * exact Hnd1.
      * intros x. rewrite !in_app_iff. cbn [In]. rewrite in_app_iff in Hni.
        cbn [In] in Hni.
        split.
        -- intros [Hx|[Hx|Hx]].
           ++ split; [tauto|]. intros ->. tauto.
           ++ split; [tauto|]. congruence.
           ++ split; [tauto|]. intros ->. tauto.
        -- intros [[Hx|[Hx|[Hx|Hx]]] Hne]; try tauto. congruence.
      * intros x Hx. pose proof (Hx item Hin). pose proof (Hx aux Hauxin).
        unfold m'. destruct (Z.eqb_spec next 0) as [Ez|Ez].
        -- mem_simpl. reflexivity.
        -- destruct (Hnn Ez) as [Hn _]. pose proof (Hx next (Hin2 _ Hn)).
           mem_simpl. reflexivity.
    + tauto.
Qed.

(** * Allocation and release inside a well-placed block *)

Lemma placed_not_book B lim r :
  region_placed B lim r -> r_used r = 0 ->
  B + 124 <= r_addr r /\ r_addr r mod 16 = 12 /\ (r_size r mod 16 = 0 \/ r_end r = lim).
Proof.
  intros [->|H] Hu; [cbn in Hu; lia|exact H].
Qed.

Lemma placed_not_book' B lim r :
  region_placed B lim r -> r <> bookkeeping B ->
  B + 124 <= r_addr r /\ r_addr r mod 16 = 12 /\ (r_size r mod 16 = 0 \/ r_end r = lim).
Proof.
  intros [->|H] Hu; [contradiction|exact H].
Qed.

Lemma placed_merge B lim x y u :
  region_placed B lim x -> region_placed B lim y -> x <> bookkeeping B ->
  r_end x = r_addr y -> 0 <= r_size x -> 0 < r_size y -> r_end y <= lim ->
  region_placed B lim (mkRegion (r_addr x) (r_size x + r_size y) u).
Proof.
  intros Hx Hy Hnb He Hsx Hsy Hl.
  destruct (placed_not_book' _ _ _ Hx Hnb) as [X1 [X2 X3]].
  unfold r_end in *.
  assert (Y : r_size y mod 16 = 0 \/ r_addr y + r_size y = lim).
  { destruct Hy as [->|[_ [_ Y]]]; [|exact Y].
    unfold bookkeeping, sizeof_BlockHeader in He. cbn [r_addr] in He. lia. }
  right. unfold r_end. cbn [r_addr r_size]. split; [exact X1|]. split; [exact X2|].
  destruct X3 as [X3|X3]; [|lia].
  destruct Y as [Y|Y]; [left|right; lia].
  rewrite Z.add_mod, X3, Y by lia. reflexivity.
Qed.

Lemma placed_fit B lim r al :
  region_placed B lim r -> r_used r = 0 -> lim mod 16 = 0 ->
  (r_addr r + al + 4) mod 16 = 0 -> al < r_size r -> al + 4 <= r_size r.
Proof.
  intros Hp Hu Hl Ha Hlt.
  destruct (placed_not_book _ _ _ Hp Hu) as [_ [X2 X3]].
  unfold r_end in X3. destruct X3 as [X3|X3]; [dlia|].
  subst lim. dlia.
Qed.

Lemma al_of_facts r size :
  wrap32 (size + 8) < al_of r size /\ 29 <= al_of r size /\
  al_of r size <= wrap32 (size + 8) + 44 /\ (r_addr r + al_of r size + 4) mod 16 = 0.
Proof. apply aligned_facts. apply wrap32_range. Qed.

(** [Block_allocateRegion] on a well-placed block: either no free region
    is large enough and nothing changes, or a free region [r] is taken,
    cut to the aligned size, and its payload address is 16-byte aligned. *)
Lemma allocate_ok_frame W fuel s B rs size (Q : Z -> state -> Prop) :
  block_ok (bytes s) (mapped s) B rs ->
  covers_header W B -> (forall r, is_free_in rs r -> covers W r) ->
  ((forall r, is_free_in rs r -> ~ al_of r size < r_size r) -> Q 0 s) ->
  (forall r rest m' rs',
     Permutation rs (r :: rest) -> r_used r = 0 ->
     al_of r size < r_size r ->
     (rs' = mkRegion (r_addr r) (al_of r size) 1 :: rest \/
      (28 <= r_size r - al_of r size /\
       rs' = mkRegion (r_addr r) (al_of r size) 1 ::
             mkRegion (r_addr r + al_of r size) (r_size r - al_of r size) 0 :: rest)) ->
     block_ok m' (mapped s) B rs' ->
     block_frame (bytes s) m' B -> keeps W (bytes s) m' ->
     B + 124 <= r_addr r -> (r_addr r + 4) mod 16 = 0 ->
     Q (r_addr r) (with_bytes s m')) ->
  wp (fuel <= length rs + 1)%nat (Block_allocateRegion fuel B size) s Q.
Proof.
  intros H HWh HWc Hno Hyes. pose proof (bk_gen _ _ _ _ H) as G.
  apply allocate_frame with (W := W) (rs := rs).
  - exact G.
  - intros r [Hin Hfree] Hfit.
    eapply placed_fit; [exact (bk_placed _ _ _ _ H r Hin)|exact Hfree|
                        exact (bk_lim _ _ _ _ H)| |exact Hfit].
    apply (al_of_facts r size).
  - exact HWh.
  - exact HWc.
  - exact Hno.
  - intros r rest m' rs' Hp Hfree Hfit Hrs G' F K.
    assert (Hin : In r rs).
    { eapply Permutation_in; [apply Permutation_sym; exact Hp|left; reflexivity]. }
    destruct (placed_not_book _ _ _ (bk_placed _ _ _ _ H r Hin) Hfree) as [X1 [X2 X3]].
    destruct (al_of_facts r size) as [A1 [A2 [A3 A4]]].
    fold (al_of r size) in Hfit, Hrs. cbv zeta in Hrs.
    assert (Hbs := block_frame_bsize _ _ _ F).
    assert (Hlim : blim m' B = blim (bytes s) B) by (unfold blim; rewrite Hbs; reflexivity).
    assert (Hrest : forall x, In x rest -> In x rs).
    { intros x Hx. eapply Permutation_in; [apply Permutation_sym; exact Hp|right; exact Hx]. }
    assert (Hbook : In (bookkeeping B) rest).
    { pose proof (bk_book _ _ _ _ H) as Hb.
      eapply Permutation_in in Hb; [|exact Hp]. destruct Hb as [E|Hb]; [|exact Hb].
      rewrite E in Hfree. cbn in Hfree. lia. }
    assert (P1 : region_placed B (blim (bytes s) B) (mkRegion (r_addr r) (al_of r size) 1)).
    { right. cbn [r_addr r_size]. split; [exact X1|]. split; [exact X2|]. left. dlia. }
    apply (Hyes r rest m' rs'); try assumption.
    + constructor.
      * exact G'.
      * exact (bk_align _ _ _ _ H).
      * rewrite Hlim. exact (bk_lim _ _ _ _ H).
      * destruct Hrs as [->|[_ ->]]; [right|right; right]; exact Hbook.
      * rewrite Hlim. intros x Hx.
        destruct Hrs as [->|[Hsp ->]].
        -- destruct Hx as [<-|Hx]; [exact P1|]. apply (bk_placed _ _ _ _ H), Hrest, Hx.
        -- destruct Hx as [<-|[<-|Hx]]; [exact P1| |apply (bk_placed _ _ _ _ H), Hrest, Hx].
           right. unfold r_end in *. cbn [r_addr r_size].
           split; [lia|]. split; [dlia|].
           destruct X3 as [X3|X3]; [left; dlia|right; lia].
    + dlia.
Qed.

Lemma allocate_ok fuel s B rs size (Q : Z -> state -> Prop) :
  block_ok (bytes s) (mapped s) B rs ->
  ((forall r, is_free_in rs r -> ~ al_of r size < r_size r) -> Q 0 s) ->
  (forall r rest m' rs',
     Permutation rs (r :: rest) -> r_used r = 0 ->
     al_of r size < r_size r ->
     (rs' = mkRegion (r_addr r) (al_of r size) 1 :: rest \/
      (28 <= r_size r - al_of r size /\
       rs' = mkRegion (r_addr r) (al_of r size) 1 ::
             mkRegion (r_addr r + al_of r size) (r_size r - al_of r size) 0 :: rest)) ->
     block_ok m' (mapped s) B rs' ->
     block_frame (bytes s) m' B ->
     B + 124 <= r_addr r -> (r_addr r + 4) mod 16 = 0 ->
     Q (r_addr r) (with_bytes s m')) ->
  wp (fuel <= length rs + 1)%nat (Block_allocateRegion fuel B size) s Q.
Proof.
  intros H Hno Hyes.
  apply (allocate_ok_frame (fun _ => True) fuel s B rs size); try assumption.
  - apply covers_header_all.
  - intros r _. apply covers_all.
  - intros r rest m' rs' Hp Hf Hfit Hrs G F _ X1 X2. apply (Hyes r rest m' rs'); assumption.
Qed.

(** [Block_deallocateRegion] on a well-placed block. *)
Lemma dealloc_ok_frame W fuel s B rs r (Q : unit -> state -> Prop) :
  block_ok (bytes s) (mapped s) B rs -> In r rs -> r_used r = 1 -> r <> bookkeeping B ->
  covers_header W B -> covers W r -> (forall x, is_free_in rs x -> covers W x) ->
  (forall m' rest rs',
     Permutation rs (r :: rest) ->
     coalesced (mkRegion (r_addr r) (r_size r) 0)
               (mkRegion (r_addr r) (r_size r) 0 :: rest) rs' ->
     block_ok m' (mapped s) B rs' ->
     block_frame (bytes s) m' B -> keeps W (bytes s) m' ->
     md_used (get32 m' (r_addr r)) = 0 -> Q tt (with_bytes s m')) ->
  wp (fuel <= length rs)%nat (Block_deallocateRegion fuel B (r_addr r)) s Q.
Proof.
  intros H Hin Hused Hnb HWh HWr HWc HQ. pose proof (bk_gen _ _ _ _ H) as G.
  apply dealloc_frame with (W := W) (rs := rs);
    [exact G|exact Hin|exact Hused|exact HWh|exact HWr|exact HWc|].
  intros m' rest rs' Hp Hco G' F K Hu0.
  apply (HQ m' rest rs' Hp Hco); [|exact F|exact K|exact Hu0].
  set (r0 := mkRegion (r_addr r) (r_size r) 0) in *.
  assert (Hbs := block_frame_bsize _ _ _ F).
  assert (Hlim : blim m' B = blim (bytes s) B) by (unfold blim; rewrite Hbs; reflexivity).
  set (lim := blim (bytes s) B) in *.
  assert (Hrest : forall x, In x rest -> In x rs).
  { intros x Hx. eapply Permutation_in; [apply Permutation_sym; exact Hp|right; exact Hx]. }
  assert (Hbook : In (bookkeeping B) rest).
  { pose proof (bk_book _ _ _ _ H) as Hb.
    eapply Permutation_in in Hb; [|exact Hp]. destruct Hb as [E|Hb]; [|exact Hb].
    contradiction. }
  assert (P0 : region_placed B lim r0).
  { destruct (placed_not_book' _ _ _ (bk_placed _ _ _ _ H r Hin) Hnb) as [X1 [X2 X3]].
    right. exact (conj X1 (conj X2 X3)). }
  assert (N0 : r0 <> bookkeeping B).
  { intros E. apply (f_equal r_used) in E. cbn in E. lia. }
  assert (Hb0 : 28 <= r_size r0 /\ r_end r0 <= lim).
  { pose proof (bg_bounds _ _ _ _ _ _ G Hin). unfold r_end. cbn. lia. }
  assert (Hold : forall x, In x (r0 :: rest) ->
            region_placed B lim x /\ 28 <= r_size x /\ r_end x <= lim).
  { intros x [<-|Hx]; [tauto|]. split; [apply (bk_placed _ _ _ _ H), Hrest, Hx|].
    pose proof (bg_bounds _ _ _ _ _ _ G (Hrest _ Hx)). unfold r_end, lim. lia. }
  assert (Hfreeb : forall x, r_used x = 0 -> x <> bookkeeping B).
  { intros x Hu E. rewrite E in Hu. cbn in Hu. lia. }
  assert (Hkeep : forall l, Permutation (r0 :: rest) l ->
            (forall x, In x l -> region_placed B lim x /\ 28 <= r_size x /\ r_end x <= lim) /\
            In (bookkeeping B) l).
  { intros l Hl. split.
    - intros x Hx. apply Hold. eapply Permutation_in; [apply Permutation_sym; exact Hl|exact Hx].
    - eapply Permutation_in; [exact Hl|right; exact Hbook]. }
  assert (Hgoal : In (bookkeeping B) rs' /\ forall x, In x rs' -> region_placed B lim x).
  { destruct Hco as [->|xr rest' Hp' Hu He ->|xl rest' Hp' Hu He ->
                     |xl xr rest' Hp' Hu1 He1 Hu2 He2 ->].
    - split; [right; exact Hbook|]. intros x Hx. apply Hold, Hx.
    - destruct (Hkeep _ Hp') as [K1 K2].
      destruct (K1 xr (or_intror (or_introl eq_refl))) as [Pr [Sr Er]].
      split.
      + destruct K2 as [E|[E|K2]]; [congruence|exfalso; exact (Hfreeb _ Hu E)|].
        right. exact K2.
      + intros x [<-|Hx]; [|apply K1; right; right; exact Hx].
        apply (placed_merge B lim r0 xr 0); try assumption; try lia.
    - destruct (Hkeep _ Hp') as [K1 K2].
      destruct (K1 xl (or_introl eq_refl)) as [Pl [Sl El]].
      split.
      + destruct K2 as [E|[E|K2]]; [exfalso; exact (Hfreeb _ Hu E)|congruence|].
        right. exact K2.
      + intros x [<-|Hx]; [|apply K1; right; right; exact Hx].
        apply (placed_merge B lim xl r0 0); try assumption; try lia.
        apply Hfreeb. exact Hu.
    - destruct (Hkeep _ Hp') as [K1 K2].
      destruct (K1 xl (or_introl eq_refl)) as [Pl [Sl El]].
      destruct (K1 xr (or_intror (or_intror (or_introl eq_refl)))) as [Pr [Sr Er]].
      split.
      + destruct K2 as [E|[E|[E|K2]]];
          [exfalso; exact (Hfreeb _ Hu1 E)|congruence
          |exfalso; exact (Hfreeb _ Hu2 E)|].
        right. exact K2.
      + intros x [<-|Hx]; [|apply K1; right; right; right; exact Hx].
        pose proof (placed_merge B lim xl r0 0 Pl P0 (Hfreeb _ Hu1) He1
                      ltac:(lia) ltac:(lia) ltac:(lia)) as Pm.
        apply (placed_merge B lim _ xr 0 Pm Pr).
        * intros E. apply (f_equal r_used) in E. cbn in E. lia.
        * unfold r_end in *. cbn [r_addr r_size] in *. lia.
        * cbn [r_size]. lia.
        * lia.
        * exact Er. }
  constructor.
  - exact G'.
  - exact (bk_align _ _ _ _ H).
  - rewrite Hlim. exact (bk_lim _ _ _ _ H).
  - apply Hgoal.
  - rewrite Hlim. apply Hgoal.
Qed.

Lemma dealloc_ok fuel s B rs r (Q : unit -> state -> Prop) :
  block_ok (bytes s) (mapped s) B rs -> In r rs -> r_used r = 1 -> r <> bookkeeping B ->
  (forall m' rest rs',
     Permutation rs (r :: rest) ->
     coalesced (mkRegion (r_addr r) (r_size r) 0)
               (mkRegion (r_addr r) (r_size r) 0 :: rest) rs' ->
     block_ok m' (mapped s) B rs' ->
     block_frame (bytes s) m' B -> Q tt (with_bytes s m')) ->
  wp (fuel <= length rs)%nat (Block_deallocateRegion fuel B (r_addr r)) s Q.
Proof.
  intros H Hin Hused Hnb HQ.
  apply (dealloc_ok_frame (fun _ => True) fuel s B rs r); try assumption.
  - apply covers_header_all.
  - apply covers_all.
  - intros x _. apply covers_all.
  - intros m' rest rs' Hp Hco G F _ _. apply (HQ m' rest rs'); assumption.
Qed.

(** * Searching the list of blocks *)

Lemma Block_isFull_spec lim s B rs P (Q : bool -> state -> Prop) :
  block_gen (bytes s) (mapped s) B rs P ->
  Q (get32 (bytes s) (B + off_usedSize) =? bsize (bytes s) B) s ->
  wp lim (Block_isFull B) s Q.
Proof.
  intros G HQ. pose proof USER_TOP_eq as HT.
  pose proof (bg_pos _ _ _ _ _ G). pose proof (bg_size _ _ _ _ _ G).
  pose proof (bg_top _ _ _ _ _ G). pose proof (bg_mapped _ _ _ _ _ G) as Hm.
  unfold Block_isFull, off_usedSize, off_size, bsize in *.
  destruct (Z.eqb_spec B 0); [lia|].
  rewrite !wrap64_small by lia.
  apply wp_bind, wp_load32; [in_block Hm|].
  apply wp_bind, wp_load32; [in_block Hm|].
  apply wp_ret. exact HQ.
Qed.

Lemma findBlock_spec fuel inner s R size N (Q : Z -> state -> Prop) l :
  forall h,
  lseg (bytes s) off_bnext h l ->
  (forall B, In B l -> block_ok (bytes s) (mapped s) B (R B)) ->
  (forall B, In B l -> (length (R B) <= N)%nat) ->
  (forall B, In B l -> get32 (bytes s) (B + off_usedSize) <> bsize (bytes s) B ->
     (exists r, is_free_in (R B) r /\ fits r size) -> Q B s) ->
  (no_fit (bytes s) R size l -> Q 0 s) ->
  wp (fuel <= length l \/ inner <= N)%nat (findBlock fuel inner h size) s Q.
Proof.
  pose proof USER_TOP_eq as HT. revert fuel.
  induction l as [|B l IH]; intros fuel h Hl Hok HN Hyes Hno.
  - cbn [lseg] in Hl. subst h.
    destruct fuel as [|k]; [unfold wp; cbn; left; lia|]. cbn [findBlock].
    apply wp_ret. apply Hno. intros B [].
  - destruct fuel as [|k]; [unfold wp; cbn; left; lia|]. cbn [findBlock].
    destruct (lseg_head _ _ _ _ _ Hl) as [Hh Hh0]. subst h.
    cbn [lseg] in Hl. destruct Hl as [_ [_ Hl]].
    destruct (Z.eqb_spec B 0); [contradiction|].
    pose proof (bk_gen _ _ _ _ (Hok B (or_introl eq_refl))) as G.
    pose proof (bg_pos _ _ _ _ _ G). pose proof (bg_size _ _ _ _ _ G).
    pose proof (bg_top _ _ _ _ _ G). pose proof (bg_mapped _ _ _ _ _ G) as Hm.
    assert (Hrec : (get32 (bytes s) (B + off_usedSize) = bsize (bytes s) B \/
                    forall r, is_free_in (R B) r -> ~ fits r size) ->
               wp (S k <= length (B :: l) \/ inner <= N)%nat
               (nx <- load64 (wrap64 (B + off_bnext)) ;; findBlock k inner nx size) s Q).
    { intros Hhere. unfold off_bnext in *. rewrite wrap64_small by lia.
      apply wp_bind, wp_load64; [in_block Hm|].
      eapply wp_lim; [apply IH|].
      - exact Hl.
      - intros X HX. apply Hok. right. exact HX.
      - intros X HX. apply HN. right. exact HX.
      - intros X HX. apply Hyes. right. exact HX.
      - intros Hrest. apply Hno. intros X [<-|HX]; [exact Hhere|apply Hrest; exact HX].
      - cbn [length]. lia. }
    apply wp_bind. eapply Block_isFull_spec; [exact G|].
    destruct (Z.eqb_spec (get32 (bytes s) (B + off_usedSize)) (bsize (bytes s) B)) as [Efull|Efull].
    + apply wp_bind, wp_ret. cbn [negb andb]. apply Hrec. left. exact Efull.
    + apply wp_bind. eapply wp_lim; [apply canAllocate_spec with (P := is_free_in (R B))|].
      * exact G.
      * intros r HP Hfit. pose proof (bg_bounds _ _ _ _ _ _ G (proj1 HP)).
        destruct (Z.eqb_spec (r_addr r) 0); [lia|]. cbn [negb andb].
        apply wp_ret. apply Hyes; [left; reflexivity|exact Efull|]. exists r. split; assumption.
      * intros Hnone. cbn [negb andb Z.eqb]. apply Hrec. right. exact Hnone.
      * intros Hlim. right. pose proof (HN B (or_introl eq_refl)). lia.
Qed.

Lemma getBlockWithRegion_loop_spec fuel s mp p (Q : Z -> state -> Prop) l :
  forall h,
  lseg (bytes s) off_bnext h l ->
  (forall B, In B l -> 0 < B /\ 4096 <= bsize (bytes s) B /\
                       B + bsize (bytes s) B <= USER_TOP /\
                       range_mapped mp B (B + bsize (bytes s) B)) ->
  mp = mapped s ->
  (forall B, In B l -> B <= p < B + bsize (bytes s) B -> Q B s) ->
  ((forall B, In B l -> ~ (B <= p < B + bsize (bytes s) B)) -> Q 0 s) ->
  wp (fuel <= length l)%nat (getBlockWithRegion_loop fuel h p) s Q.
Proof.
  pose proof USER_TOP_eq as HT. revert fuel.
  induction l as [|B l IH]; intros fuel h Hl Hok Emp Hyes Hno.
  - cbn [lseg] in Hl. subst h.
    destruct fuel as [|k]; [unfold wp; cbn; lia|]. cbn [getBlockWithRegion_loop].
    apply wp_ret. apply Hno. intros B [].
  - destruct fuel as [|k]; [unfold wp; cbn; lia|]. cbn [getBlockWithRegion_loop].
    destruct (lseg_head _ _ _ _ _ Hl) as [Hh Hh0]. subst h.
    cbn [lseg] in Hl. destruct Hl as [_ [_ Hl]].
    destruct (Z.eqb_spec B 0); [contradiction|].
    destruct (Hok B (or_introl eq_refl)) as [HB0 [HB1 [HB2 Hm]]]. rewrite Emp in Hm.
    unfold bsize in *. unfold off_size, off_bnext in *.
    rewrite !wrap64_small by lia.
    apply wp_bind, wp_load32; [in_block Hm|].
    rewrite wrap64_small by lia.
    destruct (Z.geb_spec p B) as [H1|H1]; cbn [andb].
    + destruct (Z.ltb_spec p (B + get32 (bytes s) (B + 4))) as [H2|H2].
      * apply wp_ret. apply Hyes; [left; reflexivity|lia].
      * apply wp_bind, wp_load64; [in_block Hm|].
        eapply wp_lim; [apply IH|].
        -- exact Hl.
        -- intros X HX. apply Hok. right. exact HX.
        -- exact Emp.
        -- intros X HX. apply Hyes. right. exact HX.
        -- intros Hn. apply Hno. intros X [<-|HX]; [lia|apply Hn, HX].
        -- cbn [length]. lia.
    + apply wp_bind, wp_load64; [in_block Hm|].
      eapply wp_lim; [apply IH|].
      * exact Hl.
      * intros X HX. apply Hok. right. exact HX.
      * exact Emp.
      * intros X HX. apply Hyes. right. exact HX.
      * intros Hn. apply Hno. intros X [<-|HX]; [lia|apply Hn, HX].
      * cbn [length]. lia.
Qed.

Lemma getBlockWithRegion_spec fuel s bl R p (Q : Z -> state -> Prop) :
  heap_ok s bl R ->
  (forall B, In B bl -> B <= p < B + bsize (bytes s) B -> Q B s) ->
  ((forall B, In B bl -> ~ (B <= p < B + bsize (bytes s) B)) -> Q 0 s) ->
  wp (fuel <= length bl)%nat (getBlockWithRegion fuel p) s Q.
Proof.
  intros H Hyes Hno. unfold getBlockWithRegion. apply wp_get_blockList.
  apply getBlockWithRegion_loop_spec with (mp := mapped s) (l := bl).
  - exact (hp_list _ _ _ H).
  - intros B HB. pose proof (bk_gen _ _ _ _ (hp_blocks _ _ _ H B HB)) as G.
    pose proof (bg_pos _ _ _ _ _ G). pose proof (bg_size _ _ _ _ _ G).
    pose proof (bg_top _ _ _ _ _ G). pose proof (bg_mapped _ _ _ _ _ G). tauto.
  - reflexivity.
  - exact Hyes.
  - exact Hno.
Qed.

(** A block that the search loop returns has passed its test. *)
Lemma findBlock_found s bl R size fuel inner b s1 :
  heap_ok s bl R -> findBlock fuel inner (blockList s) size s = Ok b s1 -> b <> 0 ->
  ~ no_fit (bytes s) R size bl.
Proof.
  intros H Hf Hb.
  assert (HN : exists N, forall B, In B bl -> (length (R B) <= N)%nat).
  { exists (list_sum (map (fun B => length (R B)) bl)). intros B HB.
    clear - HB. induction bl as [|X bl IH]; [destruct HB|].
    simpl. destruct HB as [->|HB]; [lia|]. specialize (IH HB). lia. }
  destruct HN as [N HN].
  refine (wp_ok _ _ _ (fun b _ => b <> 0 -> ~ no_fit (bytes s) R size bl) _ _
            (findBlock_spec fuel inner s R size N _ bl (blockList s)
               (hp_list _ _ _ H) (hp_blocks _ _ _ H) HN _ _) Hf Hb).
  - intros B HB Hnf [r [Hfree Hfit]] _ Hno.
    destruct (Hno B HB) as [E|Hn]; [contradiction|]. exact (Hn r Hfree Hfit).
  - intros _ Hc. exfalso. apply Hc. reflexivity.
Qed.

(** * Finding or creating a block for a request *)

Lemma heap_ok_same s s' bl R :
  heap_ok s bl R -> bytes s' = bytes s -> mapped s' = mapped s ->
  blockList s' = blockList s -> emptyBlockOverheadSize s' = emptyBlockOverheadSize s ->
  page_size s' = PAGE_SIZE \/ page_size s' = page_size s ->
  heap_ok s' bl R.
Proof.
  intros H E1 E2 E3 E4 E5. constructor; rewrite ?E1, ?E2, ?E3, ?E4; try apply H.
  - destruct E5 as [E5|E5]; rewrite E5; [right; reflexivity|apply H].
  - intros Hne. destruct (hp_globals _ _ _ H Hne) as [G1 G2]. split; [exact G1|].
    destruct E5 as [E5|E5]; rewrite E5; [reflexivity|exact G2].
Qed.

(** A fresh mapping lies apart from every block. *)
Lemma fresh_sep s bl R a len B :
  heap_ok s bl R -> mmap_accepts (mapped s) a len = true -> In B bl ->
  B + bsize (bytes s) B <= a \/ a + len <= B.
Proof.
  intros H Ha HB.
  destruct (mmap_accepts_facts _ _ _ Ha) as [Hlen [Hpos [_ [_ Hfresh]]]].
  pose proof (heap_block_bounds _ _ _ _ H HB) as [HB0 [HB1 HB2]].
  pose proof (bg_mapped _ _ _ _ _ (bk_gen _ _ _ _ (hp_blocks _ _ _ H B HB))) as Hm.
  destruct (Z.le_gt_cases (B + bsize (bytes s) B) a) as [?|H1]; [left; assumption|].
  destruct (Z.le_gt_cases (a + len) B) as [?|H2]; [right; assumption|].
  exfalso.
  assert (Hx : is_mapped (mapped s) (Z.max a B) = true) by (apply Hm; lia).
  rewrite Hfresh in Hx by lia. discriminate.
Qed.

Lemma heap_sep32 s bl R : heap_ok s bl R -> sep32 bl.
Proof.
  intros H X Y HX HY.
  pose proof (heap_block_bounds _ _ _ _ H HX). pose proof (heap_block_bounds _ _ _ _ H HY).
  destruct (hp_disj _ _ _ H X Y HX HY) as [?|D]; [left; assumption|right; lia].
Qed.

(** Linking a freshly created block into the list. *)
Lemma heap_add_block s bl R a len rs_a m1 m2 h' bl' e ps tape :
  heap_ok s bl R ->
  mmap_accepts (mapped s) a len = true ->
  block_ok m1 ((a, a + len) :: mapped s) a rs_a ->
  bsize m1 a = len ->
  (forall x, x < a \/ a + len <= x -> m1 x = bytes s x) ->
  lseg m2 off_bnext h' bl' -> NoDup bl' ->
  (forall x, In x bl' <-> x = a \/ In x bl) ->
  (forall x, (forall X, In X (a :: bl) -> x < X + 16 \/ X + 32 <= x) -> m2 x = m1 x) ->
  e = 124 -> ps = PAGE_SIZE ->
  heap_ok (mkState m2 ((a, a + len) :: mapped s) h' e ps tape) bl' (upd R a rs_a).
Proof.
  intros H Ha Hba Hsz Hf1 Hl Hnd Hmem Hf2 He Hps.
  destruct (mmap_accepts_facts _ _ _ Ha) as [Hlen [Hpos [Hal [Htop Hfresh]]]].
  pose proof (bg_size _ _ _ _ _ (bk_gen _ _ _ _ Hba)) as Hsa. rewrite Hsz in Hsa.
  assert (Hsep : forall B, In B bl -> B + bsize (bytes s) B <= a \/ a + len <= B).
  { intros B HB. eapply fresh_sep; eassumption. }
  assert (Hbd := fun B HB => heap_block_bounds _ _ _ B H HB).
  assert (Hna : ~ In a bl).
  { intros Hin. pose proof (Hsep a Hin). pose proof (Hbd a Hin). lia. }
  (* the link stores stay inside the block headers *)
  assert (Hf2a : forall x, a <= x < a + 16 \/ a + 32 <= x < a + len -> m2 x = m1 x).
  { intros x Hx. apply Hf2. intros X [<-|HX]; [lia|].
    pose proof (Hsep X HX). pose proof (Hbd X HX). lia. }
  assert (Hf2b : forall B, In B bl ->
            forall x, B <= x < B + 16 \/ B + 32 <= x < B + bsize (bytes s) B -> m2 x = bytes s x).
  { intros B HB x Hx. pose proof (Hsep B HB). pose proof (Hbd B HB).
    rewrite Hf2; [apply Hf1; lia|].
    intros X [<-|HX]; [lia|]. pose proof (Hbd X HX).
    destruct (hp_disj _ _ _ H X B HX HB) as [->|D]; lia. }
  assert (Hbs2a : bsize m2 a = len).
  { rewrite <- Hsz. unfold bsize, off_size. apply get32_ext. intros x Hx. apply Hf2a. lia. }
  assert (Hbs2 : forall B, In B bl -> bsize m2 B = bsize (bytes s) B).
  { intros B HB. unfold bsize, off_size. apply get32_ext. intros x Hx.
    pose proof (Hbd B HB). apply (Hf2b B HB). lia. }
  constructor; cbn [bytes mapped blockList emptyBlockOverheadSize page_size].
  - exact Hl.
  - exact Hnd.
  - intros B HB. apply Hmem in HB. destruct HB as [->|HB].
    + rewrite upd_same. eapply block_ok_frame; [exact Hba| |].
      * rewrite Hsz. exact Hf2a.
      * rewrite Hsz. apply range_mapped_head.
    + rewrite upd_other by (intros ->; contradiction).
      eapply block_ok_frame; [apply (hp_blocks _ _ _ H B HB)| |].
      * apply Hf2b. exact HB.
      * apply range_mapped_cons.
        apply (bg_mapped _ _ _ _ _ (bk_gen _ _ _ _ (hp_blocks _ _ _ H B HB))).
  - intros B1 B2 H1 H2. apply Hmem in H1. apply Hmem in H2.
    destruct H1 as [->|H1]; destruct H2 as [->|H2].
    + left. reflexivity.
    + rewrite Hbs2a, (Hbs2 B2 H2). pose proof (Hsep B2 H2). right. lia.
    + rewrite Hbs2a, (Hbs2 B1 H1). pose proof (Hsep B1 H1). right. lia.
    + rewrite (Hbs2 B1 H1), (Hbs2 B2 H2). apply (hp_disj _ _ _ H); assumption.
  - constructor; [|apply H]. cbn [fst snd]. unfold PAGE_SIZE in *. split; [dlia|lia].
  - right. exact Hps.
  - intros _. split; assumption.
Qed.

Lemma wp_set_empty {A} lim v (k : unit -> M A) s Q :
  wp lim (k tt) (mkState (bytes s) (mapped s) (blockList s) v (page_size s) (os_tape s)) Q ->
  wp lim (bind (set_emptyBlockOverheadSize v) k) s Q.
Proof. intros H. exact H. Qed.

Lemma wp_get_empty {A} lim (k : Z -> M A) s Q :
  wp lim (k (emptyBlockOverheadSize s)) s Q -> wp lim (bind get_emptyBlockOverheadSize k) s Q.
Proof. intros H. exact H. Qed.

Lemma getBlock_spec fuel s bl R size N (Q : Z -> state -> Prop) :
  heap_ok s bl R ->
  (bl = [] -> os_ready s (block_len (PAGE_SIZE * 4)) = true) ->
  (length bl <= N)%nat -> (forall B, In B bl -> (length (R B) <= N)%nat) ->
  (forall b s' bl' R', gb_res s bl R size b s' bl' R' -> heap_ok s' bl' R' -> Q b s') ->
  wp (fuel <= N)%nat (getBlockWithFreeRegion fuel size) s Q.
Proof.
  intros H Hrdy HN1 HN2 HQ. pose proof USER_TOP_eq as HT.
  unfold getBlockWithFreeRegion. apply wp_get_blockList.
  (* creating a block and linking it *)
  assert (Hcreate : forall sz (k : Z -> M Z),
     sz = (if blockList s =? 0 then PAGE_SIZE * 4 else size) ->
     (forall s', os_ready s (block_len sz) = false -> same_heap s s' ->
        wp (fuel <= N)%nat (k 0) s' Q) ->
     (forall a tape m2 h' bl',
        os_ready s (block_len sz) = true ->
        mmap_accepts (mapped s) a (block_len sz) = true -> ~ In a bl ->
        (forall x, In x bl' <-> x = a \/ In x bl) ->
        lseg m2 off_bnext h' bl' -> NoDup bl' ->
        (forall e, e = 124 ->
           heap_ok (mkState m2 ((a, a + block_len sz) :: mapped s) h' e PAGE_SIZE tape)
                   bl' (upd R a (first_regions a (block_len sz)))) ->
        bsize m2 a = block_len sz ->
        get32 m2 (a + off_pages) = wrap32 (block_pages sz) ->
        (forall x, x < a \/ a + block_len sz <= x ->
               (forall X, In X bl -> x < X + 16 \/ X + 32 <= x) -> m2 x = bytes s x) ->
        wp (fuel <= N)%nat (k a)
           (mkState m2 ((a, a + block_len sz) :: mapped s) h'
                    (emptyBlockOverheadSize s) PAGE_SIZE tape) Q) ->
     wp (fuel <= N)%nat
        (block <- createHeapBlock fuel sz ;; BlockList_addBlockToList fuel block ;; k block)
        s Q).
  { intros sz k Esz Kfail Knew.
    apply wp_bind. eapply wp_lim; [apply createHeapBlock_spec|].
    - exact (hp_page _ _ _ H).
    - intros s' E0 E1 E2 E3 E4 E5. apply wp_bind, wp_add_block_null.
      apply Kfail; [exact E0|]. repeat split; assumption.
    - intros a tape m1 Et Ha Hba Hsz Hpg Hf1.
      destruct (mmap_accepts_facts _ _ _ Ha) as [Hlen [Hpos [Hal [Htop Hfresh]]]].
      pose proof (bg_size _ _ _ _ _ (bk_gen _ _ _ _ Hba)) as Hsa. rewrite Hsz in Hsa.
      assert (Hsep : forall B, In B bl -> B + bsize (bytes s) B <= a \/ a + block_len sz <= B).
      { intros B HB. eapply fresh_sep; eassumption. }
      assert (Hbd := fun B HB => heap_block_bounds _ _ _ B H HB).
      assert (Hna : ~ In a bl).
      { intros Hin. pose proof (Hsep a Hin). pose proof (Hbd a Hin). lia. }
      set (s1 := mkState m1 ((a, a + block_len sz) :: mapped s) (blockList s)
                         (emptyBlockOverheadSize s) PAGE_SIZE tape).
      assert (Hbs1 : forall B, In B bl -> bsize m1 B = bsize (bytes s) B).
      { intros B HB. unfold bsize, off_size. apply get32_ext. intros x Hx.
        pose proof (Hsep B HB). pose proof (Hbd B HB). apply Hf1. lia. }
      apply wp_bind. eapply wp_lim; [apply (BlockList_add_spec fuel s1 bl a)|].
      + cbn [bytes blockList s1]. eapply lseg_frame; [exact (hp_list _ _ _ H)|].
        intros X HX. unfold off_bnext. apply get64_ext. intros x Hx.
        pose proof (Hsep X HX). pose proof (Hbd X HX). apply Hf1. lia.
      + exact (hp_nodup _ _ _ H).
      + cbn [mapped s1]. intros X [<-|HX].
        * pose proof (bg_mapped _ _ _ _ _ (bk_gen _ _ _ _ Hba)) as Hm. rewrite Hsz in Hm.
          unfold off_bnext. repeat split; try lia; in_block Hm.
        * pose proof (bg_mapped _ _ _ _ _ (bk_gen _ _ _ _ (hp_blocks _ _ _ H X HX))) as Hm.
          apply (range_mapped_cons (a, a + block_len sz)) in Hm.
          pose proof (Hbd X HX). unfold off_bnext. repeat split; try lia; in_block Hm.
      + exact Hna.
      + intros X Y [<-|HX] [<-|HY].
        * left. reflexivity.
        * pose proof (Hsep Y HY). pose proof (Hbd Y HY). right. lia.
        * pose proof (Hsep X HX). pose proof (Hbd X HX). right. lia.
        * apply (heap_sep32 _ _ _ H); assumption.
      + intros m2 h' bl' Hl' Hnd' Hmem' Hf2.
        cbn [bytes s1] in Hf2.
        change (set_list (with_bytes s1 m2) h') with
          (mkState m2 ((a, a + block_len sz) :: mapped s) h'
                   (emptyBlockOverheadSize s) PAGE_SIZE tape).
        assert (Ha2 : forall x, a <= x < a + 16 -> m2 x = m1 x).
        { intros x Hx. apply Hf2. intros X [<-|HX]; [lia|].
          pose proof (Hsep X HX). pose proof (Hbd X HX). lia. }
        apply (Knew a tape m2 h' bl'); try assumption.
        * unfold os_ready. rewrite Et. exact Ha.
        * intros e He. eapply (heap_add_block s bl R a (block_len sz) _ m1 m2);
            try eassumption; reflexivity.
        * rewrite <- Hsz. unfold bsize, off_size. apply get32_ext. intros x Hx.
          apply Ha2. lia.
        * rewrite <- Hpg. unfold off_pages. apply get32_ext. intros x Hx. apply Ha2. lia.
        * intros x Hx1 Hx2. rewrite Hf2; [apply Hf1; exact Hx1|].
          intros X [<-|HX]; [lia|apply Hx2; exact HX].
      + cbn [length]. lia.
    - lia. }
  destruct (Z.eqb_spec (blockList s) 0) as [E0|E0].
  - (* the first block *)
    assert (bl = []).
    { pose proof (hp_list _ _ _ H) as Hl. destruct bl; [reflexivity|].
      apply lseg_head in Hl. lia. }
    subst bl.
    assert (Ez : (blockList s =? 0) = true) by (apply Z.eqb_eq; exact E0).
    apply (Hcreate (PAGE_SIZE * 4)).
    + try rewrite Ez; reflexivity.
    + intros s' Hnr _. rewrite Hrdy in Hnr by reflexivity. discriminate.
    + intros a tape m2 h' bl' Hr Hacc Hna Hmem Hl' Hnd' Hheap Hbs Hpg Hfr.
      pose proof (Hheap 124 eq_refl) as Hh.
      assert (Hin : In a bl') by (apply Hmem; left; reflexivity).
      pose proof (hp_blocks _ _ _ Hh a Hin) as Hb. rewrite upd_same in Hb.
      cbn [bytes mapped] in Hb.
      pose proof (bk_gen _ _ _ _ Hb) as G.
      pose proof (bg_pos _ _ _ _ _ G). pose proof (bg_size _ _ _ _ _ G).
      pose proof (bg_top _ _ _ _ _ G). pose proof (bg_mapped _ _ _ _ _ G) as Hm.
      unfold off_usedSize in *. rewrite wrap64_small by lia.
      apply wp_bind, wp_load32; [cbn [mapped]; in_block Hm|].
      apply wp_set_empty. apply wp_ret. cbn [bytes mapped blockList page_size os_tape].
      assert (Eus : get32 m2 (a + 8) = 124).
      { change (a + 8) with (a + off_usedSize). rewrite (bg_used _ _ _ _ _ G). reflexivity. }
      rewrite Eus.
      eapply HQ; [|exact Hh].
      apply (gb_new s [] R size a (PAGE_SIZE * 4)); try assumption.
      * try rewrite Ez; reflexivity.
      * reflexivity.
  - assert (Hne : bl <> []).
    { intros ->. pose proof (hp_list _ _ _ H) as Hl. cbn [lseg] in Hl. contradiction. }
    assert (Ez : (blockList s =? 0) = false) by (apply Z.eqb_neq; exact E0).
    apply wp_bind. eapply wp_lim; [apply findBlock_spec with (R := R) (l := bl) (N := N)|].
    + exact (hp_list _ _ _ H).
    + exact (hp_blocks _ _ _ H).
    + exact HN2.
    + intros B HB _ Hfit.
      pose proof (heap_block_bounds _ _ _ _ H HB).
      destruct (Z.eqb_spec B 0); [lia|]. cbn [negb]. apply wp_ret.
      eapply HQ; [|exact H]. apply gb_found; assumption.
    + intros Hnf. cbn [Z.eqb negb]. apply (Hcreate size).
      * try rewrite Ez; reflexivity.
      * intros s' Hnr Hsame. apply wp_ret. eapply HQ; [apply gb_fail; assumption|].
        destruct Hsame as [E1 [E2 [E3 [E4 E5]]]].
        apply (heap_ok_same s); try assumption. left. exact E5.
      * intros a tape m2 h' bl' Hr Hacc Hna Hmem Hl' Hnd' Hheap Hbs Hpg Hfr.
        destruct (hp_globals _ _ _ H Hne) as [G1 G2]. apply wp_ret.
        eapply HQ; [|apply Hheap; exact G1].
        apply (gb_new s bl R size a size); try assumption.
        -- try rewrite Ez; reflexivity.
        -- reflexivity.
    + lia.
Qed.

(** * [malloc] *)

Lemma fuel_ok_exists bl R : exists N, fuel_ok bl R N.
Proof.
  exists (3 + length bl + list_sum (map (fun B => length (R B)) bl))%nat.
  split; [lia|]. split; [lia|]. intros B HB.
  assert (length (R B) <= list_sum (map (fun B => length (R B)) bl))%nat; [|lia].
  induction bl as [|X bl IH]; [destruct HB|].
  simpl. destruct HB as [->|HB]; [lia|]. specialize (IH HB). lia.
Qed.

Lemma gb_res_block s bl R size b s1 bl1 R1 :
  gb_res s bl R size b s1 bl1 R1 -> b = 0 \/ In b bl1.
Proof.
  intros [B HB _|s' _ _ _ _|a sz s' bl' _ _ _ _ Hmem _ _ _ _].
  - right. exact HB.
  - left. reflexivity.
  - right. apply Hmem. left. reflexivity.
Qed.

Lemma gb_res_len s bl R size b s1 bl1 R1 N :
  gb_res s bl R size b s1 bl1 R1 -> fuel_ok bl R N -> In b bl1 ->
  (length (R1 b) + 1 <= N)%nat.
Proof.
  intros [B HB _|s' _ _ _ _|a sz s' bl' _ _ _ _ Hmem _ _ _ _] [H3 [_ HN]] Hin.
  - apply HN. exact HB.
  - apply HN. exact Hin.
  - rewrite upd_same. cbn [first_regions length]. lia.
Qed.

Lemma heap_covered_all s bl R : heap_covered (fun _ => True) s bl R.
Proof. repeat split. Qed.

Lemma wp_and {A} lim (c : M A) s (Q1 Q2 : A -> state -> Prop) :
  wp lim c s Q1 -> wp lim c s Q2 -> wp lim c s (fun a s' => Q1 a s' /\ Q2 a s').
Proof.
  unfold wp. destruct (c s) as [a s'|[|]]; intros H1 H2; try assumption.
  split; assumption.
Qed.

Lemma heap_region_range s bl R B r :
  heap_ok s bl R -> In B bl -> In r (R B) ->
  B + 80 <= r_addr r /\ 28 <= r_size r /\ r_end r <= B + bsize (bytes s) B.
Proof.
  intros H HB Hr.
  pose proof (bg_bounds _ _ _ _ _ _ (bk_gen _ _ _ _ (hp_blocks _ _ _ H B HB)) Hr).
  unfold r_end. lia.
Qed.

(** [getBlockWithFreeRegion] writes only link fields of block headers and
    the fresh block. *)
Lemma gb_covered W s bl R size b s1 bl1 R1 :
  heap_ok s bl R -> gb_res s bl R size b s1 bl1 R1 -> heap_ok s1 bl1 R1 ->
  heap_covered W s bl R ->
  (forall X, In X bl1 -> covers_header W X) /\
  (forall X r, In X bl1 -> is_free_in (R1 X) r -> covers W r) /\
  keeps W (bytes s) (bytes s1).
Proof.
  intros H Hres H1 [HWh [HWf HWu]].
  destruct Hres as [B HB _|s' _ _ Hsame _|a sz s' bl' Esz _ Hacc Hna Hmem _ Hbs _ Hfr].
  - split; [exact HWh|]. split; [exact HWf|]. apply keeps_refl.
  - split; [exact HWh|]. split; [exact HWf|].
    destruct Hsame as [E _]. rewrite E. apply keeps_refl.
  - destruct (mmap_accepts_facts _ _ _ Hacc) as [Hlen [Hpos [_ [_ Hfresh]]]].
    assert (Hin : In a bl') by (apply Hmem; left; reflexivity).
    pose proof (heap_block_bounds _ _ _ _ H1 Hin) as Hab. rewrite Hbs in Hab.
    split; [|split].
    + intros X HX. apply Hmem in HX. destruct HX as [->|HX]; [|apply HWh; exact HX].
      intros x Hx. apply HWu, Hfresh. unfold sizeof_BlockHeader in Hx. lia.
    + intros X r HX Hr. apply Hmem in HX. destruct HX as [->|HX].
      * intros x Hx. apply HWu, Hfresh.
        pose proof (heap_region_range _ _ _ _ _ H1 Hin (proj1 Hr)) as Hri.
        rewrite Hbs in Hri. lia.
      * rewrite upd_other in Hr by (intros ->; contradiction). apply (HWf X r HX Hr).
    + intros x Hx.
      assert (Hmx : is_mapped (mapped s) x = true).
      { destruct (is_mapped (mapped s) x) eqn:E; [reflexivity|].
        exfalso. apply Hx, HWu. exact E. }
      apply Hfr.
      * destruct (Z.lt_ge_cases x a); [left; assumption|].
        destruct (Z.le_gt_cases (a + block_len sz) x); [right; assumption|].
        rewrite Hfresh in Hmx by lia. discriminate.
      * intros X HX. destruct (Z.lt_ge_cases x (X + 16)); [left; assumption|].
        destruct (Z.le_gt_cases (X + 32) x); [right; assumption|].
        exfalso. apply Hx, (HWh X HX). unfold sizeof_BlockHeader. lia.
Qed.

Lemma malloc_cases_frame W fuel s bl R size N (Q : Z -> state -> Prop) :
  heap_ok s bl R ->
  (bl = [] -> os_ready s (block_len (PAGE_SIZE * 4)) = true) ->
  fuel_ok bl R N ->
  heap_covered W s bl R ->
  (forall b s1 bl1 R1,
     gb_res s bl R size b s1 bl1 R1 -> heap_ok s1 bl1 R1 ->
     keeps W (bytes s) (bytes s1) ->
     ((b = 0 \/ (In b bl1 /\ forall r, is_free_in (R1 b) r -> ~ al_of r size < r_size r)) ->
      Q 0 s1) /\
     (forall r rest m' rs',
        In b bl1 -> Permutation (R1 b) (r :: rest) -> r_used r = 0 ->
        al_of r size < r_size r -> alloc_regions r size rest rs' ->
        block_ok m' (mapped s1) b rs' -> block_frame (bytes s1) m' b ->
        keeps W (bytes s) m' -> covers W r ->
        b + 124 <= r_addr r -> (r_addr r + 4) mod 16 = 0 ->
        Q (r_addr r + 4) (with_bytes s1 m'))) ->
  wp (fuel <= N)%nat (malloc fuel size) s Q.
Proof.
  intros H Hrdy HN HW HQ. pose proof USER_TOP_eq as HT. unfold malloc.
  apply wp_bind. eapply wp_lim; [apply (getBlock_spec fuel s bl R size N)|]; try assumption.
  - apply HN.
  - intros B HB. pose proof (proj2 (proj2 HN) B HB). lia.
  - intros b s1 bl1 R1 Hres H1.
    destruct (gb_covered W _ _ _ _ _ _ _ _ H Hres H1 HW) as [HWh1 [HWf1 K1]].
    destruct (HQ b s1 bl1 R1 Hres H1 K1) as [Qfail Qok].
    destruct (gb_res_block _ _ _ _ _ _ _ _ Hres) as [->|Hin].
    + apply wp_bind. apply wp_allocate_null. cbn [Z.eqb]. apply wp_ret.
      apply Qfail. left. reflexivity.
    + pose proof (hp_blocks _ _ _ H1 b Hin) as Hb.
      apply wp_bind. eapply wp_lim; [apply (allocate_ok_frame W fuel s1 b (R1 b) size)|].
      * exact Hb.
      * apply HWh1. exact Hin.
      * intros r Hr. apply (HWf1 b r Hin Hr).
      * intros Hno. cbn [Z.eqb]. apply wp_ret. apply Qfail. right. split; assumption.
      * intros r rest m' rs' Hp Hfree Hfit Hrs Hb' Hf K2 Hlo Hal.
        assert (Hr : In r (R1 b)).
        { eapply Permutation_in; [apply Permutation_sym; exact Hp|left; reflexivity]. }
        pose proof (bg_bounds _ _ _ _ _ _ (bk_gen _ _ _ _ Hb) Hr) as Hbd.
        destruct (Z.eqb_spec (r_addr r) 0); [lia|].
        apply wp_ret. unfold sizeof_AllocMetadata. rewrite wrap64_small by lia.
        apply (Qok r rest m' rs'); try assumption.
        -- eapply keeps_trans; [exact K1|exact K2].
        -- apply (HWf1 b r Hin). split; assumption.
      * intros Hf. pose proof (gb_res_len _ _ _ _ _ _ _ _ N Hres HN Hin). lia.
  - tauto.
Qed.

Lemma malloc_cases fuel s bl R size N (Q : Z -> state -> Prop) :
  heap_ok s bl R ->
  (bl = [] -> os_ready s (block_len (PAGE_SIZE * 4)) = true) ->
  fuel_ok bl R N ->
  (forall b s1 bl1 R1,
     gb_res s bl R size b s1 bl1 R1 -> heap_ok s1 bl1 R1 ->
     ((b = 0 \/ (In b bl1 /\ forall r, is_free_in (R1 b) r -> ~ al_of r size < r_size r)) ->
      Q 0 s1) /\
     (forall r rest m' rs',
        In b bl1 -> Permutation (R1 b) (r :: rest) -> r_used r = 0 ->
        al_of r size < r_size r -> alloc_regions r size rest rs' ->
        block_ok m' (mapped s1) b rs' -> block_frame (bytes s1) m' b ->
        b + 124 <= r_addr r -> (r_addr r + 4) mod 16 = 0 ->
        Q (r_addr r + 4) (with_bytes s1 m'))) ->
  wp (fuel <= N)%nat (malloc fuel size) s Q.
Proof.
  intros H Hrdy HN HQ.
  apply (malloc_cases_frame (fun _ => True) fuel s bl R size N); try assumption.
  - apply heap_covered_all.
  - intros b s1 bl1 R1 Hres H1 _. destruct (HQ b s1 bl1 R1 Hres H1) as [Qfail Qok].
    split; [exact Qfail|].
    intros r rest m' rs' Hin Hp Hfree Hfit Hrs Hb' Hf _ _ Hlo Hal.
    apply (Qok r rest m' rs'); assumption.
Qed.

(** ** Facts about the heap *)

Lemma heap_addr_inj s bl R B1 B2 r1 r2 :
  heap_ok s bl R -> In B1 bl -> In B2 bl -> In r1 (R B1) -> In r2 (R B2) ->
  r_addr r1 = r_addr r2 -> B1 = B2 /\ r1 = r2.
Proof.
  intros H H1 H2 Hr1 Hr2 E.
  pose proof (heap_region_range _ _ _ _ _ H H1 Hr1) as X1.
  pose proof (heap_region_range _ _ _ _ _ H H2 Hr2) as X2.
  pose proof (heap_block_bounds _ _ _ _ H H1). pose proof (heap_block_bounds _ _ _ _ H H2).
  unfold r_end in *.
  assert (B1 = B2).
  { destruct (hp_disj _ _ _ H B1 B2 H1 H2) as [?|D]; [assumption|lia]. }
  subst B2. split; [reflexivity|].
  eapply bg_addr_inj; [apply (bk_gen _ _ _ _ (hp_blocks _ _ _ H B1 H1))| | |]; assumption.
Qed.

Lemma heap_block_mapped s bl R B x :
  heap_ok s bl R -> In B bl -> B <= x < B + bsize (bytes s) B ->
  is_mapped (mapped s) x = true.
Proof.
  intros H HB Hx.
  apply (bg_mapped _ _ _ _ _ (bk_gen _ _ _ _ (hp_blocks _ _ _ H B HB))). exact Hx.
Qed.

Lemma block_len_exact sz :
  0 <= sz <= MAXREQ -> wrap32 (block_pages sz) * PAGE_SIZE = block_len sz.
Proof.
  unfold block_len, block_pages, wrap32, wrap64, MAXREQ, PAGE_SIZE,
    sizeof_BlockHeader, sizeof_FreeRegionHeader, sizeof_AllocMetadata.
  intros Hs. cbv zeta.
  replace (sz + 80 + 24 + 4) with (sz + 108) by lia.
  rewrite (Z.mod_small (sz + 108)) by lia.
  destruct ((sz + 108) mod 4096 >? 0) eqn:E.
  - apply Z.gtb_lt in E. dlia.
  - assert ((sz + 108) mod 4096 = 0).
    { destruct (Z.gtb_spec ((sz + 108) mod 4096) 0); [discriminate|].
      pose proof (Z.mod_pos_bound (sz + 108) 4096). lia. }
    dlia.
Qed.

(** ** Outcome of [getBlockWithFreeRegion], seen from the old heap *)

Lemma heap_ext_refl s bl R : heap_ext s bl R s bl R.
Proof. constructor; auto. Qed.

Lemma gb_ext s bl R size b s1 bl1 R1 :
  heap_ok s bl R -> gb_res s bl R size b s1 bl1 R1 -> heap_ext s bl R s1 bl1 R1.
Proof.
  intros H [B HB _|s' _ _ Hsame _|a sz s' bl' _ _ Hacc Hna Hmem _ _ _ Hfr].
  - apply heap_ext_refl.
  - destruct Hsame as [E1 _]. constructor; auto. intros x _ _. rewrite E1. reflexivity.
  - constructor.
    + intros B HB. apply Hmem. right. exact HB.
    + intros B HB. apply upd_other. intros ->. contradiction.
    + intros x Hx Hl. apply Hfr; [|exact Hl].
      destruct (mmap_accepts_facts _ _ _ Hacc) as [_ [_ [_ [_ Hfresh]]]].
      destruct (Z.lt_ge_cases x a); [left; assumption|].
      destruct (Z.le_gt_cases (a + block_len sz) x); [right; assumption|].
      rewrite Hfresh in Hx by lia. discriminate.
Qed.

Lemma gb_exact s bl R size b s1 bl1 R1 :
  heap_ok s bl R -> gb_res s bl R size b s1 bl1 R1 ->
  exact s bl -> 0 <= size <= MAXREQ -> exact s1 bl1.
Proof.
  intros H Hres Hex Hsz. pose proof (gb_ext _ _ _ _ _ _ _ _ H Hres) as Hext.
  assert (Hold : forall B, In B bl ->
     get32 (bytes s1) (B + off_pages) = get32 (bytes s) (B + off_pages) /\
     bsize (bytes s1) B = bsize (bytes s) B).
  { intros B HB. pose proof (heap_block_bounds _ _ _ _ H HB) as Hb.
    unfold bsize, off_pages, off_size.
    split; apply get32_ext; intros x Hx; apply (he_frame _ _ _ _ _ _ Hext).
    - apply (heap_block_mapped _ _ _ B _ H HB). lia.
    - intros X HX. pose proof (heap_block_bounds _ _ _ _ H HX).
      destruct (hp_disj _ _ _ H X B HX HB) as [->|D]; lia.
    - apply (heap_block_mapped _ _ _ B _ H HB). lia.
    - intros X HX. pose proof (heap_block_bounds _ _ _ _ H HX).
      destruct (hp_disj _ _ _ H X B HX HB) as [->|D]; lia. }
  destruct Hres as [B HB _|s' _ _ Hsame _|a sz s' bl' Esz _ Hacc Hna Hmem _ Hbs Hpg Hfr].
  - exact Hex.
  - intros B HB. destruct (Hold B HB) as [-> ->]. apply Hex. exact HB.
  - intros B HB. apply Hmem in HB. destruct HB as [->|HB].
    + rewrite Hbs, Hpg. apply block_len_exact.
      rewrite Esz. destruct (blockList s =? 0); [|exact Hsz].
      unfold PAGE_SIZE, MAXREQ. lia.
    + destruct (Hold B HB) as [-> ->]. apply Hex. exact HB.
Qed.

(** ** Outcome of [malloc] *)

Lemma exact_block_update s bl R B m' :
  heap_ok s bl R -> In B bl -> block_frame (bytes s) m' B ->
  exact s bl -> exact (with_bytes s m') bl.
Proof.
  intros H HB Hf Hex X HX. st_simpl.
  pose proof (heap_block_bounds _ _ _ _ H HB). pose proof (heap_block_bounds _ _ _ _ H HX).
  assert (E1 : get32 m' (X + off_pages) = get32 (bytes s) (X + off_pages)).
  { unfold off_pages. apply get32_ext. intros x Hx. apply Hf. unfold off_usedSize.
    destruct (hp_disj _ _ _ H X B HX HB) as [->|D]; lia. }
  assert (E2 : bsize m' X = bsize (bytes s) X).
  { unfold bsize, off_size. apply get32_ext. intros x Hx. apply Hf. unfold off_usedSize.
    destruct (hp_disj _ _ _ H X B HX HB) as [->|D]; lia. }
  rewrite E1, E2. apply Hex. exact HX.
Qed.

(** A block that is new in the list of [getBlockWithFreeRegion] holds no
    allocation of the client. *)
Lemma gb_back s bl R size b s1 bl1 R1 q :
  gb_res s bl R size b s1 bl1 R1 -> is_live bl1 R1 q -> is_live bl R q.
Proof.
  intros [B HB _|s' _ _ _ _|a sz s' bl' _ _ _ Hna Hmem _ _ _ _] Hq; try exact Hq.
  destruct Hq as [B2 [r2 [HB2 [Hr2 [Hu2 [Hnb2 Eq]]]]]].
  apply Hmem in HB2. destruct HB2 as [->|HB2].
  - exfalso. rewrite upd_same in Hr2. unfold first_regions in Hr2.
    destruct Hr2 as [E|[E|[]]]; [apply Hnb2; symmetry; exact E|].
    rewrite <- E in Hu2. cbn in Hu2. lia.
  - exists B2, r2. split; [exact HB2|]. split; [|tauto].
    rewrite upd_other in Hr2; [exact Hr2|]. intros ->. contradiction.
Qed.

Lemma gb_fuel s bl R size b s1 bl1 R1 N :
  heap_ok s1 bl1 R1 -> gb_res s bl R size b s1 bl1 R1 -> fuel_ok bl R N ->
  (length bl1 <= S N)%nat /\ forall B, In B bl1 -> (length (R1 B) + 1 <= N)%nat.
Proof.
  intros H1 Hres. revert H1.
  destruct Hres as [B HB _|s' _ _ _ _|a sz s' bl' _ _ _ Hna Hmem _ _ _ _];
    intros H1 [HN0 [HN1 HN2]].
  - split; [lia|exact HN2].
  - split; [lia|exact HN2].
  - split.
    + assert (Hincl : incl bl' (a :: bl)).
      { intros x Hx. apply Hmem in Hx. destruct Hx as [->|Hx]; [left; reflexivity|right; exact Hx]. }
      pose proof (NoDup_incl_length (hp_nodup _ _ _ H1) Hincl) as Hlen.
      cbn [length] in Hlen. lia.
    + intros B HB. apply Hmem in HB. destruct HB as [->|HB].
      * rewrite upd_same. cbn [first_regions length]. lia.
      * rewrite upd_other by (intros ->; contradiction). apply HN2. exact HB.
Qed.

(** [malloc], with the pointers that are live afterwards traced back and
    the fuel the next call needs. *)
Theorem malloc_track fuel s bl R size N :
  heap_ok s bl R ->
  (bl = [] -> os_ready s (block_len (PAGE_SIZE * 4)) = true) ->
  fuel_ok bl R N ->
  wp (fuel <= N)%nat (malloc fuel size) s
     (fun p s' => exists bl' R', malloc_post s bl R size p s' bl' R' /\
                    (forall q, is_live bl' R' q -> q = p \/ is_live bl R q) /\
                    fuel_ok bl' R' (S N)).
Proof.
  intros H Hrdy HN. apply (malloc_cases fuel s bl R size N); try assumption.
  intros b s1 bl1 R1 Hres H1.
  pose proof (gb_ext _ _ _ _ _ _ _ _ H Hres) as Hext.
  destruct (gb_fuel _ _ _ _ _ _ _ _ N H1 Hres HN) as [HF1 HF2].
  split.
  - intros _. exists bl1, R1. split; [|split].
    + constructor.
      * exact H1.
      * apply Hext.
      * intros B r HB Hr _. rewrite (he_regions _ _ _ _ _ _ Hext B HB). exact Hr.
      * apply (gb_exact _ _ _ _ _ _ _ _ H Hres).
      * intros _. apply Hext.
      * intros Hp. contradiction.
    + intros q Hq. right. apply (gb_back _ _ _ _ _ _ _ _ q Hres Hq).
    + split; [destruct HN; lia|]. split; [exact HF1|].
      intros B HB. pose proof (HF2 B HB). lia.
  - intros r rest m' rs' Hin Hp Hfree Hfit Hrs Hb' Hf Hlo Hal.
    assert (Hr : In r (R1 b)).
    { eapply Permutation_in; [apply Permutation_sym; exact Hp|left; reflexivity]. }
    assert (Hrest : forall x, In x rest -> In x rs').
    { intros x Hx. destruct Hrs as [->|[_ ->]]; [right|right; right]; exact Hx. }
    set (r1 := mkRegion (r_addr r) (al_of r size) 1).
    assert (Hr1 : In r1 rs').
    { destruct Hrs as [->|[_ ->]]; left; reflexivity. }
    exists bl1, (upd R1 b rs'). split; [|split].
    + constructor.
      * apply heap_block_update; assumption.
      * apply Hext.
      * intros B x HB Hx Hu. pose proof (he_blocks _ _ _ _ _ _ Hext B HB) as HB1.
        rewrite <- (he_regions _ _ _ _ _ _ Hext B HB) in Hx.
        destruct (Z.eq_dec B b) as [->|Hne].
        -- rewrite upd_same. apply Hrest.
           eapply Permutation_in in Hx; [|exact Hp]. destruct Hx as [<-|Hx]; [lia|exact Hx].
        -- rewrite upd_other by exact Hne. exact Hx.
      * intros Hex Hsz. apply (exact_block_update s1 bl1 R1 b); try assumption.
        apply (gb_exact _ _ _ _ _ _ _ _ H Hres); assumption.
      * intros Hp0. pose proof (heap_region_range _ _ _ _ _ H1 Hin Hr).
        pose proof (heap_block_bounds _ _ _ _ H1 Hin). lia.
      * intros _. exists b, r1. split; [exact Hin|]. rewrite upd_same.
        split; [exact Hr1|]. split; [reflexivity|]. split.
        { intros E. apply (f_equal r_addr) in E.
          unfold r1, bookkeeping, sizeof_BlockHeader in E. cbn [r_addr] in E. lia. }
        split; [reflexivity|]. split; [exact Hal|]. split; [apply (al_of_facts r size)|].
        intros [B2 [r2 [HB2 [Hr2 [Hu2 [_ Ep]]]]]].
        pose proof (he_blocks _ _ _ _ _ _ Hext B2 HB2) as HB2'.
        rewrite <- (he_regions _ _ _ _ _ _ Hext B2 HB2) in Hr2.
        destruct (heap_addr_inj _ _ _ _ _ _ _ H1 Hin HB2' Hr Hr2) as [_ E]; [lia|].
        subst r2. lia.
    + intros q [B2 [r2 [HB2 [Hr2 [Hu2 [Hnb2 Eq]]]]]].
      destruct (Z.eq_dec B2 b) as [->|Hne].
      * rewrite upd_same in Hr2.
        assert (Hc : r2 = r1 \/ In r2 rest).
        { destruct Hrs as [->|[_ ->]].
          - destruct Hr2 as [E|Hr2]; [left; symmetry; exact E|right; exact Hr2].
          - destruct Hr2 as [E|[E|Hr2]]; [left; symmetry; exact E| |right; exact Hr2].
            rewrite <- E in Hu2. cbn in Hu2. lia. }
        destruct Hc as [->|Hc]; [left; subst q; reflexivity|].
        right. apply (gb_back _ _ _ _ _ _ _ _ q Hres).
        exists b, r2. split; [exact HB2|]. split; [|tauto].
        eapply Permutation_in; [apply Permutation_sym; exact Hp|right; exact Hc].
      * right. apply (gb_back _ _ _ _ _ _ _ _ q Hres).
        exists B2, r2. split; [exact HB2|]. split; [|tauto].
        rewrite upd_other in Hr2 by exact Hne. exact Hr2.
    + split; [destruct HN; lia|]. split; [exact HF1|].
      intros B HB. destruct (Z.eq_dec B b) as [->|Hne].
      * rewrite upd_same. pose proof (HF2 b HB) as Hl.
        rewrite (Permutation_length Hp) in Hl.
        destruct Hrs as [->|[_ ->]]; cbn [length] in *; lia.
      * rewrite upd_other by exact Hne. pose proof (HF2 B HB). lia.
Qed.

Theorem malloc_spec fuel s bl R size N :
  heap_ok s bl R ->
  (bl = [] -> os_ready s (block_len (PAGE_SIZE * 4)) = true) ->
  fuel_ok bl R N ->
  wp (fuel <= N)%nat (malloc fuel size) s
     (fun p s' => exists bl' R', malloc_post s bl R size p s' bl' R').
Proof.
  intros H Hrdy HN. eapply wp_conseq; [apply malloc_track; eassumption|].
  intros p s' [bl' [R' [Hp _]]]. exists bl', R'. exact Hp.
Qed.

(** [malloc] leaves every byte outside [W] as it was, and the region it
    hands out lies inside [W]. *)
Theorem malloc_frame W fuel s bl R size N :
  heap_ok s bl R ->
  (bl = [] -> os_ready s (block_len (PAGE_SIZE * 4)) = true) ->
  fuel_ok bl R N ->
  heap_covered W s bl R ->
  wp (fuel <= N)%nat (malloc fuel size) s
     (fun p s' => (exists bl' R', malloc_post s bl R size p s' bl' R') /\
                  keeps W (bytes s) (bytes s') /\
                  (p <> 0 -> forall x, p - 4 <= x < p + payload_len s' p + 4 -> W x)).
Proof.
  intros H Hrdy HN HW. apply wp_and; [apply malloc_spec; assumption|].
  apply (malloc_cases_frame W fuel s bl R size N); try assumption.
  intros b s1 bl1 R1 Hres H1 K1. split.
  - intros _. split; [exact K1|]. intros Hc. exfalso. apply Hc. reflexivity.
  - intros r rest m' rs' Hin Hp Hfree Hfit Hrs Hb' Hf K Hc Hlo Hal.
    split; [exact K|]. intros _ x Hx.
    set (r1 := mkRegion (r_addr r) (al_of r size) 1).
    assert (Hr1 : In r1 rs') by (destruct Hrs as [->|[_ ->]]; left; reflexivity).
    pose proof (bg_size_read _ _ _ _ _ _ (bk_gen _ _ _ _ Hb') Hr1) as Es.
    unfold payload_len, REGION_OVERHEAD_SIZE, sizeof_AllocMetadata in Hx.
    rewrite bytes_with_bytes in Hx.
    replace (r_addr r + 4 - 4) with (r_addr r) in Hx by lia.
    cbn [r1 r_addr r_size] in Es. rewrite Es in Hx.
    apply Hc. unfold r_end. lia.
Qed.

(** * [free] *)

(** ** Unmapping *)

Lemma unmap_keeps mp lo hi x :
  is_mapped mp x = true -> x < lo \/ hi <= x -> is_mapped (unmap mp lo hi) x = true.
Proof.
  unfold is_mapped, unmap. intros Hm Hx.
  apply existsb_exists in Hm. destruct Hm as [r [Hr Hin]].
  apply existsb_exists.
  unfold in_range in Hin. apply andb_prop in Hin. destruct Hin as [H1 H2].
  apply Z.leb_le in H1. apply Z.ltb_lt in H2.
  destruct Hx as [Hx|Hx].
  - exists (fst r, Z.min (snd r) lo). split.
    + apply in_flat_map. exists r. split; [exact Hr|]. unfold range_sub.
      apply in_or_app. left.
      destruct (Z.ltb_spec (fst r) (Z.min (snd r) lo)); [left; reflexivity|lia].
    + unfold in_range. cbn [fst snd].
      destruct (Z.leb_spec (fst r) x); [|lia].
      destruct (Z.ltb_spec x (Z.min (snd r) lo)); [reflexivity|lia].
  - exists (Z.max (fst r) hi, snd r). split.
    + apply in_flat_map. exists r. split; [exact Hr|]. unfold range_sub.
      apply in_or_app. right.
      destruct (Z.ltb_spec (Z.max (fst r) hi) (snd r)); [left; reflexivity|lia].
    + unfold in_range. cbn [fst snd].
      destruct (Z.leb_spec (Z.max (fst r) hi) x); [|lia].
      destruct (Z.ltb_spec x (snd r)); [reflexivity|lia].
Qed.

Lemma unmap_user mp lo hi :
  Forall (fun r => PAGE_SIZE <= fst r /\ snd r <= USER_TOP) mp ->
  Forall (fun r => PAGE_SIZE <= fst r /\ snd r <= USER_TOP) (unmap mp lo hi).
Proof.
  intros H. unfold unmap. apply Forall_flat_map.
  eapply Forall_impl; [|exact H]. intros r [H1 H2]. unfold range_sub.
  apply Forall_app. split.
  - destruct (fst r <? Z.min (snd r) lo); constructor; [|constructor].
    cbn [fst snd]. lia.
  - destruct (Z.max (fst r) hi <? snd r); constructor; [|constructor].
    cbn [fst snd]. lia.
Qed.

Lemma wp_libhalloc_free lim ptr pages s (Q : unit -> state -> Prop) :
  Q tt (mkState (bytes s) (unmap (mapped s) ptr (ptr + wrap64 (pages * page_size s)))
                (blockList s) (emptyBlockOverheadSize s) (page_size s) (os_tape s)) ->
  wp lim (libhalloc_free ptr pages) s Q.
Proof. intros H. exact H. Qed.

(** Unlinking and unmapping a block. *)
Lemma heap_remove_block s s' bl R B bl' :
  heap_ok s bl R -> In B bl ->
  lseg (bytes s') off_bnext (blockList s') bl' -> NoDup bl' ->
  (forall x, In x bl' <-> In x bl /\ x <> B) ->
  (forall x, (forall X, In X bl -> x < X + 16 \/ X + 32 <= x) -> bytes s' x = bytes s x) ->
  mapped s' = unmap (mapped s) B (B + bsize (bytes s) B) ->
  emptyBlockOverheadSize s' = emptyBlockOverheadSize s ->
  page_size s' = page_size s ->
  heap_ok s' bl' R.
Proof.
  intros H HB Hl Hnd Hmem Hf Em Ee Ep.
  assert (Hbd := fun X HX => heap_block_bounds _ _ _ X H HX).
  assert (Hfb : forall X, In X bl ->
            forall x, X <= x < X + 16 \/ X + 32 <= x < X + bsize (bytes s) X ->
                      bytes s' x = bytes s x).
  { intros X HX x Hx. apply Hf. intros Y HY. pose proof (Hbd X HX). pose proof (Hbd Y HY).
    destruct (hp_disj _ _ _ H Y X HY HX) as [->|D]; lia. }
  assert (Hbs : forall X, In X bl -> bsize (bytes s') X = bsize (bytes s) X).
  { intros X HX. unfold bsize, off_size. apply get32_ext. intros x Hx.
    pose proof (Hbd X HX). apply (Hfb X HX). lia. }
  assert (Hne : bl <> []) by (intros ->; destruct HB).
  constructor.
  - exact Hl.
  - exact Hnd.
  - intros X HX. apply Hmem in HX. destruct HX as [HX HXB].
    eapply block_ok_frame; [apply (hp_blocks _ _ _ H X HX)| |].
    + apply Hfb. exact HX.
    + rewrite Em. intros x Hx. apply unmap_keeps.
      * apply (heap_block_mapped _ _ _ X _ H HX). exact Hx.
      * pose proof (Hbd X HX). pose proof (Hbd B HB).
        destruct (hp_disj _ _ _ H X B HX HB) as [?|D]; [contradiction|lia].
  - intros B1 B2 H1 H2. apply Hmem in H1. apply Hmem in H2.
    rewrite (Hbs B1), (Hbs B2) by tauto. apply (hp_disj _ _ _ H); tauto.
  - rewrite Em. apply unmap_user. apply H.
  - rewrite Ep. apply H.
  - intros _. rewrite Ee, Ep. apply (hp_globals _ _ _ H Hne).
Qed.

(** ** Used regions after coalescing *)

Lemma coalesced_keeps r l rs' x :
  coalesced r l rs' -> r_used r = 0 -> In x l -> r_used x = 1 -> In x rs'.
Proof.
  intros [->|xr rest Hp Hu He ->|xl rest Hp Hu He ->|xl xr rest Hp Hu1 He1 Hu2 He2 ->] Hr Hx Hux.
  - exact Hx.
  - eapply Permutation_in in Hx; [|exact Hp].
    destruct Hx as [<-|[<-|Hx]]; [lia|lia|right; exact Hx].
  - eapply Permutation_in in Hx; [|exact Hp].
    destruct Hx as [<-|[<-|Hx]]; [lia|lia|right; exact Hx].
  - eapply Permutation_in in Hx; [|exact Hp].
    destruct Hx as [<-|[<-|[<-|Hx]]]; [lia|lia|lia|right; exact Hx].
Qed.

Lemma sum_used_two rs x y :
  (forall r, In r rs -> 0 <= r_size r) -> In x rs -> In y rs -> x <> y ->
  r_used x = 1 -> r_used y = 1 -> r_size x + r_size y <= sum_used rs.
Proof.
  intros Hs Hx Hy Hne Hux Huy.
  destruct (in_perm_front x rs Hx) as [rest Hp].
  assert (Hy' : In y rest).
  { eapply Permutation_in in Hy; [|exact Hp]. destruct Hy as [E|Hy]; [congruence|exact Hy]. }
  destruct (in_perm_front y rest Hy') as [rest2 Hp2].
  rewrite (sum_used_perm _ _ Hp), sum_used_cons, (sum_used_perm _ _ Hp2), sum_used_cons.
  rewrite Hux, Huy. cbn [Z.eqb Pos.eqb].
  assert (0 <= sum_used rest2 <= sum_size rest2); [|lia].
  apply sum_used_le_size. intros r Hr. apply Hs.
  eapply Permutation_in; [apply Permutation_sym; exact Hp|]. right.
  eapply Permutation_in; [apply Permutation_sym; exact Hp2|]. right. exact Hr.
Qed.

Lemma Block_haveUserAllocations_spec lim s B rs P (Q : bool -> state -> Prop) :
  block_gen (bytes s) (mapped s) B rs P ->
  Q (sizeof_BlockHeader + sum_used rs >? emptyBlockOverheadSize s) s ->
  wp lim (Block_haveUserAllocations B) s Q.
Proof.
  intros G HQ. pose proof USER_TOP_eq as HT.
  pose proof (bg_pos _ _ _ _ _ G). pose proof (bg_size _ _ _ _ _ G).
  pose proof (bg_top _ _ _ _ _ G). pose proof (bg_mapped _ _ _ _ _ G) as Hm.
  unfold Block_haveUserAllocations.
  destruct (Z.eqb_spec B 0); [lia|].
  rewrite <- (bg_used _ _ _ _ _ G) in HQ.
  unfold off_usedSize in *. rewrite !wrap64_small by lia.
  apply wp_bind, wp_load32; [in_block Hm|].
  apply wp_get_empty. apply wp_ret. exact HQ.
Qed.

(** ** Outcome of [free] *)

Lemma live_block_unique s bl R B r X :
  heap_ok s bl R -> In B bl -> In r (R B) -> In X bl ->
  X <= r_addr r + 4 < X + bsize (bytes s) X -> X = B.
Proof.
  intros H HB Hr HX Hin.
  pose proof (heap_region_range _ _ _ _ _ H HB Hr) as Hrr. unfold r_end in Hrr.
  pose proof (heap_block_bounds _ _ _ _ H HB). pose proof (heap_block_bounds _ _ _ _ H HX).
  destruct (hp_disj _ _ _ H X B HX HB) as [?|D]; [assumption|lia].
Qed.

Lemma coalesced_used r l rs' x :
  coalesced r l rs' -> In x rs' -> r_used x = 1 -> In x l.
Proof.
  intros [->|xr rest Hp Hu He ->|xl rest Hp Hu He ->|xl xr rest Hp Hu1 He1 Hu2 He2 ->] Hx Hux.
  - exact Hx.
  - destruct Hx as [<-|Hx]; [cbn in Hux; lia|].
    eapply Permutation_in; [apply Permutation_sym; exact Hp|right; right; exact Hx].
  - destruct Hx as [<-|Hx]; [cbn in Hux; lia|].
    eapply Permutation_in; [apply Permutation_sym; exact Hp|right; right; exact Hx].
  - destruct Hx as [<-|Hx]; [cbn in Hux; lia|].
    eapply Permutation_in; [apply Permutation_sym; exact Hp|right; right; right; exact Hx].
Qed.

Lemma region_eq_dec (x y : region) : {x = y} + {x <> y}.
Proof. decide equality; apply Z.eq_dec. Qed.

Lemma used_other_dec rs bk :
  (exists x, In x rs /\ x <> bk /\ r_used x = 1) \/
  (forall x, In x rs -> r_used x = 1 -> x = bk).
Proof.
  induction rs as [|a rs IH]; [right; intros x []|].
  destruct IH as [[x [Hx Hx']]|IH]; [left; exists x; split; [right; exact Hx|exact Hx']|].
  destruct (Z.eq_dec (r_used a) 1) as [Hu|Hu].
  - destruct (region_eq_dec a bk) as [->|Hne].
    + right. intros x [<-|Hx] Hux; [reflexivity|apply IH; assumption].
    + left. exists a. split; [left; reflexivity|]. split; assumption.
  - right. intros x [<-|Hx] Hux; [contradiction|apply IH; assumption].
Qed.

Lemma sum_used_none rs : (forall x, In x rs -> r_used x <> 1) -> sum_used rs = 0.
Proof.
  induction rs as [|a rs IH]; intros H; [reflexivity|].
  rewrite sum_used_cons, IH by (intros x Hx; apply H; right; exact Hx).
  pose proof (H a (or_introl eq_refl)). destruct (Z.eqb_spec (r_used a) 1); [contradiction|lia].
Qed.

Lemma sum_used_only rs bk :
  NoDup rs -> (forall x, In x rs -> r_used x = 1 -> x = bk) -> 0 <= r_size bk ->
  sum_used rs <= r_size bk.
Proof.
  induction rs as [|a rs IH]; intros Hnd H Hs; [cbn; lia|].
  apply NoDup_cons_iff in Hnd. destruct Hnd as [Hna Hnd]. rewrite sum_used_cons.
  destruct (Z.eqb_spec (r_used a) 1) as [Hu|Hu].
  - assert (a = bk) by (apply H; [left; reflexivity|exact Hu]). subst a.
    rewrite sum_used_none; [lia|].
    intros x Hx Hux. assert (x = bk) by (apply H; [right; exact Hx|exact Hux]).
    subst x. contradiction.
  - assert (sum_used rs <= r_size bk); [|lia].
    apply IH; try assumption. intros x Hx. apply H. right. exact Hx.
Qed.

(** [free] returns, given enough fuel, and leaves every byte outside [W]
    as it was; the pointers live afterwards were live before. *)
Theorem free_track W fuel s bl R p N :
  heap_ok s bl R -> exact s bl -> is_live bl R p -> fuel_ok bl R N ->
  heap_covered W s bl R ->
  (forall x, p - 4 <= x < p + payload_len s p + 4 -> W x) ->
  wp (fuel <= N)%nat (free fuel p) s
     (fun _ s' => (exists bl' R', free_post s bl R p s' bl' R' /\
                     forall q, is_live bl' R' q -> is_live bl R q /\ q <> p) /\
                  keeps W (bytes s) (bytes s') /\
                  free_pages s bl R p s' /\
                  md_used (get32 (bytes s') (p - 4)) = 0).
Proof.
  intros H Hex Hlive HN HW HWp. pose proof Hlive as [B [r [HB [Hr [Hu [Hnb Ep]]]]]].
  pose proof USER_TOP_eq as HT. destruct HW as [HWh [HWf _]].
  destruct HN as [_ [HN1 HN2]]. pose proof (HN2 B HB) as HNB.
  pose proof (hp_blocks _ _ _ H B HB) as Hb. pose proof (bk_gen _ _ _ _ Hb) as G.
  pose proof (bg_bounds _ _ _ _ _ _ G Hr) as Hbd.
  pose proof (bg_mapped _ _ _ _ _ G) as Hm.
  pose proof (heap_block_bounds _ _ _ _ H HB) as HBb.
  assert (Hne : bl <> []) by (intros ->; destruct HB).
  destruct (hp_globals _ _ _ H Hne) as [Ge Gp].
  unfold free, sizeof_AllocMetadata.
  replace (p - 4) with (r_addr r) by lia. rewrite wrap64_small by lia.
  assert (HWr : covers W r).
  { intros x Hx. apply HWp. unfold payload_len, REGION_OVERHEAD_SIZE, sizeof_AllocMetadata.
    replace (p - 4) with (r_addr r) by lia.
    rewrite (bg_size_read _ _ _ _ _ _ G Hr). unfold r_end in Hx. lia. }
  apply wp_bind, wp_load_used; [in_block Hm|].
  rewrite (bg_used_read _ _ _ _ _ _ G Hr), Hu. cbn [Z.eqb Pos.eqb].
  apply wp_bind.
  eapply wp_lim; [apply getBlockWithRegion_spec with (bl := bl) (R := R);
                  [exact H| |intros Hn; exfalso; apply (Hn B HB); lia]|lia].
  intros X HX HpX.
  assert (X = B).
  { apply (live_block_unique s bl R B r X H HB Hr HX). lia. }
  subst X. clear HX HpX. destruct (Z.eqb_spec B 0); [lia|].
  apply wp_bind.
  eapply wp_lim; [apply dealloc_ok_frame with (W := W) (rs := R B);
                  [exact Hb|exact Hr|exact Hu|exact Hnb|apply HWh; exact HB|exact HWr
                  |intros x Hx; apply (HWf B x HB Hx)|]
                 |lia].
  intros m' rest rs' Hp Hco Hb' Hf K1 Hu0.
  set (s1 := with_bytes s m').
  set (R1 := upd R B rs').
  assert (H1 : heap_ok s1 bl R1) by (apply heap_block_update; assumption).
  assert (Ex1 : exact s1 bl) by (eapply exact_block_update; eassumption).
  pose proof (bk_gen _ _ _ _ Hb') as G'.
  (* the used regions other than [r] stay *)
  assert (Hkeep : forall x, In x (R B) -> r_used x = 1 -> x <> r -> In x rs').
  { intros x Hx Hux Hxr. eapply coalesced_keeps; [exact Hco|reflexivity| |exact Hux].
    eapply Permutation_in in Hx; [|exact Hp]. destruct Hx as [E|Hx]; [congruence|].
    right. exact Hx. }
  assert (Hlive1 : forall q, is_live bl R q -> q <> p -> is_live bl R1 q).
  { intros q [B2 [r2 [HB2 [Hr2 [Hu2 [Hnb2 Eq]]]]]] Hqp.
    exists B2, r2. split; [exact HB2|]. split; [|tauto].
    unfold R1. destruct (Z.eq_dec B2 B) as [->|Hne2].
    - rewrite upd_same. apply Hkeep; try assumption. intros ->. lia.
    - rewrite upd_other by exact Hne2. exact Hr2. }
  assert (Hback1 : forall q, is_live bl R1 q -> is_live bl R q /\ q <> p).
  { intros q [B2 [r2 [HB2 [Hr2 [Hu2 [Hnb2 Eq]]]]]]. unfold R1 in Hr2.
    destruct (Z.eq_dec B2 B) as [->|Hne2].
    - rewrite upd_same in Hr2.
      pose proof (coalesced_used _ _ _ r2 Hco Hr2 Hu2) as Hx0.
      destruct Hx0 as [<-|Hx0]; [cbn in Hu2; lia|].
      assert (Hr2' : In r2 (R B)).
      { eapply Permutation_in; [apply Permutation_sym; exact Hp|right; exact Hx0]. }
      split; [exists B, r2; tauto|].
      intros E. assert (r2 = r) by (apply (bg_addr_inj _ _ _ _ _ _ _ G Hr2' Hr); lia).
      subst r2. pose proof (bg_nodup _ _ _ _ _ (block_gen_perm _ _ _ _ _ _ Hp G)) as Hnd.
      apply NoDup_cons_iff in Hnd. tauto.
    - rewrite upd_other in Hr2 by exact Hne2.
      split; [exists B2, r2; tauto|].
      intros E. apply Hne2. symmetry. apply (live_block_unique s bl R B2 r2 B H HB2 Hr2 HB). lia. }
  apply wp_bind. eapply (Block_haveUserAllocations_spec _ s1 B rs'); [exact G'|].
  change (emptyBlockOverheadSize s1) with (emptyBlockOverheadSize s). rewrite Ge.
  unfold sizeof_BlockHeader.
  destruct (Z.gtb_spec (80 + sum_used rs') 124) as [Hgt|Hle]; cbn [negb].
  - apply wp_ret. split; [exists bl, R1; split; [constructor; assumption|exact Hback1]|].
    split; [exact K1|]. split; [|exact Hu0].
    exists B. split; [exact HB|]. split; [lia|]. left. split; [|reflexivity].
    destruct (used_other_dec rs' (bookkeeping B)) as [[x [Hx [Hxb Hxu]]]|Hall].
    + assert (Hxr : In x rest).
      { pose proof (coalesced_used _ _ _ x Hco Hx Hxu) as Hx0.
        destruct Hx0 as [<-|Hx0]; [cbn in Hxu; lia|exact Hx0]. }
      assert (HxR : In x (R B)).
      { eapply Permutation_in; [apply Permutation_sym; exact Hp|right; exact Hxr]. }
      pose proof (heap_region_range _ _ _ _ _ H HB HxR) as Hxrng. unfold r_end in Hxrng.
      exists (r_addr x + 4). split; [|split; [|lia]].
      * exists B, x. repeat split; assumption.
      * intros E. assert (x = r).
        { apply (bg_addr_inj _ _ _ _ _ _ _ G HxR Hr). lia. }
        subst x. pose proof (bg_nodup _ _ _ _ _ (block_gen_perm _ _ _ _ _ _ Hp G)) as Hnd.
        apply NoDup_cons_iff in Hnd. tauto.
    + exfalso. assert (sum_used rs' <= r_size (bookkeeping B)); [|cbn [bookkeeping r_size] in *; lia].
      apply sum_used_only; [exact (bg_nodup _ _ _ _ _ G')|exact Hall|cbn; lia].
  - (* the block holds no allocation any more: unlink and unmap it *)
    apply wp_bind.
    eapply wp_lim; [apply BlockList_remove_spec with (bl := bl);
                    [exact (hp_list _ _ _ H1)|exact (hp_nodup _ _ _ H1)
                    |exact (heap_nodes_ok _ _ _ H1)|exact (heap_sep32 _ _ _ H1)|exact HB|]
                   |lia].
    intros m2 h' bl2 Hl2 Hnd2 Hmem2 Hf2.
    + idtac.
      set (s2 := set_list (with_bytes s1 m2) h').
      assert (Hbs1 : bsize m' B = bsize (bytes s) B) by (apply block_frame_bsize; exact Hf).
      pose proof (Ex1 B HB) as Epg. change (bytes s1) with m' in Epg.
      unfold off_pages in *. rewrite wrap64_small by lia.
      apply wp_bind, wp_load32.
      { change (mapped s2) with (mapped s). in_block Hm. }
      change (bytes s2) with m2.
      assert (Epg2 : get32 m2 (B + 0) = get32 m' (B + 0)).
      { apply get32_ext. intros x Hx. apply Hf2. intros X HX.
        pose proof (heap_block_bounds _ _ _ _ H HX).
        destruct (hp_disj _ _ _ H X B HX HB) as [->|D]; lia. }
      rewrite Epg2.
      apply wp_libhalloc_free.
      change (page_size s2) with (page_size s). rewrite Gp.
      rewrite Epg. rewrite wrap64_small by (rewrite Hbs1; lia).
      assert (Hnone : forall q, is_live bl R q -> q <> p ->
                ~ (B <= q < B + bsize (bytes s) B)).
      { intros q Hq Hqp Hqb.
        destruct (Hlive1 q Hq Hqp) as [B2 [r2 [HB2 [Hr2 [Hu2 [Hnb2 Eq]]]]]].
        assert (B2 = B).
        { destruct Hq as [B3 [r3 [HB3 [Hr3 [_ [_ Eq3]]]]]].
          assert (B = B3) by (apply (live_block_unique s bl R B3 r3 B H HB3 Hr3 HB); lia).
          subst B3.
          assert (HB2' : In B2 bl) by exact HB2.
          pose proof (heap_region_range _ _ _ _ _ H1 HB2 Hr2) as X2. unfold r_end in X2.
          change (bytes s1) with m' in X2.
          pose proof (heap_block_bounds _ _ _ _ H1 HB2) as Y2. change (bytes s1) with m' in Y2.
          pose proof (heap_block_bounds _ _ _ _ H1 HB) as Y1. change (bytes s1) with m' in Y1.
          destruct (hp_disj _ _ _ H1 B2 B HB2 HB) as [?|D]; [assumption|].
          change (bytes s1) with m' in D. rewrite Hbs1 in *. lia. }
        subst B2. unfold R1 in Hr2. rewrite upd_same in Hr2.
        assert (Hs : r_size (bookkeeping B) + r_size r2 <= sum_used rs').
        { apply sum_used_two; try assumption.
          - intros x Hx. pose proof (bg_bounds _ _ _ _ _ _ G' Hx). lia.
          - exact (bk_book _ _ _ _ Hb').
          - congruence.
          - reflexivity. }
        pose proof (bg_bounds _ _ _ _ _ _ G' Hr2). cbn [bookkeeping r_size] in Hs. lia. }
      assert (Hused2 : md_used (get32 m2 (r_addr r)) = 0).
      { rewrite <- Hu0. f_equal. apply get32_ext. intros x Hx. apply Hf2. intros X HX.
        pose proof (heap_block_bounds _ _ _ _ H HX).
        destruct (hp_disj _ _ _ H X B HX HB) as [->|D]; lia. }
      split; [|split; [|split; [exists B; split; [exact HB|]; split; [lia|]; right; split;
                        [exact Hnone|cbn [mapped]; rewrite Hbs1; reflexivity]|exact Hused2]]].
      2:{ cbn [bytes]. intros x Hx. change (bytes s2) with m2.
          rewrite Hf2; [apply K1; exact Hx|].
          intros X HX. destruct (Z.lt_ge_cases x (X + 16)); [left; assumption|].
          destruct (Z.le_gt_cases (X + 32) x); [right; assumption|].
          exfalso. apply Hx, (HWh X HX). unfold sizeof_BlockHeader. lia. }
      exists bl2, R1. split.
      2:{ intros q [B2 [r2 [HB2 Hq2]]]. apply Hback1. exists B2, r2.
          split; [apply (proj1 (Hmem2 B2) HB2)|exact Hq2]. }
      constructor.
      * apply (heap_remove_block s1 _ bl R1 B bl2); try assumption; try reflexivity.
        cbn [page_size]. symmetry. exact Gp.
      * intros X HX. apply Hmem2 in HX. destruct HX as [HX HXB].
        cbn [bytes]. change (bytes s2) with m2.
        pose proof (heap_block_bounds _ _ _ _ H1 HX) as HXb.
        assert (Hfx : forall x, X <= x < X + 16 -> m2 x = m' x).
        { intros x Hx. apply Hf2. intros Y HY.
          pose proof (heap_block_bounds _ _ _ _ H1 HY).
          destruct (hp_disj _ _ _ H1 Y X HY HX) as [->|D]; lia. }
        assert (E1 : get32 m2 (X + off_pages) = get32 m' (X + off_pages)).
        { unfold off_pages. apply get32_ext. intros x Hx. apply Hfx. lia. }
        assert (E2 : bsize m2 X = bsize m' X).
        { unfold bsize, off_size. apply get32_ext. intros x Hx. apply Hfx. lia. }
        rewrite E1, E2. apply (Ex1 X HX).
      * intros q Hq Hqp. destruct (Hlive1 q Hq Hqp) as [B2 [r2 [HB2 [Hr2 [Hu2 [Hnb2 Eq]]]]]].
        exists B2, r2. split; [|tauto]. apply Hmem2. split; [exact HB2|].
        intros ->. unfold R1 in Hr2. rewrite upd_same in Hr2.
        assert (Hs : r_size (bookkeeping B) + r_size r2 <= sum_used rs').
        { apply sum_used_two; try assumption.
          - intros x Hx. pose proof (bg_bounds _ _ _ _ _ _ G' Hx). lia.
          - exact (bk_book _ _ _ _ Hb').
          - congruence.
          - reflexivity. }
        pose proof (bg_bounds _ _ _ _ _ _ G' Hr2). cbn [bookkeeping r_size] in Hs. lia.
Qed.

(** [free] returns, given enough fuel, and leaves every byte outside [W]
    as it was. *)
Theorem free_frame W fuel s bl R p N :
  heap_ok s bl R -> exact s bl -> is_live bl R p -> fuel_ok bl R N ->
  heap_covered W s bl R ->
  (forall x, p - 4 <= x < p + payload_len s p + 4 -> W x) ->
  wp (fuel <= N)%nat (free fuel p) s
     (fun _ s' => (exists bl' R', free_post s bl R p s' bl' R') /\
                  keeps W (bytes s) (bytes s') /\
                  free_pages s bl R p s').
Proof.
  intros H Hex Hlive HN HW HWp.
  eapply wp_conseq; [apply (free_track W fuel s bl R p N); assumption|].
  intros [] s' [[bl' [R' [Hp _]]] [HK [Hpg _]]].
  split; [exists bl', R'; exact Hp|]. split; assumption.
Qed.

Theorem free_spec fuel s bl R p :
  heap_ok s bl R -> exact s bl -> is_live bl R p ->
  wp True (free fuel p) s (fun _ s' => exists bl' R', free_post s bl R p s' bl' R').
Proof.
  intros H Hex Hlive. destruct (fuel_ok_exists bl R) as [N HN].
  eapply wp_lim; [eapply wp_conseq;
    [apply (free_frame (fun _ => True) fuel s bl R p N); try assumption|]|].
  - apply heap_covered_all.
  - intros x _. exact I.
  - intros a s' [Hpost _]. exact Hpost.
  - intros _. exact I.
Qed.

(** * Stores into the payload of a used region *)

Lemma block_gen_payload m m' mp B rs P r :
  block_gen m mp B rs P -> In r rs -> r_used r = 1 ->
  (forall x, x < r_addr r + 4 \/ r_end r - 4 <= x -> m' x = m x) ->
  block_gen m' mp B rs P.
Proof.
  intros H Hr Hu Hf. unfold r_end in Hf.
  pose proof (bg_bounds _ _ _ _ _ _ H Hr) as Hb.
  pose proof (bg_size _ _ _ _ _ H) as Hsz.
  assert (Hbs : bsize m' B = bsize m B).
  { unfold bsize, off_size. apply get32_ext. intros x Hx. apply Hf. lia. }
  assert (Hlim : blim m' B = blim m B) by (unfold blim; rewrite Hbs; reflexivity).
  constructor.
  - apply H.
  - rewrite Hbs. exact Hsz.
  - rewrite Hbs. apply H.
  - rewrite Hbs. apply H.
  - intros x Hx. unfold region_fits. rewrite Hlim. apply (bg_regions _ _ _ _ _ H x Hx).
  - apply H.
  - apply H.
  - intros x Hx. destruct (bg_tagged _ _ _ _ _ H x Hx) as [T1 T2].
    pose proof (bg_bounds _ _ _ _ _ _ H Hx) as Hbx.
    unfold tagged, r_end in *.
    destruct (bg_sep _ _ _ _ _ _ _ H Hx Hr) as [->|D];
      (split; [rewrite <- T1|rewrite <- T2]; apply get32_ext; intros y Hy; apply Hf; lia).
  - apply H.
  - eapply flists_frame; [exact H| |].
    + intros x Hx. apply Hf. lia.
    + intros a [x [HPx Ea]]. destruct (bg_P _ _ _ _ _ H x HPx) as [Hx Hfree].
      pose proof (bg_bounds _ _ _ _ _ _ H Hx) as Hbx.
      unfold off_next. apply get64_ext. intros y Hy. apply Hf.
      destruct (bg_sep _ _ _ _ _ _ _ H Hx Hr) as [->|D]; lia.
  - rewrite <- (bg_used _ _ _ _ _ H). apply get32_ext. intros x Hx. apply Hf.
    unfold off_usedSize in Hx. lia.
Qed.

Lemma heap_ok_ext s bl R R' :
  (forall B, R' B = R B) -> heap_ok s bl R -> heap_ok s bl R'.
Proof.
  intros E H. constructor; try apply H.
  intros B HB. rewrite E. apply (hp_blocks _ _ _ H B HB).
Qed.

Lemma upd_id R B X : upd R B (R B) X = R X.
Proof. unfold upd. destruct (Z.eqb_spec X B) as [->|]; reflexivity. Qed.

Lemma heap_payload s bl R B r m' :
  heap_ok s bl R -> In B bl -> In r (R B) -> r_used r = 1 ->
  (forall x, x < r_addr r + 4 \/ r_end r - 4 <= x -> m' x = bytes s x) ->
  heap_ok (with_bytes s m') bl R /\ (exact s bl -> exact (with_bytes s m') bl).
Proof.
  intros H HB Hr Hu Hf.
  pose proof (hp_blocks _ _ _ H B HB) as Hb.
  pose proof (bk_gen _ _ _ _ Hb) as G.
  pose proof (bg_bounds _ _ _ _ _ _ G Hr) as Hbd.
  assert (Hfr : block_frame (bytes s) m' B).
  { intros x Hx. apply Hf. unfold off_usedSize, r_end in *. lia. }
  assert (Hbs := block_frame_bsize _ _ _ Hfr).
  assert (Hlim : blim m' B = blim (bytes s) B) by (unfold blim; rewrite Hbs; reflexivity).
  assert (Hb' : block_ok m' (mapped s) B (R B)).
  { constructor.
    - eapply block_gen_payload; eassumption.
    - exact (bk_align _ _ _ _ Hb).
    - rewrite Hlim. exact (bk_lim _ _ _ _ Hb).
    - exact (bk_book _ _ _ _ Hb).
    - rewrite Hlim. exact (bk_placed _ _ _ _ Hb). }
  split.
  - apply (heap_ok_ext _ _ (upd R B (R B))); [intros X; symmetry; apply upd_id|].
    apply heap_block_update; assumption.
  - apply (exact_block_update s bl R B); assumption.
Qed.

(** [memcpy] between mapped ranges changes only the destination. *)
Lemma memcpy_n_spec lim n dst src s (Q : unit -> state -> Prop) :
  0 <= dst -> dst + Z.of_nat n <= USER_TOP ->
  0 <= src -> src + Z.of_nat n <= USER_TOP ->
  range_mapped (mapped s) dst (dst + Z.of_nat n) ->
  range_mapped (mapped s) src (src + Z.of_nat n) ->
  (forall m', (forall x, x < dst \/ dst + Z.of_nat n <= x -> m' x = bytes s x) ->
              Q tt (with_bytes s m')) ->
  wp lim (memcpy_n n dst src) s Q.
Proof.
  pose proof USER_TOP_eq as HT.
  revert dst src s Q. induction n as [|n IH]; intros dst src s Q Hd Hdt Hs Hst Hmd Hms HQ.
  - cbn [memcpy_n]. apply wp_ret.
    assert (E : s = with_bytes s (bytes s)) by (destruct s; reflexivity).
    rewrite E. apply HQ. reflexivity.
  - cbn [memcpy_n]. rewrite Nat2Z.inj_succ in *.
    apply wp_bind. apply wp_loadN.
    { cbn [mapped_n]. rewrite Hms by lia. reflexivity. }
    apply wp_bind. apply wp_storeN.
    { cbn [mapped_n]. rewrite Hmd by lia. reflexivity. }
    rewrite !wrap64_small by lia.
    apply IH; st_simpl; try lia.
    + intros x Hx. apply Hmd. lia.
    + intros x Hx. apply Hms. lia.
    + intros m' H2. st_simpl. apply HQ.
      intros x Hx. rewrite H2 by lia. cbn [setN]. unfold set8.
      destruct (Z.eqb_spec x dst); [lia|reflexivity].
Qed.

(** [memcpy] between disjoint mapped ranges copies the source bytes. *)
Lemma memcpy_n_copy lim n dst src s (Q : unit -> state -> Prop) :
  0 <= dst -> dst + Z.of_nat n <= USER_TOP ->
  0 <= src -> src + Z.of_nat n <= USER_TOP ->
  range_mapped (mapped s) dst (dst + Z.of_nat n) ->
  range_mapped (mapped s) src (src + Z.of_nat n) ->
  dst + Z.of_nat n <= src \/ src + Z.of_nat n <= dst ->
  (forall m', (forall x, x < dst \/ dst + Z.of_nat n <= x -> m' x = bytes s x) ->
              (forall i, 0 <= i < Z.of_nat n -> m' (dst + i) = get8 (bytes s) (src + i)) ->
              Q tt (with_bytes s m')) ->
  wp lim (memcpy_n n dst src) s Q.
Proof.
  pose proof USER_TOP_eq as HT.
  revert dst src s Q. induction n as [|n IH]; intros dst src s Q Hd Hdt Hs Hst Hmd Hms Hdj HQ.
  - cbn [memcpy_n]. apply wp_ret.
    assert (E : s = with_bytes s (bytes s)) by (destruct s; reflexivity).
    rewrite E. apply HQ; [reflexivity|]. intros i Hi. cbn in Hi. lia.
  - cbn [memcpy_n]. rewrite Nat2Z.inj_succ in *.
    apply wp_bind. apply wp_loadN.
    { cbn [mapped_n]. rewrite Hms by lia. reflexivity. }
    apply wp_bind. apply wp_storeN.
    { cbn [mapped_n]. rewrite Hmd by lia. reflexivity. }
    rewrite !wrap64_small by lia.
    apply IH; st_simpl; try lia.
    + intros x Hx. apply Hmd. lia.
    + intros x Hx. apply Hms. lia.
    + intros m' H2 H3. st_simpl. apply HQ.
      * intros x Hx. rewrite H2 by lia. cbn [setN]. unfold set8.
        destruct (Z.eqb_spec x dst); [lia|reflexivity].
      * intros i Hi. destruct (Z.eq_dec i 0) as [->|Hi0].
        -- rewrite !Z.add_0_r. rewrite H2 by lia. cbn [setN getN]. unfold set8.
           rewrite Z.eqb_refl.
           pose proof (get8_range (bytes s) src).
           replace (get8 (bytes s) src + 256 * 0) with (get8 (bytes s) src) by lia.
           apply Z.mod_small. lia.
        -- replace (dst + i) with (dst + 1 + (i - 1)) by lia. rewrite H3 by lia.
           replace (src + 1 + (i - 1)) with (src + i) by lia.
           unfold get8. cbn [setN]. unfold set8.
           destruct (Z.eqb_spec (src + i) dst); [lia|reflexivity].
Qed.

(** * [calloc] and [realloc] *)

Lemma malloc_live s bl R size p s' bl' R' q :
  malloc_post s bl R size p s' bl' R' -> is_live bl R q -> is_live bl' R' q.
Proof.
  intros Hp [B [r [HB [Hr [Hu [Hnb Eq]]]]]]. exists B, r.
  split; [apply (mp_blocks _ _ _ _ _ _ _ _ Hp B HB)|].
  split; [apply (mp_keep _ _ _ _ _ _ _ _ Hp B r HB Hr Hu)|]. tauto.
Qed.

Lemma malloc_new_live s bl R size p s' bl' R' :
  malloc_post s bl R size p s' bl' R' -> p <> 0 -> is_live bl' R' p.
Proof.
  intros Hp Hne. destruct (mp_new _ _ _ _ _ _ _ _ Hp Hne) as [B [r [HB [Hr [Hu [Hnb [Ep _]]]]]]].
  exists B, r. tauto.
Qed.

(** What the client can rely on for a live pointer. *)
Lemma live_facts s bl R p :
  heap_ok s bl R -> is_live bl R p ->
  exists B r, In B bl /\ In r (R B) /\ r_used r = 1 /\ r <> bookkeeping B /\
    p = r_addr r + 4 /\
    md_size (get32 (bytes s) (p - 4)) = r_size r /\
    md_used (get32 (bytes s) (p - 4)) = 1 /\
    payload_len s p = r_size r - 8 /\ 28 <= r_size r < 2^28 /\
    B + 124 <= r_addr r /\ r_end r <= B + bsize (bytes s) B /\
    B + bsize (bytes s) B <= USER_TOP /\ 0 < B /\ p mod 16 = 0 /\
    range_mapped (mapped s) B (B + bsize (bytes s) B).
Proof.
  intros H [B [r [HB [Hr [Hu [Hnb Ep]]]]]]. exists B, r.
  pose proof (hp_blocks _ _ _ H B HB) as Hb. pose proof (bk_gen _ _ _ _ Hb) as G.
  pose proof (bg_bounds _ _ _ _ _ _ G Hr) as Hbd.
  destruct (placed_not_book' _ _ _ (bk_placed _ _ _ _ Hb r Hr) Hnb) as [X1 [X2 X3]].
  assert (E : p - 4 = r_addr r) by lia.
  unfold payload_len, REGION_OVERHEAD_SIZE, sizeof_AllocMetadata, r_end. rewrite E.
  rewrite (bg_size_read _ _ _ _ _ _ G Hr), (bg_used_read _ _ _ _ _ _ G Hr).
  repeat split; try assumption; try lia.
  - subst p. dlia.
  - apply (bg_mapped _ _ _ _ _ G).
Qed.

Theorem calloc_track fuel s bl R k n N :
  heap_ok s bl R ->
  (n <> 0 -> bl = [] -> os_ready s (block_len (PAGE_SIZE * 4)) = true) ->
  fuel_ok bl R N ->
  wp (fuel <= N)%nat (calloc fuel k n) s
     (fun p s' => exists bl' R', calloc_post s bl R k n p s' bl' R' /\
                    forall q, is_live bl' R' q -> q = p \/ is_live bl R q).
Proof.
  intros H Hrdy HN. pose proof USER_TOP_eq as HT. unfold calloc.
  destruct (Z.eqb_spec n 0) as [En|En].
  - apply wp_ret. exists bl, R. split; [constructor; auto; try contradiction|].
    intros q Hq. right. exact Hq.
  - apply wp_bind. eapply wp_conseq.
    { apply (malloc_track fuel s bl R (wrap64 (k * n)) N); try assumption.
      apply Hrdy. exact En. }
    intros p s1 [bl1 [R1 [Hp [Hback _]]]]. pose proof (mp_heap _ _ _ _ _ _ _ _ Hp) as H1.
    destruct (Z.eqb_spec p 0) as [Ep|Ep].
    + apply wp_ret. exists bl1, R1. split.
      2:{ intros q Hq. destruct (Hback q Hq) as [E|E]; [left; lia|right; exact E]. }
      constructor.
      * exact H1.
      * apply (mp_exact _ _ _ _ _ _ _ _ Hp).
      * intros q. apply (malloc_live _ _ _ _ _ _ _ _ q Hp).
      * intros Hc. contradiction.
      * intros Hc. contradiction.
    + pose proof (malloc_new_live _ _ _ _ _ _ _ _ Hp Ep) as Hlive.
      destruct (live_facts _ _ _ _ H1 Hlive) as
        [B [r [HB [Hr [Hu [Hnb [Epr [Esz [Eus [Epl [Hrs [Hlo [Hhi [Htop [HB0 [Hal Hm]]]]]]]]]]]]]]]].
      unfold r_end in Hhi.
      unfold sizeof_AllocMetadata. rewrite wrap64_small by lia.
      apply wp_bind, wp_load_size; [in_block Hm|].
      rewrite Esz. rewrite wrap64_small by lia.
      apply wp_bind. unfold memset.
      apply memset_n_spec; rewrite ?Z2Nat.id by lia; try lia.
      { intros x Hx. apply Hm. lia. }
      intros m' Hz Hf. apply wp_ret.
      destruct (heap_payload s1 bl1 R1 B r m' H1 HB Hr Hu) as [H2 Hex2].
      { intros x Hx. apply Hf. unfold r_end in Hx. lia. }
      exists bl1, R1. split; [|exact Hback]. constructor.
      * exact H2.
      * intros Hex Hsz. apply Hex2. apply (mp_exact _ _ _ _ _ _ _ _ Hp); assumption.
      * intros q. apply (malloc_live _ _ _ _ _ _ _ _ q Hp).
      * intros _. split; [exact Hlive|]. split; [exact Hal|].
        intros i Hi.
        destruct (live_facts _ _ _ _ H2 Hlive) as
          [B' [r' [HB' [Hr' [_ [_ [Epr' [_ [_ [Epl' _]]]]]]]]]].
        assert (r' = r).
        { destruct (heap_addr_inj _ _ _ _ _ _ _ H2 HB' HB Hr' Hr) as [_ E]; [lia|exact E]. }
        subst r'. rewrite Epl' in Hi. st_simpl. rewrite Hz by lia. reflexivity.
      * intros Hc. contradiction.
Qed.

Theorem calloc_spec fuel s bl R k n :
  heap_ok s bl R ->
  (n <> 0 -> bl = [] -> os_ready s (block_len (PAGE_SIZE * 4)) = true) ->
  wp True (calloc fuel k n) s
     (fun p s' => exists bl' R', calloc_post s bl R k n p s' bl' R').
Proof.
  intros H Hrdy. destruct (fuel_ok_exists bl R) as [N HN].
  eapply wp_lim; [eapply wp_conseq; [apply (calloc_track fuel s bl R k n N); assumption|]|tauto].
  intros p s' [bl' [R' [Hp _]]]. exists bl', R'. exact Hp.
Qed.

Theorem realloc_track fuel s bl R p n N :
  heap_ok s bl R -> exact s bl -> is_live bl R p -> 0 <= n <= MAXREQ ->
  fuel_ok bl R N ->
  wp (fuel <= S N)%nat (realloc fuel p n) s
     (fun q s' => exists bl' R', realloc_post s bl R p n q s' bl' R' /\
                    forall x, is_live bl' R' x ->
                      x = q \/ (is_live bl R x /\ (q = 0 \/ q = p \/ x <> p))).
Proof.
  intros H Hex Hlive Hn HN. pose proof USER_TOP_eq as HT. unfold realloc.
  destruct (live_facts _ _ _ _ H Hlive) as
    [B [r [HB [Hr [Hu [Hnb [Epr [Esz [Eus [Epl [Hrs [Hlo [Hhi [Htop [HB0 [Hal Hm]]]]]]]]]]]]]]]].
  unfold r_end in Hhi.
  assert (Hne : bl <> []) by (intros ->; destruct HB).
  unfold sizeof_AllocMetadata. rewrite wrap64_small by lia.
  apply wp_bind, wp_load_size; [in_block Hm|].
  rewrite Esz. rewrite wrap64_small by lia.
  destruct (Z.eqb_spec p 0); [lia|].
  destruct (Z.eqb_spec (r_size r - 4 * 2) n) as [En|En].
  - apply wp_ret. exists bl, R. split; [constructor; auto; try contradiction|].
    intros x Hx. right. split; [exact Hx|]. right. left. reflexivity.
  - apply wp_bind. eapply wp_conseq.
    { eapply wp_lim; [apply (malloc_track fuel s bl R n N)|lia];
        try assumption. intros E. contradiction. }
    intros q s1 [bl1 [R1 [Hp [Hback HN1]]]]. pose proof (mp_heap _ _ _ _ _ _ _ _ Hp) as H1.
    assert (Hex1 : exact s1 bl1) by (apply (mp_exact _ _ _ _ _ _ _ _ Hp); assumption).
    pose proof (malloc_live _ _ _ _ _ _ _ _ p Hp Hlive) as Hlive1.
    destruct (Z.eqb_spec q 0) as [Eq|Eq].
    + apply wp_ret. exists bl1, R1. split.
      2:{ intros x Hx. destruct (Hback x Hx) as [E|Hx0]; [left; lia|].
          right. split; [exact Hx0|]. left. reflexivity. }
      constructor.
      * exact H1.
      * intros _ _. exact Hex1.
      * intros _ x. apply (malloc_live _ _ _ _ _ _ _ _ x Hp).
      * intros Hc. contradiction.
      * intros Hc. contradiction.
    + destruct (mp_new _ _ _ _ _ _ _ _ Hp Eq) as
        [Bq [rq [HBq [Hrq [Huq [Hnbq [Epq [Halq [Hszq Hfresh]]]]]]]]].
      assert (Hqp : q <> p) by (intros ->; contradiction).
      assert (Hliveq : is_live bl1 R1 q) by (exists Bq, rq; tauto).
      destruct (live_facts _ _ _ _ H1 Hliveq) as
        [Bq' [rq' [HBq' [Hrq' [_ [_ [Epq' [_ [_ [_ [Hrsq [Hloq [Hhiq [Htopq [HBq0 [_ Hmq]]]]]]]]]]]]]]]].
      assert (rq' = rq /\ Bq' = Bq).
      { destruct (heap_addr_inj _ _ _ _ _ _ _ H1 HBq' HBq Hrq' Hrq) as [E1 E2]; [lia|].
        split; assumption. }
      destruct H0 as [-> ->]. unfold r_end in Hhiq.
      destruct (live_facts _ _ _ _ H1 Hlive1) as
        [B1 [r1 [HB1 [Hr1 [_ [_ [Epr1 [_ [_ [_ [Hrs1 [Hlo1 [Hhi1 [Htop1 [HB10 [_ Hm1]]]]]]]]]]]]]]]].
      unfold r_end in Hhi1.
      assert (r_size r1 = r_size r).
      { pose proof (mp_keep _ _ _ _ _ _ _ _ Hp B r HB Hr Hu) as Hr'.
        pose proof (mp_blocks _ _ _ _ _ _ _ _ Hp B HB) as HB'.
        destruct (heap_addr_inj _ _ _ _ _ _ _ H1 HB1 HB' Hr1 Hr') as [_ E]; [lia|].
        rewrite E. reflexivity. }
      rewrite wrap32_small in Hszq by (unfold MAXREQ in Hn; lia).
      set (len := if n <? r_size r - 4 * 2 then n else r_size r - 4 * 2).
      assert (Hlen : 0 <= len /\ len <= n /\ len <= r_size r - 8).
      { unfold len. destruct (Z.ltb_spec n (r_size r - 4 * 2)); lia. }
      apply wp_bind. unfold memcpy.
      apply memcpy_n_spec; rewrite ?Z2Nat.id by lia; try lia.
      { intros x Hx. apply Hmq. lia. }
      { intros x Hx. apply Hm1. lia. }
      intros m' Hf.
      destruct (heap_payload s1 bl1 R1 Bq rq m' H1 HBq Hrq Huq) as [H2 Hex2].
      { intros x Hx. apply Hf. unfold r_end in Hx. lia. }
      apply wp_bind. eapply wp_conseq.
      { apply (free_track (fun _ => True) fuel (with_bytes s1 m') bl1 R1 p (S N)
                 H2 (Hex2 Hex1) Hlive1 HN1 (heap_covered_all _ bl1 R1) (fun _ _ => I)). }
      intros [] s3 [[bl3 [R3 [Hfp Hback3]]] _]. apply wp_ret. exists bl3, R3. split.
      2:{ intros x Hx. destruct (Hback3 x Hx) as [Hx1 Hxp].
          destruct (Hback x Hx1) as [E|Hx0]; [left; exact E|].
          right. split; [exact Hx0|]. right. right. exact Hxp. }
      constructor.
      * exact (fp_heap _ _ _ _ _ _ _ Hfp).
      * intros _ _. exact (fp_exact _ _ _ _ _ _ _ Hfp).
      * intros [Hc|Hc]; contradiction.
      * intros _ _. split.
        -- apply (fp_live _ _ _ _ _ _ _ Hfp); assumption.
        -- intros x Hx Hxp. apply (fp_live _ _ _ _ _ _ _ Hfp); [|exact Hxp].
           apply (malloc_live _ _ _ _ _ _ _ _ x Hp Hx).
      * intros _. exact Halq.
Qed.

Theorem realloc_spec fuel s bl R p n :
  heap_ok s bl R -> exact s bl -> is_live bl R p -> 0 <= n <= MAXREQ ->
  wp True (realloc fuel p n) s
     (fun q s' => exists bl' R', realloc_post s bl R p n q s' bl' R').
Proof.
  intros H Hex Hlive Hn. destruct (fuel_ok_exists bl R) as [N HN].
  eapply wp_lim;
    [eapply wp_conseq; [apply (realloc_track fuel s bl R p n N); assumption|]|tauto].
  intros q s' [bl' [R' [Hp _]]]. exists bl', R'. exact Hp.
Qed.

(** ** What the public calls leave untouched *)

Lemma heap_covered_unused s bl R lo hi :
  heap_ok s bl R -> heap_covered (unused_or bl R lo hi) s bl R.
Proof.
  intros H. split; [|split].
  - intros X HX x Hx [[B [r [HB [Hr [Hu Hin]]]]] _].
    pose proof (heap_region_range _ _ _ _ _ H HB Hr) as Hrr. unfold r_end in *.
    pose proof (heap_block_bounds _ _ _ _ H HB). pose proof (heap_block_bounds _ _ _ _ H HX).
    unfold sizeof_BlockHeader in Hx.
    destruct (hp_disj _ _ _ H X B HX HB) as [->|D]; lia.
  - intros X r0 HX [Hr0 Hf0] x Hx [[B [r [HB [Hr [Hu Hin]]]]] _].
    pose proof (heap_region_range _ _ _ _ _ H HB Hr) as Hrr.
    pose proof (heap_region_range _ _ _ _ _ H HX Hr0) as Hrr0. unfold r_end in *.
    pose proof (heap_block_bounds _ _ _ _ H HB). pose proof (heap_block_bounds _ _ _ _ H HX).
    assert (X = B) by (destruct (hp_disj _ _ _ H X B HX HB) as [?|D]; [assumption|lia]).
    subst X.
    destruct (bg_sep _ _ _ _ _ _ _ (bk_gen _ _ _ _ (hp_blocks _ _ _ H B HB)) Hr Hr0)
      as [->|D]; lia.
  - intros x Hx [[B [r [HB [Hr [Hu Hin]]]]] _].
    pose proof (heap_region_range _ _ _ _ _ H HB Hr) as Hrr. unfold r_end in *.
    rewrite (heap_block_mapped _ _ _ B x H HB) in Hx by lia. discriminate.
Qed.

Lemma keeps_used bl R lo hi m m' x :
  keeps (unused_or bl R lo hi) m m' -> in_used bl R x -> ~ (lo <= x < hi) -> m' x = m x.
Proof. intros K Hu Hx. apply K. intros Hn. apply Hn. split; assumption. Qed.

(** The region of a live pointer, seen as a range of used addresses. *)
Lemma live_in_used s bl R p x :
  heap_ok s bl R -> is_live bl R p -> p - 4 <= x < p + payload_len s p + 4 ->
  in_used bl R x.
Proof.
  intros H Hl Hx.
  destruct (live_facts _ _ _ _ H Hl) as
    [B [r [HB [Hr [Hu [Hnb [Epr [Esz [Eus [Epl _]]]]]]]]]].
  exists B, r. unfold r_end. repeat split; try assumption; lia.
Qed.

(** Two live pointers have disjoint regions. *)
Lemma live_apart s bl R p q :
  heap_ok s bl R -> is_live bl R p -> is_live bl R q -> p <> q ->
  p + payload_len s p + 4 <= q - 4 \/ q + payload_len s q + 4 <= p - 4.
Proof.
  intros H Hp Hq Hne.
  destruct (live_facts _ _ _ _ H Hp) as
    [B [r [HB [Hr [Hu [Hnb [Epr [Esz [Eus [Epl [Hrs [Hlo [Hhi [Htop _]]]]]]]]]]]]]].
  destruct (live_facts _ _ _ _ H Hq) as
    [B' [r' [HB' [Hr' [Hu' [Hnb' [Epr' [Esz' [Eus' [Epl' [Hrs' [Hlo' [Hhi' [Htop' _]]]]]]]]]]]]]].
  unfold r_end in *.
  pose proof (heap_block_bounds _ _ _ _ H HB). pose proof (heap_block_bounds _ _ _ _ H HB').
  destruct (hp_disj _ _ _ H B B' HB HB') as [->|D]; [|lia].
  destruct (bg_sep _ _ _ _ _ _ _ (bk_gen _ _ _ _ (hp_blocks _ _ _ H B' HB')) Hr Hr')
    as [->|D]; lia.
Qed.

(** [malloc] leaves the regions of the live pointers as they were, and
    the region it hands out is disjoint from them. *)
Theorem malloc_keeps fuel s bl R size :
  heap_ok s bl R ->
  (bl = [] -> os_ready s (block_len (PAGE_SIZE * 4)) = true) ->
  wp True (malloc fuel size) s
     (fun p s' => (exists bl' R', malloc_post s bl R size p s' bl' R') /\
                  (forall x, in_used bl R x -> bytes s' x = bytes s x) /\
                  (p <> 0 -> forall x, p - 4 <= x < p + payload_len s' p + 4 ->
                             ~ in_used bl R x)).
Proof.
  intros H Hrdy. destruct (fuel_ok_exists bl R) as [N HN].
  eapply wp_lim; [eapply wp_conseq;
    [apply (malloc_frame (unused_or bl R 0 0) fuel s bl R size N); try assumption|]
    |intros _; exact I].
  - apply heap_covered_unused. exact H.
  - intros p s' [Hpost [K Hnew]]. split; [exact Hpost|]. split.
    + intros x Hx. apply (keeps_used _ _ _ _ _ _ _ K Hx). lia.
    + intros Hp x Hx Hu. apply (Hnew Hp x Hx). split; [exact Hu|lia].
Qed.

(** [free p] leaves the regions of the other live pointers as they were. *)
Theorem free_keeps fuel s bl R p :
  heap_ok s bl R -> exact s bl -> is_live bl R p ->
  wp True (free fuel p) s
     (fun _ s' => (exists bl' R', free_post s bl R p s' bl' R') /\
                  (forall x, in_used bl R x -> ~ (p - 4 <= x < p + payload_len s p + 4) ->
                             bytes s' x = bytes s x) /\
                  free_pages s bl R p s').
Proof.
  intros H Hex Hl. destruct (fuel_ok_exists bl R) as [N HN].
  eapply wp_lim; [eapply wp_conseq;
    [apply (free_frame (unused_or bl R (p - 4) (p + payload_len s p + 4)) fuel s bl R p N);
     try assumption|]
    |intros _; exact I].
  - apply heap_covered_unused. exact H.
  - intros x Hx [_ Hn]. contradiction.
  - intros [] s' [Hpost [K Hpg]]. split; [exact Hpost|]. split; [|exact Hpg].
    intros x Hx Hn. apply (keeps_used _ _ _ _ _ _ _ K Hx Hn).
Qed.

(** [calloc] leaves the regions of the live pointers as they were. *)
Theorem calloc_keeps fuel s bl R k n :
  heap_ok s bl R ->
  (n <> 0 -> bl = [] -> os_ready s (block_len (PAGE_SIZE * 4)) = true) ->
  wp True (calloc fuel k n) s
     (fun p s' => forall x, in_used bl R x -> bytes s' x = bytes s x).
Proof.
  intros H Hrdy. pose proof USER_TOP_eq as HT. unfold calloc.
  destruct (Z.eqb_spec n 0) as [En|En].
  - apply wp_ret. reflexivity.
  - apply wp_bind. eapply wp_conseq.
    { apply (malloc_keeps fuel s bl R (wrap64 (k * n))); [exact H|]. apply Hrdy. exact En. }
    intros p s1 [[bl1 [R1 Hp]] [K Hnew]]. pose proof (mp_heap _ _ _ _ _ _ _ _ Hp) as H1.
    destruct (Z.eqb_spec p 0) as [Ep|Ep].
    + apply wp_ret. exact K.
    + pose proof (malloc_new_live _ _ _ _ _ _ _ _ Hp Ep) as Hlive.
      destruct (live_facts _ _ _ _ H1 Hlive) as
        [B [r [HB [Hr [Hu [Hnb [Epr [Esz [Eus [Epl [Hrs [Hlo [Hhi [Htop [HB0 [Hal Hm]]]]]]]]]]]]]]]].
      unfold r_end in Hhi.
      unfold sizeof_AllocMetadata. rewrite wrap64_small by lia.
      apply wp_bind, wp_load_size; [in_block Hm|].
      rewrite Esz. rewrite wrap64_small by lia.
      apply wp_bind. unfold memset.
      apply memset_n_spec; rewrite ?Z2Nat.id by lia; try lia.
      { intros x Hx. apply Hm. lia. }
      intros m' Hz Hf. apply wp_ret. st_simpl.
      intros x Hx. rewrite Hf; [apply K; exact Hx|].
      destruct (Z.lt_ge_cases x p); [left; assumption|].
      destruct (Z.le_gt_cases (p + (r_size r - 4 * 2)) x); [right; assumption|].
      exfalso. apply (Hnew Ep x); [|exact Hx]. lia.
Qed.

(** [realloc p n]: the regions of the other live pointers stay as they
    were; when the call fails or returns [p], so does the region of [p];
    when it returns a new pointer, the payload there starts with the old
    contents, up to the smaller of the two lengths. *)
Theorem realloc_keeps fuel s bl R p n :
  heap_ok s bl R -> exact s bl -> is_live bl R p -> 0 <= n <= MAXREQ ->
  wp True (realloc fuel p n) s
     (fun q s' =>
        (forall x, in_used bl R x ->
           q = 0 \/ q = p \/ ~ (p - 4 <= x < p + payload_len s p + 4) ->
           bytes s' x = bytes s x) /\
        (q <> 0 -> q <> p -> forall i, 0 <= i < payload_len s p -> i < n ->
           get8 (bytes s') (q + i) = get8 (bytes s) (p + i)) /\
        (payload_len s p = n -> q = p /\ s' = s) /\
        (payload_len s p <> n -> q <> p)).
Proof.
  intros H Hex Hlive Hn. pose proof USER_TOP_eq as HT. unfold realloc.
  destruct (live_facts _ _ _ _ H Hlive) as
    [B [r [HB [Hr [Hu [Hnb [Epr [Esz [Eus [Epl [Hrs [Hlo [Hhi [Htop [HB0 [Hal Hm]]]]]]]]]]]]]]]].
  unfold r_end in Hhi.
  assert (Hne : bl <> []) by (intros ->; destruct HB).
  unfold sizeof_AllocMetadata. rewrite wrap64_small by lia.
  apply wp_bind, wp_load_size; [in_block Hm|].
  rewrite Esz. rewrite wrap64_small by lia.
  destruct (Z.eqb_spec p 0); [lia|].
  destruct (Z.eqb_spec (r_size r - 4 * 2) n) as [En|En].
  - apply wp_ret. split; [reflexivity|]. split; [intros _ Hc; contradiction|].
    split; [intros _; split; reflexivity|]. intros Hc. rewrite Epl in Hc. lia.
  - apply wp_bind. eapply wp_conseq.
    { apply (malloc_keeps fuel s bl R n); [exact H|]. intros E. contradiction. }
    intros q s1 [[bl1 [R1 Hp]] [K Hnew]]. pose proof (mp_heap _ _ _ _ _ _ _ _ Hp) as H1.
    assert (Hex1 : exact s1 bl1) by (apply (mp_exact _ _ _ _ _ _ _ _ Hp); assumption).
    pose proof (malloc_live _ _ _ _ _ _ _ _ p Hp Hlive) as Hlive1.
    assert (Hlast : forall q' (s' : state), q' <> p ->
              (payload_len s p = n -> q' = p /\ s' = s) /\
              (payload_len s p <> n -> q' <> p)).
    { intros q' s' Hq'. split; [intros Hc; rewrite Epl in Hc; lia|intros _; exact Hq']. }
    destruct (Z.eqb_spec q 0) as [Eq|Eq].
    + apply wp_ret. split; [intros x Hx _; apply K; exact Hx|].
      split; [intros Hc; contradiction|].
      split; [intros Hc; rewrite Epl in Hc; lia|intros _; lia].
    + destruct (mp_new _ _ _ _ _ _ _ _ Hp Eq) as
        [Bq [rq [HBq [Hrq [Huq [Hnbq [Epq [Halq [Hszq Hfresh]]]]]]]]].
      assert (Hqp : q <> p) by (intros ->; contradiction).
      assert (Hliveq : is_live bl1 R1 q) by (exists Bq, rq; tauto).
      destruct (live_facts _ _ _ _ H1 Hliveq) as
        [Bq' [rq' [HBq' [Hrq' [_ [_ [Epq' [_ [_ [Eplq [Hrsq [Hloq [Hhiq [Htopq [HBq0 [_ Hmq]]]]]]]]]]]]]]]].
      assert (rq' = rq /\ Bq' = Bq).
      { destruct (heap_addr_inj _ _ _ _ _ _ _ H1 HBq' HBq Hrq' Hrq) as [E1 E2]; [lia|].
        split; assumption. }
      destruct H0 as [-> ->]. unfold r_end in Hhiq.
      destruct (live_facts _ _ _ _ H1 Hlive1) as
        [B1 [r1 [HB1 [Hr1 [_ [_ [Epr1 [_ [_ [Epl1 [Hrs1 [Hlo1 [Hhi1 [Htop1 [HB10 [_ Hm1]]]]]]]]]]]]]]]].
      unfold r_end in Hhi1.
      assert (Esz1 : r_size r1 = r_size r).
      { pose proof (mp_keep _ _ _ _ _ _ _ _ Hp B r HB Hr Hu) as Hr'.
        pose proof (mp_blocks _ _ _ _ _ _ _ _ Hp B HB) as HB'.
        destruct (heap_addr_inj _ _ _ _ _ _ _ H1 HB1 HB' Hr1 Hr') as [_ E]; [lia|].
        rewrite E. reflexivity. }
      rewrite wrap32_small in Hszq by (unfold MAXREQ in Hn; lia).
      set (len := if n <? r_size r - 4 * 2 then n else r_size r - 4 * 2).
      assert (Hlen : 0 <= len /\ len <= n /\ len <= r_size r - 8).
      { unfold len. destruct (Z.ltb_spec n (r_size r - 4 * 2)); lia. }
      assert (Hlen' : forall i, 0 <= i < r_size r - 8 -> i < n -> i < len).
      { unfold len. destruct (Z.ltb_spec n (r_size r - 4 * 2)); lia. }
      pose proof (live_apart _ _ _ _ _ H1 Hlive1 Hliveq (fun E => Hqp (eq_sym E))) as Hap.
      rewrite Epl1, Eplq, Esz1 in Hap.
      apply wp_bind. unfold memcpy.
      apply memcpy_n_copy; rewrite ?Z2Nat.id by lia; try lia.
      { intros x Hx. apply Hmq. lia. }
      { intros x Hx. apply Hm1. lia. }
      intros m' Hf Hcp.
      destruct (heap_payload s1 bl1 R1 Bq rq m' H1 HBq Hrq Huq) as [H2 Hex2].
      { intros x Hx. apply Hf. unfold r_end in Hx. lia. }
      set (s2 := with_bytes s1 m').
      assert (Epl2 : payload_len s2 p = payload_len s p).
      { unfold payload_len. f_equal. f_equal. unfold s2. st_simpl.
        transitivity (get32 (bytes s1) (p - 4)).
        - apply get32_ext. intros x Hx. apply Hf. lia.
        - apply get32_ext. intros x Hx. apply K.
          apply (live_in_used s bl R p x H Hlive). lia. }
      apply wp_bind. eapply wp_conseq.
      { apply (free_keeps fuel s2 bl1 R1 p H2 (Hex2 Hex1) Hlive1). }
      intros [] s3 [_ [K3 _]]. apply wp_ret. rewrite Epl2 in K3.
      split; [|split; [|apply Hlast; exact Hqp]].
      * intros x Hx [Hc|[Hc|Hxp]]; [contradiction|contradiction|].
        rewrite K3; [|destruct Hx as [Bx [rx [HBx [Hrx [Hux Hix]]]]]; exists Bx, rx;
                      repeat split; try assumption;
                      [apply (mp_blocks _ _ _ _ _ _ _ _ Hp Bx HBx)
                      |apply (mp_keep _ _ _ _ _ _ _ _ Hp Bx rx HBx Hrx Hux)|lia|lia]
                     |exact Hxp].
        unfold s2. st_simpl. rewrite Hf; [apply K; exact Hx|].
        destruct (Z.lt_ge_cases x q); [left; assumption|].
        destruct (Z.le_gt_cases (q + len) x); [right; assumption|].
        exfalso. apply (Hnew Eq x); [|exact Hx]. rewrite Eplq. lia.
      * intros _ _ i Hi Hin. rewrite Epl in Hi.
        assert (Hil : 0 <= i < len) by (split; [lia|apply Hlen'; lia]).
        unfold get8. rewrite K3.
        -- unfold s2. st_simpl. rewrite (Hcp i Hil). unfold get8.
           rewrite Z.mod_mod by lia. f_equal. apply K.
           apply (live_in_used s bl R p _ H Hlive). rewrite Epl. lia.
        -- exists Bq, rq. unfold r_end. repeat split; try assumption; lia.
        -- rewrite Epl. lia.
Qed.

(** * The heap invariant along client traces *)

Lemma bind_ok {A B} (c : M A) (k : A -> M B) s b s' :
  bind c k s = Ok b s' -> exists a s1, c s = Ok a s1 /\ k a s1 = Ok b s'.
Proof.
  unfold bind. destruct (c s) as [a s1|e]; [|discriminate].
  intros H. exists a, s1. split; [reflexivity|exact H].
Qed.

(** With no block and a provider that refuses, [getBlockWithFreeRegion]
    reads [usedSize] through a null block pointer. *)
Lemma first_block_needs_provider fuel s R n b s' :
  heap_ok s [] R -> getBlockWithFreeRegion fuel n s = Ok b s' ->
  os_ready s (block_len (PAGE_SIZE * 4)) = true.
Proof.
  intros H Hok.
  destruct (os_ready s (block_len (PAGE_SIZE * 4))) eqn:E; [reflexivity|exfalso].
  pose proof (hp_list _ _ _ H) as Hl. cbn [lseg] in Hl.
  unfold getBlockWithFreeRegion in Hok.
  change (bind get_blockList ?k s) with (k (blockList s) s) in Hok.
  cbv beta in Hok. rewrite Hl in Hok. cbn [Z.eqb] in Hok.
  apply bind_ok in Hok. destruct Hok as [blk [s2 [Hc Hok]]].
  assert (Hq : blk = 0 /\ mapped s2 = mapped s).
  { apply (wp_ok _ (createHeapBlock fuel (PAGE_SIZE * 4)) s _ blk s2
             (createHeapBlock_spec fuel s (PAGE_SIZE * 4) (fun b s' => b = 0 /\ mapped s' = mapped s)
                (hp_page _ _ _ H)
                (fun s' _ _ E2 _ _ _ => conj eq_refl E2)
                (fun a tape m' Et Ha _ _ _ _ =>
                   False_ind _ ltac:(unfold os_ready in E; rewrite Et in E; congruence)))).
    exact Hc. }
  destruct Hq as [-> Em].
  apply bind_ok in Hok. destruct Hok as [x [s3 [Ha Hok]]].
  assert (s3 = s2).
  { unfold BlockList_addBlockToList in Ha.
    change (bind get_blockList ?k s2) with (k (blockList s2) s2) in Ha.
    cbv beta in Ha. cbn [Z.eqb] in Ha. unfold ret in Ha. congruence. }
  subst s3.
  apply bind_ok in Hok. destruct Hok as [us [s4 [Hld _]]].
  unfold load32, loadN in Hld.
  assert (Hm : mapped_n (mapped s2) 4 (wrap64 (0 + off_usedSize)) = false).
  { rewrite Em. change (wrap64 (0 + off_usedSize)) with 8.
    destruct (mapped_n (mapped s) 4 8) eqn:Em4; [|reflexivity].
    apply mapped_n_first in Em4.
    pose proof (is_mapped_bound _ _ (hp_user _ _ _ H) Em4) as Hb.
    unfold PAGE_SIZE in Hb. lia. }
  rewrite Hm in Hld. discriminate.
Qed.

Lemma malloc_ok_ready fuel s R n p s' :
  heap_ok s [] R -> malloc fuel n s = Ok p s' ->
  os_ready s (block_len (PAGE_SIZE * 4)) = true.
Proof.
  intros H Hok. unfold malloc in Hok.
  apply bind_ok in Hok. destruct Hok as [b [s1 [Hgb _]]].
  eapply first_block_needs_provider; eassumption.
Qed.

Lemma calloc_ok_ready fuel s R k n p s' :
  heap_ok s [] R -> calloc fuel k n s = Ok p s' -> n <> 0 ->
  os_ready s (block_len (PAGE_SIZE * 4)) = true.
Proof.
  intros H Hok Hn. unfold calloc in Hok.
  destruct (Z.eqb_spec n 0); [contradiction|].
  apply bind_ok in Hok. destruct Hok as [b [s1 [Hm _]]].
  eapply malloc_ok_ready; eassumption.
Qed.

Lemma inv_initial tape : inv (initial_state tape) [].
Proof.
  exists [], (fun _ => []). split; [|split].
  - constructor; cbn.
    + reflexivity.
    + constructor.
    + intros B [].
    + intros B1 B2 [].
    + constructor.
    + left. reflexivity.
    + intros Hc. contradiction.
  - intros B [].
  - intros p [].
Qed.

Lemma inv_malloc s L fuel n p s' :
  inv s L -> 0 <= n <= MAXREQ -> malloc fuel n s = Ok p s' ->
  inv s' (if p =? 0 then L else p :: L).
Proof.
  intros [bl [R [H [Hex HL]]]] Hn Hok.
  destruct (fuel_ok_exists bl R) as [N HN].
  assert (Hrdy : bl = [] -> os_ready s (block_len (PAGE_SIZE * 4)) = true).
  { intros ->. eapply malloc_ok_ready; eassumption. }
  destruct (wp_ok _ _ _ _ _ _ (malloc_spec fuel s bl R n N H Hrdy HN) Hok) as [bl' [R' Hp]].
  exists bl', R'. split; [exact (mp_heap _ _ _ _ _ _ _ _ Hp)|].
  split; [exact (mp_exact _ _ _ _ _ _ _ _ Hp Hex Hn)|].
  intros q Hq. destruct (Z.eqb_spec p 0) as [Ep|Ep].
  - apply (malloc_live _ _ _ _ _ _ _ _ q Hp). apply HL. exact Hq.
  - destruct Hq as [<-|Hq].
    + apply (malloc_new_live _ _ _ _ _ _ _ _ Hp Ep).
    + apply (malloc_live _ _ _ _ _ _ _ _ q Hp). apply HL. exact Hq.
Qed.

Lemma inv_calloc s L fuel k n p s' :
  inv s L -> 0 <= wrap64 (k * n) <= MAXREQ -> calloc fuel k n s = Ok p s' ->
  inv s' (if p =? 0 then L else p :: L).
Proof.
  intros [bl [R [H [Hex HL]]]] Hn Hok.
  assert (Hrdy : n <> 0 -> bl = [] -> os_ready s (block_len (PAGE_SIZE * 4)) = true).
  { intros Hn0 ->. eapply calloc_ok_ready; eassumption. }
  destruct (wp_ok _ _ _ _ _ _ (calloc_spec fuel s bl R k n H Hrdy) Hok) as [bl' [R' Hp]].
  exists bl', R'. split; [exact (cp_heap _ _ _ _ _ _ _ _ _ Hp)|].
  split; [exact (cp_exact _ _ _ _ _ _ _ _ _ Hp Hex Hn)|].
  intros q Hq. destruct (Z.eqb_spec p 0) as [Ep|Ep].
  - apply (cp_live _ _ _ _ _ _ _ _ _ Hp). apply HL. exact Hq.
  - destruct Hq as [<-|Hq].
    + apply (cp_new _ _ _ _ _ _ _ _ _ Hp Ep).
    + apply (cp_live _ _ _ _ _ _ _ _ _ Hp). apply HL. exact Hq.
Qed.

Lemma inv_realloc s L fuel p n q s' :
  inv s L -> In p L -> 0 <= n <= MAXREQ -> realloc fuel p n s = Ok q s' ->
  inv s' (if q =? 0 then L else if q =? p then L else q :: remove Z.eq_dec p L).
Proof.
  intros [bl [R [H [Hex HL]]]] Hin Hn Hok.
  destruct (wp_ok _ _ _ _ _ _ (realloc_spec fuel s bl R p n H Hex (HL p Hin) Hn) Hok)
    as [bl' [R' Hp]].
  exists bl', R'. split; [exact (rp_heap _ _ _ _ _ _ _ _ _ Hp)|].
  split; [exact (rp_exact _ _ _ _ _ _ _ _ _ Hp Hex Hn)|].
  intros x Hx. destruct (Z.eqb_spec q 0) as [Eq|Eq].
  - apply (rp_same _ _ _ _ _ _ _ _ _ Hp (or_introl Eq)). apply HL. exact Hx.
  - destruct (Z.eqb_spec q p) as [Eqp|Eqp].
    + apply (rp_same _ _ _ _ _ _ _ _ _ Hp (or_intror Eqp)). apply HL. exact Hx.
    + destruct (rp_new _ _ _ _ _ _ _ _ _ Hp Eq Eqp) as [Hq Hrest].
      destruct Hx as [<-|Hx]; [exact Hq|].
      apply in_remove in Hx. destruct Hx as [Hx Hxp].
      apply Hrest; [apply HL; exact Hx|exact Hxp].
Qed.

Lemma inv_free s L fuel p s' :
  inv s L -> In p L -> free fuel p s = Ok tt s' -> inv s' (remove Z.eq_dec p L).
Proof.
  intros [bl [R [H [Hex HL]]]] Hin Hok.
  destruct (wp_ok _ _ _ _ _ _ (free_spec fuel s bl R p H Hex (HL p Hin)) Hok)
    as [bl' [R' Hp]].
  exists bl', R'. split; [exact (fp_heap _ _ _ _ _ _ _ Hp)|].
  split; [exact (fp_exact _ _ _ _ _ _ _ Hp)|].
  intros x Hx. apply in_remove in Hx. destruct Hx as [Hx Hxp].
  apply (fp_live _ _ _ _ _ _ _ Hp); [apply HL; exact Hx|exact Hxp].
Qed.

Lemma inv_write s L p i v :
  inv s L -> In p L -> 0 <= i < payload_len s p ->
  inv (with_bytes s (set8 (bytes s) (p + i) v)) L.
Proof.
  intros [bl [R [H [Hex HL]]]] Hin Hi.
  destruct (live_facts _ _ _ _ H (HL p Hin)) as
    [B [r [HB [Hr [Hu [Hnb [Epr [Esz [Eus [Epl [Hrs [Hlo [Hhi [Htop [HB0 [Hal Hm]]]]]]]]]]]]]]]].
  destruct (heap_payload s bl R B r (set8 (bytes s) (p + i) v) H HB Hr Hu) as [H2 Hex2].
  { intros x Hx. unfold set8, r_end in *. destruct (Z.eqb_spec x (p + i)); [lia|reflexivity]. }
  exists bl, R. split; [exact H2|]. split; [exact (Hex2 Hex)|exact HL].
Qed.

Theorem reachable_inv s L : reachable s L -> inv s L.
Proof.
  induction 1.
  - apply inv_initial.
  - eapply inv_malloc; eassumption.
  - eapply inv_calloc; eassumption.
  - eapply inv_realloc; eassumption.
  - eapply inv_free; eassumption.
  - apply inv_write; assumption.
Qed.

(** * The mapped ranges along any run *)

(** ** The primitives *)

Lemma ks_ret {A} (a : A) : keeps_space (ret a).
Proof. intros s b s' E H. unfold ret in E. injection E as _ <-. exact H. Qed.

Lemma ks_fail {A} e : keeps_space (@fail A e).
Proof. intros s b s' E. discriminate. Qed.

Lemma ks_bind {A B} (c : M A) (k : A -> M B) :
  keeps_space c -> (forall a, keeps_space (k a)) -> keeps_space (bind c k).
Proof.
  intros Hc Hk s b s' E H. apply bind_ok in E. destruct E as [a [s1 [E1 E2]]].
  exact (Hk a s1 b s' E2 (Hc s a s1 E1 H)).
Qed.

Lemma ks_loadN n a : keeps_space (loadN n a).
Proof.
  intros s b s' E H. unfold loadN in E.
  destruct (mapped_n (mapped s) n a); [|discriminate]. injection E as _ <-. exact H.
Qed.

Lemma ks_storeN n a v : keeps_space (storeN n a v).
Proof.
  intros s b s' E H. unfold storeN in E.
  destruct (mapped_n (mapped s) n a); [|discriminate]. injection E as E. subst s'. exact H.
Qed.

Lemma ks_get_blockList : keeps_space get_blockList.
Proof. intros s b s' E H. injection E as _ <-. exact H. Qed.

Lemma ks_set_blockList v : keeps_space (set_blockList v).
Proof. intros s b s' E H. injection E as E. subst s'. exact H. Qed.

Lemma ks_get_empty : keeps_space get_emptyBlockOverheadSize.
Proof. intros s b s' E H. injection E as _ <-. exact H. Qed.

Lemma ks_set_empty v : keeps_space (set_emptyBlockOverheadSize v).
Proof. intros s b s' E H. injection E as E. subst s'. exact H. Qed.

Lemma ks_get_page_size : keeps_space get_page_size.
Proof. intros s b s' E H. injection E as _ <-. exact H. Qed.

Lemma ks_set_page_size v : keeps_space (set_page_size v).
Proof. intros s b s' E H. injection E as E. subst s'. exact H. Qed.

Lemma ks_sys_mmap len : keeps_space (sys_mmap len).
Proof.
  intros s b s' E H. unfold sys_mmap in E. destruct (os_tape s) as [|a tape].
  - injection E as _ <-. exact H.
  - destruct (mmap_accepts (mapped s) a len) eqn:Ea; injection E as _ <-; [|exact H].
    destruct (mmap_accepts_facts _ _ _ Ea) as [Hlen [Hpos [Hal [Htop _]]]].
    unfold user_space. cbn [mapped]. constructor; [|exact H]. cbn [fst snd].
    unfold PAGE_SIZE in *. split; [|lia].
    destruct (Z.lt_ge_cases a 4096) as [Hlt|Hge]; [|exact Hge].
    rewrite Z.mod_small in Hal by lia. lia.
Qed.

Lemma ks_sys_munmap p len : keeps_space (sys_munmap p len).
Proof.
  intros s b s' E H. injection E as E. subst s'. unfold user_space. cbn [mapped].
  apply unmap_user. exact H.
Qed.

Create HintDb ks.

#[local] Hint Resolve ks_ret ks_fail ks_loadN ks_storeN ks_get_blockList ks_set_blockList
  ks_get_empty ks_set_empty ks_get_page_size ks_set_page_size ks_sys_mmap ks_sys_munmap : ks.

(** One step through a computation: a primitive, a function already
    dealt with, or a [bind], a conditional or a local definition. *)
Ltac ks :=
  repeat first
    [ solve [auto with ks]
    | apply ks_bind; [|intros ?]
    | match goal with
      | |- keeps_space (if ?b then _ else _) => destruct b
      | |- keeps_space (let _ := _ in _) => cbv zeta
      end ].

Lemma ks_load8 a : keeps_space (load8 a).
Proof. apply ks_loadN. Qed.

Lemma ks_load32 a : keeps_space (load32 a).
Proof. apply ks_loadN. Qed.

Lemma ks_load64 a : keeps_space (load64 a).
Proof. apply ks_loadN. Qed.

Lemma ks_store8 a v : keeps_space (store8 a v).
Proof. apply ks_storeN. Qed.

Lemma ks_store32 a v : keeps_space (store32 a v).
Proof. apply ks_storeN. Qed.

Lemma ks_store64 a v : keeps_space (store64 a v).
Proof. apply ks_storeN. Qed.
#[local] Hint Resolve ks_load8 ks_load32 ks_load64 ks_store8 ks_store32 ks_store64 : ks.

Lemma ks_load_used a : keeps_space (load_used a).
Proof. unfold load_used. ks. Qed.

Lemma ks_load_size a : keeps_space (load_size a).
Proof. unfold load_size. ks. Qed.

Lemma ks_store_used a v : keeps_space (store_used a v).
Proof. unfold store_used. ks. Qed.

Lemma ks_store_size a v : keeps_space (store_size a v).
Proof. unfold store_size. ks. Qed.
#[local] Hint Resolve ks_load_used ks_load_size ks_store_used ks_store_size : ks.

Lemma ks_memset_n n c : forall p, keeps_space (memset_n n p c).
Proof. induction n as [|k IH]; intros p; cbn [memset_n]; ks. Qed.

Lemma ks_memset p c n : keeps_space (memset p c n).
Proof. apply ks_memset_n. Qed.

Lemma ks_memcpy_n n : forall dst src, keeps_space (memcpy_n n dst src).
Proof. induction n as [|k IH]; intros dst src; cbn [memcpy_n]; ks. Qed.

Lemma ks_memcpy dst src n : keeps_space (memcpy dst src n).
Proof. apply ks_memcpy_n. Qed.
#[local] Hint Resolve ks_memset ks_memcpy : ks.

Lemma ks_libhalloc_alloc pages : keeps_space (libhalloc_alloc pages).
Proof. unfold libhalloc_alloc. ks. Qed.

Lemma ks_libhalloc_free ptr pages : keeps_space (libhalloc_free ptr pages).
Proof. unfold libhalloc_free. ks. Qed.
#[local] Hint Resolve ks_libhalloc_alloc ks_libhalloc_free : ks.

(** ** The functions of [malloc.c] *)

Lemma ks_FreeRegion_create start size : keeps_space (FreeRegion_create start size).
Proof. unfold FreeRegion_create. ks. Qed.
#[local] Hint Resolve ks_FreeRegion_create : ks.

Lemma ks_FreeRegion_split original size : keeps_space (FreeRegion_split original size).
Proof. unfold FreeRegion_split. ks. Qed.
#[local] Hint Resolve ks_FreeRegion_split : ks.

Lemma ks_insert_walk fuel off item : forall aux, keeps_space (insert_walk fuel off item aux).
Proof. induction fuel as [|k IH]; intros aux; cbn [insert_walk]; ks. Qed.

Lemma ks_remove_walk fuel off offp item :
  forall aux, keeps_space (remove_walk fuel off offp item aux).
Proof. induction fuel as [|k IH]; intros aux; cbn [remove_walk]; ks. Qed.
#[local] Hint Resolve ks_insert_walk ks_remove_walk : ks.

Lemma ks_BlockList_add fuel item : keeps_space (BlockList_addBlockToList fuel item).
Proof. unfold BlockList_addBlockToList. ks. Qed.

Lemma ks_BlockList_remove fuel item : keeps_space (BlockList_removeBlockFromList fuel item).
Proof. unfold BlockList_removeBlockFromList. ks. Qed.

Lemma ks_addRegion fuel b item : keeps_space (Block_addRegionToFreeList fuel b item).
Proof. unfold Block_addRegionToFreeList. ks. Qed.

Lemma ks_removeRegion fuel b item : keeps_space (Block_removeRegionFromFreeList fuel b item).
Proof. unfold Block_removeRegionFromFreeList. ks. Qed.
#[local] Hint Resolve ks_BlockList_add ks_BlockList_remove ks_addRegion ks_removeRegion : ks.

Lemma ks_isFreeRegion_list fuel addr : forall it, keeps_space (isFreeRegion_list fuel it addr).
Proof. induction fuel as [|k IH]; intros it; cbn [isFreeRegion_list]; ks. Qed.
#[local] Hint Resolve ks_isFreeRegion_list : ks.

Lemma ks_isFreeRegion_sets fuel b addr n :
  forall i, keeps_space (isFreeRegion_sets fuel n i b addr).
Proof. induction n as [|k IH]; intros i; cbn [isFreeRegion_sets]; ks. Qed.
#[local] Hint Resolve ks_isFreeRegion_sets : ks.

Lemma ks_isFreeRegion fuel b addr : keeps_space (Block_isFreeRegion fuel b addr).
Proof. unfold Block_isFreeRegion. ks. Qed.
#[local] Hint Resolve ks_isFreeRegion : ks.

Lemma ks_coallesceBoth fuel b l r x : keeps_space (Block_coallesceBothSides fuel b l r x).
Proof. unfold Block_coallesceBothSides. ks. Qed.

Lemma ks_coallesceLeft fuel b l r : keeps_space (Block_coallesceLeftSide fuel b l r).
Proof. unfold Block_coallesceLeftSide. ks. Qed.

Lemma ks_coallesceRight fuel b r x : keeps_space (Block_coallesceRightSide fuel b r x).
Proof. unfold Block_coallesceRightSide. ks. Qed.
#[local] Hint Resolve ks_coallesceBoth ks_coallesceLeft ks_coallesceRight : ks.

Lemma ks_coallesce fuel b r : keeps_space (Block_coallesceFreeRegion fuel b r).
Proof. unfold Block_coallesceFreeRegion. ks. Qed.

Lemma ks_useRegion b r : keeps_space (Block_useRegion b r).
Proof. unfold Block_useRegion. ks. Qed.

Lemma ks_freeRegion b r : keeps_space (Block_freeRegion b r).
Proof. unfold Block_freeRegion. ks. Qed.

Lemma ks_Block_create size : keeps_space (Block_create size).
Proof. unfold Block_create. ks. Qed.

Lemma ks_isFull b : keeps_space (Block_isFull b).
Proof. unfold Block_isFull. ks. Qed.
#[local] Hint Resolve ks_coallesce ks_useRegion ks_freeRegion ks_Block_create ks_isFull : ks.

Lemma ks_canAllocate_list fuel size : forall it, keeps_space (canAllocate_list fuel it size).
Proof. induction fuel as [|k IH]; intros it; cbn [canAllocate_list]; ks. Qed.
#[local] Hint Resolve ks_canAllocate_list : ks.

Lemma ks_canAllocate_sets fuel b size n :
  forall i, keeps_space (canAllocate_sets fuel n i b size).
Proof. induction n as [|k IH]; intros i; cbn [canAllocate_sets]; ks. Qed.
#[local] Hint Resolve ks_canAllocate_sets : ks.

Lemma ks_canAllocateSize fuel b size : keeps_space (Block_canAllocateSize fuel b size).
Proof. unfold Block_canAllocateSize. ks. Qed.

Lemma ks_haveUserAllocations b : keeps_space (Block_haveUserAllocations b).
Proof. unfold Block_haveUserAllocations. ks. Qed.
#[local] Hint Resolve ks_canAllocateSize ks_haveUserAllocations : ks.

Lemma ks_allocateRegion fuel b size : keeps_space (Block_allocateRegion fuel b size).
Proof. unfold Block_allocateRegion. ks. Qed.

Lemma ks_deallocateRegion fuel b r : keeps_space (Block_deallocateRegion fuel b r).
Proof. unfold Block_deallocateRegion. ks. Qed.
#[local] Hint Resolve ks_allocateRegion ks_deallocateRegion : ks.

Lemma ks_createHeapBlock fuel size : keeps_space (createHeapBlock fuel size).
Proof. unfold createHeapBlock. ks. Qed.
#[local] Hint Resolve ks_createHeapBlock : ks.

Lemma ks_findBlock inner size fuel : forall b, keeps_space (findBlock fuel inner b size).
Proof. induction fuel as [|k IH]; intros b; cbn [findBlock]; ks. Qed.
#[local] Hint Resolve ks_findBlock : ks.

Lemma ks_getBlockWithFreeRegion fuel size : keeps_space (getBlockWithFreeRegion fuel size).
Proof. unfold getBlockWithFreeRegion. ks. Qed.

Lemma ks_getBlockWithRegion_loop region fuel :
  forall b, keeps_space (getBlockWithRegion_loop fuel b region).
Proof. induction fuel as [|k IH]; intros b; cbn [getBlockWithRegion_loop]; ks. Qed.
#[local] Hint Resolve ks_getBlockWithFreeRegion ks_getBlockWithRegion_loop : ks.

Lemma ks_getBlockWithRegion fuel region : keeps_space (getBlockWithRegion fuel region).
Proof. unfold getBlockWithRegion. ks. Qed.
#[local] Hint Resolve ks_getBlockWithRegion : ks.

(** ** The public interface *)

Lemma ks_malloc fuel size : keeps_space (malloc fuel size).
Proof. unfold malloc. ks. Qed.

Lemma ks_free fuel p : keeps_space (free fuel p).
Proof. unfold free. ks. Qed.
#[local] Hint Resolve ks_malloc ks_free : ks.

Lemma ks_realloc fuel p size : keeps_space (realloc fuel p size).
Proof. unfold realloc. ks. Qed.

Lemma ks_calloc fuel num size : keeps_space (calloc fuel num size).
Proof. unfold calloc. ks. Qed.

(** Whatever the client does, the kernel maps user space only. *)
Lemma any_run_space s : any_run s -> user_space s.
Proof.
  induction 1 as [tape|s fuel n p s' _ IH E|s fuel k n p s' _ IH E
                 |s fuel p n q s' _ IH E|s fuel p s' _ IH E|s a v _ IH].
  - constructor.
  - exact (ks_malloc _ _ _ _ _ E IH).
  - exact (ks_calloc _ _ _ _ _ _ E IH).
  - exact (ks_realloc _ _ _ _ _ _ E IH).
  - exact (ks_free _ _ _ _ _ E IH).
  - exact IH.
Qed.

Lemma reachable_any_run s L : reachable s L -> any_run s.
Proof.
  induction 1 as [tape|s L fuel n p s' _ IH _ E|s L fuel k n p s' _ IH _ E
                 |s L fuel p n q s' _ IH _ _ E|s L fuel p s' _ IH _ E|s L p i v _ IH _ _].
  - apply run_init.
  - exact (run_malloc _ _ _ _ _ IH E).
  - exact (run_calloc _ _ _ _ _ _ IH E).
  - exact (run_realloc _ _ _ _ _ _ IH E).
  - exact (run_free _ _ _ _ IH E).
  - apply run_store. exact IH.
Qed.

(** ** What [memset] with 0 writes *)

Lemma memset_n_mapped n c : forall p s s' j,
  memset_n n p c s = Ok tt s' -> 0 <= p -> 0 <= j < Z.of_nat n -> p + j < 2^64 ->
  is_mapped (mapped s) (p + j) = true.
Proof.
  induction n as [|k IH]; intros p s s' j E Hp Hj Hw; [lia|].
  cbn [memset_n] in E. apply bind_ok in E. destruct E as [[] [s1 [E1 E2]]].
  unfold store8, storeN in E1.
  destruct (mapped_n (mapped s) 1 p) eqn:Em; [|discriminate].
  injection E1 as <-.
  destruct (Z.eq_dec j 0) as [->|Hj0].
  - rewrite Z.add_0_r. apply mapped_n_first in Em. exact Em.
  - rewrite wrap64_small in E2 by lia.
    replace (p + j) with (p + 1 + (j - 1)) by lia.
    apply (IH (p + 1) _ s' (j - 1) E2); lia.
Qed.

Lemma memset_n_zero n : forall p s s',
  memset_n n p 0 s = Ok tt s' -> 0 <= p -> p + Z.of_nat n < 2^64 ->
  (forall j, 0 <= j < Z.of_nat n -> bytes s' (p + j) = 0) /\
  (forall x, x < p \/ p + Z.of_nat n <= x -> bytes s' x = bytes s x).
Proof.
  induction n as [|k IH]; intros p s s' E Hp Hw.
  - cbn in E. injection E as <-. split; [intros j Hj; lia|reflexivity].
  - cbn [memset_n] in E. apply bind_ok in E. destruct E as [[] [s1 [E1 E2]]].
    unfold store8, storeN in E1.
    destruct (mapped_n (mapped s) 1 p); [|discriminate].
    injection E1 as <-.
    rewrite wrap64_small in E2 by lia.
    destruct (IH (p + 1) _ s' E2) as [Hz Hf]; [lia|lia|].
    assert (Hset : forall x, bytes (with_bytes s (setN 1 (bytes s) p 0)) x =
                             if x =? p then 0 else bytes s x) by reflexivity.
    split.
    + intros j Hj. destruct (Z.eq_dec j 0) as [->|Hj0].
      * rewrite Z.add_0_r, Hf by lia. rewrite Hset, Z.eqb_refl. reflexivity.
      * replace (p + j) with (p + 1 + (j - 1)) by lia. apply Hz. lia.
    + intros x Hx. rewrite Hf by lia. rewrite Hset.
      destruct (Z.eqb_spec x p); [lia|reflexivity].
Qed.

(** * The claims of the specification *)

(** ** Running a computation *)

Lemma run_eq {A} (c : M A) s a : value c s = Some a -> c s = Ok a (after c s).
Proof. unfold value, after. destruct (c s); congruence. Qed.

(** ** Reading through the null pointer *)

Lemma null_header_unmapped s bl R :
  heap_ok s bl R -> mapped_n (mapped s) 4 (wrap64 (0 - sizeof_AllocMetadata)) = false.
Proof.
  intros H. destruct (mapped_n (mapped s) 4 (wrap64 (0 - sizeof_AllocMetadata))) eqn:E;
    [|reflexivity].
  apply mapped_n_first in E.
  pose proof (is_mapped_bound _ _ (hp_user _ _ _ H) E) as Hb.
  pose proof USER_TOP_eq as HT.
  change (wrap64 (0 - sizeof_AllocMetadata)) with 18446744073709551612 in Hb. lia.
Qed.

Lemma free_null s bl R fuel : heap_ok s bl R -> free fuel 0 s = Err SegFault.
Proof.
  intros H. unfold free, load_used, load32, loadN, bind.
  rewrite (null_header_unmapped _ _ _ H). reflexivity.
Qed.

Lemma realloc_null s bl R fuel n : heap_ok s bl R -> realloc fuel 0 n s = Err SegFault.
Proof.
  intros H. unfold realloc, load_size, load32, loadN, bind.
  rewrite (null_header_unmapped _ _ _ H). reflexivity.
Qed.

(** ** Alignment of the pointers returned *)

Lemma malloc_aligned s L fuel n p s' :
  inv s L -> malloc fuel n s = Ok p s' -> p <> 0 -> p mod 16 = 0.
Proof.
  intros [bl [R [H [Hex HL]]]] Hok Hp.
  destruct (fuel_ok_exists bl R) as [N HN].
  assert (Hrdy : bl = [] -> os_ready s (block_len (PAGE_SIZE * 4)) = true).
  { intros ->. eapply malloc_ok_ready; eassumption. }
  destruct (wp_ok _ _ _ _ _ _ (malloc_spec fuel s bl R n N H Hrdy HN) Hok) as [bl' [R' Hpost]].
  destruct (mp_new _ _ _ _ _ _ _ _ Hpost Hp) as [B [r [_ [_ [_ [_ [_ [Hal _]]]]]]]].
  exact Hal.
Qed.

Lemma calloc_aligned s L fuel k n p s' :
  inv s L -> calloc fuel k n s = Ok p s' -> p <> 0 -> p mod 16 = 0.
Proof.
  intros [bl [R [H [Hex HL]]]] Hok Hp.
  assert (Hrdy : n <> 0 -> bl = [] -> os_ready s (block_len (PAGE_SIZE * 4)) = true).
  { intros Hn0 ->. eapply calloc_ok_ready; eassumption. }
  destruct (wp_ok _ _ _ _ _ _ (calloc_spec fuel s bl R k n H Hrdy) Hok) as [bl' [R' Hpost]].
  apply (cp_new _ _ _ _ _ _ _ _ _ Hpost Hp).
Qed.

Lemma loadN_ok n a s v s' : loadN n a s = Ok v s' -> s' = s /\ v = getN n (bytes s) a.
Proof.
  unfold loadN. destruct (mapped_n (mapped s) n a); [|discriminate].
  intros E. injection E as <- <-. split; reflexivity.
Qed.

Lemma load_size_ok a s v s' :
  load_size a s = Ok v s' -> s' = s /\ v = md_size (get32 (bytes s) a).
Proof.
  unfold load_size. intros E. apply bind_ok in E. destruct E as [w [s1 [E1 E2]]].
  apply loadN_ok in E1. destruct E1 as [-> ->]. unfold ret in E2.
  injection E2 as <- <-. split; reflexivity.
Qed.

(** A call of [realloc] that returns gives back either its argument or
    what the [malloc] inside it returned. *)
Lemma realloc_result fuel q n s p s' :
  realloc fuel q n s = Ok p s' -> q <> 0 ->
  p = q \/ (exists s1, malloc fuel n s = Ok p s1 /\ (p = 0 -> s1 = s')).
Proof.
  intros Hok Hq. unfold realloc in Hok.
  apply bind_ok in Hok. destruct Hok as [hsz [s1 [Hl Hok]]].
  apply load_size_ok in Hl. destruct Hl as [-> _].
  destruct (Z.eqb_spec q 0); [contradiction|].
  destruct (wrap64 (hsz - sizeof_AllocMetadata * 2) =? n).
  - unfold ret in Hok. injection Hok as <- _. left. reflexivity.
  - apply bind_ok in Hok. destruct Hok as [q' [s2 [Hm Hok]]].
    destruct (Z.eqb_spec q' 0) as [E0|E0].
    + unfold ret in Hok. injection Hok as <- <-. subst q'. right. exists s2. split; auto.
    + apply bind_ok in Hok. destruct Hok as [u1 [s3 [_ Hok]]].
      apply bind_ok in Hok. destruct Hok as [u2 [s4 [_ Hok]]].
      unfold ret in Hok. injection Hok as <- _. right. exists s2. split; [exact Hm|].
      intros Hc. contradiction.
Qed.

Lemma realloc_aligned s L fuel q n p s' :
  inv s L -> In q L -> realloc fuel q n s = Ok p s' -> p <> 0 -> p mod 16 = 0.
Proof.
  intros Hinv Hin Hok Hp.
  destruct Hinv as [bl [R [H [Hex HL]]]].
  destruct (live_facts _ _ _ _ H (HL q Hin)) as
    [B [r [HB [Hr [Hu [Hnb [Epr [Esz [Eus [Epl [Hrs [Hlo [Hhi [Htop [HB0 [Hal Hm]]]]]]]]]]]]]]]].
  assert (Hq : q <> 0) by lia.
  destruct (realloc_result _ _ _ _ _ _ Hok Hq) as [->|[s1 [Hmal _]]]; [exact Hal|].
  eapply malloc_aligned; [exists bl, R; split; [exact H|split; [exact Hex|exact HL]]| |];
    eassumption.
Qed.

(** ** Boundary tags *)

Lemma tagged_agree m r :
  tagged m r -> 0 <= r_size r < 2^28 -> 0 <= r_used r < 16 ->
  hf_agree m (r_addr r) /\
  md_size (get32 m (r_addr r)) = r_size r /\ md_used (get32 m (r_addr r)) = r_used r.
Proof.
  intros [T1 T2] Hs Hu. unfold hf_agree, r_end in *. cbv zeta.
  rewrite T1. rewrite md_size_tag, md_used_tag by assumption. rewrite T2.
  rewrite md_size_tag, md_used_tag by assumption. repeat split; reflexivity.
Qed.

(** ** C5 and C6 *)

(** C5. [free] has no test for nil: in every reachable state, [free(NULL)]
    reads the used bit of the header at address [NULL - 4], which is not
    mapped, and faults instead of returning. *)
Theorem C5_free_null_faults s L fuel :
  reachable s L -> free fuel 0 s = Err SegFault.
Proof.
  intros Hr. destruct (reachable_inv _ _ Hr) as [bl [R [H _]]].
  eapply free_null. exact H.
Qed.

(** C6. [realloc] reads the size field of the header at [pointer - 4]
    before it tests the pointer for nil: in every reachable state
    [realloc(NULL, n)] faults on that read, whatever [malloc(n)] would
    have returned. *)
Theorem C6_realloc_null_faults s L fuel n :
  reachable s L -> realloc fuel 0 n s = Err SegFault.
Proof.
  intros Hr. destruct (reachable_inv _ _ Hr) as [bl [R [H _]]].
  eapply realloc_null. exact H.
Qed.

(** ** C7 *)


(** ** C9 *)

(** A pointer that [malloc] returns is nil or an address of 64 bits. *)
Lemma malloc_pointer_range fuel n s p s' :
  malloc fuel n s = Ok p s' -> 0 <= p < 2^64.
Proof.
  intros E. unfold malloc in E.
  apply bind_ok in E. destruct E as [b [s1 [_ E]]].
  apply bind_ok in E. destruct E as [m [s2 [_ E]]].
  destruct (m =? 0); unfold ret in E; injection E as <- _.
  - lia.
  - unfold wrap64. apply Z.mod_pos_bound. lia.
Qed.

Lemma loadN_mapped n a s v s' : loadN n a s = Ok v s' -> mapped_n (mapped s) n a = true.
Proof. unfold loadN. destruct (mapped_n (mapped s) n a); [reflexivity|discriminate]. Qed.

(** C9. [calloc] with a size of 0 returns nil and changes nothing.  With
    a size other than 0, a pointer other than nil that it returns has a
    payload (of the length recorded in its header) whose every byte is
    0.  This holds in every state of every run (see [any_run]): whatever
    was asked for before, whatever was passed to [free] and [realloc],
    and whatever the client stored, in its payloads or elsewhere. *)
Theorem C9_calloc_zeroes s :
  any_run s ->
  (forall fuel k, calloc fuel k 0 s = Ok 0 s) /\
  (forall fuel k n p s',
     n <> 0 -> calloc fuel k n s = Ok p s' -> p <> 0 ->
     forall i, 0 <= i < payload_len s' p -> bytes s' (p + i) = 0).
Proof.
  intros Hr. split; [reflexivity|].
  intros fuel k n p s' Hn Hok Hp i Hi.
  unfold calloc in Hok.
  destruct (Z.eqb_spec n 0) as [|_]; [contradiction|].
  apply bind_ok in Hok. destruct Hok as [q [s1 [Em Hok]]].
  destruct (Z.eqb_spec q 0) as [Hq0|Hq0].
  { unfold ret in Hok. injection Hok as Hpq _. congruence. }
  apply bind_ok in Hok. destruct Hok as [hsz [s2 [Eh Hok]]].
  apply bind_ok in Hok. destruct Hok as [[] [s3 [Es Hok]]].
  unfold ret in Hok. injection Hok as Hpq Hs. subst q s3.
  assert (Hsp : user_space s1) by exact (ks_malloc _ _ _ _ _ Em (any_run_space _ Hr)).
  pose proof (malloc_pointer_range _ _ _ _ _ Em) as Hrange.
  (* the header in front of the payload was read: it is mapped *)
  assert (Emp : mapped_n (mapped s1) 4 (wrap64 (p - sizeof_AllocMetadata)) = true).
  { unfold load_size in Eh. apply bind_ok in Eh. destruct Eh as [w [s4 [Ew _]]].
    exact (loadN_mapped _ _ _ _ _ Ew). }
  apply load_size_ok in Eh. destruct Eh as [-> Hh].
  apply mapped_n_first in Emp. apply (is_mapped_bound _ _ Hsp) in Emp.
  change sizeof_AllocMetadata with 4 in *.
  pose proof USER_TOP_eq as HT. unfold PAGE_SIZE in Emp.
  assert (H4 : 4 <= p).
  { destruct (Z.lt_ge_cases p 4) as [Hlt|Hge]; [|exact Hge].
    replace (wrap64 (p - 4)) with (p - 4 + 2^64) in Emp; [lia|].
    unfold wrap64. apply Z.mod_unique with (-1); lia. }
  rewrite wrap64_small in Hh, Emp by lia.
  assert (Hsz : 0 <= hsz < 2^28).
  { rewrite Hh. unfold md_size. apply Z.mod_pos_bound. lia. }
  unfold memset in Es.
  destruct (Z.lt_ge_cases hsz 8) as [Hsmall|Hbig].
  - (* a length below 0 wraps around: [memset] leaves the mapped ranges *)
    exfalso.
    replace (wrap64 (hsz - 4 * 2)) with (hsz - 8 + 2^64) in Es
      by (unfold wrap64; apply Z.mod_unique with (-1); lia).
    assert (Hm : is_mapped (mapped s1) (p + Z.max 0 (2^47 - p)) = true).
    { apply (memset_n_mapped _ _ _ _ _ _ Es); lia. }
    apply (is_mapped_bound _ _ Hsp) in Hm. lia.
  - rewrite wrap64_small in Es by lia.
    destruct (memset_n_zero _ _ _ _ Es) as [Hz Hf]; [lia|lia|].
    assert (Hlen : payload_len s' p = hsz - 8).
    { unfold payload_len. change REGION_OVERHEAD_SIZE with 8.
      rewrite (get32_ext (bytes s1) (bytes s') (p - 4)).
      - rewrite <- Hh. reflexivity.
      - intros x Hx. apply Hf. lia. }
    apply Hz. lia.
Qed.

(** ** C10 *)

Lemma wp_total {A} (lim : Prop) (c : M A) s (Q : A -> state -> Prop) :
  wp lim c s Q -> ~ lim -> exists a s', c s = Ok a s' /\ Q a s'.
Proof.
  unfold wp. destruct (c s) as [a s'|[|]]; intros H Hn.
  - exists a, s'. split; [reflexivity|exact H].
  - contradiction.
  - contradiction.
Qed.

(** Requests below the minimum are padded to the same size. *)
Lemma FGSA_pad a size :
  0 <= size < 28 ->
  FreeRegion_getSizeForAlignment a size = FreeRegion_getSizeForAlignment a 0.
Proof.
  intros Hs.
  unfold FreeRegion_getSizeForAlignment, sizeof_FreeRegionHeader, sizeof_AllocMetadata.
  cbv zeta. change (wrap32 (24 + 4)) with 28.
  destruct (Z.geb_spec size 28); [lia|]. change (0 >=? 28) with false. cbv iota.
  rewrite (Z.mod_small size 28) by lia. change (0 mod 28) with 0.
  rewrite (wrap32_small (28 - size)) by lia. change (wrap32 (28 - 0)) with 28.
  replace (a + size + (28 - size) + 4) with (a + 0 + 28 + 4) by lia.
  replace (size + (28 - size)) with (0 + 28) by lia. reflexivity.
Qed.

Lemma al_of_zero r : al_of r 0 = FreeRegion_getSizeForAlignment (r_addr r) (wrap32 0).
Proof.
  unfold al_of. change (wrap32 (0 + 8)) with 8. change (wrap32 0) with 0.
  apply FGSA_pad. lia.
Qed.

Lemma FGSA_min a size :
  0 <= size <= 28 ->
  FreeRegion_getSizeForAlignment a size = FreeRegion_getSizeForAlignment a 0.
Proof.
  intros Hs. destruct (Z.eq_dec size 28) as [->|Hne]; [|apply FGSA_pad; lia].
  unfold FreeRegion_getSizeForAlignment, sizeof_FreeRegionHeader, sizeof_AllocMetadata.
  cbv zeta. change (wrap32 (24 + 4)) with 28. change (28 >=? 28) with true.
  change (0 >=? 28) with false. cbv iota. change (0 mod 28) with 0.
  change (wrap32 (28 - 0)) with 28. change (wrap32 0) with 0.
  replace (a + 28 + 0 + 4) with (a + 0 + 28 + 4) by lia. reflexivity.
Qed.

(** [malloc] uses the size requested only through the size that
    [FreeRegion_getSizeForAlignment] computes from it and through the
    number of pages of a new block: requests of 0 to 20 bytes are served
    alike. *)
Lemma canAllocate_list_min size fuel :
  0 <= size <= 28 ->
  forall it s, canAllocate_list fuel it size s = canAllocate_list fuel it 0 s.
Proof.
  intros Hs. induction fuel as [|k IH]; intros it s; [reflexivity|].
  cbn [canAllocate_list]. destruct (it =? 0); [reflexivity|].
  rewrite (FGSA_min it size Hs). unfold bind.
  destruct (load_size it s) as [sz s1|e]; [|reflexivity].
  destruct (FreeRegion_getSizeForAlignment it 0 <? sz); [reflexivity|].
  destruct (load64 (wrap64 (it + off_next)) s1) as [nx s2|e]; [|reflexivity].
  apply IH.
Qed.

Lemma canAllocate_sets_min size fuel b n :
  0 <= size <= 28 ->
  forall i s, canAllocate_sets fuel n i b size s = canAllocate_sets fuel n i b 0 s.
Proof.
  intros Hs. induction n as [|n IH]; intros i s; [reflexivity|].
  cbn [canAllocate_sets]. unfold bind.
  destruct (load64 (wrap64 (b + off_freeRegions i)) s) as [hd s1|e]; [|reflexivity].
  rewrite (canAllocate_list_min size fuel Hs).
  destruct (canAllocate_list fuel hd 0 s1) as [r s2|e]; [|reflexivity].
  destruct (negb (r =? 0)); [reflexivity|]. apply IH.
Qed.

Lemma canAllocateSize_min size fuel b s :
  0 <= size <= 28 ->
  Block_canAllocateSize fuel b size s = Block_canAllocateSize fuel b 0 s.
Proof.
  intros Hs. unfold Block_canAllocateSize. rewrite (wrap32_small size) by lia.
  change (wrap32 0) with 0. destruct (b =? 0); [reflexivity|].
  apply canAllocate_sets_min. exact Hs.
Qed.

Lemma findBlock_min size inner fuel :
  0 <= size <= 28 ->
  forall b s, findBlock fuel inner b size s = findBlock fuel inner b 0 s.
Proof.
  intros Hs. induction fuel as [|k IH]; intros b s; [reflexivity|].
  cbn [findBlock]. destruct (b =? 0); [reflexivity|].
  unfold bind. destruct (Block_isFull b s) as [full s1|e]; [|reflexivity].
  assert (E : (if full then ret 0 else Block_canAllocateSize inner b size) s1 =
              (if full then ret 0 else Block_canAllocateSize inner b 0) s1).
  { destruct full; [reflexivity|]. apply canAllocateSize_min. exact Hs. }
  rewrite E.
  destruct ((if full then ret 0 else Block_canAllocateSize inner b 0) s1) as [r s2|e];
    [|reflexivity].
  destruct (negb full && negb (r =? 0)); [reflexivity|].
  destruct (load64 (wrap64 (b + off_bnext)) s2) as [nx s3|e]; [|reflexivity].
  apply IH.
Qed.

Lemma allocateRegion_min size fuel b s :
  0 <= size <= 20 ->
  Block_allocateRegion fuel b size s = Block_allocateRegion fuel b 0 s.
Proof.
  intros Hs. unfold Block_allocateRegion. change REGION_OVERHEAD_SIZE with 8.
  rewrite (wrap32_small (size + 8)) by lia. change (wrap32 (0 + 8)) with 8.
  unfold bind. rewrite (canAllocateSize_min (size + 8)) by lia.
  rewrite (canAllocateSize_min 8) by lia.
  destruct (Block_canAllocateSize fuel b 0 s) as [fr s1|e]; [|reflexivity].
  destruct (fr =? 0); [reflexivity|].
  destruct (Block_removeRegionFromFreeList fuel b fr s1) as [u s2|e]; [|reflexivity].
  unfold FreeRegion_split. rewrite (FGSA_min fr (size + 8)) by lia.
  rewrite (FGSA_min fr 8) by lia. reflexivity.
Qed.

Lemma Block_create_min size s :
  0 <= size <= 20 -> Block_create size s = Block_create 0 s.
Proof.
  intros Hs. unfold Block_create, sizeof_BlockHeader, sizeof_FreeRegionHeader,
    sizeof_AllocMetadata, PAGE_SIZE.
  rewrite (wrap64_small (size + 80 + 24 + 4)) by lia.
  change (wrap64 (0 + 80 + 24 + 4)) with 108.
  rewrite (Z.div_small (size + 80 + 24 + 4)) by lia.
  rewrite (Z.mod_small (size + 80 + 24 + 4)) by lia.
  destruct (Z.gtb_spec (size + 80 + 24 + 4) 0); [reflexivity|lia].
Qed.

Lemma malloc_min fuel size s :
  0 <= size <= 20 -> malloc fuel size s = malloc fuel 0 s.
Proof.
  intros Hs. unfold malloc, bind at 1 3.
  assert (E : getBlockWithFreeRegion fuel size s = getBlockWithFreeRegion fuel 0 s).
  { unfold getBlockWithFreeRegion.
    do 2 change (bind get_blockList ?k s) with (k (blockList s) s). cbv beta.
    destruct (blockList s =? 0); [reflexivity|].
    assert (Hb1 : forall (k : Z -> M Z) n,
              bind (findBlock fuel fuel (blockList s) n) k s =
              match findBlock fuel fuel (blockList s) n s with
              | Ok a s' => k a s'
              | Err e => Err e
              end) by reflexivity.
    rewrite !Hb1, (findBlock_min size) by lia.
    destruct (findBlock fuel fuel (blockList s) 0 s) as [b s1|e]; [|reflexivity].
    destruct (negb (b =? 0)); [reflexivity|].
    unfold createHeapBlock, bind. rewrite (Block_create_min size) by exact Hs.
    reflexivity. }
  rewrite E. destruct (getBlockWithFreeRegion fuel 0 s) as [b s1|e]; [|reflexivity].
  unfold bind. rewrite (allocateRegion_min size) by exact Hs. reflexivity.
Qed.

Lemma al_of_min r : (r_addr r + 4) mod 16 = 0 -> al_of r 0 = 32.
Proof.
  intros Hal. rewrite al_of_zero. change (wrap32 0) with 0.
  unfold FreeRegion_getSizeForAlignment, sizeof_FreeRegionHeader, sizeof_AllocMetadata.
  cbv zeta. change (wrap32 (24 + 4)) with 28. change (0 >=? 28) with false. cbv iota.
  change (0 mod 28) with 0. change (wrap32 (28 - 0)) with 28.
  replace (r_addr r + 0 + 28 + 4) with (r_addr r + 4 + 28) by lia.
  assert (E : wrap32 (r_addr r + 4 + 28) mod 16 = 12).
  { unfold wrap32. pose proof (Z.mod_pos_bound (r_addr r + 4 + 28) (2^32)). dlia. }
  rewrite E. reflexivity.
Qed.

(** C10, as amended. Requests of 0 to 20 bytes are served alike, in every
    state: with the 8 bytes of header and footer each is padded to 28
    bytes, the least size of a free region, before it is aligned.  Let
    [s] be a state reached by calls that asked for at most [MAXREQ] bytes
    each (see [reachable]), in which the search loop of
    [getBlockWithFreeRegion] finds a block for 0 bytes or the page
    provider is ready to map the block that [malloc(0)] asks for.  There
    [malloc(0)], given enough fuel for its list traversals, returns a
    pointer that is not nil, is a multiple of 16 and is none of the
    pointers the client holds; the header in front of it is marked used
    and records a payload of 24 bytes (28 bytes aligned to 32, less
    header and footer), and the region, header and footer included, is
    mapped. *)
Theorem C10_malloc_zero s L :
  reachable s L ->
  ((exists fuel b s1, findBlock fuel fuel (blockList s) 0 s = Ok b s1 /\ b <> 0) \/
   os_ready s (next_block_len s 0) = true) ->
  (forall fuel n, 0 <= n <= 20 -> malloc fuel n s = malloc fuel 0 s) /\
  exists N, forall fuel, (N < fuel)%nat ->
    exists p s', malloc fuel 0 s = Ok p s' /\
      p <> 0 /\ p mod 16 = 0 /\ ~ In p L /\
      md_used (get32 (bytes s') (p - 4)) = 1 /\
      payload_len s' p = 24 /\
      forall i, -4 <= i < payload_len s' p + 4 -> is_mapped (mapped s') (p + i) = true.
Proof.
  intros Hr Hsrc. split; [intros fuel n Hn; apply malloc_min; exact Hn|].
  destruct (reachable_inv _ _ Hr) as [bl [R [H [Hex HL]]]].
  destruct (fuel_ok_exists bl R) as [N HN]. exists N. intros fuel Hf.
  assert (Hempty : bl = [] -> os_ready s (block_len (PAGE_SIZE * 4)) = true).
  { intros ->. pose proof (hp_list _ _ _ H) as Hl. cbn [lseg] in Hl.
    destruct Hsrc as [[f [b [s1 [Hfind Hb]]]]|Hrdy].
    - rewrite Hl in Hfind. destruct f as [|f]; [discriminate|].
      cbn in Hfind. inversion Hfind. subst b. contradiction.
    - unfold next_block_len in Hrdy. rewrite Hl in Hrdy. exact Hrdy. }
  assert (W2 : wp (fuel <= N)%nat (malloc fuel 0) s
                 (fun p s' => p <> 0 /\ md_size (get32 (bytes s') (p - 4)) = 32)).
  { apply (malloc_cases fuel s bl R 0 N); try assumption.
    intros b s1 bl1 R1 Hres H1. split.
    - intros Hfail. exfalso.
      destruct Hres as [B HB [r [Hfree Hfit]]|s2 Hne Hnr _ Hnf
                       |a sz s2 bl2 Esz _ Hacc Hna Hmem _ _ _ _].
      + destruct Hfail as [E|[_ Hno]].
        * pose proof (heap_block_bounds _ _ _ _ H HB). lia.
        * apply (Hno r Hfree). rewrite al_of_zero. exact Hfit.
      + destruct Hsrc as [[f [b' [s3 [Hfind Hb']]]]|Hrdy].
        * exact (findBlock_found s bl R 0 f f b' s3 H Hfind Hb' Hnf).
        * assert (E : (blockList s =? 0) = false).
          { apply Z.eqb_neq. intros E. pose proof (hp_list _ _ _ H) as Hl.
            destruct bl as [|B bl]; [exfalso; apply Hne; reflexivity|].
            apply lseg_head in Hl. lia. }
          unfold next_block_len in Hrdy. rewrite E in Hrdy.
          rewrite Hrdy in Hnr. discriminate.
      + destruct (mmap_accepts_facts _ _ _ Hacc) as [_ [Hpos _]].
        destruct Hfail as [E|[_ Hno]]; [lia|].
        rewrite upd_same in Hno.
        set (big := mkRegion (a + 124) ((block_len sz - 80) mod 2^28 - 44) 0).
        apply (Hno big).
        * split; [right; left; reflexivity|reflexivity].
        * destruct (al_of_facts big 0) as [_ [_ [A3 _]]].
          change (wrap32 (0 + 8)) with 8 in A3.
          assert (3972 <= r_size big); [|lia].
          unfold big. cbn [r_size]. rewrite Esz.
          destruct (blockList s =? 0).
          -- change (block_len (PAGE_SIZE * 4)) with 20480. cbv. discriminate.
          -- change (block_len 0) with 4096. cbv. discriminate.
    - intros r rest m' rs' Hin _ _ _ Hrs Hb' _ Hlo Hal.
      pose proof (heap_block_bounds _ _ _ _ H1 Hin). split; [lia|].
      assert (Hin' : In (mkRegion (r_addr r) (al_of r 0) 1) rs')
        by (destruct Hrs as [->|[_ ->]]; left; reflexivity).
      pose proof (bg_size_read _ _ _ _ _ _ (bk_gen _ _ _ _ Hb') Hin') as Es.
      cbn [r_addr r_size] in Es. st_simpl.
      replace (r_addr r + 4 - 4) with (r_addr r) by lia.
      rewrite Es. apply al_of_min. exact Hal. }
  destruct (wp_total (fuel <= N)%nat (malloc fuel 0) s _
              (wp_and _ _ _ _ _ (malloc_spec fuel s bl R 0 N H Hempty HN) W2))
    as [p [s' [E [[bl' [R' Hpost]] [Hp Hsz]]]]]; [lia|].
  exists p, s'. split; [exact E|].
  pose proof (mp_heap _ _ _ _ _ _ _ _ Hpost) as H'.
  destruct (mp_new _ _ _ _ _ _ _ _ Hpost Hp) as
    [B0 [r0 [_ [_ [_ [_ [_ [_ [_ Hfresh]]]]]]]]].
  pose proof (malloc_new_live _ _ _ _ _ _ _ _ Hpost Hp) as Hlive.
  destruct (live_facts _ _ _ _ H' Hlive) as
    [B [r [HB [Hr0 [Hu [Hnb [Epr [Esz [Eus [Epl [Hrs [Hlo [Hhi [Htop [HB0 [Hal Hm]]]]]]]]]]]]]]]].
  assert (Epay : payload_len s' p = 24).
  { unfold payload_len, REGION_OVERHEAD_SIZE. rewrite Hsz. reflexivity. }
  split; [exact Hp|]. split; [exact Hal|].
  split; [intros Hin; apply Hfresh, HL; exact Hin|].
  split; [exact Eus|]. split; [exact Epay|].
  intros i Hi. apply Hm. unfold r_end in Hhi. rewrite Epay in Hi, Epl. lia.
Qed.

(** * Runs of the allocator *)

Lemma small_request n : 0 <= n <= 100000 -> 0 <= n <= MAXREQ.
Proof. unfold MAXREQ. lia. Qed.

Lemma st1_run : malloc 10 4 st0 = Ok 65664 st1.
Proof. apply (run_eq (malloc 10 4) st0 65664). vm_compute. reflexivity. Qed.

Lemma st1_reachable : reachable st1 [65664].
Proof.
  exact (reach_malloc st0 [] 10 4 65664 st1 (reach_init tape0)
           (small_request 4 ltac:(lia)) st1_run).
Qed.

Lemma stu1_run : malloc 10 4 stu0 = Ok 65664 stu1.
Proof. apply (run_eq (malloc 10 4) stu0 65664). vm_compute. reflexivity. Qed.

Lemma stu1_reachable : reachable stu1 [65664].
Proof.
  exact (reach_malloc stu0 [] 10 4 65664 stu1 (reach_init [65536])
           (small_request 4 ltac:(lia)) stu1_run).
Qed.

Lemma stt2_run : malloc 10 30000 st1 = Ok 1048704 stt2.
Proof. apply (run_eq (malloc 10 30000) st1 1048704). vm_compute. reflexivity. Qed.

Lemma stt3_run : malloc 10 30000 stt2 = Ok 2097280 stt3.
Proof. apply (run_eq (malloc 10 30000) stt2 2097280). vm_compute. reflexivity. Qed.

Lemma stt3_reachable : reachable stt3 [2097280; 1048704; 65664].
Proof.
  exact (reach_malloc stt2 [1048704; 65664] 10 30000 2097280 stt3
          (reach_malloc st1 [65664] 10 30000 1048704 stt2 st1_reachable
             (small_request 30000 ltac:(lia)) stt2_run)
          (small_request 30000 ltac:(lia)) stt3_run).
Qed.

Lemma sta_run : malloc 10 64 st0 = Ok 65664 sta.
Proof. apply (run_eq (malloc 10 64) st0 65664). vm_compute. reflexivity. Qed.

Lemma stb_run : malloc 10 64 sta = Ok 65744 stb.
Proof. apply (run_eq (malloc 10 64) sta 65744). vm_compute. reflexivity. Qed.

Lemma stc_run : free 10 65664 stb = Ok tt stc.
Proof. apply (run_eq (free 10 65664) stb tt). vm_compute. reflexivity. Qed.

Lemma std_run : malloc 10 48 stc = Ok 65664 std.
Proof. apply (run_eq (malloc 10 48) stc 65664). vm_compute. reflexivity. Qed.

Lemma stc_reachable : reachable stc [65744].
Proof.
  exact (reach_free stb [65744; 65664] 10 65664 stc
          (reach_malloc sta [65664] 10 64 65744 stb
             (reach_malloc st0 [] 10 64 65664 sta (reach_init tape0)
                (small_request 64 ltac:(lia)) sta_run)
             (small_request 64 ltac:(lia)) stb_run)
          (or_intror (or_introl eq_refl)) stc_run).
Qed.

Lemma stu1_payload : payload_len stu1 65664 = 24.
Proof. vm_compute. reflexivity. Qed.

(** ** C3 *)

(** C3. A run in which [FreeRegion_split] returns nil.  After two
    allocations of 64 bytes and the release of the first, the region at
    65660 is free and has 80 bytes.  [malloc(48)] takes it: the split
    for the aligned size 64 returns nil, because the 16 bytes left over
    are fewer than a free region needs, but it has already rewritten the
    region to 64 bytes.  The used region then has 64 bytes, not the 80 of
    the free region it came from, and the 16 bytes from 65724 up to the
    next region at 65740 belong to no region; the footer left at 65736
    still describes the free region of 80 bytes. *)
Theorem C3_split_shrinks_region :
  reachable stc [65744] /\
  md_size (get32 (bytes stc) 65660) = 80 /\ md_used (get32 (bytes stc) 65660) = 0 /\
  value (FreeRegion_split 65660 (48 + 8)) stc = Some 0 /\
  malloc 10 48 stc = Ok 65664 std /\
  md_size (get32 (bytes std) 65660) = 64 /\ md_used (get32 (bytes std) 65660) = 1 /\
  get32 (bytes std) (65660 + 64 - 4) = tag 64 1 /\
  get32 (bytes std) (65660 + 80 - 4) = tag 80 0 /\
  md_size (get32 (bytes std) 65740) = 80 /\ md_used (get32 (bytes std) 65740) = 1.
Proof.
  split; [exact stc_reachable|].
  split; [vm_compute; reflexivity|]. split; [vm_compute; reflexivity|].
  split; [vm_compute; reflexivity|]. split; [exact std_run|].
  split; [vm_compute; reflexivity|]. split; [vm_compute; reflexivity|].
  split; [vm_compute; reflexivity|]. split; [vm_compute; reflexivity|].
  split; vm_compute; reflexivity.
Qed.

(** ** C4 *)

(** C4. A run that leaves the block list out of order.  The kernel maps
    the blocks at 65536, 1048576 and 2097152, in this order.  With the
    first two the list is ascending; inserting the third, the loop of
    [BlockList_addBlockToList] stops at the head, since
    [item < aux->next] is false, and the block at 2097152 is linked
    before the one at 1048576. *)
Theorem C4_block_list_unsorted :
  reachable stt3 [2097280; 1048704; 65664] /\
  walk 10 (bytes stt2) (blockList stt2) = [65536; 1048576] /\
  walk 10 (bytes stt3) (blockList stt3) = [65536; 2097152; 1048576].
Proof.
  split; [exact stt3_reachable|]. split; vm_compute; reflexivity.
Qed.

(** ** C7: the claim as stated fails *)


(** ** Requests above [MAXREQ]: C1, C2 and C8

    [Block_canAllocateSize] takes the size requested as a [uint32_t],
    and [Block_allocateRegion] keeps the size with its overhead in the
    [uint32_t regionSize]: [malloc(2^32 + 4)] serves 4 bytes.  [realloc]
    compares and copies with the [size_t] it was given: for
    [realloc(p, 2^32 + 4)] it copies the whole old payload into the
    payload of 24 bytes that [malloc] returned.  The three runs below
    contain one such call; every other call and every store of the
    client is as [reachable] asks. *)

Lemma Ok_state {A} (a b : A) (s t : state) : Ok a s = Ok b t -> s = t.
Proof. intros E. injection E as _ E. exact E. Qed.

Lemma reach_store s L p i v :
  reachable s L -> In p L -> 0 <= i < payload_len s p ->
  reachable (client_store s (p + i) v) L.
Proof. exact (reach_write s L p i v). Qed.

Lemma ste1_run : malloc 10 30 st0 = Ok 65664 ste1.
Proof. apply (run_eq (malloc 10 30) st0 65664). vm_compute. reflexivity. Qed.

Lemma ste2_run : malloc 10 64 ste1 = Ok 65712 ste2.
Proof. apply (run_eq (malloc 10 64) ste1 65712). vm_compute. reflexivity. Qed.

Lemma ste3_run : malloc 10 64 ste2 = Ok 65792 ste3.
Proof. apply (run_eq (malloc 10 64) ste2 65792). vm_compute. reflexivity. Qed.

Lemma ste3_reachable : reachable ste3 [65792; 65712; 65664].
Proof.
  exact (reach_malloc ste2 [65712; 65664] 10 64 65792 ste3
          (reach_malloc ste1 [65664] 10 64 65712 ste2
             (reach_malloc st0 [] 10 30 65664 ste1 (reach_init tape0)
                (small_request 30 ltac:(lia)) ste1_run)
             (small_request 64 ltac:(lia)) ste2_run)
          (small_request 64 ltac:(lia)) ste3_run).
Qed.

(** *** C2 *)

Lemma ste4_run : free 10 65664 ste3 = Ok tt ste4.
Proof. apply (run_eq (free 10 65664) ste3 tt). vm_compute. reflexivity. Qed.

Lemma ste4_reachable : reachable ste4 [65792; 65712].
Proof.
  exact (reach_free ste3 [65792; 65712; 65664] 10 65664 ste4 ste3_reachable
           (or_intror (or_intror (or_introl eq_refl))) ste4_run).
Qed.

(** C2. A run that leaves the header and the footer of a region in
    disagreement.  The client holds 65712 and 65792, whose payloads have
    72 bytes; the region of 65712 runs from its header at 65708 to its
    footer at 65784, both (80, used).  The region at 65660, of 48 bytes,
    is free.  [realloc(65792, 2^32 + 4)] calls [malloc(2^32 + 4)], which
    serves the request cut to 32 bits, 4 bytes, from the region at 65660
    and returns 65664, a payload of 24 bytes.  As [2^32 + 4] is not less
    than the old payload length, [memcpy] copies 72 bytes to 65664: it
    writes up to 65735, over the header at 65708.  After the call the
    client still holds 65712; the header of its region reads size 0 and
    used 0, the footer still size 80 and used 1, and no layout of the
    heap has the region of 65712 among its used regions. *)
Theorem C2_truncated_request_breaks_tags :
  reachable ste4 [65792; 65712] /\
  payload_len ste4 65792 = 72 /\
  get32 (bytes ste4) 65708 = tag 80 1 /\ get32 (bytes ste4) 65784 = tag 80 1 /\
  realloc 10 65792 (2^32 + 4) ste4 = Ok 65664 ste5 /\
  payload_len ste5 65664 = 24 /\
  md_size (get32 (bytes ste5) 65708) = 0 /\ md_used (get32 (bytes ste5) 65708) = 0 /\
  md_size (get32 (bytes ste5) 65784) = 80 /\ md_used (get32 (bytes ste5) 65784) = 1 /\
  forall bl R, heap_ok ste5 bl R -> ~ is_live bl R 65712.
Proof.
  split; [exact ste4_reachable|].
  split; [vm_compute; reflexivity|]. split; [vm_compute; reflexivity|].
  split; [vm_compute; reflexivity|].
  split; [apply (run_eq (realloc 10 65792 (2^32 + 4)) ste4 65664); vm_compute; reflexivity|].
  split; [vm_compute; reflexivity|]. split; [vm_compute; reflexivity|].
  split; [vm_compute; reflexivity|]. split; [vm_compute; reflexivity|].
  split; [vm_compute; reflexivity|].
  intros bl R H Hl.
  destruct (live_facts _ _ _ _ H Hl) as [B [r [_ [_ [_ [_ [_ [_ [Eus _]]]]]]]]].
  assert (E : md_used (get32 (bytes ste5) (65712 - 4)) = 0) by (vm_compute; reflexivity).
  pose proof (eq_trans (eq_sym E) Eus) as Hc. discriminate.
Qed.

(** *** C1 *)

Lemma stm4_run : malloc 10 150 ste3 = Ok 65872 stm4.
Proof. apply (run_eq (malloc 10 150) ste3 65872). vm_compute. reflexivity. Qed.

Lemma stm5_run : free 10 65664 stm4 = Ok tt stm5.
Proof. apply (run_eq (free 10 65664) stm4 tt). vm_compute. reflexivity. Qed.

Lemma stm6_run : free 10 65792 stm5 = Ok tt stm6.
Proof. apply (run_eq (free 10 65792) stm5 tt). vm_compute. reflexivity. Qed.

Lemma stm6_reachable : reachable stm6 [65872; 65712].
Proof.
  exact (reach_free stm5 [65872; 65792; 65712] 10 65792 stm6
          (reach_free stm4 [65872; 65792; 65712; 65664] 10 65664 stm5
             (reach_malloc ste3 [65792; 65712; 65664] 10 150 65872 stm4 ste3_reachable
                (small_request 150 ltac:(lia)) stm4_run)
             (or_intror (or_intror (or_intror (or_introl eq_refl)))) stm5_run)
          (or_intror (or_introl eq_refl)) stm6_run).
Qed.

Lemma stm7_reachable : reachable stm7 [65872; 65712].
Proof.
  assert (Hin : In 65872 [65872; 65712]) by (left; reflexivity).
  assert (H0 : payload_len stm6 65872 = 152) by (vm_compute; reflexivity).
  assert (H1 : payload_len stm6a 65872 = 152) by (vm_compute; reflexivity).
  assert (H2 : payload_len stm6b 65872 = 152) by (vm_compute; reflexivity).
  assert (H3 : payload_len stm6c 65872 = 152) by (vm_compute; reflexivity).
  assert (H4 : payload_len stm6d 65872 = 152) by (vm_compute; reflexivity).
  apply (reach_store stm6d _ 65872 134 1); [|exact Hin|rewrite H4; lia].
  apply (reach_store stm6c _ 65872 133 1); [|exact Hin|rewrite H3; lia].
  apply (reach_store stm6b _ 65872 132 129); [|exact Hin|rewrite H2; lia].
  apply (reach_store stm6a _ 65872 50 6); [|exact Hin|rewrite H1; lia].
  apply (reach_store stm6 _ 65872 49 64); [|exact Hin|rewrite H0; lia].
  exact stm6_reachable.
Qed.

(** C1. A run in which [malloc] returns a pointer that is not a multiple
    of 16.  The client holds 65712 and 65872; the payload of 65872 has
    152 bytes, and the regions at 65660 (48 bytes) and 65788 (80 bytes)
    are free.  [realloc(65872, 2^32 + 4)] gets the payload of 24 bytes
    at 65664 from [malloc] and copies 152 bytes to it, up to 65815: the
    bytes the client stored at offsets 132 to 134 land on the [next]
    field, at 65796, of the free region at 65788, which then holds
    65921, the address of offset 49 of the old payload.  The next
    [malloc(64)] follows that link, finds there a header of a free
    region of 100 bytes, and hands it out: it returns 65925, and
    [65925 mod 16] is 5. *)
Theorem C1_truncated_request_misaligns :
  reachable stm7 [65872; 65712] /\
  payload_len stm7 65872 = 152 /\
  get64 (bytes stm7) (65788 + off_next) = 0 /\
  realloc 10 65872 (2^32 + 4) stm7 = Ok 65664 stm8 /\
  payload_len stm8 65664 = 24 /\
  get64 (bytes stm8) (65788 + off_next) = 65921 /\
  get32 (bytes stm8) 65921 = tag 100 0 /\
  malloc 10 64 stm8 = Ok 65925 stm9 /\
  65925 mod 16 = 5.
Proof.
  split; [exact stm7_reachable|].
  split; [vm_compute; reflexivity|]. split; [vm_compute; reflexivity|].
  split; [apply (run_eq (realloc 10 65872 (2^32 + 4)) stm7 65664); vm_compute; reflexivity|].
  split; [vm_compute; reflexivity|]. split; [vm_compute; reflexivity|].
  split; [vm_compute; reflexivity|].
  split; [apply (run_eq (malloc 10 64) stm8 65925); vm_compute; reflexivity|].
  reflexivity.
Qed.

(** *** C8 *)

Lemma stk1_run : malloc 10 4 (initial_state tapek) = Ok 65664 stk1.
Proof. apply (run_eq (malloc 10 4) (initial_state tapek) 65664). vm_compute. reflexivity. Qed.

Lemma stk2_run : malloc 10 30000 stk1 = Ok 1073741952 stk2.
Proof. apply (run_eq (malloc 10 30000) stk1 1073741952). vm_compute. reflexivity. Qed.

Lemma stk3_run : malloc 10 30000 stk2 = Ok 1073774720 stk3.
Proof. apply (run_eq (malloc 10 30000) stk2 1073774720). vm_compute. reflexivity. Qed.

Lemma stk4_run : malloc 10 2640 stk3 = Ok 65696 stk4.
Proof. apply (run_eq (malloc 10 2640) stk3 65696). vm_compute. reflexivity. Qed.

Lemma stk5_run : malloc 10 17648 stk4 = Ok 68352 stk5.
Proof. apply (run_eq (malloc 10 17648) stk4 68352). vm_compute. reflexivity. Qed.

Lemma stk6_run : malloc 10 2608 stk5 = Ok 1073804736 stk6.
Proof. apply (run_eq (malloc 10 2608) stk5 1073804736). vm_compute. reflexivity. Qed.

Lemma stk7_reachable :
  reachable stk7 [1073804736; 68352; 65696; 1073774720; 1073741952; 65664].
Proof.
  assert (Hin : In 65696 [1073804736; 68352; 65696; 1073774720; 1073741952; 65664])
    by (right; right; left; reflexivity).
  assert (H0 : payload_len stk6 65696 = 2648) by (vm_compute; reflexivity).
  assert (H1 : payload_len stk6a 65696 = 2648) by (vm_compute; reflexivity).
  apply (reach_store stk6a _ 65696 2643 64); [|exact Hin|rewrite H1; lia].
  apply (reach_store stk6 _ 65696 2641 4); [|exact Hin|rewrite H0; lia].
  exact (reach_malloc stk5 [68352; 65696; 1073774720; 1073741952; 65664] 10 2608
           1073804736 stk6
          (reach_malloc stk4 [65696; 1073774720; 1073741952; 65664] 10 17648 68352 stk5
            (reach_malloc stk3 [1073774720; 1073741952; 65664] 10 2640 65696 stk4
              (reach_malloc stk2 [1073741952; 65664] 10 30000 1073774720 stk3
                (reach_malloc stk1 [65664] 10 30000 1073741952 stk2
                  (reach_malloc (initial_state tapek) [] 10 4 65664 stk1 (reach_init tapek)
                     (small_request 4 ltac:(lia)) stk1_run)
                  (small_request 30000 ltac:(lia)) stk2_run)
                (small_request 30000 ltac:(lia)) stk3_run)
              (small_request 2640 ltac:(lia)) stk4_run)
            (small_request 17648 ltac:(lia)) stk5_run)
          (small_request 2608 ltac:(lia)) stk6_run).
Qed.

(** C8. A run in which [realloc] fails and the old block is not left
    intact.  The client holds, among others, 65696 with a payload of
    2648 bytes and 1073741952 with a payload of 30008 bytes; the block
    list is 65536, 1073774592, 1073741824.  [realloc(65696, 2^32 + 4)]
    gets the payload of 24 bytes at 1073771968, at the end of the block
    at [2^30], and copies 2648 bytes to it: the last 24 run over the
    first 24 bytes of the header of the block at 1073774592, and the
    [next] field of that header then holds 1073742848, an address
    inside the payload of 1073741952.  Next, [realloc(1073741952, 2^28)]
    calls [malloc(2^28)]: no block can take the request, a block is
    mapped at [2^28], and [BlockList_addBlockToList] walks the list to
    its last node, now 1073742848, and stores the address of the new
    block in the [next] field of that node, at 1073742864.  No region
    can hold [2^28] bytes, so [malloc] and with it [realloc] return nil;
    but byte 915 of the payload of 1073741952, which was 0, is now
    16. *)
Theorem C8_truncated_request_breaks_realloc :
  reachable stk7 [1073804736; 68352; 65696; 1073774720; 1073741952; 65664] /\
  payload_len stk7 65696 = 2648 /\
  walk 10 (bytes stk7) (blockList stk7) = [65536; 1073774592; 1073741824] /\
  realloc 10 65696 (2^32 + 4) stk7 = Ok 1073771968 stk8 /\
  payload_len stk8 1073771968 = 24 /\
  walk 10 (bytes stk8) (blockList stk8) = [65536; 1073774592; 1073742848] /\
  payload_len stk8 1073741952 = 30008 /\
  malloc 10 (2^28) stk8 = Ok 0 stk9 /\
  realloc 10 1073741952 (2^28) stk8 = Ok 0 stk9 /\
  bytes stk8 (1073741952 + 915) = 0 /\
  bytes stk9 (1073741952 + 915) = 16.
Proof.
  assert (Hm : malloc 10 (2^28) stk8 = Ok 0 stk9)
    by (apply (run_eq (malloc 10 (2^28)) stk8 0); vm_compute; reflexivity).
  split; [exact stk7_reachable|].
  split; [vm_compute; reflexivity|]. split; [vm_compute; reflexivity|].
  split; [apply (run_eq (realloc 10 65696 (2^32 + 4)) stk7 1073771968);
          vm_compute; reflexivity|].
  split; [vm_compute; reflexivity|]. split; [vm_compute; reflexivity|].
  split; [vm_compute; reflexivity|]. split; [exact Hm|].
  split; [|split; vm_compute; reflexivity].
  assert (Hv : value (realloc 10 1073741952 (2^28)) stk8 = Some 0)
    by (vm_compute; reflexivity).
  pose proof (run_eq (realloc 10 1073741952 (2^28)) stk8 0 Hv) as Hr.
  destruct (realloc_result _ _ _ _ _ _ Hr ltac:(lia)) as [Hc|[s1 [Hm1 Hs]]];
    [discriminate|].
  pose proof (Ok_state _ _ _ _ (eq_trans (eq_sym Hm) Hm1)) as E.
  exact (eq_trans Hr (f_equal (fun x => Ok 0 x) (eq_sym (eq_trans E (Hs eq_refl))))).
Qed.

(** ** C10: the claim as stated fails *)

Lemma stx1_run : malloc 10 20340 stu0 = Ok 65664 stx1.
Proof. apply (run_eq (malloc 10 20340) stu0 65664). vm_compute. reflexivity. Qed.

Lemma stx1_reachable : reachable stx1 [65664].
Proof.
  exact (reach_malloc stu0 [] 10 20340 65664 stx1 (reach_init [65536])
           (small_request 20340 ltac:(lia)) stx1_run).
Qed.

(** C10 as stated does not hold: [malloc(0)] returns nil when no block
    has room and the provider maps no further block.  Here one
    allocation of 20340 bytes has taken the whole free region of the
    only block, and the kernel has no address left to propose; the
    search loop of [getBlockWithFreeRegion] finds no block,
    [createHeapBlock] returns nil, and [malloc(0)] returns nil, as it
    does for every other size in this state. *)
Lemma C10_counterexample :
  reachable stx1 [65664] /\
  value (findBlock 10 10 (blockList stx1) 0) stx1 = Some 0 /\
  os_ready stx1 (next_block_len stx1 0) = false /\
  malloc 10 0 stx1 = Ok 0 stx2.
Proof.
  split; [exact stx1_reachable|].
  split; [vm_compute; reflexivity|]. split; [vm_compute; reflexivity|].
  apply (run_eq (malloc 10 0) stx1 0). vm_compute. reflexivity.
Qed.

(** ** Instances *)

(** C5 in the state after the first allocation. *)
Lemma C5_free_null_faults_witness :
  reachable st1 [65664] /\ free 10 0 st1 = Err SegFault.
Proof.
  exact (conj st1_reachable (C5_free_null_faults st1 [65664] 10 st1_reachable)).
Defined.

(** C6 in the state after the first allocation. *)
Lemma C6_realloc_null_faults_witness :
  reachable st1 [65664] /\ realloc 10 0 4 st1 = Err SegFault.
Proof.
  exact (conj st1_reachable (C6_realloc_null_faults st1 [65664] 10 4 st1_reachable)).
Defined.


Lemma sta_reachable : reachable sta [65664].
Proof.
  exact (reach_malloc st0 [] 10 64 65664 sta (reach_init tape0)
           (small_request 64 ltac:(lia)) sta_run).
Qed.

Lemma stb_reachable : reachable stb [65744; 65664].
Proof.
  exact (reach_malloc sta [65664] 10 64 65744 stb sta_reachable
           (small_request 64 ltac:(lia)) stb_run).
Qed.

Lemma stq3_run : free 10 65664 stq2 = Ok tt stq3.
Proof. apply (run_eq (free 10 65664) stq2 tt). vm_compute. reflexivity. Qed.

Lemma stq3_reachable : reachable stq3 [65744].
Proof.
  assert (Hin : In 65664 [65744; 65664]) by (right; left; reflexivity).
  assert (H0 : payload_len stb 65664 = 72) by (vm_compute; reflexivity).
  assert (H1 : payload_len stq1 65664 = 72) by (vm_compute; reflexivity).
  apply (reach_free stq2 [65744; 65664] 10 65664 stq3); [|exact Hin|exact stq3_run].
  apply (reach_store stq1 _ 65664 30 9); [|exact Hin|rewrite H1; lia].
  apply (reach_store stb _ 65664 0 7); [|exact Hin|rewrite H0; lia].
  exact stb_reachable.
Qed.

Lemma stq4_run : calloc 10 1 40 stq3 = Ok 65664 stq4.
Proof. apply (run_eq (calloc 10 1 40) stq3 65664). vm_compute. reflexivity. Qed.

Lemma stq4_payload : payload_len stq4 65664 = 56.
Proof. vm_compute. reflexivity. Qed.

Lemma stn2_reachable : reachable stn2 [65792; 65712].
Proof.
  assert (Hin : In 65792 [65792; 65712]) by (left; reflexivity).
  assert (H0 : payload_len ste4 65792 = 72) by (vm_compute; reflexivity).
  assert (H1 : payload_len stn1 65792 = 72) by (vm_compute; reflexivity).
  apply (reach_store stn1 _ 65792 20 9); [|exact Hin|rewrite H1; lia].
  apply (reach_store ste4 _ 65792 0 7); [|exact Hin|rewrite H0; lia].
  exact ste4_reachable.
Qed.

Lemma stn3_run : realloc 10 65792 (2^32 + 4) stn2 = Ok 65664 stn3.
Proof. apply (run_eq (realloc 10 65792 (2^32 + 4)) stn2 65664). vm_compute. reflexivity. Qed.

Lemma stn3_any_run : any_run stn3.
Proof.
  exact (run_realloc stn2 10 65792 (2^32 + 4) 65664 stn3
           (reachable_any_run _ _ stn2_reachable) stn3_run).
Qed.

Lemma stn4_run : calloc 10 1 40 stn3 = Ok 65792 stn4.
Proof. apply (run_eq (calloc 10 1 40) stn3 65792). vm_compute. reflexivity. Qed.

Lemma stn4_payload : payload_len stn4 65792 = 56.
Proof. vm_compute. reflexivity. Qed.

(** C9 on regions that come back dirty.  First, the client has stored 7
    and 9 at offsets 0 and 30 of the payload of 65664 and released it;
    the bytes are still there when [calloc(1, 40)] takes the region
    again, and are 0 in the payload of 56 bytes it returns; with a size
    of 0 [calloc] returns nil.  Second, after a request that was cut to
    32 bits: [realloc(65792, 2^32 + 4)] has written past the payload of
    24 bytes at 65664, over the header of 65712, and has released 65792
    with the bytes 7 and 9 in it; [calloc(1, 40)] returns 65792 with a
    payload of 56 bytes, and they are 0. *)
Lemma C9_calloc_zeroes_witness :
  (reachable stq3 [65744] /\
   bytes stq3 (65664 + 0) = 7 /\ bytes stq3 (65664 + 30) = 9 /\
   calloc 10 1 0 stq3 = Ok 0 stq3 /\
   calloc 10 1 40 stq3 = Ok 65664 stq4 /\ payload_len stq4 65664 = 56 /\
   bytes stq4 (65664 + 0) = 0 /\ bytes stq4 (65664 + 30) = 0) /\
  (reachable stn2 [65792; 65712] /\
   realloc 10 65792 (2^32 + 4) stn2 = Ok 65664 stn3 /\
   payload_len stn3 65664 = 24 /\ md_size (get32 (bytes stn3) (65712 - 4)) = 0 /\
   bytes stn3 (65792 + 0) = 7 /\ bytes stn3 (65792 + 20) = 9 /\
   calloc 10 1 40 stn3 = Ok 65792 stn4 /\ payload_len stn4 65792 = 56 /\
   bytes stn4 (65792 + 0) = 0 /\ bytes stn4 (65792 + 20) = 0).
Proof.
  assert (H1 : reachable stq3 [65744]) by exact stq3_reachable.
  assert (H2 : 40 <> 0) by lia.
  assert (H3 : calloc 10 1 40 stq3 = Ok 65664 stq4) by exact stq4_run.
  assert (H4 : 65664 <> 0) by lia.
  assert (H5 : 0 <= 0 < payload_len stq4 65664) by (rewrite stq4_payload; lia).
  assert (H6 : 0 <= 30 < payload_len stq4 65664) by (rewrite stq4_payload; lia).
  assert (D1 : bytes stq3 (65664 + 0) = 7) by (vm_compute; reflexivity).
  assert (D2 : bytes stq3 (65664 + 30) = 9) by (vm_compute; reflexivity).
  assert (K3 : calloc 10 1 40 stn3 = Ok 65792 stn4) by exact stn4_run.
  assert (K4 : 65792 <> 0) by lia.
  assert (K5 : 0 <= 0 < payload_len stn4 65792) by (rewrite stn4_payload; lia).
  assert (K6 : 0 <= 20 < payload_len stn4 65792) by (rewrite stn4_payload; lia).
  assert (P1 : payload_len stn3 65664 = 24) by (vm_compute; reflexivity).
  assert (P2 : md_size (get32 (bytes stn3) (65712 - 4)) = 0) by (vm_compute; reflexivity).
  assert (E1 : bytes stn3 (65792 + 0) = 7) by (vm_compute; reflexivity).
  assert (E2 : bytes stn3 (65792 + 20) = 9) by (vm_compute; reflexivity).
  split.
  - exact (conj H1 (conj D1 (conj D2
            (conj (proj1 (C9_calloc_zeroes stq3 (reachable_any_run _ _ H1)) 10%nat 1)
            (conj H3 (conj stq4_payload
            (conj (proj2 (C9_calloc_zeroes stq3 (reachable_any_run _ _ H1)) 10%nat 1 40 65664 stq4 H2 H3 H4 0 H5)
                  (proj2 (C9_calloc_zeroes stq3 (reachable_any_run _ _ H1)) 10%nat 1 40 65664 stq4 H2 H3 H4 30 H6)))))))).
  - exact (conj stn2_reachable (conj stn3_run (conj P1 (conj P2 (conj E1 (conj E2
            (conj K3 (conj stn4_payload
            (conj (proj2 (C9_calloc_zeroes stn3 stn3_any_run) 10%nat 1 40 65792 stn4 H2 K3 K4 0 K5)
                  (proj2 (C9_calloc_zeroes stn3 stn3_any_run) 10%nat 1 40 65792 stn4 H2 K3 K4 20 K6)))))))))).
Defined.

(** C10, as amended, after one allocation, with a provider that has
    nothing left to map: the search loop finds the block at 65536, and
    [malloc(0)] returns. *)
Lemma C10_malloc_zero_witness :
  reachable stu1 [65664] /\
  os_ready stu1 (next_block_len stu1 0) = false /\
  findBlock 10 10 (blockList stu1) 0 stu1 =
    Ok 65536 (after (findBlock 10 10 (blockList stu1) 0) stu1) /\
  ((forall fuel n, 0 <= n <= 20 -> malloc fuel n stu1 = malloc fuel 0 stu1) /\
   exists N, forall fuel, (N < fuel)%nat ->
     exists p s', malloc fuel 0 stu1 = Ok p s' /\
       p <> 0 /\ p mod 16 = 0 /\ ~ In p [65664] /\
       md_used (get32 (bytes s') (p - 4)) = 1 /\
       payload_len s' p = 24 /\
       forall i, -4 <= i < payload_len s' p + 4 -> is_mapped (mapped s') (p + i) = true).
Proof.
  assert (H1 : reachable stu1 [65664]) by exact stu1_reachable.
  assert (H2 : os_ready stu1 (next_block_len stu1 0) = false) by (vm_compute; reflexivity).
  assert (H3 : findBlock 10 10 (blockList stu1) 0 stu1 =
               Ok 65536 (after (findBlock 10 10 (blockList stu1) 0) stu1)).
  { apply (run_eq (findBlock 10 10 (blockList stu1) 0) stu1 65536). vm_compute. reflexivity. }
  assert (H4 : 65536 <> 0) by lia.
  exact (conj H1 (conj H2 (conj H3
           (C10_malloc_zero stu1 [65664] H1
              (or_introl (ex_intro _ 10%nat (ex_intro _ 65536 (ex_intro _ _ (conj H3 H4))))))))).
Defined.

(** * Further properties *)

(** Most of the properties below are about the states of a _bounded
    run_: a state [s], with the list [L] of the pointers the client
    holds, such that [reachable s L].  Such a state is reached from the
    initial one by calls of [malloc], [calloc], [realloc] and [free]
    that returned, each asking for at most [MAXREQ] bytes, [free] and
    [realloc] being given only pointers of [L], and by stores of the
    client inside the payloads of [L].  After a request above [MAXREQ]
    these properties need not hold: see the runs of C1, C2 and C8. *)

(** ** Preliminaries *)

(** The length and the contents of a payload are read from bytes of its
    region. *)
Lemma region_kept s s' bl R q :
  heap_ok s bl R -> is_live bl R q ->
  (forall x, q - 4 <= x < q + payload_len s q + 4 -> bytes s' x = bytes s x) ->
  payload_len s' q = payload_len s q /\
  forall i, 0 <= i < payload_len s q -> bytes s' (q + i) = bytes s (q + i).
Proof.
  intros H Hl Hk.
  destruct (live_facts _ _ _ _ H Hl) as
    [B [r [HB [Hr [Hu [Hnb [Epr [Esz [Eus [Epl [Hrs _]]]]]]]]]]].
  split.
  - unfold payload_len. f_equal. f_equal. apply get32_ext. intros x Hx. apply Hk. lia.
  - intros i Hi. apply Hk. lia.
Qed.

Lemma reachable_ready s fuel n p s' bl R :
  heap_ok s bl R -> malloc fuel n s = Ok p s' ->
  bl = [] -> os_ready s (block_len (PAGE_SIZE * 4)) = true.
Proof. intros H Hok ->. eapply malloc_ok_ready; eassumption. Qed.

(** Outcome of [malloc] in a reachable state, with what it leaves
    untouched. *)
Lemma malloc_outcome s L fuel n p s' :
  reachable s L -> malloc fuel n s = Ok p s' ->
  exists bl R bl' R',
    heap_ok s bl R /\ exact s bl /\ (forall q, In q L -> is_live bl R q) /\
    malloc_post s bl R n p s' bl' R' /\
    (forall x, in_used bl R x -> bytes s' x = bytes s x) /\
    (p <> 0 -> forall x, p - 4 <= x < p + payload_len s' p + 4 -> ~ in_used bl R x).
Proof.
  intros Hr Hok. destruct (reachable_inv _ _ Hr) as [bl [R [H [Hex HL]]]].
  pose proof (reachable_ready s fuel n p s' bl R H Hok) as Hrdy.
  destruct (wp_ok _ _ _ _ _ _ (malloc_keeps fuel s bl R n H Hrdy) Hok)
    as [[bl' [R' Hpost]] [K Hnew]].
  exists bl, R, bl', R'.
  exact (conj H (conj Hex (conj HL (conj Hpost (conj K Hnew))))).
Qed.

Lemma live_pos s bl R q : heap_ok s bl R -> is_live bl R q -> 0 < q.
Proof.
  intros H Hq. destruct (live_facts _ _ _ _ H Hq) as
    [B [r [HB [Hr0 [Hu [Hnb [Epr [Esz [Eus [Epl [Hrs [Hlo [Hhi [Htop [HB0 _]]]]]]]]]]]]]]].
  lia.
Qed.

Lemma lseg_nil_head m off l : lseg m off 0 l -> l = [].
Proof. destruct l as [|x l]; [reflexivity|]. cbn [lseg]. intros [<- [Hc _]]. contradiction. Qed.

Lemma aligned_upper a size :
  28 <= size < 2^32 -> FreeRegion_getSizeForAlignment a size <= size + 16.
Proof.
  intros Hs.
  unfold FreeRegion_getSizeForAlignment, wrap32, wrap64,
    sizeof_FreeRegionHeader, sizeof_AllocMetadata.
  change ((24 + 4) mod 2 ^ 32) with 28.
  destruct (Z.geb_spec size 28) as [_|Hc]; [|lia]. cbv zeta.
  change (0 mod 2 ^ 32) with 0. rewrite !Z.add_0_r.
  set (e := (a + size + 4) mod 2^32).
  assert (He : 0 <= e mod 16 < 16) by (apply Z.mod_pos_bound; lia).
  rewrite (Z.mod_small (16 - e mod 16)) by lia.
  rewrite (Z.mod_small size) by lia.
  rewrite Z.mod_small by lia. lia.
Qed.

Lemma is_mapped_unmap mp lo hi x :
  is_mapped (unmap mp lo hi) x = is_mapped mp x && negb ((lo <=? x) && (x <? hi)).
Proof.
  unfold is_mapped, unmap. induction mp as [|r mp IH]; [reflexivity|].
  cbn [flat_map existsb]. rewrite existsb_app, IH. clear IH.
  assert (E : existsb (fun r0 => in_range r0 x) (range_sub lo hi r) =
              in_range r x && negb ((lo <=? x) && (x <? hi))).
  { unfold range_sub, in_range. rewrite existsb_app.
    destruct (Z.ltb_spec (fst r) (Z.min (snd r) lo));
      destruct (Z.ltb_spec (Z.max (fst r) hi) (snd r));
      cbn [existsb fst snd]; rewrite ?orb_false_r;
      destruct (Z.leb_spec (fst r) x); destruct (Z.ltb_spec x (snd r));
      destruct (Z.leb_spec lo x); destruct (Z.ltb_spec x hi);
      try destruct (Z.ltb_spec x (Z.min (snd r) lo));
      try destruct (Z.leb_spec (Z.max (fst r) hi) x);
      cbn [andb orb negb]; try reflexivity; lia. }
  rewrite E. destruct (in_range r x); destruct (existsb _ mp);
    destruct (negb _); reflexivity.
Qed.

Lemma canAllocateSize_wraps fuel b n :
  Block_canAllocateSize fuel b (n + 2^32) = Block_canAllocateSize fuel b n.
Proof.
  unfold Block_canAllocateSize.
  replace (wrap32 (n + 2^32)) with (wrap32 n); [reflexivity|].
  unfold wrap32. rewrite <- (Z.mul_1_l (2^32)) at 2. rewrite Z.mod_add by lia. reflexivity.
Qed.

Lemma allocateRegion_wraps fuel b n :
  Block_allocateRegion fuel b (n + 2^32) = Block_allocateRegion fuel b n.
Proof.
  unfold Block_allocateRegion.
  replace (wrap32 (n + 2^32 + REGION_OVERHEAD_SIZE)) with (wrap32 (n + REGION_OVERHEAD_SIZE));
    [reflexivity|].
  unfold wrap32. replace (n + 2^32 + REGION_OVERHEAD_SIZE)
    with (n + REGION_OVERHEAD_SIZE + 1 * 2^32) by lia.
  rewrite Z.mod_add by lia. reflexivity.
Qed.

Lemma findBlock_wraps inner n fuel : forall b s,
  findBlock fuel inner b (n + 2^32) s = findBlock fuel inner b n s.
Proof.
  induction fuel as [|k IH]; intros b s; [reflexivity|].
  cbn [findBlock]. destruct (b =? 0); [reflexivity|].
  unfold bind. destruct (Block_isFull b s) as [full s1|e]; [|reflexivity].
  rewrite canAllocateSize_wraps.
  destruct ((if full then ret 0 else Block_canAllocateSize inner b n) s1) as [r s2|e];
    [|reflexivity].
  destruct (negb full && negb (r =? 0)); [reflexivity|].
  destruct (load64 (wrap64 (b + off_bnext)) s2) as [nx s3|e]; [|reflexivity].
  apply IH.
Qed.

(** In a reachable state the used regions of the heap, the bookkeeping
    regions apart, are exactly the regions of the pointers the client
    holds. *)
Lemma reachable_exactly s L :
  reachable s L ->
  exists bl R, heap_ok s bl R /\ exact s bl /\ forall p, In p L <-> is_live bl R p.
Proof.
  induction 1 as [tape
                 |s L fuel n p s' Hr IH Hn Hok
                 |s L fuel k n p s' Hr IH Hn Hok
                 |s L fuel p n q s' Hr IH Hin Hn Hok
                 |s L fuel p s' Hr IH Hin Hok
                 |s L p i v Hr IH Hin Hi].
  - exists [], (fun _ => []). split; [|split].
    + constructor; cbn.
      * reflexivity.
      * constructor.
      * intros B [].
      * intros B1 B2 [].
      * constructor.
      * left. reflexivity.
      * intros Hc. contradiction.
    + intros B [].
    + intros p. split.
      * intros Hc. destruct Hc.
      * intros [B [r [Hc _]]]. destruct Hc.
  - destruct IH as [bl [R [H [Hex HL]]]].
    destruct (fuel_ok_exists bl R) as [N HN].
    assert (Hrdy : bl = [] -> os_ready s (block_len (PAGE_SIZE * 4)) = true).
    { intros ->. eapply malloc_ok_ready; eassumption. }
    destruct (wp_ok _ _ _ _ _ _ (malloc_track fuel s bl R n N H Hrdy HN) Hok)
      as [bl' [R' [Hp [Hback _]]]].
    pose proof (mp_heap _ _ _ _ _ _ _ _ Hp) as H'.
    exists bl', R'. split; [exact H'|].
    split; [exact (mp_exact _ _ _ _ _ _ _ _ Hp Hex Hn)|].
    intros q. split.
    + intros Hq. destruct (Z.eqb_spec p 0) as [Ep|Ep].
      * apply (malloc_live _ _ _ _ _ _ _ _ q Hp). apply HL. exact Hq.
      * destruct Hq as [<-|Hq].
        -- apply (malloc_new_live _ _ _ _ _ _ _ _ Hp Ep).
        -- apply (malloc_live _ _ _ _ _ _ _ _ q Hp). apply HL. exact Hq.
    + intros Hq. pose proof (live_pos _ _ _ _ H' Hq) as Hq0.
      destruct (Hback q Hq) as [E|Hq1].
      * subst q. destruct (Z.eqb_spec p 0); [lia|left; reflexivity].
      * apply HL in Hq1. destruct (p =? 0); [exact Hq1|right; exact Hq1].
  - destruct IH as [bl [R [H [Hex HL]]]].
    destruct (fuel_ok_exists bl R) as [N HN].
    assert (Hrdy : n <> 0 -> bl = [] -> os_ready s (block_len (PAGE_SIZE * 4)) = true).
    { intros Hn0 ->. eapply calloc_ok_ready; eassumption. }
    destruct (wp_ok _ _ _ _ _ _ (calloc_track fuel s bl R k n N H Hrdy HN) Hok)
      as [bl' [R' [Hp Hback]]].
    pose proof (cp_heap _ _ _ _ _ _ _ _ _ Hp) as H'.
    exists bl', R'. split; [exact H'|].
    split; [exact (cp_exact _ _ _ _ _ _ _ _ _ Hp Hex Hn)|].
    intros q. split.
    + intros Hq. destruct (Z.eqb_spec p 0) as [Ep|Ep].
      * apply (cp_live _ _ _ _ _ _ _ _ _ Hp). apply HL. exact Hq.
      * destruct Hq as [<-|Hq].
        -- apply (cp_new _ _ _ _ _ _ _ _ _ Hp Ep).
        -- apply (cp_live _ _ _ _ _ _ _ _ _ Hp). apply HL. exact Hq.
    + intros Hq. pose proof (live_pos _ _ _ _ H' Hq) as Hq0.
      destruct (Hback q Hq) as [E|Hq1].
      * subst q. destruct (Z.eqb_spec p 0); [lia|left; reflexivity].
      * apply HL in Hq1. destruct (p =? 0); [exact Hq1|right; exact Hq1].
  - destruct IH as [bl [R [H [Hex HL]]]].
    destruct (fuel_ok_exists bl R) as [N HN].
    destruct (wp_ok _ _ _ _ _ _
                (realloc_track fuel s bl R p n N H Hex (proj1 (HL p) Hin) Hn HN) Hok)
      as [bl' [R' [Hp Hback]]].
    pose proof (rp_heap _ _ _ _ _ _ _ _ _ Hp) as H'.
    exists bl', R'. split; [exact H'|].
    split; [exact (rp_exact _ _ _ _ _ _ _ _ _ Hp Hex Hn)|].
    intros x. split.
    + intros Hx. destruct (Z.eqb_spec q 0) as [Eq|Eq].
      * apply (rp_same _ _ _ _ _ _ _ _ _ Hp (or_introl Eq)). apply HL. exact Hx.
      * destruct (Z.eqb_spec q p) as [Eqp|Eqp].
        -- apply (rp_same _ _ _ _ _ _ _ _ _ Hp (or_intror Eqp)). apply HL. exact Hx.
        -- destruct (rp_new _ _ _ _ _ _ _ _ _ Hp Eq Eqp) as [Hq Hrest].
           destruct Hx as [<-|Hx]; [exact Hq|].
           apply in_remove in Hx. destruct Hx as [Hx Hxp].
           apply Hrest; [apply HL; exact Hx|exact Hxp].
    + intros Hx. pose proof (live_pos _ _ _ _ H' Hx) as Hx0.
      destruct (Hback x Hx) as [E|[Hx1 Hc]].
      * subst x. destruct (Z.eqb_spec q 0); [lia|].
        destruct (Z.eqb_spec q p) as [->|]; [exact Hin|left; reflexivity].
      * apply HL in Hx1. destruct (Z.eqb_spec q 0); [exact Hx1|].
        destruct (Z.eqb_spec q p); [exact Hx1|]. right.
        apply in_in_remove; [|exact Hx1]. destruct Hc as [Hc|[Hc|Hc]]; [lia|lia|exact Hc].
  - destruct IH as [bl [R [H [Hex HL]]]].
    destruct (fuel_ok_exists bl R) as [N HN].
    destruct (wp_ok _ _ _ _ _ _
                (free_track (fun _ => True) fuel s bl R p N H Hex (proj1 (HL p) Hin) HN
                   (heap_covered_all s bl R) (fun _ _ => I)) Hok)
      as [[bl' [R' [Hp Hback]]] _].
    exists bl', R'. split; [exact (fp_heap _ _ _ _ _ _ _ Hp)|].
    split; [exact (fp_exact _ _ _ _ _ _ _ Hp)|].
    intros x. split.
    + intros Hx. apply in_remove in Hx. destruct Hx as [Hx Hxp].
      apply (fp_live _ _ _ _ _ _ _ Hp); [apply HL; exact Hx|exact Hxp].
    + intros Hx. destruct (Hback x Hx) as [Hx1 Hxp].
      apply in_in_remove; [exact Hxp|apply HL; exact Hx1].
  - destruct IH as [bl [R [H [Hex HL]]]].
    destruct (live_facts _ _ _ _ H (proj1 (HL p) Hin)) as
      [B [r [HB [Hr0 [Hu [Hnb [Epr [Esz [Eus [Epl [Hrs [Hlo [Hhi [Htop [HB0 [Hal Hm]]]]]]]]]]]]]]]].
    destruct (heap_payload s bl R B r (set8 (bytes s) (p + i) v) H HB Hr0 Hu) as [H2 Hex2].
    { intros x Hx. unfold set8, r_end in *. destruct (Z.eqb_spec x (p + i)); [lia|reflexivity]. }
    exists bl, R. split; [exact H2|]. split; [exact (Hex2 Hex)|exact HL].
Qed.

(** ** [malloc] *)

(** X1. In a bounded run, a pointer other than nil that [malloc(n)] returns,
    [n] at most [MAXREQ], is new to the client; the region in front of it is
    marked used, its payload has room for more than [n] bytes, and the region
    is mapped. *)
Theorem malloc_gives_block s L fuel n p s' :
  reachable s L -> 0 <= n <= MAXREQ -> malloc fuel n s = Ok p s' -> p <> 0 ->
  ~ In p L /\
  md_used (get32 (bytes s') (p - 4)) = 1 /\
  n < payload_len s' p /\
  forall i, -4 <= i < payload_len s' p + 4 -> is_mapped (mapped s') (p + i) = true.
Proof.
  intros Hr Hn Hok Hp. destruct (reachable_inv _ _ Hr) as [bl [R [H [Hex HL]]]].
  destruct (fuel_ok_exists bl R) as [N HN].
  pose proof (reachable_ready s fuel n p s' bl R H Hok) as Hrdy.
  destruct (wp_ok _ _ _ _ _ _ (malloc_spec fuel s bl R n N H Hrdy HN) Hok) as [bl' [R' Hpost]].
  pose proof (mp_heap _ _ _ _ _ _ _ _ Hpost) as H'.
  destruct (mp_new _ _ _ _ _ _ _ _ Hpost Hp) as
    [B0 [r0 [HB0' [Hr0' [_ [_ [Ep0 [_ [Hsz Hfresh]]]]]]]]].
  pose proof (malloc_new_live _ _ _ _ _ _ _ _ Hpost Hp) as Hlive.
  destruct (live_facts _ _ _ _ H' Hlive) as
    [B [r [HB [Hr0 [Hu [Hnb [Epr [Esz [Eus [Epl [Hrs [Hlo [Hhi [Htop [HB0 [Hal Hm]]]]]]]]]]]]]]]].
  assert (r0 = r).
  { destruct (heap_addr_inj _ _ _ _ _ _ _ H' HB0' HB Hr0' Hr0) as [_ E]; [lia|exact E]. }
  split; [intros Hin; apply Hfresh, HL; exact Hin|].
  split; [exact Eus|]. split.
  - rewrite Epl. subst r0. rewrite wrap32_small in Hsz by (unfold MAXREQ in Hn; lia). lia.
  - intros i Hi. apply Hm. unfold r_end in Hhi. lia.
Qed.

(** X2. In a bounded run, [malloc(n)], for any [n] and whatever it returns,
    changes neither the length nor the contents of a payload the client holds. *)
Theorem malloc_preserves s L fuel n p s' q :
  reachable s L -> malloc fuel n s = Ok p s' -> In q L ->
  payload_len s' q = payload_len s q /\
  forall i, 0 <= i < payload_len s q -> bytes s' (q + i) = bytes s (q + i).
Proof.
  intros Hr Hok Hq.
  destruct (malloc_outcome _ _ _ _ _ _ Hr Hok) as [bl [R [bl' [R' [H [_ [HL [_ [K _]]]]]]]]].
  apply (region_kept s s' bl R q H (HL q Hq)).
  intros x Hx. apply K. apply (live_in_used s bl R q x H (HL q Hq) Hx).
Qed.

(** X3. In a bounded run, the region [malloc(n)] hands out, for any [n],
    overlaps no region the client holds. *)
Theorem malloc_disjoint s L fuel n p s' q :
  reachable s L -> malloc fuel n s = Ok p s' -> p <> 0 -> In q L ->
  p + payload_len s' p + 4 <= q - 4 \/ q + payload_len s q + 4 <= p - 4.
Proof.
  intros Hr Hok Hp Hq.
  destruct (malloc_outcome _ _ _ _ _ _ Hr Hok)
    as [bl [R [bl' [R' [H [_ [HL [Hpost [K Hnew]]]]]]]]].
  pose proof (mp_heap _ _ _ _ _ _ _ _ Hpost) as H'.
  pose proof (malloc_new_live _ _ _ _ _ _ _ _ Hpost Hp) as Hlp.
  pose proof (malloc_live _ _ _ _ _ _ _ _ q Hpost (HL q Hq)) as Hlq.
  assert (Hne : p <> q).
  { intros ->. destruct (mp_new _ _ _ _ _ _ _ _ Hpost Hp) as [_ [_ [_ [_ [_ [_ [_ [_ [_ Hf]]]]]]]]].
    apply Hf, HL, Hq. }
  destruct (region_kept s s' bl R q H (HL q Hq)) as [E _].
  { intros x Hx. apply K. apply (live_in_used s bl R q x H (HL q Hq) Hx). }
  rewrite <- E. apply (live_apart s' bl' R' p q H' Hlp Hlq Hne).
Qed.

(** X4. In a bounded run, with a block in the list, or a provider ready to map
    the first one, [malloc(n)] returns, for any [n], given enough fuel for its
    list traversals. *)
Theorem malloc_returns s L n :
  reachable s L ->
  (blockList s = 0 -> os_ready s (next_block_len s n) = true) ->
  exists N, forall fuel, (N < fuel)%nat -> exists p s', malloc fuel n s = Ok p s'.
Proof.
  intros Hr Hrdy. destruct (reachable_inv _ _ Hr) as [bl [R [H [Hex HL]]]].
  destruct (fuel_ok_exists bl R) as [N HN]. exists N. intros fuel Hf.
  assert (Hrdy' : bl = [] -> os_ready s (block_len (PAGE_SIZE * 4)) = true).
  { intros ->. pose proof (hp_list _ _ _ H) as Hl. cbn [lseg] in Hl.
    specialize (Hrdy Hl). unfold next_block_len in Hrdy. rewrite Hl in Hrdy. exact Hrdy. }
  destruct (wp_total (fuel <= N)%nat (malloc fuel n) s _
              (malloc_spec fuel s bl R n N H Hrdy' HN)) as [p [s' [E _]]]; [lia|].
  exists p, s'. exact E.
Qed.

(** X5. With an empty block list and a provider that refuses,
    [getBlockWithFreeRegion] reads [usedSize] through the null block
    pointer that [createHeapBlock] returned: [malloc] faults. *)
Theorem malloc_first_block_refused s L fuel n :
  reachable s L -> blockList s = 0 -> os_ready s (next_block_len s n) = false ->
  malloc fuel n s = Err SegFault.
Proof.
  intros Hr Hl Hno. destruct (reachable_inv _ _ Hr) as [bl [R [H [Hex HL]]]].
  unfold next_block_len in Hno. rewrite Hl in Hno. cbn [Z.eqb] in Hno.
  assert (Hm8 : forall mp, mp = mapped s -> mapped_n mp 4 (wrap64 (0 + off_usedSize)) = false).
  { intros mp ->. change (wrap64 (0 + off_usedSize)) with 8.
    destruct (mapped_n (mapped s) 4 8) eqn:Em4; [|reflexivity].
    apply mapped_n_first in Em4.
    pose proof (is_mapped_bound _ _ (hp_user _ _ _ H) Em4) as Hb.
    unfold PAGE_SIZE in Hb. lia. }
  assert (E1 : exists s1, Block_create (PAGE_SIZE * 4) s = Ok 0 s1 /\ mapped s1 = mapped s).
  { destruct (wp_total False (Block_create (PAGE_SIZE * 4)) s
                (fun b s1 => b = 0 /\ mapped s1 = mapped s)) as [b [s1 [E [-> Em]]]].
    - apply Block_create_spec; [exact (hp_page _ _ _ H)| |].
      + intros s1 _ _ Em _ _ _. split; [reflexivity|exact Em].
      + intros a tape m1 Et Ha _ _. unfold os_ready in Hno. rewrite Et, Ha in Hno.
        discriminate.
    - intros [].
    - exists s1. split; assumption. }
  destruct E1 as [s1 [E1 Em]].
  unfold malloc, getBlockWithFreeRegion, createHeapBlock, bind, get_blockList.
  rewrite Hl. cbn [Z.eqb]. rewrite E1.
  unfold Block_allocateRegion, Block_canAllocateSize, bind, ret. cbn [Z.eqb].
  unfold BlockList_addBlockToList, bind, get_blockList, ret. cbn [Z.eqb].
  unfold load32, loadN. rewrite (Hm8 _ Em). reflexivity.
Qed.

(** X6. With an empty block list [malloc] maps a block of five pages whatever
    the request, makes it the head of the list, and serves the request
    from it: a request of up to 20343 bytes gets the address 128 bytes
    into the block, a larger one gets nil and leaves the block in place. *)
Theorem malloc_first_block s L fuel n p s' :
  reachable s L -> blockList s = 0 -> 0 <= n <= MAXREQ ->
  malloc fuel n s = Ok p s' ->
  exists a, mapped s' = (a, a + 5 * PAGE_SIZE) :: mapped s /\
            blockList s' = a /\
            (n <= 20343 -> p = a + 128) /\ (20344 <= n -> p = 0).
Proof.
  intros Hr Hl Hn Hok. destruct (reachable_inv _ _ Hr) as [bl [R [H [Hex HL]]]].
  assert (Hbl : bl = []).
  { pose proof (hp_list _ _ _ H) as Hs. rewrite Hl in Hs. exact (lseg_nil_head _ _ _ Hs). }
  subst bl. destruct (fuel_ok_exists [] R) as [N HN].
  assert (Hrdy : (@nil Z) = (@nil Z) -> os_ready s (block_len (PAGE_SIZE * 4)) = true).
  { intros _. eapply malloc_ok_ready; eassumption. }
  refine (wp_ok _ _ _ _ _ _ (malloc_cases fuel s [] R n N
    (fun p s' => exists a, mapped s' = (a, a + 5 * PAGE_SIZE) :: mapped s /\
                   blockList s' = a /\
                   (n <= 20343 -> p = a + 128) /\ (20344 <= n -> p = 0))
    H Hrdy HN _) Hok).
  intros b s1 bl1 R1 Hres H1.
  inversion Hres as [B HB _|s0 Hc _ _ _|a sz s0 bl' Esz _ Hacc _ Hmem Hmp _ _ _];
    [destruct HB|contradiction|]. subst.
  rewrite Hl in *. cbn [Z.eqb] in *.
  destruct (mmap_accepts_facts _ _ _ Hacc) as [_ [Ha0 [Hal _]]].
  change (block_len (PAGE_SIZE * 4)) with 20480 in *.
  assert (Hbl1 : bl1 = [b]).
  { pose proof (hp_nodup _ _ _ H1) as Hnd.
    destruct bl1 as [|x [|y l]].
    - exfalso. apply (proj2 (Hmem b)). left. reflexivity.
    - destruct (proj1 (Hmem x) (or_introl eq_refl)) as [->|[]]. reflexivity.
    - exfalso.
      destruct (proj1 (Hmem x) (or_introl eq_refl)) as [->|[]].
      destruct (proj1 (Hmem y) (or_intror (or_introl eq_refl))) as [->|[]].
      inversion Hnd as [|? ? Hnin _]. apply Hnin. left. reflexivity. }
  assert (Hhd : blockList s1 = b).
  { pose proof (hp_list _ _ _ H1) as Hs. rewrite Hbl1 in Hs. cbn [lseg] in Hs. tauto. }
  set (r0 := mkRegion (b + 124) 20356 0).
  assert (HR : upd R b (first_regions b 20480) b = [bookkeeping b; r0]).
  { rewrite upd_same. reflexivity. }
  assert (Hfit : al_of r0 n < 20356 <-> n <= 20343).
  { unfold al_of.
    destruct (aligned_facts (r_addr r0) (wrap32 (n + 8)) (wrap32_range _)) as [A1 [_ [A2 A3]]].
    cbv zeta in A1, A2, A3.
    rewrite wrap32_small in * by (unfold MAXREQ in Hn; lia).
    assert (A4 : FreeRegion_getSizeForAlignment (r_addr r0) (n + 8) <= Z.max (n + 8) 28 + 16).
    { destruct (Z.lt_ge_cases (n + 8) 28) as [Hlt|Hge].
      - rewrite (FGSA_pad _ (n + 8)) by lia.
        destruct (aligned_facts (r_addr r0) 0 ltac:(lia)) as [_ [_ [B3 _]]]. cbv zeta in B3. lia.
      - pose proof (aligned_upper (r_addr r0) (n + 8) ltac:(unfold MAXREQ in Hn; lia)). lia. }
    cbn [r0 r_addr] in *. unfold PAGE_SIZE in Hal.
    set (al := FreeRegion_getSizeForAlignment (b + 124) (n + 8)) in *.
    clearbody al. split; intros; dlia. }
  change (5 * PAGE_SIZE) with 20480.
  split.
  - intros Hcase. exists b. rewrite Hmp, Hhd. split; [reflexivity|]. split; [reflexivity|].
    split.
    + intros Hle. exfalso. destruct Hcase as [->|[_ Hno]]; [lia|].
      apply (Hno r0); [|apply Hfit; exact Hle].
      split; [rewrite HR; right; left; reflexivity|reflexivity].
    + intros _. reflexivity.
  - intros r rest m' rs' _ Hp Hfree Hlt _ _ _ _ _.
    assert (Er : r = r0).
    { assert (Hin : In r [bookkeeping b; r0]).
      { rewrite <- HR. eapply Permutation_in; [apply Permutation_sym; exact Hp|].
        left. reflexivity. }
      destruct Hin as [<-|[<-|[]]]; [cbn in Hfree; lia|reflexivity]. }
    subst r. exists b. rewrite mapped_with_bytes, blockList_with_bytes, Hmp, Hhd.
    split; [reflexivity|]. split; [reflexivity|].
    cbn [r0 r_addr r_size] in *. split; [intros _; lia|].
    intros Hge. exfalso. apply Hfit in Hlt. lia.
Qed.

(** X7. The size of a region is kept in 28 bits: a request of 256 MiB or
    more is never granted, whatever the provider maps for it. *)
Theorem malloc_too_large s L fuel n p s' :
  reachable s L -> 2^28 <= n <= MAXREQ -> malloc fuel n s = Ok p s' -> p = 0.
Proof.
  intros Hr Hn Hok. destruct (reachable_inv _ _ Hr) as [bl [R [H [Hex HL]]]].
  destruct (fuel_ok_exists bl R) as [N HN].
  pose proof (reachable_ready s fuel n p s' bl R H Hok) as Hrdy.
  destruct (wp_ok _ _ _ _ _ _ (malloc_spec fuel s bl R n N H Hrdy HN) Hok) as [bl' [R' Hpost]].
  destruct (Z.eq_dec p 0) as [E|Hp]; [exact E|exfalso].
  destruct (mp_new _ _ _ _ _ _ _ _ Hpost Hp) as [B [r [HB [Hr0 [_ [_ [_ [_ [Hsz _]]]]]]]]].
  pose proof (bk_gen _ _ _ _ (hp_blocks _ _ _ (mp_heap _ _ _ _ _ _ _ _ Hpost) B HB)) as G.
  pose proof (bg_bounds _ _ _ _ _ _ G Hr0) as Hb.
  rewrite wrap32_small in Hsz by (unfold MAXREQ in Hn; lia). lia.
Qed.

(** X8. Sizes are cut to 32 bits on the way to the block: with an empty block
    list, or with a block in the list that can take [n] bytes, a request
    of [n + 2^32] bytes is served exactly as a request of [n] bytes. *)
Theorem malloc_truncates fuel n s :
  (blockList s = 0 \/
   exists b s1, findBlock fuel fuel (blockList s) n s = Ok b s1 /\ b <> 0) ->
  malloc fuel (n + 2^32) s = malloc fuel n s.
Proof.
  intros Hc. unfold malloc, bind at 1 3.
  assert (E : getBlockWithFreeRegion fuel (n + 2^32) s = getBlockWithFreeRegion fuel n s).
  { unfold getBlockWithFreeRegion.
    do 2 change (bind get_blockList ?k s) with (k (blockList s) s). cbv beta.
    destruct (Z.eqb_spec (blockList s) 0) as [E0|E0]; [reflexivity|].
    destruct Hc as [Hc|[b [s1 [Hf Hb]]]]; [contradiction|].
    assert (Hb1 : forall (k : Z -> M Z) size,
              bind (findBlock fuel fuel (blockList s) size) k s =
              match findBlock fuel fuel (blockList s) size s with
              | Ok a s' => k a s'
              | Err e => Err e
              end) by reflexivity.
    rewrite !Hb1, findBlock_wraps, Hf.
    destruct (Z.eqb_spec b 0); [contradiction|]. reflexivity. }
  rewrite E. destruct (getBlockWithFreeRegion fuel n s) as [b s1|e]; [|reflexivity].
  rewrite allocateRegion_wraps. reflexivity.
Qed.

(** ** [free] *)

(** X9. In a bounded run, [free(p)] of a pointer the client holds changes
    neither the length nor the contents of the other payloads the client
    holds, and they stay mapped. *)
Theorem free_preserves s L fuel p s' q :
  reachable s L -> In p L -> free fuel p s = Ok tt s' -> In q L -> q <> p ->
  payload_len s' q = payload_len s q /\
  forall i, 0 <= i < payload_len s q ->
    bytes s' (q + i) = bytes s (q + i) /\ is_mapped (mapped s') (q + i) = true.
Proof.
  intros Hr Hp Hok Hq Hne. destruct (reachable_inv _ _ Hr) as [bl [R [H [Hex HL]]]].
  destruct (wp_ok _ _ _ _ _ _ (free_keeps fuel s bl R p H Hex (HL p Hp)) Hok)
    as [[bl' [R' Hpost]] [K _]].
  pose proof (live_apart s bl R p q H (HL p Hp) (HL q Hq) (fun E => Hne (eq_sym E))) as Hap.
  destruct (region_kept s s' bl R q H (HL q Hq)) as [E1 E2].
  { intros x Hx. apply K; [apply (live_in_used s bl R q x H (HL q Hq) Hx)|lia]. }
  split; [exact E1|]. intros i Hi. split; [apply E2; exact Hi|].
  pose proof (fp_live _ _ _ _ _ _ _ Hpost q (HL q Hq) Hne) as Hl'.
  destruct (live_facts _ _ _ _ (fp_heap _ _ _ _ _ _ _ Hpost) Hl') as
    [B [r [HB [Hr0 [Hu [Hnb [Epr [Esz [Eus [Epl [Hrs [Hlo [Hhi [Htop [HB0 [Hal Hm]]]]]]]]]]]]]]]].
  apply Hm. unfold r_end in Hhi. rewrite E1 in Epl. lia.
Qed.

(** X10. In a bounded run, [free] of a pointer the client holds returns, given
    enough fuel for its list traversals. *)
Theorem free_returns s L p :
  reachable s L -> In p L ->
  exists N, forall fuel, (N < fuel)%nat -> exists s', free fuel p s = Ok tt s'.
Proof.
  intros Hr Hp. destruct (reachable_inv _ _ Hr) as [bl [R [H [Hex HL]]]].
  destruct (fuel_ok_exists bl R) as [N HN]. exists N. intros fuel Hf.
  destruct (wp_total (fuel <= N)%nat (free fuel p) s _
              (free_frame (fun _ => True) fuel s bl R p N H Hex (HL p Hp) HN
                 (heap_covered_all s bl R) (fun _ _ => I))) as [[] [s' [E _]]]; [lia|].
  exists s'. exact E.
Qed.

(** X11. In a bounded run, what [free(p)] of a pointer the client holds does
    with the block of [p]: when the client holds another pointer into the
    block, the mapping stays as it is; when [p] was the last one, the pages of
    the block, and nothing else, are returned to the kernel, so that [p] is no
    longer mapped. *)
Theorem free_block_fate s L fuel p s' :
  reachable s L -> In p L -> free fuel p s = Ok tt s' ->
  exists B,
    B + sizeof_BlockHeader <= p - 4 /\
    p + payload_len s p + 4 <= B + bsize (bytes s) B /\
    ((exists q, In q L /\ q <> p /\ B <= q < B + bsize (bytes s) B) ->
     mapped s' = mapped s) /\
    ((forall q, In q L -> q <> p -> ~ (B <= q < B + bsize (bytes s) B)) ->
     forall x, is_mapped (mapped s') x =
               is_mapped (mapped s) x && negb ((B <=? x) && (x <? B + bsize (bytes s) B))).
Proof.
  intros Hr Hp Hok. destruct (reachable_exactly _ _ Hr) as [bl [R [H [Hex HL]]]].
  pose proof (proj1 (HL p) Hp) as Hlive.
  destruct (wp_ok _ _ _ _ _ _ (free_keeps fuel s bl R p H Hex Hlive) Hok)
    as [_ [_ [B [HB [HpB Hcase]]]]].
  destruct (live_facts _ _ _ _ H Hlive) as
    [B0 [r [HB0 [Hr0 [Hu [Hnb [Epr [Esz [Eus [Epl [Hrs [Hlo [Hhi [Htop [HBp [Hal Hm]]]]]]]]]]]]]]]].
  assert (B = B0).
  { apply (live_block_unique s bl R B0 r B H HB0 Hr0 HB). lia. }
  subst B0. unfold r_end in Hhi.
  exists B. split; [unfold sizeof_BlockHeader; lia|]. split; [lia|]. split.
  - intros [q [Hq [Hqp HqB]]].
    destruct Hcase as [[_ Em]|[Hnone _]]; [exact Em|].
    exfalso. apply (Hnone q (proj1 (HL q) Hq) Hqp HqB).
  - intros Hnone x.
    destruct Hcase as [[[q [Hq [Hqp HqB]]] _]|[_ Em]].
    + exfalso. apply (Hnone q (proj2 (HL q) Hq) Hqp HqB).
    + rewrite Em. apply is_mapped_unmap.
Qed.

(** X12. In a bounded run, a second [free(p)] right after the first [free(p)]
    of a pointer the client held: when the block of [p] is still mapped, the
    header in front of [p] is marked free and the call returns without
    changing anything; when the first call returned the block to the kernel,
    the second one faults on reading the header. *)
Theorem free_twice s L fuel p s' :
  reachable s L -> In p L -> free fuel p s = Ok tt s' ->
  (is_mapped (mapped s') p = true /\ forall fuel', free fuel' p s' = Ok tt s') \/
  (is_mapped (mapped s') p = false /\ forall fuel', free fuel' p s' = Err SegFault).
Proof.
  intros Hr Hp Hok. destruct (reachable_inv _ _ Hr) as [bl [R [H [Hex HL]]]].
  pose proof (HL p Hp) as Hlive. pose proof USER_TOP_eq as HT.
  destruct (fuel_ok_exists bl R) as [N HN].
  destruct (wp_ok _ _ _ _ _ _
              (free_track (fun _ => True) fuel s bl R p N H Hex Hlive HN
                 (heap_covered_all s bl R) (fun _ _ => I)) Hok)
    as [_ [_ [[B [HB [HpB Hcase]]] Hu0]]].
  destruct (live_facts _ _ _ _ H Hlive) as
    [B0 [r [HB0 [Hr0 [Hu [Hnb [Epr [Esz [Eus [Epl [Hrs [Hlo [Hhi [Htop [HBp [Hal Hm]]]]]]]]]]]]]]]].
  assert (B = B0).
  { apply (live_block_unique s bl R B0 r B H HB0 Hr0 HB). lia. }
  subst B0. unfold r_end in Hhi.
  assert (Ew : wrap64 (p - sizeof_AllocMetadata) = p - 4).
  { unfold sizeof_AllocMetadata. apply wrap64_small. lia. }
  destruct Hcase as [[_ Em]|[_ Em]].
  - left. split; [rewrite Em; apply Hm; lia|]. intros fuel'.
    destruct (wp_total False (free fuel' p) s' (fun _ s2 => s2 = s')) as [[] [s2 [E ->]]].
    + unfold free. rewrite Ew. apply wp_bind, wp_load_used.
      * rewrite Em. in_block Hm.
      * rewrite Hu0. cbn [Z.eqb]. apply wp_ret. reflexivity.
    + intros [].
    + exact E.
  - assert (Hun : is_mapped (mapped s') (p - 4) = false /\ is_mapped (mapped s') p = false).
    { rewrite Em, !is_mapped_unmap.
      split; apply andb_false_intro2; apply negb_false_iff; apply andb_true_intro;
        split; [apply Z.leb_le|apply Z.ltb_lt|apply Z.leb_le|apply Z.ltb_lt]; lia. }
    right. split; [apply Hun|]. intros fuel'.
    assert (Hl : load_used (p - 4) s' = Err SegFault).
    { unfold load_used, bind, load32, loadN. cbn [mapped_n].
      rewrite (proj1 Hun). reflexivity. }
    unfold free. rewrite Ew. unfold bind at 1. rewrite Hl. reflexivity.
Qed.

(** ** [calloc] *)

(** X13. In a bounded run, [calloc], for any arguments and whatever it
    returns, changes neither the length nor the contents of a payload the
    client holds. *)
Theorem calloc_preserves s L fuel k n p s' q :
  reachable s L -> calloc fuel k n s = Ok p s' -> In q L ->
  payload_len s' q = payload_len s q /\
  forall i, 0 <= i < payload_len s q -> bytes s' (q + i) = bytes s (q + i).
Proof.
  intros Hr Hok Hq. destruct (reachable_inv _ _ Hr) as [bl [R [H [Hex HL]]]].
  assert (Hrdy : n <> 0 -> bl = [] -> os_ready s (block_len (PAGE_SIZE * 4)) = true).
  { intros _ ->. destruct (HL q Hq) as [B [_ [[] _]]]. }
  pose proof (wp_ok _ _ _ _ _ _ (calloc_keeps fuel s bl R k n H Hrdy) Hok) as K.
  apply (region_kept s s' bl R q H (HL q Hq)).
  intros x Hx. apply K. apply (live_in_used s bl R q x H (HL q Hq) Hx).
Qed.

(** X14. In a bounded run, with a block in the list, or a provider ready to
    map the first one, [calloc] returns, for any arguments, given enough fuel. *)
Theorem calloc_returns s L k n :
  reachable s L ->
  (blockList s = 0 -> os_ready s (next_block_len s (wrap64 (k * n))) = true) ->
  exists N, forall fuel, (N < fuel)%nat -> exists p s', calloc fuel k n s = Ok p s'.
Proof.
  intros Hr Hrdy. destruct (reachable_inv _ _ Hr) as [bl [R [H [Hex HL]]]].
  destruct (fuel_ok_exists bl R) as [N HN]. exists N. intros fuel Hf.
  assert (Hrdy' : n <> 0 -> bl = [] -> os_ready s (block_len (PAGE_SIZE * 4)) = true).
  { intros _ ->. pose proof (hp_list _ _ _ H) as Hl. cbn [lseg] in Hl.
    specialize (Hrdy Hl). unfold next_block_len in Hrdy. rewrite Hl in Hrdy. exact Hrdy. }
  destruct (wp_total (fuel <= N)%nat (calloc fuel k n) s _
              (calloc_track fuel s bl R k n N H Hrdy' HN)) as [p [s' [E _]]]; [lia|].
  exists p, s'. exact E.
Qed.

(** ** [realloc] *)

(** X15. In a bounded run, when [realloc(p, n)] of a pointer the client holds,
    [n] at most [MAXREQ], returns a pointer other than nil and other than [p],
    the payload there begins with the bytes the payload of [p] held, as many
    as the shorter of the old payload and [n]. *)
Theorem realloc_copies s L fuel p n q s' :
  reachable s L -> In p L -> 0 <= n <= MAXREQ ->
  realloc fuel p n s = Ok q s' -> q <> 0 -> q <> p ->
  forall i, 0 <= i < payload_len s p -> i < n ->
    get8 (bytes s') (q + i) = get8 (bytes s) (p + i).
Proof.
  intros Hr Hp Hn Hok Hq0 Hqp. destruct (reachable_inv _ _ Hr) as [bl [R [H [Hex HL]]]].
  destruct (wp_ok _ _ _ _ _ _ (realloc_keeps fuel s bl R p n H Hex (HL p Hp) Hn) Hok)
    as [_ [Hc _]].
  apply Hc; assumption.
Qed.

(** X16. In a bounded run, [realloc(p, n)] of a pointer the client holds, [n]
    at most [MAXREQ], changes neither the length nor the contents of the other
    payloads the client holds; when it returns nil or [p], the same holds for
    the payload of [p]. *)
Theorem realloc_preserves s L fuel p n q s' x :
  reachable s L -> In p L -> 0 <= n <= MAXREQ ->
  realloc fuel p n s = Ok q s' -> In x L -> (x <> p \/ q = 0 \/ q = p) ->
  payload_len s' x = payload_len s x /\
  forall i, 0 <= i < payload_len s x -> bytes s' (x + i) = bytes s (x + i).
Proof.
  intros Hr Hp Hn Hok Hx Hc. destruct (reachable_inv _ _ Hr) as [bl [R [H [Hex HL]]]].
  destruct (wp_ok _ _ _ _ _ _ (realloc_keeps fuel s bl R p n H Hex (HL p Hp) Hn) Hok)
    as [K _].
  apply (region_kept s s' bl R x H (HL x Hx)).
  intros y Hy. apply K; [apply (live_in_used s bl R x y H (HL x Hx) Hy)|].
  destruct Hc as [Hne|[Hc|Hc]]; [|left; exact Hc|right; left; exact Hc].
  right. right.
  pose proof (live_apart s bl R p x H (HL p Hp) (HL x Hx) (fun E => Hne (eq_sym E))). lia.
Qed.

(** X17. In a bounded run, [realloc(p, n)] of a pointer the client holds, [n]
    at most [MAXREQ], returns [p], and changes nothing, exactly when [n] is
    the length of the payload of [p]: any other size up to [MAXREQ] moves the
    contents to a new region or fails, also when [n] is smaller. *)
Theorem realloc_in_place s L fuel p n q s' :
  reachable s L -> In p L -> 0 <= n <= MAXREQ ->
  realloc fuel p n s = Ok q s' ->
  (payload_len s p = n -> q = p /\ s' = s) /\ (payload_len s p <> n -> q <> p).
Proof.
  intros Hr Hp Hn Hok. destruct (reachable_inv _ _ Hr) as [bl [R [H [Hex HL]]]].
  destruct (wp_ok _ _ _ _ _ _ (realloc_keeps fuel s bl R p n H Hex (HL p Hp) Hn) Hok)
    as [_ [_ Hc]].
  exact Hc.
Qed.

(** X18. In a bounded run, [realloc(p, n)] of a pointer the client holds, [n]
    at most [MAXREQ], returns, given enough fuel: it neither faults nor loops. *)
Theorem realloc_returns s L p n :
  reachable s L -> In p L -> 0 <= n <= MAXREQ ->
  exists N, forall fuel, (N < fuel)%nat -> exists q s', realloc fuel p n s = Ok q s'.
Proof.
  intros Hr Hp Hn. destruct (reachable_inv _ _ Hr) as [bl [R [H [Hex HL]]]].
  destruct (fuel_ok_exists bl R) as [N HN]. exists (S N). intros fuel Hf.
  destruct (wp_total (fuel <= S N)%nat (realloc fuel p n) s _
              (realloc_track fuel s bl R p n N H Hex (HL p Hp) Hn HN)) as [q [s' [E _]]]; [lia|].
  exists q, s'. exact E.
Qed.

(** ** What the client holds *)

(** X19. In a bounded run, two pointers the client holds have disjoint
    regions, headers and footers included. *)
Theorem held_apart s L p q :
  reachable s L -> In p L -> In q L -> p <> q ->
  p + payload_len s p + 4 <= q - 4 \/ q + payload_len s q + 4 <= p - 4.
Proof.
  intros Hr Hp Hq Hne. destruct (reachable_inv _ _ Hr) as [bl [R [H [Hex HL]]]].
  exact (live_apart s bl R p q H (HL p Hp) (HL q Hq) Hne).
Qed.

(** X20. In a bounded run, a pointer stays valid for as long as the client
    holds it: its region is mapped, header and footer included, marked used,
    and its payload has at least 20 bytes and starts behind the block header
    and the bookkeeping region of a mapped block. *)
Theorem held_valid s L p :
  reachable s L -> In p L ->
  md_used (get32 (bytes s) (p - 4)) = 1 /\
  20 <= payload_len s p < 2^28 /\
  (forall i, -4 <= i < payload_len s p + 4 -> is_mapped (mapped s) (p + i) = true) /\
  PAGE_SIZE + 128 <= p /\ p + payload_len s p + 4 <= USER_TOP.
Proof.
  intros Hr Hp. destruct (reachable_inv _ _ Hr) as [bl [R [H [Hex HL]]]].
  destruct (live_facts _ _ _ _ H (HL p Hp)) as
    [B [r [HB [Hr0 [Hu [Hnb [Epr [Esz [Eus [Epl [Hrs [Hlo [Hhi [Htop [HB0 [Hal Hm]]]]]]]]]]]]]]]].
  unfold r_end in Hhi.
  assert (HBm : is_mapped (mapped s) B = true).
  { apply Hm. pose proof (heap_block_bounds _ _ _ _ H HB). lia. }
  pose proof (is_mapped_bound _ _ (hp_user _ _ _ H) HBm) as HBb.
  split; [exact Eus|]. split; [lia|]. split; [|lia].
  intros i Hi. apply Hm. lia.
Qed.

(** ** The heap *)

(** X21. In a bounded run, the blocks linked from [blockList] form a list that
    ends in nil and repeats no block; each block is 16-byte aligned, at least
    a page long, mapped over its whole length, and its page count times the
    page size is its length; two blocks do not overlap; and every pointer the
    client holds lies in one of them, behind the block header and the
    bookkeeping region. *)
Theorem block_list_invariant s L :
  reachable s L ->
  exists bl,
    lseg (bytes s) off_bnext (blockList s) bl /\ NoDup bl /\
    (forall B, In B bl ->
       B mod 16 = 0 /\ 4096 <= bsize (bytes s) B /\
       get32 (bytes s) (B + off_pages) * PAGE_SIZE = bsize (bytes s) B /\
       forall x, B <= x < B + bsize (bytes s) B -> is_mapped (mapped s) x = true) /\
    (forall B1 B2, In B1 bl -> In B2 bl ->
       B1 = B2 \/ B1 + bsize (bytes s) B1 <= B2 \/ B2 + bsize (bytes s) B2 <= B1) /\
    (forall p, In p L ->
       exists B, In B bl /\ B + 124 <= p - 4 /\
                 p + payload_len s p + 4 <= B + bsize (bytes s) B).
Proof.
  intros Hr. destruct (reachable_inv _ _ Hr) as [bl [R [H [Hex HL]]]].
  exists bl. split; [exact (hp_list _ _ _ H)|]. split; [exact (hp_nodup _ _ _ H)|].
  split; [|split].
  - intros B HB. pose proof (hp_blocks _ _ _ H B HB) as Hb.
    split; [exact (bk_align _ _ _ _ Hb)|].
    split; [apply (heap_block_bounds _ _ _ _ H HB)|].
    split; [exact (Hex B HB)|]. intros x Hx. exact (heap_block_mapped _ _ _ B x H HB Hx).
  - exact (hp_disj _ _ _ H).
  - intros p Hp.
    destruct (live_facts _ _ _ _ H (HL p Hp)) as
      [B [r [HB [Hr0 [Hu [Hnb [Epr [Esz [Eus [Epl [Hrs [Hlo [Hhi _]]]]]]]]]]]]].
    unfold r_end in Hhi. exists B. split; [exact HB|]. lia.
Qed.

(** X22. In a bounded run, the [usedSize] field of a block exceeds
    [emptyBlockOverheadSize], the test of [Block_haveUserAllocations], exactly
    when the client holds a pointer into the block. *)
Theorem block_occupancy s L :
  reachable s L ->
  exists bl,
    lseg (bytes s) off_bnext (blockList s) bl /\
    forall B, In B bl ->
      (emptyBlockOverheadSize s < get32 (bytes s) (B + off_usedSize) <->
       exists p, In p L /\ B <= p < B + bsize (bytes s) B).
Proof.
  intros Hr. destruct (reachable_exactly _ _ Hr) as [bl [R [H [Hex HL]]]].
  exists bl. split; [exact (hp_list _ _ _ H)|]. intros B HB.
  assert (Hne : bl <> []) by (intros ->; destruct HB).
  destruct (hp_globals _ _ _ H Hne) as [Ge _]. rewrite Ge.
  pose proof (hp_blocks _ _ _ H B HB) as Hb. pose proof (bk_gen _ _ _ _ Hb) as G.
  rewrite (bg_used _ _ _ _ _ G). unfold sizeof_BlockHeader.
  pose proof (bk_book _ _ _ _ Hb) as Hbook.
  split.
  - intros Hgt.
    destruct (used_other_dec (R B) (bookkeeping B)) as [[x [Hx [Hxb Hxu]]]|Hall].
    + pose proof (heap_region_range _ _ _ _ _ H HB Hx) as Hxr. unfold r_end in Hxr.
      exists (r_addr x + 4). split; [|lia].
      apply HL. exists B, x. repeat split; assumption.
    + exfalso.
      assert (sum_used (R B) <= r_size (bookkeeping B)); [|cbn [bookkeeping r_size] in *; lia].
      apply sum_used_only; [exact (bg_nodup _ _ _ _ _ G)|exact Hall|cbn; lia].
  - intros [p [Hp HpB]].
    destruct (proj1 (HL p) Hp) as [B2 [r [HB2 [Hr0 [Hu [Hnb Ep]]]]]].
    assert (B = B2) by (apply (live_block_unique s bl R B2 r B H HB2 Hr0 HB); lia).
    subst B2.
    assert (Hs : r_size (bookkeeping B) + r_size r <= sum_used (R B)).
    { apply sum_used_two; try assumption.
      - intros x Hx. pose proof (bg_bounds _ _ _ _ _ _ G Hx). lia.
      - congruence.
      - reflexivity. }
    pose proof (bg_bounds _ _ _ _ _ _ G Hr0). cbn [bookkeeping r_size] in Hs. lia.
Qed.

(** X23. In a bounded run, the six free lists of every block end in nil and
    repeat no node; the nodes of list [i] are exactly the free regions of the
    block whose size is of class [i], so that a used region is on no list and
    a free region is on one list only. *)
Theorem free_lists_invariant s L :
  reachable s L ->
  exists bl R,
    heap_ok s bl R /\ (forall p, In p L <-> is_live bl R p) /\
    forall B i, In B bl -> 0 <= i < Z.of_nat FREE_BLOCKS_SETS ->
      exists l,
        lseg (bytes s) off_next (get64 (bytes s) (B + off_freeRegions i)) l /\ NoDup l /\
        forall a, In a l <->
          exists r, In r (R B) /\ r_used r = 0 /\ r_addr r = a /\
                    md_used (get32 (bytes s) a) = 0 /\
                    toFreeListIndex (md_size (get32 (bytes s) a)) = i.
Proof.
  intros Hr. destruct (reachable_exactly _ _ Hr) as [bl [R [H [Hex HL]]]].
  exists bl, R. split; [exact H|]. split; [exact HL|].
  intros B i HB Hi. pose proof (bk_gen _ _ _ _ (hp_blocks _ _ _ H B HB)) as G.
  destruct (bg_flists _ _ _ _ _ G i Hi) as [l [Hl [Hnd Hmem]]].
  exists l. split; [exact Hl|]. split; [exact Hnd|].
  intros a. rewrite Hmem. split.
  - intros [r [[Hin Hf] [Ea Ei]]]. exists r. subst a.
    rewrite (bg_used_read _ _ _ _ _ _ G Hin), (bg_size_read _ _ _ _ _ _ G Hin). tauto.
  - intros [r [Hin [Hf [Ea [_ Ei]]]]]. exists r. subst a.
    rewrite (bg_size_read _ _ _ _ _ _ G Hin) in Ei. split; [split; assumption|tauto].
Qed.

(** ** Internal functions *)

(** X24. In a bounded run, [getBlockWithRegion], asked for a pointer the
    client holds, returns the block that contains its whole region, given
    enough fuel; asked for an address that is not mapped, it returns nil.  It
    changes nothing. *)
Theorem getBlockWithRegion_finds s L x :
  reachable s L ->
  exists N, forall fuel, (N < fuel)%nat ->
    exists B, getBlockWithRegion fuel x s = Ok B s /\
      (In x L -> B <> 0 /\ B + sizeof_BlockHeader <= x - 4 /\
                 x + payload_len s x + 4 <= B + get32 (bytes s) (B + off_size)) /\
      (is_mapped (mapped s) x = false -> B = 0).
Proof.
  intros Hr. destruct (reachable_inv _ _ Hr) as [bl [R [H [Hex HL]]]].
  exists (length bl). intros fuel Hf.
  destruct (wp_total (fuel <= length bl)%nat (getBlockWithRegion fuel x) s
              (fun B s' => s' = s /\
                 (B = 0 /\ (forall X, In X bl -> ~ (X <= x < X + bsize (bytes s) X)) \/
                  In B bl /\ B <= x < B + bsize (bytes s) B)))
    as [B [s' [E [-> Hc]]]]; [|lia|].
  { apply (getBlockWithRegion_spec fuel s bl R x); [exact H| |].
    - intros B HB Hin. split; [reflexivity|]. right. split; assumption.
    - intros Hno. split; [reflexivity|]. left. split; [reflexivity|exact Hno]. }
  exists B. split; [exact E|]. split.
  - intros Hx.
    destruct (live_facts _ _ _ _ H (HL x Hx)) as
      [B0 [r [HB [Hr0 [Hu [Hnb [Epr [Esz [Eus [Epl [Hrs [Hlo [Hhi [Htop [HB0 [Hal Hm]]]]]]]]]]]]]]]].
    unfold r_end in Hhi. pose proof (heap_block_bounds _ _ _ _ H HB) as Hbb.
    destruct Hc as [[_ Hno]|[HBin Hin]].
    + exfalso. apply (Hno B0 HB). lia.
    + assert (B = B0).
      { pose proof (heap_block_bounds _ _ _ _ H HBin).
        destruct (hp_disj _ _ _ H B B0 HBin HB) as [E0|D]; [exact E0|lia]. }
      subst B0. unfold sizeof_BlockHeader. fold (bsize (bytes s) B). lia.
  - intros Hu. destruct Hc as [[E0 _]|[HBin Hin]]; [exact E0|].
    rewrite (heap_block_mapped _ _ _ B x H HBin Hin) in Hu. discriminate.
Qed.

(** X25. [toFreeListIndex] stays inside the array of free lists and grows with
    the size. *)
Theorem toFreeListIndex_class a b :
  0 <= a <= b -> b < 2^32 ->
  0 <= toFreeListIndex a /\ toFreeListIndex a <= toFreeListIndex b /\
  toFreeListIndex b < Z.of_nat FREE_BLOCKS_SETS.
Proof.
  intros Ha Hb. unfold toFreeListIndex, FREE_BLOCKS_SETS.
  rewrite !wrap32_small by lia. cbv zeta.
  repeat match goal with
         | |- context [?x <=? ?y] => destruct (Z.leb_spec x y)
         end; lia.
Qed.

(** X26. The size [FreeRegion_getSizeForAlignment] computes for a region at
    [a]: the request, raised to the 28 bytes a free region needs, plus 1
    to 16 bytes of padding (never none), so that the payload of the region
    behind it starts at a multiple of 16. *)
Theorem FreeRegion_getSizeForAlignment_bounds a size :
  0 <= size < 2^32 ->
  Z.max size 28 < FreeRegion_getSizeForAlignment a size <= Z.max size 28 + 16 /\
  (a + FreeRegion_getSizeForAlignment a size + 4) mod 16 = 0.
Proof.
  intros Hs. destruct (aligned_facts a size Hs) as [A1 [A2 [A3 A4]]].
  cbv zeta in A1, A2, A3, A4. split; [|exact A4].
  destruct (Z.lt_ge_cases size 28) as [Hlt|Hge].
  - rewrite (FGSA_pad a size) in * by lia.
    destruct (aligned_facts a 0 ltac:(lia)) as [B1 [B2 [B3 B4]]]. cbv zeta in B1, B2, B3, B4.
    lia.
  - pose proof (aligned_upper a size ltac:(lia)). lia.
Qed.

(** ** The page provider *)

(** X27. Pages obtained from [libhalloc_alloc] and given back to
    [libhalloc_free] with the same count leave the mapping as it was,
    provided the length in bytes fits in 32 bits, the width in which
    [libhalloc_alloc] computes it. *)
Theorem libhalloc_round_trip pages s a s1 :
  page_size s = -1 \/ page_size s = PAGE_SIZE ->
  0 <= pages * PAGE_SIZE < 2^32 ->
  libhalloc_alloc pages s = Ok a s1 -> a <> 0 ->
  (forall x, a <= x < a + pages * PAGE_SIZE ->
     is_mapped (mapped s) x = false /\ is_mapped (mapped s1) x = true) /\
  exists s2, libhalloc_free a pages s1 = Ok tt s2 /\
    forall x, is_mapped (mapped s2) x = is_mapped (mapped s) x.
Proof.
  intros Hps Hlen Hok Ha.
  pose proof (wp_ok False (libhalloc_alloc pages) s
    (fun a s1 => a <> 0 ->
       page_size s1 = PAGE_SIZE /\
       mapped s1 = (a, a + wrap32 (pages * PAGE_SIZE)) :: mapped s /\
       forall x, a <= x < a + wrap32 (pages * PAGE_SIZE) -> is_mapped (mapped s) x = false)
    a s1) as Hwp.
  destruct Hwp as [Eps [Em Hfresh]]; [| exact Hok | exact Ha |].
  { apply libhalloc_alloc_spec; [exact Hps| |].
    - intros s' _ _ _ _ _ _ Hc. contradiction.
    - intros a0 tape _ Hacc _. cbn [page_size mapped].
      split; [reflexivity|]. split; [reflexivity|].
      apply (mmap_accepts_facts _ _ _ Hacc). }
  rewrite wrap32_small in Em, Hfresh by exact Hlen.
  split.
  - intros x Hx. split; [apply Hfresh; exact Hx|].
    rewrite Em. unfold is_mapped. cbn [existsb]. unfold in_range at 1. cbn [fst snd].
    destruct (Z.leb_spec a x); [|lia].
    destruct (Z.ltb_spec x (a + pages * PAGE_SIZE)); [reflexivity|lia].
  - eexists. split.
    + unfold libhalloc_free, bind, get_page_size, sys_munmap. reflexivity.
    + intros x. cbn [mapped]. rewrite Eps, wrap64_small by lia.
      rewrite is_mapped_unmap, Em. unfold is_mapped at 1. cbn [existsb].
      unfold in_range at 1. cbn [fst snd].
      destruct (Z.leb_spec a x); destruct (Z.ltb_spec x (a + pages * PAGE_SIZE));
        cbn [andb orb negb]; rewrite ?andb_true_r; try reflexivity.
      symmetry. apply Hfresh. lia.
Qed.

(** ** Alignment, boundary tags and failed reallocations *)

(** X28. In a bounded run, a pointer other than nil that [malloc], [calloc] or
    [realloc] (on the null pointer or on a pointer the client holds) returns
    is a multiple of 16, whatever the size asked for in this call. *)
Theorem returned_pointers_aligned s L fuel c p s' :
  reachable s L -> valid_arg L c -> run fuel c s = Ok p s' -> p <> 0 -> p mod 16 = 0.
Proof.
  intros Hr Hv Hok Hp. pose proof (reachable_inv _ _ Hr) as Hinv.
  destruct c as [n|k n|q n]; cbn [run valid_arg] in *.
  - eapply malloc_aligned; eassumption.
  - eapply calloc_aligned; eassumption.
  - destruct Hv as [->|Hin].
    + destruct Hinv as [bl [R [H _]]]. rewrite (realloc_null _ _ _ fuel n H) in Hok.
      discriminate.
    + eapply realloc_aligned; eassumption.
Qed.

(** X29. In a bounded run, the heap has a layout: a list [bl] of blocks, the ones
    linked from [blockList], and for each block the regions [R B], among them
    the bookkeeping region, every region on a free list and the region of
    every pointer the client holds.  For each region the 4-byte header and the
    4-byte footer encode the same used bit and the same size. *)
Theorem header_footer_agree s L :
  reachable s L ->
  exists bl R,
    heap_ok s bl R /\ (forall p, In p L -> is_live bl R p) /\
    forall B r, In B bl -> In r (R B) ->
      hf_agree (bytes s) (r_addr r) /\
      md_size (get32 (bytes s) (r_addr r)) = r_size r /\
      md_used (get32 (bytes s) (r_addr r)) = r_used r.
Proof.
  intros Hr. destruct (reachable_inv _ _ Hr) as [bl [R [H [_ HL]]]].
  exists bl, R. split; [exact H|]. split; [exact HL|].
  intros B r HB Hin. pose proof (bk_gen _ _ _ _ (hp_blocks _ _ _ H B HB)) as G.
  pose proof (bg_bounds _ _ _ _ _ _ G Hin) as Hb.
  apply tagged_agree; [apply (bg_tagged _ _ _ _ _ G r Hin)|lia|lia].
Qed.

(** X30. In a bounded run, let [p] be a pointer the client holds and [n] any size
    other than the payload length of [p].  If the [malloc(n)] inside
    [realloc(p, n)] returns nil, then [realloc] returns nil, in the state
    [malloc] left; there the region of [p] is still used, with the size it
    had, and no byte of its payload has changed. *)
Theorem realloc_failure_keeps_block s L fuel p n s1 :
  reachable s L -> In p L -> payload_len s p <> n ->
  malloc fuel n s = Ok 0 s1 ->
  realloc fuel p n s = Ok 0 s1 /\
  md_used (get32 (bytes s1) (p - 4)) = 1 /\
  payload_len s1 p = payload_len s p /\
  forall i, 0 <= i < payload_len s p -> bytes s1 (p + i) = bytes s (p + i).
Proof.
  intros Hr Hin Hlen Hmal. pose proof USER_TOP_eq as HT.
  destruct (reachable_inv _ _ Hr) as [bl [R [H [Hex HL]]]].
  destruct (live_facts _ _ _ _ H (HL p Hin)) as
    [B [r [HB [Hr0 [Hu [Hnb [Epr [Esz [Eus [Epl [Hrs [Hlo [Hhi [Htop [HB0 [Hal Hm]]]]]]]]]]]]]]]].
  unfold r_end in Hhi.
  assert (Hne : bl <> []) by (intros ->; destruct HB).
  split.
  - unfold realloc, sizeof_AllocMetadata. rewrite wrap64_small by lia.
    unfold load_size, load32, loadN, bind.
    assert (Hm4 : mapped_n (mapped s) 4 (p - 4) = true) by (in_block Hm).
    rewrite Hm4. unfold ret. fold (get32 (bytes s) (p - 4)). rewrite Esz.
    rewrite wrap64_small by lia.
    destruct (Z.eqb_spec p 0); [lia|].
    destruct (Z.eqb_spec (r_size r - 4 * 2) n); [lia|].
    rewrite Hmal. reflexivity.
  - destruct (fuel_ok_exists bl R) as [N HN].
    assert (Hrdy : bl = [] -> os_ready s (block_len (PAGE_SIZE * 4)) = true)
      by (intros E; contradiction).
    destruct (wp_ok _ _ _ _ _ _ (malloc_spec fuel s bl R n N H Hrdy HN) Hmal)
      as [bl' [R' Hpost]].
    assert (Hfr : forall x, r_addr r <= x < r_addr r + r_size r -> bytes s1 x = bytes s x).
    { intros x Hx. apply (mp_fail _ _ _ _ _ _ _ _ Hpost eq_refl).
      - apply (heap_block_mapped _ _ _ B _ H HB). lia.
      - intros X HX. pose proof (heap_block_bounds _ _ _ _ H HX).
        destruct (hp_disj _ _ _ H X B HX HB) as [->|D]; lia. }
    assert (Eh : get32 (bytes s1) (p - 4) = get32 (bytes s) (p - 4)).
    { apply get32_ext. intros x Hx. apply Hfr. lia. }
    unfold payload_len in *. rewrite Eh. split; [exact Eus|]. split; [reflexivity|].
    intros i Hi. apply Hfr. rewrite Esz in Hi.
    unfold REGION_OVERHEAD_SIZE, sizeof_AllocMetadata in Hi. lia.
Qed.

(** * Instances of the further properties *)

(** ** Sample states *)

Lemma stz1_run : calloc 10 2 8 st1 = Ok 65696 stz1.
Proof. apply (run_eq (calloc 10 2 8) st1 65696). vm_compute. reflexivity. Qed.

Lemma str_run : realloc 10 65664 100 stb = Ok 65824 str.
Proof. apply (run_eq (realloc 10 65664 100) stb 65824). vm_compute. reflexivity. Qed.

Lemma stw3_payload : payload_len stw3 65664 = 72 /\ payload_len stw3 65744 = 72.
Proof. split; vm_compute; reflexivity. Qed.

Lemma stw3_reachable : reachable stw3 [65744; 65664].
Proof.
  assert (Hin : In 65664 [65744; 65664]) by (right; left; reflexivity).
  assert (Hin' : In 65744 [65744; 65664]) by (left; reflexivity).
  assert (H0 : payload_len stb 65664 = 72) by (vm_compute; reflexivity).
  assert (H1 : payload_len stw1 65664 = 72) by (vm_compute; reflexivity).
  assert (H2 : payload_len stw2 65744 = 72) by (vm_compute; reflexivity).
  apply (reach_store stw2 _ 65744 7 33); [|exact Hin'|rewrite H2; lia].
  apply (reach_store stw1 _ 65664 71 9); [|exact Hin|rewrite H1; lia].
  apply (reach_store stb _ 65664 5 200); [|exact Hin|rewrite H0; lia].
  exact stb_reachable.
Qed.

Lemma strw_run : realloc 10 65664 100 stw3 = Ok 65824 strw.
Proof. apply (run_eq (realloc 10 65664 100) stw3 65824). vm_compute. reflexivity. Qed.

Lemma stfw_run : free 10 65664 stw3 = Ok tt stfw.
Proof. apply (run_eq (free 10 65664) stw3 tt). vm_compute. reflexivity. Qed.

Lemma sty1_reachable : reachable sty1 [65664].
Proof.
  assert (H0 : payload_len sta 65664 = 72) by (vm_compute; reflexivity).
  apply (reach_store sta _ 65664 3 77); [exact sta_reachable|left; reflexivity|].
  rewrite H0. lia.
Qed.

Lemma sty2_run : malloc 10 64 sty1 = Ok 65744 sty2.
Proof. apply (run_eq (malloc 10 64) sty1 65744). vm_compute. reflexivity. Qed.

Lemma stzv_run : calloc 10 2 8 stv1 = Ok 65696 stzv.
Proof. apply (run_eq (calloc 10 2 8) stv1 65696). vm_compute. reflexivity. Qed.

Lemma stv1_payload : payload_len stv1 65664 = 24.
Proof. vm_compute. reflexivity. Qed.

Lemma stv1_reachable : reachable stv1 [65664].
Proof.
  apply (reach_store stu1 _ 65664 3 77); [exact stu1_reachable|left; reflexivity|].
  rewrite stu1_payload. lia.
Qed.

Lemma stv2_run : malloc 10 100000 stv1 = Ok 0 stv2.
Proof. apply (run_eq (malloc 10 100000) stv1 0). vm_compute. reflexivity. Qed.

Lemma stp_run : libhalloc_alloc 5 st0 = Ok 65536 stp.
Proof. apply (run_eq (libhalloc_alloc 5) st0 65536). vm_compute. reflexivity. Qed.

Lemma stf_run : free 10 65664 st1 = Ok tt stf.
Proof. apply (run_eq (free 10 65664) st1 tt). vm_compute. reflexivity. Qed.

Lemma stg_run : malloc 10 (2^28) st1 = Ok 0 stg.
Proof. apply (run_eq (malloc 10 (2^28)) st1 0). vm_compute. reflexivity. Qed.

(** ** Instances *)

(** X1 at the first allocation of a run. *)
Lemma malloc_gives_block_witness :
  reachable st0 [] /\ 0 <= 4 <= MAXREQ /\ malloc 10 4 st0 = Ok 65664 st1 /\ 65664 <> 0 /\
  (~ In 65664 [] /\
   md_used (get32 (bytes st1) (65664 - 4)) = 1 /\
   4 < payload_len st1 65664 /\
   forall i, -4 <= i < payload_len st1 65664 + 4 ->
             is_mapped (mapped st1) (65664 + i) = true).
Proof.
  assert (H1 : reachable st0 []) by exact (reach_init tape0).
  assert (H2 : 0 <= 4 <= MAXREQ) by exact (small_request 4 ltac:(lia)).
  assert (H3 : malloc 10 4 st0 = Ok 65664 st1) by exact st1_run.
  assert (H4 : 65664 <> 0) by lia.
  exact (conj H1 (conj H2 (conj H3 (conj H4
           (malloc_gives_block st0 [] 10 4 65664 st1 H1 H2 H3 H4))))).
Defined.

(** X2 at a second allocation of 64 bytes, with the first one held and a byte
    77 stored in it: the byte is still there. *)
Lemma malloc_preserves_witness :
  reachable sty1 [65664] /\ malloc 10 64 sty1 = Ok 65744 sty2 /\ In 65664 [65664] /\
  bytes sty1 (65664 + 3) = 77 /\ bytes sty2 (65664 + 3) = 77 /\
  (payload_len sty2 65664 = payload_len sty1 65664 /\
   forall i, 0 <= i < payload_len sty1 65664 ->
     bytes sty2 (65664 + i) = bytes sty1 (65664 + i)).
Proof.
  assert (H1 : reachable sty1 [65664]) by exact sty1_reachable.
  assert (H2 : malloc 10 64 sty1 = Ok 65744 sty2) by exact sty2_run.
  assert (H3 : In 65664 [65664]) by (left; reflexivity).
  assert (D : bytes sty1 (65664 + 3) = 77) by (vm_compute; reflexivity).
  assert (P : payload_len sty1 65664 = 72) by (vm_compute; reflexivity).
  assert (P3 : 0 <= 3 < payload_len sty1 65664) by (rewrite P; lia).
  pose proof (malloc_preserves sty1 [65664] 10 64 65744 sty2 65664 H1 H2 H3) as Hc.
  exact (conj H1 (conj H2 (conj H3 (conj D (conj (eq_trans (proj2 Hc 3 P3) D) Hc))))).
Defined.

(** X3 at a second allocation of 64 bytes, with the first one held. *)
Lemma malloc_disjoint_witness :
  reachable sta [65664] /\ malloc 10 64 sta = Ok 65744 stb /\ 65744 <> 0 /\
  In 65664 [65664] /\
  (65744 + payload_len stb 65744 + 4 <= 65664 - 4 \/
   65664 + payload_len sta 65664 + 4 <= 65744 - 4).
Proof.
  assert (H1 : reachable sta [65664]) by exact sta_reachable.
  assert (H2 : malloc 10 64 sta = Ok 65744 stb) by exact stb_run.
  assert (H3 : 65744 <> 0) by lia.
  assert (H4 : In 65664 [65664]) by (left; reflexivity).
  exact (conj H1 (conj H2 (conj H3 (conj H4
           (malloc_disjoint sta [65664] 10 64 65744 stb 65664 H1 H2 H3 H4))))).
Defined.

(** X4 in the initial state, with a provider ready to map at 65536. *)
Lemma malloc_returns_witness :
  reachable st0 [] /\
  (blockList st0 = 0 -> os_ready st0 (next_block_len st0 4) = true) /\
  exists N, forall fuel, (N < fuel)%nat -> exists p s', malloc fuel 4 st0 = Ok p s'.
Proof.
  assert (H1 : reachable st0 []) by exact (reach_init tape0).
  assert (H2 : blockList st0 = 0 -> os_ready st0 (next_block_len st0 4) = true)
    by (intros _; vm_compute; reflexivity).
  exact (conj H1 (conj H2 (malloc_returns st0 [] 4 H1 H2))).
Defined.

(** X5 in the initial state, with a provider that has nothing to map. *)
Lemma malloc_first_block_refused_witness :
  reachable stn [] /\ blockList stn = 0 /\ os_ready stn (next_block_len stn 4) = false /\
  malloc 10 4 stn = Err SegFault.
Proof.
  assert (H1 : reachable stn []) by exact (reach_init []).
  assert (H2 : blockList stn = 0) by reflexivity.
  assert (H3 : os_ready stn (next_block_len stn 4) = false) by reflexivity.
  exact (conj H1 (conj H2 (conj H3 (malloc_first_block_refused stn [] 10 4 H1 H2 H3)))).
Defined.

(** X6 at the first allocation of a run. *)
Lemma malloc_first_block_witness :
  reachable st0 [] /\ blockList st0 = 0 /\ 0 <= 4 <= MAXREQ /\
  malloc 10 4 st0 = Ok 65664 st1 /\
  exists a, mapped st1 = (a, a + 5 * PAGE_SIZE) :: mapped st0 /\
            blockList st1 = a /\
            (4 <= 20343 -> 65664 = a + 128) /\ (20344 <= 4 -> 65664 = 0).
Proof.
  assert (H1 : reachable st0 []) by exact (reach_init tape0).
  assert (H2 : blockList st0 = 0) by reflexivity.
  assert (H3 : 0 <= 4 <= MAXREQ) by exact (small_request 4 ltac:(lia)).
  assert (H4 : malloc 10 4 st0 = Ok 65664 st1) by exact st1_run.
  exact (conj H1 (conj H2 (conj H3 (conj H4
           (malloc_first_block st0 [] 10 4 65664 st1 H1 H2 H3 H4))))).
Defined.

(** X7 for a request of 256 MiB after one small allocation. *)
Lemma malloc_too_large_witness :
  reachable st1 [65664] /\ 2^28 <= 2^28 <= MAXREQ /\ malloc 10 (2^28) st1 = Ok 0 stg /\ 0 = 0.
Proof.
  assert (H1 : reachable st1 [65664]) by exact st1_reachable.
  assert (H2 : 2^28 <= 2^28 <= MAXREQ) by (unfold MAXREQ; lia).
  assert (H3 : malloc 10 (2^28) st1 = Ok 0 stg) by exact stg_run.
  exact (conj H1 (conj H2 (conj H3 (malloc_too_large st1 [65664] 10 (2^28) 0 stg H1 H2 H3)))).
Defined.

(** X8 for a request of 4 GiB and 4 bytes in the initial state. *)
Lemma malloc_truncates_witness :
  (blockList st0 = 0 \/
   exists b s1, findBlock 10 10 (blockList st0) 4 st0 = Ok b s1 /\ b <> 0) /\
  malloc 10 (4 + 2^32) st0 = malloc 10 4 st0.
Proof.
  assert (H1 : blockList st0 = 0 \/
               exists b s1, findBlock 10 10 (blockList st0) 4 st0 = Ok b s1 /\ b <> 0)
    by (left; reflexivity).
  exact (conj H1 (malloc_truncates 10 4 st0 H1)).
Defined.

(** X9 at the release of the first of two allocations, for the second one, in
    which the client has stored a byte 33: the byte is still there. *)
Lemma free_preserves_witness :
  reachable stw3 [65744; 65664] /\ In 65664 [65744; 65664] /\
  free 10 65664 stw3 = Ok tt stfw /\ In 65744 [65744; 65664] /\ 65744 <> 65664 /\
  bytes stw3 (65744 + 7) = 33 /\ bytes stfw (65744 + 7) = 33 /\
  (payload_len stfw 65744 = payload_len stw3 65744 /\
   forall i, 0 <= i < payload_len stw3 65744 ->
     bytes stfw (65744 + i) = bytes stw3 (65744 + i) /\
     is_mapped (mapped stfw) (65744 + i) = true).
Proof.
  assert (H1 : reachable stw3 [65744; 65664]) by exact stw3_reachable.
  assert (H2 : In 65664 [65744; 65664]) by (right; left; reflexivity).
  assert (H3 : free 10 65664 stw3 = Ok tt stfw) by exact stfw_run.
  assert (H4 : In 65744 [65744; 65664]) by (left; reflexivity).
  assert (H5 : 65744 <> 65664) by lia.
  assert (D : bytes stw3 (65744 + 7) = 33) by (vm_compute; reflexivity).
  assert (P7 : 0 <= 7 < payload_len stw3 65744) by (rewrite (proj2 stw3_payload); lia).
  pose proof (free_preserves stw3 [65744; 65664] 10 65664 stfw 65744 H1 H2 H3 H4 H5) as Hc.
  exact (conj H1 (conj H2 (conj H3 (conj H4 (conj H5 (conj D
           (conj (eq_trans (proj1 (proj2 Hc 7 P7)) D) Hc))))))).
Defined.

(** X10 at the release of the first of two allocations. *)
Lemma free_returns_witness :
  reachable stb [65744; 65664] /\ In 65664 [65744; 65664] /\
  exists N, forall fuel, (N < fuel)%nat -> exists s', free fuel 65664 stb = Ok tt s'.
Proof.
  assert (H1 : reachable stb [65744; 65664]) by exact stb_reachable.
  assert (H2 : In 65664 [65744; 65664]) by (right; left; reflexivity).
  exact (conj H1 (conj H2 (free_returns stb [65744; 65664] 65664 H1 H2))).
Defined.

(** X11 at the release of the only allocation of a run: the block goes back to
    the kernel. *)
Lemma free_block_fate_witness :
  reachable st1 [65664] /\ In 65664 [65664] /\ free 10 65664 st1 = Ok tt stf /\
  exists B,
    B + sizeof_BlockHeader <= 65664 - 4 /\
    65664 + payload_len st1 65664 + 4 <= B + bsize (bytes st1) B /\
    ((exists q, In q [65664] /\ q <> 65664 /\ B <= q < B + bsize (bytes st1) B) ->
     mapped stf = mapped st1) /\
    ((forall q, In q [65664] -> q <> 65664 -> ~ (B <= q < B + bsize (bytes st1) B)) ->
     forall x, is_mapped (mapped stf) x =
               is_mapped (mapped st1) x &&
               negb ((B <=? x) && (x <? B + bsize (bytes st1) B))).
Proof.
  assert (H1 : reachable st1 [65664]) by exact st1_reachable.
  assert (H2 : In 65664 [65664]) by (left; reflexivity).
  assert (H3 : free 10 65664 st1 = Ok tt stf) by exact stf_run.
  exact (conj H1 (conj H2 (conj H3 (free_block_fate st1 [65664] 10 65664 stf H1 H2 H3)))).
Defined.

(** X12 at the release of the first of two allocations. *)
Lemma free_twice_witness :
  reachable stb [65744; 65664] /\ In 65664 [65744; 65664] /\
  free 10 65664 stb = Ok tt stc /\
  ((is_mapped (mapped stc) 65664 = true /\
    forall fuel', free fuel' 65664 stc = Ok tt stc) \/
   (is_mapped (mapped stc) 65664 = false /\
    forall fuel', free fuel' 65664 stc = Err SegFault)).
Proof.
  assert (H1 : reachable stb [65744; 65664]) by exact stb_reachable.
  assert (H2 : In 65664 [65744; 65664]) by (right; left; reflexivity).
  assert (H3 : free 10 65664 stb = Ok tt stc) by exact stc_run.
  exact (conj H1 (conj H2 (conj H3 (free_twice stb [65744; 65664] 10 65664 stc H1 H2 H3)))).
Defined.

(** X13 for an array of two elements of 8 bytes, allocated next to a held
    pointer in which the client has stored a byte 77: the byte is still there. *)
Lemma calloc_preserves_witness :
  reachable stv1 [65664] /\ calloc 10 2 8 stv1 = Ok 65696 stzv /\ In 65664 [65664] /\
  bytes stv1 (65664 + 3) = 77 /\ bytes stzv (65664 + 3) = 77 /\
  (payload_len stzv 65664 = payload_len stv1 65664 /\
   forall i, 0 <= i < payload_len stv1 65664 ->
     bytes stzv (65664 + i) = bytes stv1 (65664 + i)).
Proof.
  assert (H1 : reachable stv1 [65664]) by exact stv1_reachable.
  assert (H2 : calloc 10 2 8 stv1 = Ok 65696 stzv) by exact stzv_run.
  assert (H3 : In 65664 [65664]) by (left; reflexivity).
  assert (D : bytes stv1 (65664 + 3) = 77) by (vm_compute; reflexivity).
  assert (P3 : 0 <= 3 < payload_len stv1 65664) by (rewrite stv1_payload; lia).
  pose proof (calloc_preserves stv1 [65664] 10 2 8 65696 stzv 65664 H1 H2 H3) as Hc.
  exact (conj H1 (conj H2 (conj H3 (conj D (conj (eq_trans (proj2 Hc 3 P3) D) Hc))))).
Defined.

(** X14 in the initial state. *)
Lemma calloc_returns_witness :
  reachable st0 [] /\
  (blockList st0 = 0 -> os_ready st0 (next_block_len st0 (wrap64 (2 * 8))) = true) /\
  exists N, forall fuel, (N < fuel)%nat -> exists p s', calloc fuel 2 8 st0 = Ok p s'.
Proof.
  assert (H1 : reachable st0 []) by exact (reach_init tape0).
  assert (H2 : blockList st0 = 0 -> os_ready st0 (next_block_len st0 (wrap64 (2 * 8))) = true)
    by (intros _; vm_compute; reflexivity).
  exact (conj H1 (conj H2 (calloc_returns st0 [] 2 8 H1 H2))).
Defined.

(** X15 at the growth of the first of two allocations from 72 to 100 bytes,
    after the client stored 200 and 9 at offsets 5 and 71 of its payload: both
    bytes arrive. *)
Lemma realloc_copies_witness :
  reachable stw3 [65744; 65664] /\ In 65664 [65744; 65664] /\ 0 <= 100 <= MAXREQ /\
  realloc 10 65664 100 stw3 = Ok 65824 strw /\ 65824 <> 0 /\ 65824 <> 65664 /\
  get8 (bytes stw3) (65664 + 5) = 200 /\ get8 (bytes stw3) (65664 + 71) = 9 /\
  get8 (bytes strw) (65824 + 5) = 200 /\ get8 (bytes strw) (65824 + 71) = 9 /\
  forall i, 0 <= i < payload_len stw3 65664 -> i < 100 ->
    get8 (bytes strw) (65824 + i) = get8 (bytes stw3) (65664 + i).
Proof.
  assert (H1 : reachable stw3 [65744; 65664]) by exact stw3_reachable.
  assert (H2 : In 65664 [65744; 65664]) by (right; left; reflexivity).
  assert (H3 : 0 <= 100 <= MAXREQ) by exact (small_request 100 ltac:(lia)).
  assert (H4 : realloc 10 65664 100 stw3 = Ok 65824 strw) by exact strw_run.
  assert (H5 : 65824 <> 0) by lia.
  assert (H6 : 65824 <> 65664) by lia.
  assert (D1 : get8 (bytes stw3) (65664 + 5) = 200) by (vm_compute; reflexivity).
  assert (D2 : get8 (bytes stw3) (65664 + 71) = 9) by (vm_compute; reflexivity).
  assert (P5 : 0 <= 5 < payload_len stw3 65664) by (rewrite (proj1 stw3_payload); lia).
  assert (P71 : 0 <= 71 < payload_len stw3 65664) by (rewrite (proj1 stw3_payload); lia).
  assert (L5 : 5 < 100) by lia.
  assert (L71 : 71 < 100) by lia.
  pose proof (realloc_copies stw3 [65744; 65664] 10 65664 100 65824 strw H1 H2 H3 H4 H5 H6)
    as Hc.
  exact (conj H1 (conj H2 (conj H3 (conj H4 (conj H5 (conj H6 (conj D1 (conj D2
           (conj (eq_trans (Hc 5 P5 L5) D1)
           (conj (eq_trans (Hc 71 P71 L71) D2) Hc)))))))))).
Defined.

(** X16 at the same call, for the second allocation, in which the client has
    stored a byte 33: the byte is still there. *)
Lemma realloc_preserves_witness :
  reachable stw3 [65744; 65664] /\ In 65664 [65744; 65664] /\ 0 <= 100 <= MAXREQ /\
  realloc 10 65664 100 stw3 = Ok 65824 strw /\ In 65744 [65744; 65664] /\
  (65744 <> 65664 \/ 65824 = 0 \/ 65824 = 65664) /\
  bytes stw3 (65744 + 7) = 33 /\ bytes strw (65744 + 7) = 33 /\
  (payload_len strw 65744 = payload_len stw3 65744 /\
   forall i, 0 <= i < payload_len stw3 65744 ->
     bytes strw (65744 + i) = bytes stw3 (65744 + i)).
Proof.
  assert (H1 : reachable stw3 [65744; 65664]) by exact stw3_reachable.
  assert (H2 : In 65664 [65744; 65664]) by (right; left; reflexivity).
  assert (H3 : 0 <= 100 <= MAXREQ) by exact (small_request 100 ltac:(lia)).
  assert (H4 : realloc 10 65664 100 stw3 = Ok 65824 strw) by exact strw_run.
  assert (H5 : In 65744 [65744; 65664]) by (left; reflexivity).
  assert (H6 : 65744 <> 65664 \/ 65824 = 0 \/ 65824 = 65664) by (left; lia).
  assert (D : bytes stw3 (65744 + 7) = 33) by (vm_compute; reflexivity).
  assert (P7 : 0 <= 7 < payload_len stw3 65744) by (rewrite (proj2 stw3_payload); lia).
  pose proof (realloc_preserves stw3 [65744; 65664] 10 65664 100 65824 strw 65744
                H1 H2 H3 H4 H5 H6) as Hc.
  exact (conj H1 (conj H2 (conj H3 (conj H4 (conj H5 (conj H6 (conj D
           (conj (eq_trans (proj2 Hc 7 P7) D) Hc)))))))).
Defined.

(** X17 at the growth of the first of two allocations from 72 to 100 bytes. *)
Lemma realloc_in_place_witness :
  reachable stb [65744; 65664] /\ In 65664 [65744; 65664] /\ 0 <= 100 <= MAXREQ /\
  realloc 10 65664 100 stb = Ok 65824 str /\
  ((payload_len stb 65664 = 100 -> 65824 = 65664 /\ str = stb) /\
   (payload_len stb 65664 <> 100 -> 65824 <> 65664)).
Proof.
  assert (H1 : reachable stb [65744; 65664]) by exact stb_reachable.
  assert (H2 : In 65664 [65744; 65664]) by (right; left; reflexivity).
  assert (H3 : 0 <= 100 <= MAXREQ) by exact (small_request 100 ltac:(lia)).
  assert (H4 : realloc 10 65664 100 stb = Ok 65824 str) by exact str_run.
  exact (conj H1 (conj H2 (conj H3 (conj H4
           (realloc_in_place stb [65744; 65664] 10 65664 100 65824 str H1 H2 H3 H4))))).
Defined.

(** X18 for the same call. *)
Lemma realloc_returns_witness :
  reachable stb [65744; 65664] /\ In 65664 [65744; 65664] /\ 0 <= 100 <= MAXREQ /\
  exists N, forall fuel, (N < fuel)%nat ->
    exists q s', realloc fuel 65664 100 stb = Ok q s'.
Proof.
  assert (H1 : reachable stb [65744; 65664]) by exact stb_reachable.
  assert (H2 : In 65664 [65744; 65664]) by (right; left; reflexivity).
  assert (H3 : 0 <= 100 <= MAXREQ) by exact (small_request 100 ltac:(lia)).
  exact (conj H1 (conj H2 (conj H3 (realloc_returns stb [65744; 65664] 65664 100 H1 H2 H3)))).
Defined.

(** X19 for two allocations of 64 bytes held at the same time. *)
Lemma held_apart_witness :
  reachable stb [65744; 65664] /\ In 65744 [65744; 65664] /\ In 65664 [65744; 65664] /\
  65744 <> 65664 /\
  (65744 + payload_len stb 65744 + 4 <= 65664 - 4 \/
   65664 + payload_len stb 65664 + 4 <= 65744 - 4).
Proof.
  assert (H1 : reachable stb [65744; 65664]) by exact stb_reachable.
  assert (H2 : In 65744 [65744; 65664]) by (left; reflexivity).
  assert (H3 : In 65664 [65744; 65664]) by (right; left; reflexivity).
  assert (H4 : 65744 <> 65664) by lia.
  exact (conj H1 (conj H2 (conj H3 (conj H4
           (held_apart stb [65744; 65664] 65744 65664 H1 H2 H3 H4))))).
Defined.

(** X20 for the first of them. *)
Lemma held_valid_witness :
  reachable stb [65744; 65664] /\ In 65664 [65744; 65664] /\
  (md_used (get32 (bytes stb) (65664 - 4)) = 1 /\
   20 <= payload_len stb 65664 < 2^28 /\
   (forall i, -4 <= i < payload_len stb 65664 + 4 ->
              is_mapped (mapped stb) (65664 + i) = true) /\
   PAGE_SIZE + 128 <= 65664 /\ 65664 + payload_len stb 65664 + 4 <= USER_TOP).
Proof.
  assert (H1 : reachable stb [65744; 65664]) by exact stb_reachable.
  assert (H2 : In 65664 [65744; 65664]) by (right; left; reflexivity).
  exact (conj H1 (conj H2 (held_valid stb [65744; 65664] 65664 H1 H2))).
Defined.

(** X21 with two allocations held. *)
Lemma block_list_invariant_witness :
  reachable stb [65744; 65664] /\
  exists bl,
    lseg (bytes stb) off_bnext (blockList stb) bl /\ NoDup bl /\
    (forall B, In B bl ->
       B mod 16 = 0 /\ 4096 <= bsize (bytes stb) B /\
       get32 (bytes stb) (B + off_pages) * PAGE_SIZE = bsize (bytes stb) B /\
       forall x, B <= x < B + bsize (bytes stb) B -> is_mapped (mapped stb) x = true) /\
    (forall B1 B2, In B1 bl -> In B2 bl ->
       B1 = B2 \/ B1 + bsize (bytes stb) B1 <= B2 \/ B2 + bsize (bytes stb) B2 <= B1) /\
    (forall p, In p [65744; 65664] ->
       exists B, In B bl /\ B + 124 <= p - 4 /\
                 p + payload_len stb p + 4 <= B + bsize (bytes stb) B).
Proof.
  assert (H1 : reachable stb [65744; 65664]) by exact stb_reachable.
  exact (conj H1 (block_list_invariant stb [65744; 65664] H1)).
Defined.

(** X22 with two allocations held. *)
Lemma block_occupancy_witness :
  reachable stb [65744; 65664] /\
  exists bl,
    lseg (bytes stb) off_bnext (blockList stb) bl /\
    forall B, In B bl ->
      (emptyBlockOverheadSize stb < get32 (bytes stb) (B + off_usedSize) <->
       exists p, In p [65744; 65664] /\ B <= p < B + bsize (bytes stb) B).
Proof.
  assert (H1 : reachable stb [65744; 65664]) by exact stb_reachable.
  exact (conj H1 (block_occupancy stb [65744; 65664] H1)).
Defined.

(** X23 after the first of two allocations was released. *)
Lemma free_lists_invariant_witness :
  reachable stc [65744] /\
  exists bl R,
    heap_ok stc bl R /\ (forall p, In p [65744] <-> is_live bl R p) /\
    forall B i, In B bl -> 0 <= i < Z.of_nat FREE_BLOCKS_SETS ->
      exists l,
        lseg (bytes stc) off_next (get64 (bytes stc) (B + off_freeRegions i)) l /\ NoDup l /\
        forall a, In a l <->
          exists r, In r (R B) /\ r_used r = 0 /\ r_addr r = a /\
                    md_used (get32 (bytes stc) a) = 0 /\
                    toFreeListIndex (md_size (get32 (bytes stc) a)) = i.
Proof.
  assert (H1 : reachable stc [65744]) by exact stc_reachable.
  exact (conj H1 (free_lists_invariant stc [65744] H1)).
Defined.

(** X24 for the first of two allocations. *)
Lemma getBlockWithRegion_finds_witness :
  reachable stb [65744; 65664] /\
  exists N, forall fuel, (N < fuel)%nat ->
    exists B, getBlockWithRegion fuel 65664 stb = Ok B stb /\
      (In 65664 [65744; 65664] ->
         B <> 0 /\ B + sizeof_BlockHeader <= 65664 - 4 /\
         65664 + payload_len stb 65664 + 4 <= B + get32 (bytes stb) (B + off_size)) /\
      (is_mapped (mapped stb) 65664 = false -> B = 0).
Proof.
  assert (H1 : reachable stb [65744; 65664]) by exact stb_reachable.
  exact (conj H1 (getBlockWithRegion_finds stb [65744; 65664] 65664 H1)).
Defined.

(** X25 for sizes of the first and of the third class. *)
Lemma toFreeListIndex_class_witness :
  0 <= 32 <= 100 /\ 100 < 2^32 /\
  (0 <= toFreeListIndex 32 /\ toFreeListIndex 32 <= toFreeListIndex 100 /\
   toFreeListIndex 100 < Z.of_nat FREE_BLOCKS_SETS).
Proof.
  assert (H1 : 0 <= 32 <= 100) by lia.
  assert (H2 : 100 < 2^32) by lia.
  exact (conj H1 (conj H2 (toFreeListIndex_class 32 100 H1 H2))).
Defined.

(** X26 for a request of 12 bytes at the first free region of a block. *)
Lemma FreeRegion_getSizeForAlignment_bounds_witness :
  0 <= 12 < 2^32 /\
  (Z.max 12 28 < FreeRegion_getSizeForAlignment 65660 12 <= Z.max 12 28 + 16 /\
   (65660 + FreeRegion_getSizeForAlignment 65660 12 + 4) mod 16 = 0).
Proof.
  assert (H1 : 0 <= 12 < 2^32) by lia.
  exact (conj H1 (FreeRegion_getSizeForAlignment_bounds 65660 12 H1)).
Defined.

(** X27 for five pages asked for in the initial state. *)
Lemma libhalloc_round_trip_witness :
  (page_size st0 = -1 \/ page_size st0 = PAGE_SIZE) /\
  0 <= 5 * PAGE_SIZE < 2^32 /\
  libhalloc_alloc 5 st0 = Ok 65536 stp /\ 65536 <> 0 /\
  ((forall x, 65536 <= x < 65536 + 5 * PAGE_SIZE ->
      is_mapped (mapped st0) x = false /\ is_mapped (mapped stp) x = true) /\
   exists s2, libhalloc_free 65536 5 stp = Ok tt s2 /\
     forall x, is_mapped (mapped s2) x = is_mapped (mapped st0) x).
Proof.
  assert (H1 : page_size st0 = -1 \/ page_size st0 = PAGE_SIZE) by (left; reflexivity).
  assert (H2 : 0 <= 5 * PAGE_SIZE < 2^32) by (unfold PAGE_SIZE; lia).
  assert (H3 : libhalloc_alloc 5 st0 = Ok 65536 stp) by exact stp_run.
  assert (H4 : 65536 <> 0) by lia.
  exact (conj H1 (conj H2 (conj H3 (conj H4
           (libhalloc_round_trip 5 st0 65536 stp H1 H2 H3 H4))))).
Defined.

(** X28 at the first allocation of a run. *)
Lemma returned_pointers_aligned_witness :
  reachable st0 [] /\ valid_arg [] (Malloc 4) /\
  run 10 (Malloc 4) st0 = Ok 65664 st1 /\ 65664 <> 0 /\ 65664 mod 16 = 0.
Proof.
  assert (H1 : reachable st0 []) by exact (reach_init tape0).
  assert (H2 : valid_arg [] (Malloc 4)) by exact I.
  assert (H3 : run 10 (Malloc 4) st0 = Ok 65664 st1) by exact st1_run.
  assert (H4 : 65664 <> 0) by lia.
  exact (conj H1 (conj H2 (conj H3 (conj H4
           (returned_pointers_aligned st0 [] 10 (Malloc 4) 65664 st1 H1 H2 H3 H4))))).
Defined.

(** X29 in the state after the first allocation. *)
Lemma header_footer_agree_witness :
  reachable st1 [65664] /\
  exists bl R,
    heap_ok st1 bl R /\ (forall p, In p [65664] -> is_live bl R p) /\
    forall B r, In B bl -> In r (R B) ->
      hf_agree (bytes st1) (r_addr r) /\
      md_size (get32 (bytes st1) (r_addr r)) = r_size r /\
      md_used (get32 (bytes st1) (r_addr r)) = r_used r.
Proof.
  exact (conj st1_reachable (header_footer_agree st1 [65664] st1_reachable)).
Defined.

(** X30 for a request of 100000 bytes when the provider has nothing left to
    map, after the client stored 77 at offset 3 of the payload: the byte is
    still there. *)
Lemma realloc_failure_keeps_block_witness :
  reachable stv1 [65664] /\ In 65664 [65664] /\ payload_len stv1 65664 <> 100000 /\
  malloc 10 100000 stv1 = Ok 0 stv2 /\
  bytes stv1 (65664 + 3) = 77 /\ bytes stv2 (65664 + 3) = 77 /\
  (realloc 10 65664 100000 stv1 = Ok 0 stv2 /\
   md_used (get32 (bytes stv2) (65664 - 4)) = 1 /\
   payload_len stv2 65664 = payload_len stv1 65664 /\
   forall i, 0 <= i < payload_len stv1 65664 ->
             bytes stv2 (65664 + i) = bytes stv1 (65664 + i)).
Proof.
  assert (H1 : reachable stv1 [65664]) by exact stv1_reachable.
  assert (H2 : In 65664 [65664]) by (left; reflexivity).
  assert (H3 : payload_len stv1 65664 <> 100000) by (rewrite stv1_payload; lia).
  assert (H4 : malloc 10 100000 stv1 = Ok 0 stv2) by exact stv2_run.
  assert (D1 : bytes stv1 (65664 + 3) = 77) by (vm_compute; reflexivity).
  assert (P3 : 0 <= 3 < payload_len stv1 65664) by (rewrite stv1_payload; lia).
  pose proof (realloc_failure_keeps_block stv1 [65664] 10 65664 100000 stv2 H1 H2 H3 H4) as Hc.
  exact (conj H1 (conj H2 (conj H3 (conj H4 (conj D1
           (conj (eq_trans (proj2 (proj2 (proj2 Hc)) 3 P3) D1) Hc)))))).
Defined.
